(* ===== verification/_CoqProject ===== *)
-Q . S2P
Prelude.v
Types.v
Expr.v
Abi.v
AbiLayout.v
AbiTypes.v
AbiRound.v
AbiConcolic.v
AbiParse.v
State.v
MutationUtils.v
AbiMutate.v
F64.v
Corpus.v
Scheduler.v
SchedulerInv.v
Uniswap.v
UniswapProps.v
Evm.v
Host.v
HostProps.v
HostCall.v
HostCallProps.v
Bytecode.v
SrcMap.v
Tracer.v
I256.v
Revm.v
RevmProps.v
Concolic.v
ConcolicProps.v
Vm.v
VmProps.v
VmState.v
FlashloanMw.v
Coverage.v
InputMutate.v
InputMutateProps.v
Replay.v
ReplayProps.v
FuzzerLoop.v
FuzzerProps.v
Feedback.v
FeedbackProps.v
Oracles.v
EvmCampaign.v
GpuStage.v
GpuStageProps.v
Loader.v
LoaderProps.v
CorpusInit.v
CorpusInitProps.v
Presets.v
Driver.v
Endpoints.v
EndpointsProps.v
OnChain.v
OnChainProps.v
Routes.v
RoutesProps.v
Main.v
FlashloanV2.v
FlashloanV2Props.v
MoveValues.v
MoveOps.v
MoveInterp.v
MoveProps.v
