(* ===== verification/Prelude.v ===== *)
(** * A verification development for mau

    mau is a feedback-guided fuzzer for smart contracts.  A campaign repeats this loop: a
    scheduler selects a VM state out of a corpus of states ("infant states"); a mutator
    changes the arguments of a transaction; the executor runs the transaction on that
    state in an instrumented EVM; feedbacks decide from the maps the host has filled
    whether the resulting state is new and whether its parent deserves a vote; oracles
    decide whether a bug was found.  An execution that hands control to the attacker (a
    "control leak") is suspended and its frame stored with the state, so that a later
    input can re-enter the contract or resume the frame.

    ** Files and the code they model (paths under [src/src])

    Definitions carry the names of the code.  A Rust panic is [None]; an [Err] is a
    constructor of a result type; [u64] and [usize] arithmetic on uncontrolled data wraps
    ([--release]); 256- and 512-bit words are [Z] with the wrap written out.

    - [Prelude]: machine integers, bytes, slices, loops that may panic, automation.
    - [Types] ([evm/types.rs]): words, addresses, conversions.
    - [Expr] ([evm/concolic/concolic_host.rs]): symbolic expressions and constructors.
    - [Abi] ([evm/abi.rs]): argument values and the methods of the trait [ABI];
      [AbiLayout], [AbiTypes], [AbiRound], [AbiConcolic] prove what they compute;
      [AbiParse] models the parser of type names and [AbiMutate] the mutation of values.
    - [State] ([state.rs]): libafl's [Rand] as a class with laws, the pools of callers.
    - [MutationUtils] ([evm/mutation_utils.rs]): byte mutators.
    - [F64]: IEEE doubles on the Standard Library's executable [SpecFloat].
    - [Corpus] ([indexed_corpus.rs]) and [Scheduler] ([scheduler.rs], [state.rs]) with
      [SchedulerInv]: corpus, votes, sampling and pruning.
    - [Uniswap] ([evm/uniswap/mod.rs]) with [UniswapProps]: quotes, paths, liquidation.
    - [Evm] ([evm/vm.rs], vendored revm): interpreter state and VM state.
    - [Host] ([evm/host.rs], [evm/mutator.rs]) with [HostProps]: the step hook and its
      maps, storage, access patterns.
    - [HostCall] ([evm/host.rs], [evm/middlewares/middleware.rs]) with [HostCallProps]:
      selector and code tables, [log], [create], [call], middlewares, the main loop.
    - [Feedback] ([feedback.rs], [oracle.rs]) with [FeedbackProps]: the three feedbacks.
    - [Bytecode] ([evm/bytecode_analyzer.rs]): the constants of a bytecode.
    - [SrcMap] ([evm/srcmap/parser.rs]): source maps.
    - [I256], [Revm] (the vendored interpreter, [externals/revm/crates/interpreter/src])
      with [RevmProps]: word operations, instructions, stack, memory, jump analysis.
    - [Concolic] ([evm/concolic/concolic_host.rs]) with [ConcolicProps]: the concolic
      middleware and its translation to the solver.
    - [Tracer] ([tracer.rs], [evm/abi.rs]) and [Replay] ([tracer.rs], [evm/input.rs],
      [fuzzers/evm_fuzzer.rs]) with [ReplayProps]: traces, replay files and their reader.
    - [Vm] ([evm/vm.rs]) with [VmProps]: execution, suspension, resumption, deployment;
      [VmState] proves what executions keep of the state of the fuzzer.
    - [FlashloanMw] ([evm/onchain/flashloan.rs]): the flash-loan middleware.
    - [InputMutate] ([evm/input.rs], [evm/mutator.rs]) with [InputMutateProps]: mutation of
      inputs and selection of their VM states.
    - [FuzzerLoop] ([fuzzer.rs], [executor.rs]) with [FuzzerProps]: evaluation of an input,
      verdicts, minimizer; [Oracles] ([oracle.rs], [evm/oracles], [evm/producers],
      [feedback.rs]): its objective; [EvmCampaign] puts executor, interpreter, corpus,
      scheduler and oracles of this development in the places of its parameters and runs it.
    - [Coverage] ([evm/middlewares/instruction_coverage.rs]): instruction coverage.
    - [GpuStage] ([gpu_stage.rs], [fuzzer.rs], [evm/input.rs]) with [GpuStageProps]: the
      mutational stages, on the CPU and with batches on a device, [fuzz_one] and
      [fuzz_loop].
    - [Loader] ([evm/contract_utils.rs]) with [LoaderProps]: JSON ABIs, code files and
      the contracts of a directory.
    - [CorpusInit] ([evm/corpus_initializer.rs]) with [CorpusInitProps]: deployment of the
      contracts, callers, the first inputs and the first VM state.
    - [Endpoints] ([evm/onchain/endpoints.rs]) with [EndpointsProps]: requests, retries,
      the file cache, code, slots, storage dumps, ABIs and contracts of a chain.
    - [OnChain] ([evm/onchain/onchain.rs], [evm/onchain/abi_decompiler.rs]) with
      [OnChainProps]: the middleware that fetches slots and called contracts.
    - [Routes] ([evm/onchain/endpoints.rs]) with [RoutesProps]: pairs, hops and the
      depth-first search of swap routes.
    - [Driver] ([fuzzers/evm_fuzzer.rs], [evm/config.rs], [evm/host.rs]): [evm_fuzzer], which
      puts initialisation, host, middlewares, oracles and the loop or the replay together.
    - [Presets] ([evm/presets], [evm/corpus_initializer.rs]): the initialiser with the
      feature [use_presets].
    - [Main] ([src/cli/src/main.rs], [evm/onchain/endpoints.rs], [evm/config.rs]): the
      options, the chains, the selection of oracles and contracts, and [main].
    - [FlashloanV2] ([evm/onchain/flashloan.rs], [evm/oracles/erc20.rs],
      [evm/oracles/v2_pair.rs], [evm/producers], [evm/vm.rs], [evm/mutator.rs]) with
      [FlashloanV2Props]: the build with the feature [flashloan_v2], in which inputs buy
      tokens at a router and the oracle compares balances and sells what was gained.
    - [MoveValues], [MoveOps] (the vendored Move VM,
      [externals/move/language/move-vm/types/src]): values in a store of
      reference-counted cells, integers, vectors; [MoveInterp] (its interpreter and
      [move/vm_state.rs], [move/movevm.rs], [move/input.rs]): instructions, the VM state,
      deployment and execution; [MoveProps] proves what they do.

    ** Interfaces

    [Rand]/[RandLaws] is the random generator; [HashOrder] is the unspecified iteration
    order of a [HashMap]; [EvalLaws] says that an instruction of the interpreter changes
    the host only through the [Host] trait, stated as: it keeps every preorder that the
    handlers, stores and logs keep, and [RevmProps.revm_eval_laws] discharges it for the
    instructions of [Revm], for the host and the state of the fuzzer together; [StateLaws]
    is what the executor needs of middlewares and pools so that an execution keeps a
    preorder on that state; [MiddlewareLaws] is what the host needs of its
    middlewares, and [FlashloanMw.flashloan_mw_ok] discharges it for the flash-loan
    middleware; [Z3]/[Z3Laws] is the solver and its documented semantics; [Formats] and
    [FormatLaws] are the crates that print and parse hashes and words; [TxnCorpus]
    is libafl's corpus of inputs and [VecCorpus] says that it is a vector, which lists
    discharge; [CampaignOk] is what it needs of feedbacks, observers and
    executor, discharged in [EvmCampaign] for the EVM.  [Gpu] is the foreign functions
    of the device; the record [Loop] holds what [fuzz_loop] calls of libafl, and [LoopOk]
    what a campaign needs of it.  [Outside] is the file system, the reader of JSON and
    keccak, and [Net] the network, which may answer anything at any time, and the hash of
    cache keys.  [SchedOk] and [InitOk] are what the corpus initialiser needs
    of the scheduler of inputs and of its starting point.  [MapOrder] is the order in which
    the oracle of [FlashloanV2] visits maps.  The record [Resolver] is the tables of a
    loaded Move module.  Price oracles, keccak and [DefaultHasher] are
    parameters.

    ** What the theorems show

    - ABI: [get_bytes] refines the Solidity head/tail layout; [set_bytes] inverts it; one
      basic type per word; the symbolic calldata agrees with the concrete one; the parser
      of type names accepts all canonical names and terminates; mutation is total and
      keeps types.
    - Scheduling: an invariant of every reachable scheduler state, by induction on a step
      relation; no call panics and every selection yields a stored state; pruning removes
      the 250 lowest scores; votes re-sort the list.
    - Host: the step hook is total over any trace and keeps its maps; edges are numbered
      without gaps; comparison distances are minima; storage is a map; selector tables
      agree; nested executions are balanced; the third call target of a program counter
      leaks, and so does every later call from there, in whatever transaction.
    - Executor: a leak suspends exactly the running frame, a step input resumes exactly
      the last one; repeated transactions run once.
    - Interpreter: word operations are those of the EVM specification; no instruction
      accesses stack, memory or code out of bounds; executions keep all types; jumps land
      exactly on JUMPDEST instructions.
    - Fuzzer: an invariant of every campaign, by induction on its steps; started from
      the command line, mau reports attacks only: complete histories of transactions which,
      executed from the chain state of the deployments, violate a selected oracle; what an
      input does to the corpus and the minimizer, whatever its verdict; reverted executions
      count for nothing; a solution is a violation that this very execution produced.
      The file written for a VM state replays the transactions that led to it, plain
      transfers included.
    - Coverage: frames stay on instructions, and the report lists exactly the others.
    - Concolic execution: the middleware simulates the interpreter on the opcodes it
      describes; solutions satisfy the path.  Source maps: decompression inverts
      compression.
    - Input mutation: inputs stay on states of the corpus, and only states with a
      suspended frame are resumed.
    - Feedbacks: each reports exactly the new behaviour, and remembers it.
    - Stages: every run of [fuzz_loop], with whatever the device answers, is a campaign
      and so has its invariant; an input read back from the device is the transaction the
      device ran.
    - Loading and initialisation: a file of canonical ABI entries loads as the functions it
      describes, and the cases that panic are exact; the inputs of a contract are, as a list
      and in order, one per callable function and a transfer; the initialised corpus is a
      starting point of a campaign.
    - Chain, with a node that may answer or fail as it likes: a read is the value of a
      table, the text of the file, or the answer of the first of three tries that is
      answered, and what was read stays; the value that the interpreter reads from a slot is
      what the node said of that slot; a called contract is installed with its functions,
      one input each; the search for routes, with the pricing of the program, ends, panics
      only where the pricing does, finds simple paths to pegged tokens only, and one to
      every pegged token that can be reached.
    - Move: copies are equal and share no cell; VM states share their cells with the
      states they were cloned from, so that a write through a borrowed resource changes
      the snapshot; no execution adds or removes a stored resource, though contents change.
    - Flash loans of the second kind: the oracle's account of gains, losses and stock is
      exact; mutation keeps inputs that buy tokens executable; every token that is looked
      up is known, in every reachable state, and has paths with a pair (pegged tokens too,
      whose routes are empty), so that purchases panic only inside the router.
    - Analysis, flash loans, Uniswap: exact constants; accounting of transfers; constant
      product, sufficiency of quoted inputs, optimal liquidation.

    Theorems named in the findings record where the code does not do what it means to.

    ** Bounds and fuel

    [AbiParse.get_abi_type] recurses on shorter names, with the length of the name as
    fuel, which is proved to be enough.  [Bytecode.find_constants] uses the length of the
    code, since every round moves forward.  The scheduler's theorems hold for
    [SchedulerInv.MAX_STEPS] = 2^50 operations, below which no 64-bit counter wraps and
    votes and visits are exact doubles.  [HostCall.run_inspect] is the interpreter's loop
    with fuel: contract code need not terminate, so its results are stated for every fuel
    with which it returns, and the executor's theorems start from such a run.

    A chain of VM states, in [Tracer.trace_to_string], has as fuel the number of indices
    handed out, which [FuzzerProps.history_exists] shows to be enough.
    [Revm.analyze_loop], [SrcMap.decode_loop] and [Coverage.instructions_loop] move forward
    in every round and use the length of the code.

    [Loader.strip_arrays] shortens the name in every round.  [Routes.dfs] searches a token
    that is not pegged once, so that two more than the number of tokens with hops is enough.
    [MoveValues.copy_value] and [MoveValues.equals] recurse through the containers of a
    value, which is a forest in a store without cycles, so that more than the number of its
    cells is enough, as [MoveProps.copy_is_deep] shows; [MoveInterp.execute_code] is the
    loop of a program that need not end, with a number of instructions.

    ** Not modelled

    In the default build the oracle on token pairs panics, as does the token price: the
    first is modelled in [FlashloanV2] only, the second not at all.  The device code and
    libafl (its calibration stage, events and scheduler of inputs) are foreign, as is
    clap's parsing of the options.  Telemetry and printing are left out, and so are the
    executor of [evm/concolic], which is not used; revm's gas, precompiles and databases,
    which this build does not use; the Move loader, verifier, serialization and gas, which
    the fuzzer calls, and the rest of the vendored Move tool chain (compiler, prover,
    analyzer), which it does not; and the code behind the feature [evaluation], which the
    default build does not compile.

    The theorem on [Main] is about runs without the pair oracle, which panics, and without
    replay files, which [ReplayProps] is about.  A middleware of [Driver] and [Main] is a
    function of the host and of the fuzzer's state.  The one of a forked chain also has
    tables of its own and the network, and is not a middleware of that kind: [OnChain]
    models it with them, and [OnChainProps.onchain_grows] shows that it does to the fuzzer's
    state what the theorem asks of a middleware: leave the VM states alone and append
    inputs that wait for one.  The corpus of inputs is libafl's vector: after a replacement
    by the minimizer the indices it has recorded, and those of libafl's scheduler, which is
    foreign, name other testcases, and the theorems say what is then still true. *)
From Stdlib Require Export ZArith Lia Strings.Byte Ascii String.
From stdpp Require Export gmap strings list fin_maps.
Export ListNotations.

(** Names of [String] that would hide stdpp's list operations. *)
Abbreviation length := List.length.
Abbreviation concat := List.concat.

#[global] Open Scope Z_scope.
#[global] Open Scope list_scope.

(** ** Machine integers

    Rust's [usize]/[u64] are kept as [Z] values reduced modulo [2^64] wherever
    the source does arithmetic on data it does not control; the build is
    [--release], so [+], [-] and [*] wrap. *)
Definition USIZE : Z := 2 ^ 64.
Definition usize_max : Z := USIZE - 1.
Definition wrap (w : Z) (z : Z) : Z := z mod 2 ^ w.
Definition u64 (z : Z) : Z := wrap 64 z.
Definition u8z (z : Z) : Z := wrap 8 z.

Lemma wrap_small w z : 0 ≤ z < 2 ^ w → wrap w z = z.
Proof. apply Z.mod_small. Qed.

Lemma wrap_range w z : 0 ≤ w → 0 ≤ wrap w z < 2 ^ w.
Proof. intros. apply Z.mod_pos_bound. lia. Qed.

(** ** Bytes *)

(** The value of a [u8]. *)
Definition b2z (b : byte) : Z := Z.of_N (Byte.to_N b).

(** [z as u8]: truncation to the low eight bits. *)
Definition z2b (z : Z) : byte :=
  match Byte.of_N (Z.to_N (z mod 256)) with
  | Some b => b
  | None => x00
  end.

#[export] Instance byte_eq_decision : EqDecision byte := Byte.byte_eq_dec.

Lemma b2z_range b : 0 ≤ b2z b < 256.
Proof. unfold b2z. pose proof (Byte.to_N_bounded b). lia. Qed.

Lemma b2z_z2b z : b2z (z2b z) = z mod 256.
Proof.
  unfold b2z, z2b. pose proof (Z.mod_pos_bound z 256 ltac:(lia)).
  destruct (Byte.of_N _) as [b|] eqn:E.
  - apply Byte.to_of_N in E. rewrite E. lia.
  - apply Byte.of_N_None_iff in E. lia.
Qed.

Lemma b2z_inj b c : b2z b = b2z c → b = c.
Proof.
  unfold b2z. intros E%N2Z.inj.
  apply (f_equal Byte.of_N) in E. rewrite !Byte.of_to_N in E. congruence.
Qed.

Lemma z2b_b2z b : z2b (b2z b) = b.
Proof. apply b2z_inj. rewrite b2z_z2b. apply Z.mod_small, b2z_range. Qed.

#[export] Instance byte_countable : Countable byte := inj_countable' b2z z2b z2b_b2z.

(** ** Big-endian words *)

(** The unsigned value of a big-endian byte string. *)
Definition be2z (l : list byte) : Z := fold_left (λ acc b, acc * 256 + b2z b) l 0.

(** The [n]-byte big-endian form of [z] (its low [8*n] bits). *)
Fixpoint z2be (n : nat) (z : Z) : list byte :=
  match n with
  | O => []
  | S n' => z2be n' (z / 256) ++ [z2b z]
  end.

Lemma be2z_snoc l b : be2z (l ++ [b]) = be2z l * 256 + b2z b.
Proof. unfold be2z. by rewrite fold_left_app. Qed.

Lemma length_z2be n z : length (z2be n z) = n.
Proof. revert z. induction n; intros; simpl; [done|]. rewrite length_app, IHn. simpl. lia. Qed.

Lemma be2z_nil : be2z [] = 0.
Proof. done. Qed.

Lemma be2z_range l : 0 ≤ be2z l < 256 ^ Z.of_nat (length l).
Proof.
  induction l as [|b l IH] using rev_ind; [done|].
  rewrite be2z_snoc, length_app. simpl. pose proof (b2z_range b).
  rewrite Nat2Z.inj_add, Z.pow_add_r by lia. simpl. lia.
Qed.

Lemma be2z_z2be n z : be2z (z2be n z) = z mod 256 ^ Z.of_nat n.
Proof.
  revert z. induction n as [|n IH]; intros z; simpl.
  - by rewrite Z.mod_1_r.
  - rewrite be2z_snoc, IH, b2z_z2b.
    replace (Z.of_nat (S n)) with (Z.of_nat n + 1) by lia.
    rewrite Z.pow_add_r, Z.pow_1_r, (Z.mul_comm (256 ^ _)) by lia.
    rewrite (Z.rem_mul_r z 256 (256 ^ Z.of_nat n)) by lia. lia.
Qed.

Lemma z2be_be2z l : z2be (length l) (be2z l) = l.
Proof.
  induction l as [|b l IH] using rev_ind; [done|].
  rewrite length_app, Nat.add_comm. simpl. rewrite be2z_snoc.
  pose proof (b2z_range b).
  rewrite (Z.div_add_l (be2z l) 256 (b2z b)) by lia.
  rewrite (Z.div_small (b2z b)) by lia. rewrite Z.add_0_r, IH. f_equal.
  f_equal. apply b2z_inj. rewrite b2z_z2b, Z.add_comm, Z.mod_add by lia.
  by apply Z.mod_small.
Qed.

Lemma be2z_inj l k : length l = length k → be2z l = be2z k → l = k.
Proof.
  intros E F. rewrite <- (z2be_be2z l), <- (z2be_be2z k). by rewrite E, F.
Qed.

Lemma be2z_app l k : be2z (l ++ k) = be2z l * 256 ^ Z.of_nat (length k) + be2z k.
Proof.
  induction k as [|b k IH] using rev_ind.
  - rewrite app_nil_r, be2z_nil. simpl. lia.
  - rewrite app_assoc, !be2z_snoc, IH, length_app. simpl.
    rewrite Nat2Z.inj_add, Z.pow_add_r by lia. simpl. lia.
Qed.

Lemma be2z_zeros n : be2z (replicate n x00) = 0.
Proof.
  induction n as [|n IH]; [done|].
  rewrite replicate_S_end, be2z_snoc, IH. done.
Qed.

Lemma z2be_S n z : z2be (S n) z = z2be n (z / 256) ++ [z2b z].
Proof. done. Qed.

#[global] Arguments z2be : simpl never.

(** ** Slices and buffers

    [&v[i..]], [&v[i..j]] and [copy_from_slice] check their bounds and panic; a
    panic is [None] in the model. *)
Definition slice_from {A} (l : list A) (i : Z) : option (list A) :=
  if decide (0 ≤ i ≤ Z.of_nat (length l)) then Some (drop (Z.to_nat i) l) else None.

Definition slice {A} (l : list A) (i j : Z) : option (list A) :=
  if decide (0 ≤ i ≤ j ∧ j ≤ Z.of_nat (length l))
  then Some (take (Z.to_nat (j - i)) (drop (Z.to_nat i) l)) else None.

(** [buf[off..off+src.len()].copy_from_slice(src)] *)
Definition copy_at {A} (buf : list A) (off : nat) (src : list A) : option (list A) :=
  if decide (off + length src ≤ length buf)%nat
  then Some (take off buf ++ src ++ drop (off + length src) buf) else None.

Lemma slice_from_app {A} (l k : list A) i :
  i = Z.of_nat (length l) → slice_from (l ++ k) i = Some k.
Proof.
  intros ->. unfold slice_from. rewrite length_app, decide_True by lia.
  f_equal. rewrite Nat2Z.id. by rewrite drop_app_length.
Qed.

Lemma slice_app {A} (l k m : list A) i j :
  i = Z.of_nat (length l) → j = i + Z.of_nat (length k) →
  slice (l ++ k ++ m) i j = Some k.
Proof.
  intros -> ->. unfold slice. rewrite !length_app, decide_True by lia.
  f_equal. rewrite Nat2Z.id, drop_app_length.
  replace (Z.to_nat _) with (length k) by lia. by rewrite take_app_length.
Qed.

Lemma copy_at_app {A} (l k m src : list A) off :
  off = length l → length k = length src →
  copy_at (l ++ k ++ m) off src = Some (l ++ src ++ m).
Proof.
  intros -> E. unfold copy_at. rewrite !length_app, decide_True by lia.
  f_equal. rewrite take_app_length. f_equal. f_equal.
  rewrite <- E, app_assoc. rewrite <- length_app. by rewrite drop_app_length.
Qed.

Lemma copy_at_length {A} (buf src res : list A) off :
  copy_at buf off src = Some res → length res = length buf.
Proof.
  unfold copy_at. case_decide; [|done]. intros [= <-].
  rewrite !length_app, length_take, length_drop. lia.
Qed.

(** ** Sequencing of fallible steps over a list *)

(** A loop over the elements that may panic and that updates [s]. *)
Fixpoint foldM {A S} (f : S → A → option S) (s : S) (l : list A) : option S :=
  match l with
  | [] => Some s
  | x :: l' => s' ← f s x; foldM f s' l'
  end.

Lemma foldM_app {A S} (f : S → A → option S) s l k :
  foldM f s (l ++ k) = (s' ← foldM f s l; foldM f s' k).
Proof.
  revert s. induction l as [|x l IH]; intros s; simpl; [done|].
  destruct (f s x); simpl; [apply IH|done].
Qed.

(** Running a step that succeeds.  Rewriting with it avoids the conversion test
    between the step and its result that reduction would leave to the kernel. *)
Lemma obind_Some {A B} (x : A) (f : A → option B) : (Some x ≫= f) = f x.
Proof. reflexivity. Qed.

(** [iter().all(p)] with a test that may panic: it stops at the first [false]. *)
Definition allM {A} (f : A → option bool) : list A → option bool :=
  fix go l :=
    match l with
    | [] => Some true
    | x :: l' => t ← f x; if (t : bool) then go l' else Some false
    end.

(** [iter().map(f).collect()] with a function that may panic. *)
Definition mapM_opt {A B} (f : A → option B) : list A → option (list B) :=
  fix go l :=
    match l with
    | [] => Some []
    | x :: l' => y ← f x; ys ← go l'; Some (y :: ys)
    end.

Lemma mapM_opt_Some {A B} (f : A → option B) (g : A → B) l :
  Forall (λ x, f x = Some (g x)) l → mapM_opt f l = Some (map g l).
Proof. induction 1 as [|x l Hx _ IH]; simpl; [done|]. by rewrite Hx; simpl; rewrite IH. Qed.

Lemma allM_Some {A} (f : A → option bool) (g : A → bool) l :
  Forall (λ x, f x = Some (g x)) l → allM f l = Some (forallb g l).
Proof.
  induction 1 as [|x l Hx _ IH]; simpl; [done|].
  rewrite Hx; simpl. by destruct (g x).
Qed.

(** ** Lists related element by element *)
Lemma Forall2_impl_in {A B} (P Q : A → B → Prop) l k :
  Forall2 P l k → (∀ x y, y ∈ k → P x y → Q x y) → Forall2 Q l k.
Proof.
  induction 1 as [|x y l k Hxy _ IH]; intros H; constructor.
  - by apply H; [left|].
  - apply IH. intros. apply H; [by right|done].
Qed.

(** ** Sums of lists *)
Definition nsum (l : list nat) : nat := foldr Nat.add 0%nat l.

Lemma nsum_cons x l : nsum (x :: l) = (x + nsum l)%nat.
Proof. done. Qed.

Lemma nsum_app l k : nsum (l ++ k) = (nsum l + nsum k)%nat.
Proof. induction l; simpl; lia. Qed.

Lemma length_concat {A} (l : list (list A)) : length (concat l) = nsum (map length l).
Proof. induction l; simpl; [done|]. rewrite length_app. lia. Qed.

Lemma concat_app_nil {A} (l k : list (list A)) : concat (l ++ k) = concat l ++ concat k.
Proof. apply concat_app. Qed.

(** ** Automation *)
Create HintDb mau.
Create Rewrite HintDb mau_len.
#[export] Hint Rewrite length_z2be @length_replicate @length_app @length_take
  @length_drop @length_concat : mau_len.

(** Simplify the lengths of the goal and close it with [lia]. *)
Ltac len := autorewrite with mau_len in *; simpl in *; lia.

(** Split a goal that runs an option monad: name the intermediate results. *)
Ltac run_option :=
  repeat match goal with
  | H : (_ ≫= _) = Some _ |- _ => apply bind_Some in H; destruct H as (? & ? & ?)
  | H : Some _ = Some _ |- _ => injection H as H; subst
  | H : None = Some _ |- _ => discriminate H
  end.
