(* ===== verification/Types.v ===== *)
(** * Common EVM types ([src/src/evm/types.rs])

    256- and 512-bit words, 20-byte addresses and the conversions between them
    that the fuzzer uses everywhere.  [EVMU256]/[EVMU512] are ruint words: their
    [+], [-] and [*] wrap, [/] and [%] panic on zero. *)
From Stdlib Require Export SpecFloat.
From S2P Require Import Prelude.

(** ** Words *)

(** [EVMU256]: a 256-bit word as its unsigned value. *)
Abbreviation EVMU256 := Z (only parsing).
(** [EVMU512] *)
Abbreviation EVMU512 := Z (only parsing).
(** [EVMAddress] ([B160]): the big-endian value of its twenty bytes. *)
Abbreviation EVMAddress := Z (only parsing).

Definition U256_MOD : Z := 2 ^ 256.
Definition U256_MAX : Z := U256_MOD - 1.
Definition U512_MOD : Z := 2 ^ 512.

(** Well-formed words: the ones a [U256]/[U512]/[B160] value can hold. *)
Definition is_u256 (z : Z) : Prop := 0 ≤ z < U256_MOD.
Definition is_u512 (z : Z) : Prop := 0 ≤ z < U512_MOD.
Definition is_address (z : Z) : Prop := 0 ≤ z < 2 ^ 160.

Definition add256 (a b : Z) : Z := (a + b) mod U256_MOD.
Definition sub256 (a b : Z) : Z := (a - b) mod U256_MOD.
Definition mul256 (a b : Z) : Z := (a * b) mod U256_MOD.
(** [/] panics when the divisor is zero. *)
Definition div256 (a b : Z) : option Z := if decide (b = 0) then None else Some (a / b).
(** [%] panics when the divisor is zero. *)
Definition rem256 (a b : Z) : option Z := if decide (b = 0) then None else Some (a mod b).
Definition add512 (a b : Z) : Z := (a + b) mod U512_MOD.
Definition mul512 (a b : Z) : Z := (a * b) mod U512_MOD.

(** [to_be_bytes::<32>()] *)
Definition to_be_bytes (v : EVMU256) : list byte := z2be 32 v.
(** [to_le_bytes::<32>()] *)
Definition to_le_bytes (v : EVMU256) : list byte := reverse (z2be 32 v).

(** [EVMU256::try_from_be_slice]: [None] when the value does not fit. *)
Definition try_from_be_slice (l : list byte) : option EVMU256 :=
  if decide (be2z l < U256_MOD) then Some (be2z l) else None.

(** [EVMAddress::from_slice]: panics unless the slice has twenty bytes. *)
Definition address_from_slice (l : list byte) : option EVMAddress :=
  if decide (length l = 20%nat) then Some (be2z l) else None.

(** [address.0.to_vec()] *)
Definition address_bytes (a : EVMAddress) : list byte := z2be 20 a.

(** Convert [U256] to [H160] by taking the last 20 bytes. *)
Definition convert_u256_to_h160 (v : EVMU256) : option EVMAddress :=
  data ← slice (to_be_bytes v) 12 32;
  address_from_slice data.

(** [v.as_limbs()[0]] *)
Definition as_u64 (v : EVMU256) : Z := v mod 2 ^ 64.

Definition is_zero (v : EVMU256) : bool := v =? 0.

(** ** Lemmas *)

Lemma add256_range a b : is_u256 (add256 a b).
Proof. unfold is_u256. by apply Z.mod_pos_bound. Qed.
Lemma sub256_range a b : is_u256 (sub256 a b).
Proof. unfold is_u256. by apply Z.mod_pos_bound. Qed.
Lemma mul256_range a b : is_u256 (mul256 a b).
Proof. unfold is_u256. by apply Z.mod_pos_bound. Qed.
Lemma add256_small a b : 0 ≤ a + b < U256_MOD → add256 a b = a + b.
Proof. apply Z.mod_small. Qed.
Lemma sub256_small a b : 0 ≤ a - b < U256_MOD → sub256 a b = a - b.
Proof. apply Z.mod_small. Qed.
Lemma mul256_small a b : 0 ≤ a * b < U256_MOD → mul256 a b = a * b.
Proof. apply Z.mod_small. Qed.

#[export] Hint Resolve add256_range sub256_range mul256_range : mau.

Lemma length_to_be_bytes v : length (to_be_bytes v) = 32%nat.
Proof. apply length_z2be. Qed.
#[export] Hint Rewrite length_to_be_bytes : mau_len.

Lemma be2z_to_be_bytes v : is_u256 v → be2z (to_be_bytes v) = v.
Proof.
  unfold to_be_bytes, is_u256, U256_MOD. intros H. rewrite be2z_z2be.
  apply Z.mod_small. exact H.
Qed.

Lemma try_from_be_slice_32 l : (length l ≤ 32)%nat → try_from_be_slice l = Some (be2z l).
Proof.
  intros H. unfold try_from_be_slice. rewrite decide_True; [done|].
  pose proof (be2z_range l).
  assert (256 ^ Z.of_nat (length l) ≤ 256 ^ 32) by (apply Z.pow_le_mono_r; lia).
  unfold U256_MOD. change (2 ^ 256) with (256 ^ 32). lia.
Qed.

(** The last [n] bytes of the [m + n]-byte form are the [n]-byte form. *)
Lemma drop_z2be m n z : drop m (z2be (m + n) z) = z2be n z.
Proof.
  revert z. induction n as [|n IH]; intros z.
  - rewrite Nat.add_0_r, drop_ge; [done|]. by rewrite length_z2be.
  - rewrite Nat.add_succ_r, !z2be_S. rewrite drop_app_le by (rewrite length_z2be; lia).
    by rewrite IH.
Qed.

Lemma take_z2be m n z : take m (z2be (m + n) z) = z2be m (z / 256 ^ Z.of_nat n).
Proof.
  revert z. induction n as [|n IH]; intros z.
  - rewrite Nat.add_0_r, take_ge by (rewrite length_z2be; lia). simpl. by rewrite Z.div_1_r.
  - rewrite Nat.add_succ_r, z2be_S. rewrite take_app_le by (rewrite length_z2be; lia).
    rewrite IH, Z.div_div by lia. f_equal. f_equal.
    replace (Z.of_nat (S n)) with (1 + Z.of_nat n) by lia.
    rewrite Z.pow_add_r by lia. lia.
Qed.

Lemma convert_u256_to_h160_spec v :
  convert_u256_to_h160 v = Some (v mod 2 ^ 160).
Proof.
  unfold convert_u256_to_h160, slice. rewrite length_to_be_bytes, decide_True by lia.
  cbn [mbind option_bind].
  change (Z.to_nat 12) with 12%nat. change (Z.to_nat (32 - 12)) with 20%nat.
  unfold to_be_bytes. change 32%nat with (12 + 20)%nat.
  rewrite drop_z2be, take_ge by (rewrite length_z2be; lia).
  unfold address_from_slice. rewrite length_z2be, decide_True by done.
  f_equal. rewrite be2z_z2be. done.
Qed.

Lemma as_u64_range v : 0 ≤ as_u64 v < 2 ^ 64.
Proof. apply Z.mod_pos_bound. lia. Qed.
