(* ===== verification/Expr.v ===== *)
(** * The concolic expression language ([src/src/evm/concolic/concolic_host.rs])

    The expression trees the concolic middleware builds, and their smart
    constructors. *)
From S2P Require Import Prelude Types.

(** [enum ConcolicOp] *)
Inductive ConcolicOp :=
| OpEVMU256 (v : EVMU256)
| OpADD | OpDIV | OpMUL | OpSUB | OpSDIV | OpSMOD | OpUREM | OpSREM
| OpAND | OpOR | OpXOR | OpNOT | OpSHL | OpSHR | OpSAR
| OpINPUT
| OpSLICEDINPUT (idx : EVMU256)
| OpBALANCE
| OpCALLVALUE
| OpBVVAR (width : Z)
| OpSYMBYTE (name : string)
| OpCONSTBYTES (bs : list byte)
| OpCONSTBYTE (b : byte)
| OpFINEGRAINEDINPUT (start stop : Z)
| OpEQ | OpLT | OpSLT | OpGT | OpSGT | OpLNOT.

(** [struct Expr] *)
Inductive Expr := mkExpr {
  lhs : option Expr;
  rhs : option Expr;
  op : ConcolicOp
}.

(** ** Builders *)

(** [Expr { lhs: None, rhs: None, op }] *)
Definition leaf (o : ConcolicOp) : Expr := mkExpr None None o.
(** the macro [box_bv!] *)
Definition box_bv (l r : Expr) (o : ConcolicOp) : Expr := mkExpr (Some l) (Some r) o.

Definition new_sliced_input (idx : EVMU256) : Expr := leaf (OpSLICEDINPUT idx).
Definition new_balance : Expr := leaf OpBALANCE.
Definition new_callvalue : Expr := leaf OpCALLVALUE.
Definition new_bv_with_width (w : Z) : Expr := leaf (OpBVVAR w).
Definition sliced_input (start stop : Z) : Expr := leaf (OpFINEGRAINEDINPUT start stop).
Definition expr_div (l r : Expr) : Expr := box_bv l r OpDIV.
Definition expr_mul (l r : Expr) : Expr := box_bv l r OpMUL.
Definition expr_add (l r : Expr) : Expr := box_bv l r OpADD.
Definition expr_sub (l r : Expr) : Expr := box_bv l r OpSUB.
Definition bvsdiv (l r : Expr) : Expr := box_bv l r OpSDIV.
Definition bvsmod (l r : Expr) : Expr := box_bv l r OpSMOD.
Definition bvurem (l r : Expr) : Expr := box_bv l r OpUREM.
Definition bvsrem (l r : Expr) : Expr := box_bv l r OpSREM.
Definition bvand (l r : Expr) : Expr := box_bv l r OpAND.
Definition bvor (l r : Expr) : Expr := box_bv l r OpOR.
Definition bvxor (l r : Expr) : Expr := box_bv l r OpXOR.
Definition bvnot (l : Expr) : Expr := mkExpr (Some l) None OpNOT.
Definition bvshl (l r : Expr) : Expr := box_bv l r OpSHL.
Definition bvlshr (l r : Expr) : Expr := box_bv l r OpSHR.
Definition bvsar (l r : Expr) : Expr := box_bv l r OpSAR.
Definition bvult (l r : Expr) : Expr := box_bv l r OpLT.
Definition bvugt (l r : Expr) : Expr := box_bv l r OpGT.
Definition bvslt (l r : Expr) : Expr := box_bv l r OpSLT.
Definition bvsgt (l r : Expr) : Expr := box_bv l r OpSGT.
Definition expr_eq (l r : Expr) : Expr := box_bv l r OpEQ.
Definition sym_byte (s : string) : Expr := leaf (OpSYMBYTE s).
Definition const_byte (b : byte) : Expr := leaf (OpCONSTBYTE b).
Definition lnot (l : Expr) : Expr := mkExpr (Some l) None OpLNOT.
