(* ===== verification/Abi.v ===== *)
(** * ABI values and their encoding ([src/src/evm/abi.rs])

    The argument values the fuzzer mutates, with the methods of the [ABI] trait:
    [is_static], [get_bytes], [get_type], [set_bytes], [get_size],
    [get_basic_types] and [get_concolic].  A panic (or an out-of-bounds pointer
    write) is [None]. *)
From S2P Require Import Prelude Types Expr.
From stdpp Require Import pretty.
#[local] Open Scope Z_scope.

(** ** Sizes *)

(** [roundup]: division by zero panics. *)
Definition roundup (x multiplier : nat) : option nat :=
  if decide (multiplier = 0%nat) then None
  else Some ((x + multiplier - 1) / multiplier * multiplier)%nat.

(** The loop [bytes[31 - i] = rem & 0xff; rem >>= 8] of [set_size] and
    [set_size_concolic]; [inj] is how a byte is stored. *)
Fixpoint set_size_loop {A} (inj : byte → A) (n : nat) (i : nat) (rem : Z) (bytes : list A) : list A :=
  match n with
  | O => bytes
  | S n' => set_size_loop inj n' (S i) (Z.shiftr rem 8)
                          (<[(31 - i)%nat := inj (z2b (Z.land rem 255))]> bytes)
  end.
(** [set_size] *)
Definition set_size (bytes : list byte) (len : Z) : list byte := set_size_loop id 32 0 len bytes.

(** [get_size]: the loop [size <<= 8; size += bytes[i]] on a 64-bit [usize]. *)
Definition get_size_step (bytes : list byte) (size : Z) (i : nat) : option Z :=
  b ← bytes !! i; Some (u64 (u64 (Z.shiftl size 8) + b2z b)).
Definition get_size (bytes : list byte) : option Z := foldM (get_size_step bytes) 0 (seq 0 32).

(** ** Types *)

(** [enum ABILossyType] *)
Inductive ABILossyType := T256 | TArray | TDynamic | TEmpty | TUnknown.

(** [enum BasicVarType], [#[repr(u8)]]: [TvIntN n] is [TvInt<8n>] and
    [TvStrBytesN n] is [TvStrBytes<n>], for [n] from 1 to 32. *)
Inductive BasicVarType :=
| TvNone
| TvIntN (n : nat)
| TvAddress
| TvBool
| TvStrBytesN (n : nat)
| TvOffset
| TvLength.

#[export] Instance BasicVarType_eq_dec : EqDecision BasicVarType.
Proof. solve_decision. Defined.

(** The discriminants of the enum, in declaration order. *)
Definition tv_as_u8 (t : BasicVarType) : Z :=
  match t with
  | TvNone => 0
  | TvIntN n => Z.of_nat n
  | TvAddress => 33
  | TvBool => 34
  | TvStrBytesN n => 34 + Z.of_nat n
  | TvOffset => 67
  | TvLength => 68
  end.

(** [std::mem::transmute::<u8, BasicVarType>]; [None] off the enum (undefined behaviour). *)
Definition tv_transmute (z : Z) : option BasicVarType :=
  if z =? 0 then Some TvNone
  else if z <=? 32 then Some (TvIntN (Z.to_nat z))
  else if z =? 33 then Some TvAddress
  else if z =? 34 then Some TvBool
  else if z <=? 66 then Some (TvStrBytesN (Z.to_nat (z - 34)))
  else if z =? 67 then Some TvOffset
  else if z =? 68 then Some TvLength
  else None.

(** [[u8; 4]] *)
Record sel4 := Sel { s0 : byte; s1 : byte; s2 : byte; s3 : byte }.
Definition sel_zero : sel4 := Sel x00 x00 x00 x00.
Definition sel_bytes (s : sel4) : list byte := [s0 s; s1 s; s2 s; s3 s].

#[export] Instance sel4_eq_dec : EqDecision sel4.
Proof. solve_decision. Defined.

(** The implementors of the trait [ABI] ([Box<dyn ABI>]) and [struct BoxedABI]. *)
Inductive ABI :=
| AEmpty
| A256 (data : list byte) (is_address dont_mutate is_bytes : bool)
| ADynamic (data : list byte) (multiplier : nat)
| AArray (data : list BoxedABI) (dynamic_size : bool)
| AUnknown (concrete : BoxedABI) (size : nat)
with BoxedABI :=
| mkBoxedABI (b : ABI) (function : sel4).

Definition boxed_b (x : BoxedABI) : ABI := match x with mkBoxedABI b _ => b end.
Definition boxed_function (x : BoxedABI) : sel4 := match x with mkBoxedABI _ f => f end.

(** [BoxedABI::new] *)
Definition BoxedABI_new (b : ABI) : BoxedABI := mkBoxedABI b sel_zero.
(** [BoxedABI::default] *)
Definition BoxedABI_default : BoxedABI := mkBoxedABI AEmpty sel_zero.
(** [BoxedABI::set_func] *)
Definition set_func (x : BoxedABI) (f : sel4) : BoxedABI := mkBoxedABI (boxed_b x) f.

(** ** [get_type], [is_static], [get_size] *)

Definition get_type (a : ABI) : ABILossyType :=
  match a with
  | AEmpty => TEmpty
  | A256 _ _ _ _ => T256
  | ADynamic _ _ => TDynamic
  | AArray _ _ => TArray
  | AUnknown _ _ => TUnknown
  end.

(** [BoxedABI::get_type_str] *)
Definition get_type_str (x : BoxedABI) : string :=
  match get_type (boxed_b x) with
  | T256 => "A256"
  | TArray => "AArray"
  | TDynamic => "ADynamic"
  | TEmpty => "AEmpty"
  | TUnknown => "AUnknown"
  end.

(** [is_static]; [AEmpty] panics. *)
Fixpoint is_static (a : ABI) : option bool :=
  match a with
  | AEmpty => None
  | A256 _ _ _ _ => Some true
  | ADynamic _ _ => Some false
  | AArray data dynamic_size =>
      if dynamic_size then Some false
      else allM (λ x, match x with mkBoxedABI b _ => is_static b end) data
  | AUnknown (mkBoxedABI b _) _ => is_static b
  end.

(** The trait method [get_size] (named apart from the free function [get_size]). *)
Fixpoint abi_get_size (a : ABI) : nat :=
  match a with
  | AEmpty => 0
  | A256 _ _ _ _ => 32
  | ADynamic data _ => length data + 32
  | AArray data dynamic_size =>
      let data_size := nsum (map (λ x, match x with mkBoxedABI b _ => abi_get_size b end) data) in
      if dynamic_size then 32 + data_size else data_size
  | AUnknown (mkBoxedABI b _) _ => abi_get_size b
  end%nat.

(** ** [get_bytes] *)

(** [A256::get_bytes]: left padding to 32 bytes; more than 32 bytes of data
    would write before the buffer. *)
Definition a256_get_bytes (data : list byte) : option (list byte) :=
  if decide (length data ≤ 32)%nat
  then copy_at (replicate 32 x00) (32 - length data) data
  else None.

(** [ADynamic::get_bytes] *)
Definition adynamic_get_bytes (data : list byte) (multiplier : nat) : option (list byte) :=
  new_len ← roundup (length data) multiplier;
  copy_at (set_size (replicate (new_len + 32) x00) (Z.of_nat (length data))) 32 data.

(** The first loop of [AArray::get_bytes] collects [head], [tail_data] and
    [head_size]; an element is given by its [is_static] flag and its encoding. *)
Record head_tail := HeadTail {
  ht_head : list (list byte);
  ht_tail : list (list byte);
  ht_head_size : nat
}.

Definition head_tail_step (st : head_tail) (e : bool * list byte) : head_tail :=
  let '(static, encoded) := e in
  if static
  then HeadTail (ht_head st ++ [encoded]) (ht_tail st ++ [[]])
                (ht_head_size st + length encoded)
  else HeadTail (ht_head st ++ [[]]) (ht_tail st ++ [encoded]) (ht_head_size st + 32).

Definition collect_head_tail (elems : list (bool * list byte)) : head_tail :=
  fold_left head_tail_step elems (HeadTail [] [] 0).

(** The loop over [0..tail_data.len() - 1] that fills [tails_offset] (which starts
    as [[0]]) and accumulates [content_size]. *)
Definition tails_offset_step (st : list nat * nat) (tail : list byte) : list nat * nat :=
  let '(tails_offset, content_size) := st in
  let content_size := (content_size + length tail)%nat in
  (tails_offset ++ [content_size], content_size).

Definition compute_tails_offset (tail_data : list (list byte)) : list nat * nat :=
  fold_left tails_offset_step (removelast tail_data) ([0%nat], 0%nat).

(** One iteration of the loop that fills [head_data]: an empty head stands for a
    dynamic element, whose head is the offset of its tail. *)
Definition head_data_entry (head_size : nat) (head : list byte) (tail_offset : nat) : list byte :=
  if decide (length head = 0%nat)
  then set_size (replicate 32 x00) (Z.of_nat (tail_offset + head_size))
  else head.

(** [bytes[offset..offset + x.len()].copy_from_slice(x); offset += x.len()] *)
Definition copy_step {A} (st : list A * nat) (x : list A) : option (list A * nat) :=
  let '(buf, offset) := st in
  buf' ← copy_at buf offset x;
  Some (buf', (offset + length x)%nat).

(** What the loops compute before the buffer is filled: [head_data] (empty when
    there is no element) and its size, and the size of the tails. *)
Definition compute_head_data (ht : head_tail) : list (list byte) * nat * nat :=
  let '(tails_offset, content_size) := compute_tails_offset (ht_tail ht) in
  if decide (0 < length (ht_tail ht))%nat
  then let head_data := zip_with (head_data_entry (ht_head_size ht)) (ht_head ht) tails_offset in
       (head_data, nsum (map length head_data),
        content_size + length (List.last (ht_tail ht) []))%nat
  else ([], 0, 0)%nat.

(** [AArray::get_bytes] on the flags and encodings of its elements. *)
Definition aarray_get_bytes (elems : list (bool * list byte)) (dynamic_size : bool)
  : option (list byte) :=
  let ht := collect_head_tail elems in
  let '(head_data, head_data_size, tail_data_size) := compute_head_data ht in
  let bytes := replicate (head_data_size + tail_data_size + (if dynamic_size then 32 else 0)) x00 in
  let bytes := if dynamic_size then set_size bytes (Z.of_nat (length elems)) else bytes in
  let offset := if dynamic_size then 32%nat else 0%nat in
  st ← foldM copy_step (bytes, offset) head_data;
  st ← foldM copy_step st (ht_tail ht);
  Some (fst st).

(** The trait method [get_bytes]. *)
Fixpoint get_bytes (a : ABI) : option (list byte) :=
  match a with
  | AEmpty => Some []
  | A256 data _ _ _ => a256_get_bytes data
  | ADynamic data multiplier => adynamic_get_bytes data multiplier
  | AArray data dynamic_size =>
      elems ← mapM_opt
        (λ x, match x with
              | mkBoxedABI b _ =>
                  static ← is_static b;
                  encoded ← get_bytes b;
                  Some (static, encoded)
              end) data;
      aarray_get_bytes elems dynamic_size
  | AUnknown (mkBoxedABI b _) _ => get_bytes b
  end.

(** [BoxedABI::get_bytes]: the selector followed by the arguments. *)
Definition boxed_get_bytes (x : BoxedABI) : option (list byte) :=
  e ← get_bytes (boxed_b x); Some (sel_bytes (boxed_function x) ++ e).

(** ** [set_bytes] *)

(** [A256::set_bytes]: [bytes[32 - data.len()..32]]. *)
Definition a256_set_bytes (old bytes : list byte) : option (list byte) :=
  slice bytes (32 - Z.of_nat (length old)) 32.

(** [ADynamic::set_bytes] *)
Definition adynamic_set_bytes (bytes : list byte) : option (list byte) :=
  if decide (bytes = []) then Some []
  else size ← get_size bytes; slice bytes 32 (u64 (32 + size)).

(** The resizing loop of [AArray::set_bytes]: new elements are clones of the
    first, or the default, and the vector is truncated to [n]. *)
Definition resize {A} (dflt : A) (data : list A) (n : nat) : list A :=
  let fill := match data with [] => dflt | x :: _ => x end in
  take n (data ++ replicate (n - length data) fill).

(** The [match item.get_type()] of the decoding loop: where the item is and how
    far the head advances. *)
Definition item_location (bytes : list byte) (base_offset offset : Z) (b : ABI)
  : option (Z * Z) :=
  let indirect :=
    rest ← slice_from bytes (u64 (offset + base_offset));
    off ← get_size rest; Some (off, 32) in
  match get_type b with
  | T256 => Some (offset, 32)
  | TArray =>
      static ← is_static b;
      if (static : bool) then Some (offset, Z.of_nat (abi_get_size b)) else indirect
  | TDynamic => indirect
  | TEmpty => Some (0, 0)
  | TUnknown => None
  end.

(** One iteration of the decoding loop: [item] with the function that decodes
    into it, the running offset, and the items decoded so far. *)
Definition set_bytes_step (bytes : list byte) (base_offset : Z)
    (st : list BoxedABI * Z) (item : BoxedABI * (list byte → option ABI))
  : option (list BoxedABI * Z) :=
  let '(done_items, offset) := st in
  let '(mkBoxedABI b f, decode) := item in
  os ← item_location bytes base_offset offset b;
  let '(item_offset, size) := os in
  src ← slice_from bytes (u64 (item_offset + base_offset));
  b' ← decode src;
  Some (done_items ++ [mkBoxedABI b' f], u64 (offset + size)).

(** The trait method [set_bytes]: the new value of [self]. *)
Fixpoint set_bytes (a : ABI) (bytes : list byte) : option ABI :=
  match a with
  | AEmpty => if decide (length bytes = 0%nat) then Some AEmpty else None
  | A256 data is_address dont_mutate is_bytes =>
      data' ← a256_set_bytes data bytes;
      Some (A256 data' is_address dont_mutate is_bytes)
  | ADynamic _ multiplier =>
      data' ← adynamic_set_bytes bytes; Some (ADynamic data' multiplier)
  | AArray data dynamic_size =>
      let items := map (λ x, match x with mkBoxedABI b f => (mkBoxedABI b f, set_bytes b) end) data in
      let dflt := (BoxedABI_default,
                   λ bs, if decide (length bs = 0%nat) then Some AEmpty else None) in
      items_base ← (if dynamic_size
                    then n ← get_size bytes; Some (resize dflt items (Z.to_nat n), 32)
                    else Some (items, 0));
      let '(items, base_offset) := items_base in
      st ← foldM (set_bytes_step bytes base_offset) ([], 0) items;
      Some (AArray (fst st) dynamic_size)
  | AUnknown (mkBoxedABI b f) size => b' ← set_bytes b bytes; Some (AUnknown (mkBoxedABI b' f) size)
  end.

(** [BoxedABI::set_bytes]: the selector bytes are skipped. *)
Definition boxed_set_bytes (x : BoxedABI) (bytes : list byte) : option BoxedABI :=
  args ← slice_from bytes 4;
  b' ← set_bytes (boxed_b x) args;
  Some (mkBoxedABI b' (boxed_function x)).

(** ** [get_basic_types] *)

(** [A256::get_basic_types]: arithmetic on [u8]. *)
Definition a256_get_basic_types (data : list byte) (is_address is_bytes : bool)
  : option (list BasicVarType) :=
  let data_len := u8z (Z.of_nat (length data)) in
  if is_address then Some [TvAddress]
  else if is_bytes then
    t ← tv_transmute (u8z (tv_as_u8 (TvStrBytesN 1) + data_len - 1)); Some [t]
  else
    t ← tv_transmute (u8z (tv_as_u8 (TvIntN 1) + data_len - 1)); Some [t].

(** [ADynamic::get_basic_types] *)
Definition adynamic_get_basic_types (data : list byte) (multiplier : nat)
  : option (list BasicVarType) :=
  if decide (multiplier = 0%nat) then None else
  let types := TvLength :: replicate (length data / multiplier) (TvStrBytesN 32) in
  let remaining := (length data mod multiplier)%nat in
  if decide (remaining = 0%nat) then Some types
  else t ← tv_transmute (u8z (tv_as_u8 (TvStrBytesN 1) + u8z (Z.of_nat remaining) - 1));
       Some (types ++ [t]).

(** [AArray::get_basic_types] on the flags, encodings and types of its elements:
    the loops of [get_bytes] with a second buffer of one type per 32 bytes. *)
Definition flag_copy_step (st : list BasicVarType * nat) (x : list byte * list BasicVarType)
  : option (list BasicVarType * nat) :=
  let '(flags, offset) := st in
  let '(bytes, ts) := x in
  let lo := (offset / 32)%nat in
  let hi := ((offset + length bytes) / 32)%nat in
  (* [copy_from_slice] also panics when the lengths differ *)
  if decide (lo + length ts = hi)%nat
  then flags' ← copy_at flags lo ts; Some (flags', (offset + length bytes)%nat)
  else None.

Definition aarray_get_basic_types (elems : list (bool * list byte * list BasicVarType))
    (dynamic_size : bool) : option (list BasicVarType) :=
  let ht := collect_head_tail (map fst elems) in
  let flag_head := map (λ '(s, _, ts), if (s : bool) then ts else []) elems in
  let flag_tail := map (λ '(s, _, ts), if (s : bool) then [] else ts) elems in
  let '(head_data, head_data_size, tail_data_size) := compute_head_data ht in
  let flag_head_data :=
    zip_with (λ (head : list byte) ts, if decide (length head = 0%nat) then [TvOffset] else ts)
             (ht_head ht) flag_head in
  let size := (head_data_size + tail_data_size + (if dynamic_size then 32 else 0))%nat in
  let flags := replicate (size / 32) TvNone in
  flags ← (if dynamic_size then (if decide (0 < length flags)%nat
                                  then Some (<[0%nat := TvLength]> flags) else None)
           else Some flags);
  let offset := if dynamic_size then 32%nat else 0%nat in
  st ← foldM flag_copy_step (flags, offset) (zip head_data flag_head_data);
  st ← foldM flag_copy_step st (zip (ht_tail ht) flag_tail);
  Some (fst st).

(** The trait method [get_basic_types]. *)
Fixpoint get_basic_types (a : ABI) : option (list BasicVarType) :=
  match a with
  | AEmpty => Some [TvNone]
  | A256 data is_address _ is_bytes => a256_get_basic_types data is_address is_bytes
  | ADynamic data multiplier => adynamic_get_basic_types data multiplier
  | AArray data dynamic_size =>
      elems ← mapM_opt
        (λ x, match x with
              | mkBoxedABI b _ =>
                  static ← is_static b;
                  encoded ← get_bytes b;
                  ts ← get_basic_types b;
                  Some (static, encoded, ts)
              end) data;
      aarray_get_basic_types elems dynamic_size
  | AUnknown _ _ => Some [TvNone]
  end.

(** ** [get_concolic]

    [CONCOLIC_COUNTER] is threaded through the calls; [{}] prints it in decimal. *)

(** [set_size_concolic] *)
Definition set_size_concolic (bytes : list Expr) (len : Z) : list Expr :=
  set_size_loop const_byte 32 0 len bytes.

(** [A256::get_concolic] *)
Definition a256_get_concolic (data : list byte) (counter : N) : option (list Expr * N) :=
  if decide (length data ≤ 32)%nat then
    let syms := imap (λ i _, sym_byte (pretty counter +:+ "_A256_" +:+ pretty i)) data in
    bytes ← copy_at (replicate 32 (const_byte x00)) (32 - length data) syms;
    Some (bytes, (counter + 1)%N)
  else None.

(** [ADynamic::get_concolic] *)
Definition adynamic_get_concolic (data : list byte) (multiplier : nat) (counter : N)
  : option (list Expr * N) :=
  new_len ← roundup (length data) multiplier;
  let bytes := replicate (new_len + 32) (const_byte x00) in
  let bytes := set_size_concolic bytes (Z.of_nat (length data)) in
  let syms := imap (λ i _, sym_byte ("ADynamic_" +:+ pretty counter +:+ "_" +:+ pretty i)) data in
  bytes ← copy_at bytes 32 syms;
  Some (bytes, (counter + 1)%N).

(** The state of the two copying loops of [AArray::get_concolic]. *)
Record concolic_st := ConcolicSt {
  cs_bytes : list Expr;
  cs_offset : nat;
  cs_counter : N
}.

(** The bytes of one element under a fresh counter: every byte gets the name
    [<counter>_<type>_<i>]. *)
Definition element_syms (counter : N) (ty : string) (i : nat) (encoded : list byte) : list Expr :=
  map (λ _, sym_byte (pretty counter +:+ "_" +:+ ty +:+ "_" +:+ pretty i)) encoded.

(** One iteration over [head_data]. *)
Definition concolic_head_step (st : concolic_st) (x : nat * (bool * string) * list byte)
  : option concolic_st :=
  let '(i, (static, ty), head) := x in
  if static then
    buf ← copy_at (cs_bytes st) (cs_offset st) (element_syms (cs_counter st) ty i head);
    Some (ConcolicSt buf (cs_offset st + length head) (cs_counter st + 1))
  else
    buf ← copy_at (cs_bytes st) (cs_offset st) (map const_byte head);
    Some (ConcolicSt buf (cs_offset st + length head) (cs_counter st)).

(** One iteration over [tail_data]. *)
Definition concolic_tail_step (st : concolic_st) (x : nat * (bool * string) * list byte)
  : option concolic_st :=
  let '(i, (_, ty), tail) := x in
  if decide (0 < length tail)%nat then
    buf ← copy_at (cs_bytes st) (cs_offset st) (element_syms (cs_counter st) ty i tail);
    Some (ConcolicSt buf (cs_offset st + length tail) (cs_counter st + 1))
  else Some st.

(** [AArray::get_concolic]; [infos] are the flags and type names of the elements. *)
Definition aarray_get_concolic (elems : list (bool * list byte)) (infos : list (bool * string))
    (dynamic_size : bool) (counter : N) : option (list Expr * N) :=
  let ht := collect_head_tail elems in
  let '(head_data, head_data_size, tail_data_size) := compute_head_data ht in
  let bytes := replicate (head_data_size + tail_data_size + (if dynamic_size then 32 else 0))
                         (const_byte x00) in
  let bytes := if dynamic_size then set_size_concolic bytes (Z.of_nat (length elems)) else bytes in
  let offset := if dynamic_size then 32%nat else 0%nat in
  let index (l : list (list byte)) := zip (zip (seq 0 (length l)) infos) l in
  st ← foldM concolic_head_step (ConcolicSt bytes offset counter) (index head_data);
  st ← foldM concolic_tail_step st (index (ht_tail ht));
  Some (cs_bytes st, cs_counter st).

(** The trait method [get_concolic]; [AUnknown] panics. *)
Definition get_concolic (a : ABI) (counter : N) : option (list Expr * N) :=
  match a with
  | AEmpty => Some ([], counter)
  | A256 data _ _ _ => a256_get_concolic data counter
  | ADynamic data multiplier => adynamic_get_concolic data multiplier counter
  | AArray data dynamic_size =>
      elems ← mapM_opt (λ x, static ← is_static (boxed_b x);
                             encoded ← get_bytes (boxed_b x);
                             Some (static, encoded)) data;
      aarray_get_concolic elems (zip (map fst elems) (map get_type_str data)) dynamic_size counter
  | AUnknown _ _ => None
  end.

(** [BoxedABI::get_concolic] *)
Definition boxed_get_concolic (x : BoxedABI) (counter : N) : option (list Expr * N) :=
  r ← get_concolic (boxed_b x) counter;
  Some (map const_byte (sel_bytes (boxed_function x)) ++ fst r, snd r).

(** ** Examples *)

Definition word (n : Z) : list byte := z2be 32 n.

(** [f(uint256 7, string "ab")] *)
Definition example_tuple : ABI :=
  AArray [BoxedABI_new (A256 (z2be 32 7) false false false);
          BoxedABI_new (ADynamic [x61; x62] 32)] false.

Example example_tuple_bytes :
  get_bytes example_tuple =
  Some (word 7 ++ word 64 ++ word 2 ++ [x61; x62] ++ replicate 30 x00).
Proof. vm_compute. reflexivity. Qed.

Example example_tuple_roundtrip :
  (bs ← get_bytes example_tuple;
   set_bytes (AArray [BoxedABI_new (A256 (z2be 32 0) false false false);
                      BoxedABI_new (ADynamic [] 32)] false) bs) = Some example_tuple.
Proof. vm_compute. reflexivity. Qed.

Example example_tuple_types :
  get_basic_types example_tuple = Some [TvIntN 32; TvOffset; TvLength; TvStrBytesN 2].
Proof. vm_compute. reflexivity. Qed.
