(* ===== verification/AbiLayout.v ===== *)
(** * The layout of encoded ABI values

    The loops of [AArray::get_bytes] that fill a zeroed buffer at running offsets
    refine the head/tail layout of the Solidity ABI: [enc] below is that layout
    as one recursive equation, and [get_bytes] is proved to compute it. *)
From S2P Require Import Prelude Types Expr Abi.
#[local] Open Scope Z_scope.

(** ** Induction over nested ABI values *)
Section induction.
  Context (P : ABI → Prop).
  Context (HE : P AEmpty)
          (HW : ∀ data a d b, P (A256 data a d b))
          (HD : ∀ data m, P (ADynamic data m))
          (HA : ∀ data dyn, Forall (λ x, P (boxed_b x)) data → P (AArray data dyn))
          (HU : ∀ x n, P (boxed_b x) → P (AUnknown x n)).

Fixpoint ABI_nested_ind (a : ABI) : P a :=
    match a with
    | AEmpty => HE
    | A256 data x y z => HW data x y z
    | ADynamic data m => HD data m
    | AArray data dyn =>
        HA data dyn
          ((fix go (l : list BoxedABI) : Forall (λ x, P (boxed_b x)) l :=
              match l with
              | [] => Forall_nil_2 _
              | mkBoxedABI b f :: l' => Forall_cons_2 _ (mkBoxedABI b f) l' (ABI_nested_ind b) (go l')
              end) data)
    | AUnknown (mkBoxedABI b f) n => HU (mkBoxedABI b f) n (ABI_nested_ind b)
    end.
End induction.

(** ** Size words *)

Lemma land_255 z : Z.land z 255 = z mod 256.
Proof. change 255 with (Z.ones 8). by rewrite Z.land_ones. Qed.

Lemma shiftr_8 z : Z.shiftr z 8 = z / 256.
Proof. by rewrite Z.shiftr_div_pow2. Qed.

Lemma z2b_mod z : z2b (z mod 256) = z2b z.
Proof. apply b2z_inj. rewrite !b2z_z2b. by rewrite Z.mod_mod. Qed.

(** After [n] more iterations the last [n] of the first [32 - i] cells are set. *)
Lemma set_size_loop_spec {A} (inj : byte → A) n i z pre mid post :
  (n + i ≤ 32)%nat → length pre = (32 - i - n)%nat → length mid = n →
  set_size_loop inj n i z (pre ++ mid ++ post) = pre ++ map inj (z2be n z) ++ post.
Proof.
  revert i z mid post. induction n as [|n IH]; intros i z mid post Hi Hpre Hmid; simpl.
  - by destruct mid.
  - destruct mid as [|m0 mid _] using rev_ind; [done|].
    rewrite length_app in Hmid; simpl in Hmid.
    rewrite <- app_assoc. replace (31 - i)%nat with (length pre + (length mid + 0))%nat by lia.
    rewrite insert_app_r, insert_app_r. simpl.
    rewrite (IH (S i)) by lia. rewrite land_255, shiftr_8, z2b_mod, z2be_S, map_app. simpl.
    by rewrite <- app_assoc.
Qed.

Lemma set_size_app pre post len :
  length pre = 32%nat → set_size (pre ++ post) len = word len ++ post.
Proof.
  intros E. unfold set_size, word.
  pose proof (set_size_loop_spec id 32 0 len [] pre post ltac:(lia) eq_refl E) as H.
  simpl app in H. exact H.
Qed.

Lemma set_size_32 len : set_size (replicate 32 x00) len = word len.
Proof.
  rewrite <- (app_nil_r (replicate 32 x00)), set_size_app by len. apply app_nil_r.
Qed.

Lemma set_size_replicate n len :
  set_size (replicate (32 + n) x00) len = word len ++ replicate n x00.
Proof. rewrite replicate_add. apply set_size_app. len. Qed.

Lemma length_word n : length (word n) = 32%nat.
Proof. apply length_z2be. Qed.
#[export] Hint Rewrite length_word : mau_len.

Lemma get_size_prefix bytes n :
  (n ≤ length bytes)%nat →
  foldM (get_size_step bytes) 0 (seq 0 n) = Some (be2z (take n bytes) mod 2 ^ 64).
Proof.
  induction n as [|n IH]; intros Hn; [done|].
  rewrite seq_S, foldM_app, IH by lia. simpl.
  unfold get_size_step. destruct (bytes !! n) as [b|] eqn:E.
  2:{ apply lookup_ge_None in E. lia. }
  simpl. rewrite (take_S_r _ _ _ E), be2z_snoc. f_equal. unfold u64, wrap.
  rewrite Z.shiftl_mul_pow2 by lia. change (2 ^ 8) with 256.
  rewrite Zplus_mod_idemp_l. rewrite (Zplus_mod (_ * 256)), Zmult_mod_idemp_l, <- Zplus_mod. done.
Qed.

Lemma get_size_spec bytes :
  (32 ≤ length bytes)%nat → get_size bytes = Some (be2z (take 32 bytes) mod 2 ^ 64).
Proof. apply get_size_prefix. Qed.

Lemma get_size_word n rest :
  0 ≤ n < 2 ^ 64 → get_size (word n ++ rest) = Some n.
Proof.
  intros H. rewrite get_size_spec by len. f_equal.
  rewrite take_app_le, take_ge by len. unfold word. rewrite be2z_z2be.
  rewrite (Z.mod_small n) by (simpl; lia). by apply Z.mod_small.
Qed.

Lemma be2z_word n : 0 ≤ n < 2 ^ 256 → be2z (word n) = n.
Proof. intros H. unfold word. rewrite be2z_z2be. by apply Z.mod_small. Qed.

#[global] Opaque word.

(** ** The three loops in closed form *)

Definition elem_head (e : bool * list byte) : list byte := if e.1 then e.2 else [].
Definition elem_tail (e : bool * list byte) : list byte := if e.1 then [] else e.2.
Definition elem_head_size (e : bool * list byte) : nat := if e.1 then length e.2 else 32%nat.
Definition head_size (elems : list (bool * list byte)) : nat := nsum (map elem_head_size elems).

Lemma collect_head_tail_spec elems :
  collect_head_tail elems =
  HeadTail (map elem_head elems) (map elem_tail elems) (head_size elems).
Proof.
  unfold collect_head_tail.
  induction elems as [|[s e] elems IH] using rev_ind; [done|].
  rewrite fold_left_app, IH. simpl. rewrite !map_app. unfold head_size.
  rewrite map_app, nsum_app. destruct s; cbn; f_equal; lia.
Qed.

(** The running offsets of a list of blocks placed from [off] on. *)
Fixpoint offsets (off : nat) (l : list (list byte)) : list nat :=
  match l with
  | [] => []
  | x :: l' => off :: offsets (off + length x) l'
  end.

Lemma tails_offset_fold l offs c :
  fold_left tails_offset_step (removelast l) (offs ++ [c], c) =
  match l with
  | [] => (offs ++ [c], c)
  | _ => (offs ++ offsets c l, c + nsum (map length (removelast l)))%nat
  end.
Proof.
  revert offs c. induction l as [|x l IH]; intros offs c; [done|].
  destruct l as [|y l']; [by simpl; rewrite Nat.add_0_r|].
  set (l := y :: l') in *.
  change (removelast (x :: l)) with (x :: removelast l).
  cbn [fold_left]. unfold tails_offset_step at 2.
  rewrite IH. unfold l. rewrite <- app_assoc. f_equal. simpl. lia.
Qed.

Lemma compute_tails_offset_spec l :
  l ≠ [] →
  compute_tails_offset l = (offsets 0 l, nsum (map length (removelast l))).
Proof.
  intros H. unfold compute_tails_offset. pose proof (tails_offset_fold l [] 0) as E.
  by destruct l.
Qed.

Lemma nsum_removelast_last (l : list (list byte)) :
  l ≠ [] →
  (nsum (map length (removelast l)) + length (List.last l []))%nat = nsum (map length l).
Proof.
  intros H. rewrite (app_removelast_last [] H) at 3. rewrite map_app, nsum_app. simpl. lia.
Qed.

Lemma copy_loop_spec (xs : list (list byte)) pre mid post :
  length mid = nsum (map length xs) →
  foldM copy_step (pre ++ mid ++ post, length pre) xs =
  Some (pre ++ concat xs ++ post, length pre + length mid)%nat.
Proof.
  revert pre mid. induction xs as [|x xs IH]; intros pre mid E; simpl in *.
  - destruct mid; [|done]. by rewrite Nat.add_0_r.
  - assert (∃ m1 m2, mid = m1 ++ m2 ∧ length m1 = length x) as (m1 & m2 & -> & E1).
    { exists (take (length x) mid), (drop (length x) mid).
      rewrite take_drop, length_take. split; [done|lia]. }
    rewrite length_app in E. rewrite <- app_assoc.
    rewrite (copy_at_app pre m1 (m2 ++ post) x) by done. cbn [mbind option_bind].
    rewrite app_assoc. rewrite <- length_app.
    rewrite IH by lia. rewrite !length_app. simpl. rewrite <- !app_assoc.
    f_equal. f_equal. lia.
Qed.

(** ** The head/tail layout *)

(** The heads of a sequence whose first tail starts at [off]: a static element is
    stored in place, a dynamic one by the offset of its tail. *)
Fixpoint spec_heads (off : nat) (elems : list (bool * list byte)) : list (list byte) :=
  match elems with
  | [] => []
  | e :: l => (if e.1 then e.2 else word (Z.of_nat off)) :: spec_heads (off + length (elem_tail e)) l
  end.

(** The layout of the Solidity ABI for a sequence of encoded elements. *)
Definition layout (elems : list (bool * list byte)) (dynamic_size : bool) : list byte :=
  (if dynamic_size then word (Z.of_nat (length elems)) else []) ++
  concat (spec_heads (head_size elems) elems) ++
  concat (map elem_tail elems).

(** No static element encodes to the empty string. *)
Definition heads_ok (elems : list (bool * list byte)) : Prop :=
  Forall (λ e, e.1 = true → e.2 ≠ []) elems.

Lemma head_data_spec hs o elems :
  heads_ok elems →
  zip_with (head_data_entry hs) (map elem_head elems) (offsets o (map elem_tail elems)) =
  spec_heads (o + hs) elems.
Proof.
  intros H. revert o. induction H as [|[s e] elems He _ IH]; intros o; [done|].
  cbn [map offsets zip_with spec_heads]. rewrite IH. f_equal; [|f_equal; lia].
  unfold head_data_entry, elem_head. simpl in *. destruct s; simpl.
  - rewrite decide_False; [done|]. destruct e; [by destruct He|done].
  - apply set_size_32.
Qed.

Lemma length_spec_heads off elems :
  nsum (map length (spec_heads off elems)) = head_size elems.
Proof.
  revert off. induction elems as [|[s e] elems IH]; intros off; [done|].
  cbn [spec_heads map]. unfold head_size in *. cbn [map]. rewrite !nsum_cons, IH.
  f_equal. unfold elem_head_size. destruct s; simpl; len.
Qed.

Lemma compute_head_data_spec elems :
  heads_ok elems →
  compute_head_data (collect_head_tail elems) =
  (spec_heads (head_size elems) elems, head_size elems, nsum (map length (map elem_tail elems))).
Proof.
  intros H. rewrite collect_head_tail_spec. unfold compute_head_data. cbn [ht_tail ht_head ht_head_size].
  destruct elems as [|e0 elems']; [done|].
  remember (e0 :: elems') as elems eqn:E0.
  rewrite compute_tails_offset_spec by (by subst).
  rewrite decide_True by (subst; simpl; lia).
  rewrite head_data_spec by done. rewrite length_spec_heads.
  rewrite nsum_removelast_last by (by subst). done.
Qed.

(** The buffer-filling loops produce the layout. *)
Lemma aarray_get_bytes_layout elems dyn :
  heads_ok elems → aarray_get_bytes elems dyn = Some (layout elems dyn).
Proof.
  intros H. unfold aarray_get_bytes. rewrite compute_head_data_spec by done.
  rewrite collect_head_tail_spec. cbn [ht_tail].
  set (heads := spec_heads (head_size elems) elems).
  set (tails := map elem_tail elems).
  set (pre := if dyn then word (Z.of_nat (length elems)) else []).
  assert (Hb : (if dyn
                then set_size (replicate (head_size elems + nsum (map length tails) + 32) x00)
                       (Z.of_nat (length elems))
                else replicate (head_size elems + nsum (map length tails) + 0) x00)
               = pre ++ replicate (head_size elems) x00 ++ replicate (nsum (map length tails)) x00).
  { unfold pre. destruct dyn.
    - rewrite (Nat.add_comm _ 32), set_size_replicate. by rewrite replicate_add.
    - by rewrite Nat.add_0_r, replicate_add. }
  assert (Ho : (if dyn then 32%nat else 0%nat) = length pre).
  { unfold pre. destruct dyn; len. }
  assert (E : (if dyn
                then set_size (replicate (head_size elems + nsum (map length tails) + (if dyn then 32 else 0)) x00)
                       (Z.of_nat (length elems))
                else replicate (head_size elems + nsum (map length tails) + (if dyn then 32 else 0)) x00)
               = pre ++ replicate (head_size elems) x00 ++ replicate (nsum (map length tails)) x00)
    by (by destruct dyn).
  rewrite E, Ho.
  rewrite (copy_loop_spec heads) by (rewrite length_replicate; unfold heads; by rewrite length_spec_heads).
  cbn [mbind option_bind].
  rewrite length_replicate. replace (length pre + head_size elems)%nat with (length (pre ++ concat heads)).
  2:{ rewrite length_app, length_concat. unfold heads. by rewrite length_spec_heads. }
  rewrite app_assoc.
  rewrite <- (app_nil_r (replicate (nsum (map length tails)) x00)).
  rewrite (copy_loop_spec tails) by len.
  cbn [mbind option_bind fst]. rewrite app_nil_r, <- app_assoc. done.
Qed.

(** ** The encoding of a value *)

(** Whether the type of a value is dynamic, and its ABI encoding. *)
Fixpoint dynb (a : ABI) : bool :=
  match a with
  | AEmpty => false
  | A256 _ _ _ _ => false
  | ADynamic _ _ => true
  | AArray data dyn => dyn || existsb (λ x, match x with mkBoxedABI b _ => dynb b end) data
  | AUnknown (mkBoxedABI b _) _ => dynb b
  end.

Definition padding (n : nat) : nat := ((32 - n mod 32) mod 32)%nat.

Fixpoint enc (a : ABI) : list byte :=
  match a with
  | AEmpty => []
  | A256 data _ _ _ => replicate (32 - length data) x00 ++ data
  | ADynamic data _ => word (Z.of_nat (length data)) ++ data ++ replicate (padding (length data)) x00
  | AArray data dyn =>
      layout (map (λ x, match x with mkBoxedABI b _ => (negb (dynb b), enc b) end) data) dyn
  | AUnknown (mkBoxedABI b _) _ => enc b
  end.

(** Values that may stand inside a tuple or an array: words of at most 32
    bytes, padding to 32 bytes, no [AEmpty] (its [is_static] panics) and no
    empty fixed-size array. *)
Fixpoint elem_ok (a : ABI) : bool :=
  match a with
  | AEmpty => false
  | A256 data _ _ _ => (length data <=? 32)%nat
  | ADynamic _ m => (m =? 32)%nat
  | AArray data dyn =>
      (dyn || negb (length data =? 0)%nat) &&
      forallb (λ x, match x with mkBoxedABI b _ => elem_ok b end) data
  | AUnknown (mkBoxedABI b _) _ => elem_ok b
  end.

(** Values whose bytes the fuzzer sends: an element, no argument at all, or a
    tuple or array of elements. *)
Fixpoint encodable (a : ABI) : bool :=
  match a with
  | AEmpty => true
  | AArray data dyn => forallb (λ x, elem_ok (boxed_b x)) data
  | AUnknown (mkBoxedABI b _) _ => encodable b
  | _ => elem_ok a
  end.

(** The flag and the encoding of one boxed element. *)
Definition elem_enc (x : BoxedABI) : bool * list byte := (negb (dynb (boxed_b x)), enc (boxed_b x)).

Lemma enc_array data dyn : enc (AArray data dyn) = layout (map elem_enc data) dyn.
Proof. simpl. f_equal. apply map_ext. by intros [b f]. Qed.

Lemma elem_ok_array data dyn :
  elem_ok (AArray data dyn) = true →
  (dyn = true ∨ data ≠ []) ∧ Forall (λ x, elem_ok (boxed_b x) = true) data.
Proof.
  simpl. rewrite andb_true_iff, orb_true_iff, negb_true_iff, Nat.eqb_neq, forallb_forall.
  intros [H1 H2]. split.
  - destruct H1; [by left|right]. by destruct data.
  - apply Forall_forall. intros [b f] Hin. apply (H2 (mkBoxedABI b f)). by apply list_elem_of_In.
Qed.

Lemma roundup_32 n : roundup n 32 = Some (n + padding n)%nat.
Proof.
  unfold roundup, padding. rewrite decide_False by lia. f_equal.
  pose proof (Nat.div_mod_eq n 32) as E. pose proof (Nat.mod_upper_bound n 32 ltac:(lia)) as B.
  set (r := (n mod 32)%nat) in *. set (q := (n / 32)%nat) in *.
  replace (n + 32 - 1)%nat with (q * 32 + (r + 31))%nat by lia.
  rewrite Nat.div_add_l by lia.
  destruct (decide (r = 0%nat)) as [->|Hr].
  - rewrite Nat.sub_0_r. change ((0 + 31) / 32)%nat with 0%nat.
    change (32 mod 32)%nat with 0%nat. lia.
  - rewrite (Nat.mod_small (32 - r)) by lia.
    replace (r + 31)%nat with (1 * 32 + (r - 1))%nat by lia.
    rewrite Nat.div_add_l, (Nat.div_small (r - 1)) by lia. lia.
Qed.

Lemma existsb_false_forallb {A} (f : A → bool) l : negb (existsb f l) = forallb (λ x, negb (f x)) l.
Proof. induction l; simpl; [done|]. by rewrite negb_orb, IHl. Qed.

(** [is_static] does not panic on an element, and tells its class. *)
Lemma is_static_elem a : elem_ok a = true → is_static a = Some (negb (dynb a)).
Proof.
  induction a as [| | |data dyn IH|[b f] n IH] using ABI_nested_ind; try done.
  intros [_ H]%elem_ok_array. simpl. destruct dyn; [done|]. simpl.
  rewrite existsb_false_forallb.
  apply (allM_Some _ (λ x, negb match x with mkBoxedABI b _ => dynb b end)).
  apply Forall_forall. intros [b f] Hin. rewrite Forall_forall in IH, H.
  apply (IH _ Hin (H _ Hin)).
Qed.

Lemma a256_get_bytes_spec data :
  (length data ≤ 32)%nat →
  a256_get_bytes data = Some (replicate (32 - length data) x00 ++ data).
Proof.
  intros H. unfold a256_get_bytes. rewrite decide_True by done.
  replace (replicate 32 x00) with
    (replicate (32 - length data) x00 ++ replicate (length data) x00 ++ []).
  2:{ rewrite app_nil_r, <- replicate_add. f_equal. lia. }
  rewrite copy_at_app by len. by rewrite app_nil_r.
Qed.

Lemma adynamic_get_bytes_spec data :
  adynamic_get_bytes data 32 =
  Some (word (Z.of_nat (length data)) ++ data ++ replicate (padding (length data)) x00).
Proof.
  unfold adynamic_get_bytes. rewrite roundup_32. cbn [mbind option_bind].
  rewrite (Nat.add_comm _ 32), set_size_replicate, replicate_add.
  apply copy_at_app; len.
Qed.

(** An element encodes to at least one 32-byte word, and to whole words. *)
Definition words (l : list byte) (n : nat) : Prop := length l = (32 * n)%nat.

Lemma words_app l k m n : words l m → words k n → words (l ++ k) (m + n).
Proof. unfold words. rewrite length_app. lia. Qed.

Lemma words_concat (l : list (list byte)) :
  Forall (λ x, ∃ n, words x n) l → ∃ n, words (concat l) n.
Proof.
  induction 1 as [|x l [m Hm] _ [n Hn]]; simpl; [by exists 0%nat|].
  exists (m + n)%nat. by apply words_app.
Qed.

Lemma word_words n : words (word n) 1.
Proof. unfold words. len. Qed.

Definition elem_words (e : bool * list byte) : Prop := ∃ n, words e.2 (S n).

Lemma spec_heads_words off elems :
  Forall elem_words elems → Forall (λ x, ∃ n, words x (S n)) (spec_heads off elems).
Proof.
  intros H. revert off. induction H as [|[s e] elems He _ IH]; intros off; simpl; constructor.
  - simpl. destruct s; [done|]. exists 0%nat. apply word_words.
  - apply IH.
Qed.

Lemma elem_words_heads_ok elems : Forall elem_words elems → heads_ok elems.
Proof.
  intros H. eapply Forall_impl; [exact H|]. intros [s e] [n Hn] _ Ee. simpl in *.
  rewrite Ee in Hn. unfold words in Hn. simpl in Hn. lia.
Qed.

Lemma elem_tail_words elems :
  Forall elem_words elems → ∃ n, words (concat (map elem_tail elems)) n.
Proof.
  intros H. apply words_concat, Forall_map. eapply Forall_impl; [exact H|].
  intros [s e] [n Hn]. unfold elem_tail. simpl. destruct s; [by exists 0%nat|by exists (S n)].
Qed.

(** A layout is made of whole words, and it is empty only for an empty tuple. *)
Lemma layout_words elems dyn :
  Forall elem_words elems →
  ∃ n, words (layout elems dyn) (n + (if dyn || negb (length elems =? 0)%nat then 1 else 0)).
Proof.
  intros H. unfold layout.
  destruct (elem_tail_words _ H) as [t Ht].
  assert (∃ h, words (concat (spec_heads (head_size elems) elems))
                 (h + (if (length elems =? 0)%nat then 0 else 1))) as [h Hh].
  { pose proof (spec_heads_words (head_size elems) elems H) as Hs.
    destruct elems as [|e elems]; [by exists 0%nat|]. simpl in *.
    inversion Hs as [|? ? [n Hn] Hs' E]; subst.
    destruct (words_concat (spec_heads (head_size (e :: elems) + length (elem_tail e)) elems)) as [m Hm].
    { eapply Forall_impl; [exact Hs'|]. intros x [k ?]. by exists (S k). }
    exists (n + m)%nat. replace (n + m + 1)%nat with (S n + m)%nat by lia. by apply words_app. }
  destruct dyn; simpl.
  - exists (h + (if (length elems =? 0)%nat then 0 else 1) + t)%nat.
    rewrite (Nat.add_comm _ 1). apply words_app; [apply word_words|]. by apply words_app.
  - destruct (length elems =? 0)%nat; simpl in *.
    + exists (h + t)%nat. rewrite Nat.add_0_r in *. by apply words_app.
    + exists (h + t)%nat. replace (h + t + 1)%nat with (h + 1 + t)%nat by lia. by apply words_app.
Qed.

Lemma enc_elem_words a : elem_ok a = true → ∃ n, words (enc a) (S n).
Proof.
  induction a as [|data ? ? ?|data m|data dyn IH|[b f] n IH] using ABI_nested_ind; try done.
  - simpl. intros H%Nat.leb_le. exists 0%nat. unfold words. len.
  - intros _. simpl. unfold words. rewrite !length_app, length_word, length_replicate.
    pose proof (Nat.div_mod_eq (length data) 32). pose proof (Nat.mod_upper_bound (length data) 32 ltac:(lia)).
    unfold padding. destruct (decide (length data mod 32 = 0)%nat) as [E|E].
    + rewrite E in *. change ((32 - 0) mod 32)%nat with 0%nat. exists (length data / 32)%nat. lia.
    + rewrite (Nat.mod_small (32 - _)) by lia. exists (length data / 32 + 1)%nat. lia.
  - intros [Hne H]%elem_ok_array. rewrite enc_array.
    destruct (layout_words (map elem_enc data) dyn) as [n Hn].
    { apply Forall_map, Forall_forall. intros x Hin. rewrite Forall_forall in IH, H.
      destruct (IH x Hin (H x Hin)) as [n Hn]. by exists n. }
    exists n. rewrite length_map in Hn. destruct dyn; simpl in Hn.
    + by rewrite Nat.add_comm in Hn.
    + destruct Hne as [?|Hne]; [done|]. destruct data as [|x data]; [done|].
      simpl in *. by rewrite Nat.add_comm in Hn.
Qed.

Lemma elems_words data :
  Forall (λ x, elem_ok (boxed_b x) = true) data → Forall elem_words (map elem_enc data).
Proof.
  intros H. apply Forall_map. eapply Forall_impl; [exact H|].
  intros x [n Hn]%enc_elem_words. by exists n.
Qed.
#[export] Hint Resolve elems_words elem_words_heads_ok : mau.

(** [get_bytes] on the elements of an array. *)
Lemma elems_get_bytes data :
  Forall (λ x, elem_ok (boxed_b x) = true) data →
  Forall (λ x, elem_ok (boxed_b x) = true → get_bytes (boxed_b x) = Some (enc (boxed_b x))) data →
  mapM_opt (λ x, match x with
                 | mkBoxedABI b _ =>
                     static ← is_static b; encoded ← get_bytes b; Some (static, encoded)
                 end) data = Some (map elem_enc data).
Proof.
  intros H IH. apply mapM_opt_Some. apply Forall_forall. intros [b f] Hin.
  rewrite Forall_forall in H, IH. specialize (H _ Hin). specialize (IH _ Hin H).
  cbn [boxed_b] in *. by rewrite (is_static_elem _ H); cbn [mbind option_bind]; rewrite IH.
Qed.

Lemma get_bytes_elem a : elem_ok a = true → get_bytes a = Some (enc a).
Proof.
  induction a as [|data ? ? ?|data m|data dyn IH|[b f] n IH] using ABI_nested_ind; try done.
  - simpl. intros H%Nat.leb_le. by apply a256_get_bytes_spec.
  - simpl. intros ->%Nat.eqb_eq. apply adynamic_get_bytes_spec.
  - intros [_ H]%elem_ok_array. rewrite enc_array. cbn [get_bytes].
    rewrite elems_get_bytes by done. cbn [mbind option_bind].
    apply aarray_get_bytes_layout. eauto with mau.
Qed.

Lemma get_bytes_encodable a : encodable a = true → get_bytes a = Some (enc a).
Proof.
  induction a as [| | |data dyn IH|[b f] n IH] using ABI_nested_ind; try done;
    try (by apply get_bytes_elem).
  intros H. assert (Forall (λ x, elem_ok (boxed_b x) = true) data) as Hok.
  { apply Forall_forall. intros x Hin. cbn [encodable] in H. rewrite forallb_forall in H.
    apply H. by apply list_elem_of_In. }
  rewrite enc_array. cbn [get_bytes]. rewrite elems_get_bytes, obind_Some; [|done|].
  - apply aarray_get_bytes_layout. eauto with mau.
  - apply Forall_forall. intros x _. apply get_bytes_elem.
Qed.

Lemma encodable_words a : encodable a = true → ∃ n, words (enc a) n.
Proof.
  induction a as [| | |data dyn IH|[b f] n IH] using ABI_nested_ind; intros H.
  - by exists 0%nat.
  - apply enc_elem_words in H as [n Hn]. by exists (S n).
  - apply enc_elem_words in H as [n Hn]. by exists (S n).
  - rewrite enc_array. destruct (layout_words (map elem_enc data) dyn) as [n Hn]; [|by eexists].
    apply elems_words. apply Forall_forall. intros x Hin. cbn [encodable] in H.
    rewrite forallb_forall in H. apply H. by apply list_elem_of_In.
  - by apply IH.
Qed.

(** C2. Encoding refines the Solidity ABI layout: on every value whose words have at
    most 32 bytes and whose elements are non-empty, the buffer-filling loops of
    [get_bytes] do not panic, produce the head/tail layout [enc] (static elements in
    place, dynamic ones by the offset of their tail), and fill whole 32-byte words. *)
Theorem get_bytes_refines_layout a :
  encodable a = true → get_bytes a = Some (enc a) ∧ ∃ n, length (enc a) = (32 * n)%nat.
Proof. intros H. split; [by apply get_bytes_encodable|by apply encodable_words]. Qed.

Lemma get_bytes_refines_layout_witness :
  encodable example_tuple = true ∧
  get_bytes example_tuple = Some (enc example_tuple) ∧
  ∃ n, length (enc example_tuple) = (32 * n)%nat.
Proof.
  split; [reflexivity|]. apply (get_bytes_refines_layout example_tuple). reflexivity.
Defined.
