(* ===== verification/AbiTypes.v ===== *)
(** * One basic type per encoded word

    [get_basic_types] tells the GPU mutator what each 32-byte word of an encoded
    value holds.  The buffer-filling loops of [AArray::get_basic_types] are proved
    to compute the types in the order of the head/tail layout, one per word. *)
From S2P Require Import Prelude Types Expr Abi AbiLayout.
#[local] Open Scope Z_scope.

(** ** The type layout *)

(** The type of the only word of an [A256]. *)
Definition word_type (data : list byte) (is_address is_bytes : bool) : BasicVarType :=
  if is_address then TvAddress
  else if is_bytes then (if (length data =? 0)%nat then TvBool else TvStrBytesN (length data))
  else (if (length data =? 0)%nat then TvNone else TvIntN (length data)).

(** The types of the words of a byte string: its length, then its chunks. *)
Definition chunk_types (n : nat) : list BasicVarType :=
  TvLength :: replicate (n / 32) (TvStrBytesN 32) ++
  (if (n mod 32 =? 0)%nat then [] else [TvStrBytesN (n mod 32)]).

(** The types of the words of an encoded value, in the head/tail order of [enc]. *)
Fixpoint word_types (a : ABI) : list BasicVarType :=
  match a with
  | AEmpty => []
  | A256 data is_address _ is_bytes => [word_type data is_address is_bytes]
  | ADynamic data _ => chunk_types (length data)
  | AArray data dyn =>
      (if dyn then [TvLength] else []) ++
      concat (map (λ x, match x with
                        | mkBoxedABI b _ => if dynb b then [TvOffset] else word_types b
                        end) data) ++
      concat (map (λ x, match x with
                        | mkBoxedABI b _ => if dynb b then word_types b else []
                        end) data)
  | AUnknown (mkBoxedABI b _) _ => word_types b
  end.

(** Elements without [AUnknown], whose [get_basic_types] is a placeholder. *)
Fixpoint known (a : ABI) : bool :=
  match a with
  | AUnknown _ _ => false
  | AArray data _ => forallb (λ x, match x with mkBoxedABI b _ => known b end) data
  | _ => true
  end.

Definition typed (a : ABI) : bool := elem_ok a && known a.

Lemma typed_array data dyn :
  typed (AArray data dyn) = true →
  elem_ok (AArray data dyn) = true ∧ Forall (λ x, typed (boxed_b x) = true) data.
Proof.
  unfold typed. rewrite andb_true_iff. intros [H1 H2]. split; [done|].
  apply elem_ok_array in H1 as [_ H1]. rewrite Forall_forall in H1 |- *.
  intros x Hin. rewrite (H1 _ Hin). simpl in *. rewrite forallb_forall in H2.
  destruct x as [b f]. apply (H2 (mkBoxedABI b f)). by apply list_elem_of_In.
Qed.

Lemma typed_elem_ok a : typed a = true → elem_ok a = true.
Proof. unfold typed. by intros [? ?]%andb_true_iff. Qed.
#[export] Hint Resolve typed_elem_ok : mau.

(** ** Leaves *)

Lemma tv_transmute_int n :
  (1 ≤ n ≤ 32)%nat → tv_transmute (Z.of_nat n) = Some (TvIntN n).
Proof.
  intros H. unfold tv_transmute.
  destruct (Z.eqb_spec (Z.of_nat n) 0); [lia|].
  destruct (Z.leb_spec (Z.of_nat n) 32); [|lia]. by rewrite Nat2Z.id.
Qed.

Lemma tv_transmute_bytes n :
  (1 ≤ n ≤ 32)%nat → tv_transmute (34 + Z.of_nat n) = Some (TvStrBytesN n).
Proof.
  intros H. unfold tv_transmute.
  destruct (Z.eqb_spec (34 + Z.of_nat n) 0); [lia|].
  destruct (Z.leb_spec (34 + Z.of_nat n) 32); [lia|].
  destruct (Z.eqb_spec (34 + Z.of_nat n) 33); [lia|].
  destruct (Z.eqb_spec (34 + Z.of_nat n) 34); [lia|].
  destruct (Z.leb_spec (34 + Z.of_nat n) 66); [|lia].
  do 2 f_equal. lia.
Qed.

Lemma a256_types data is_address is_bytes :
  (length data ≤ 32)%nat →
  a256_get_basic_types data is_address is_bytes = Some [word_type data is_address is_bytes].
Proof.
  intros H. unfold a256_get_basic_types, word_type. destruct is_address; [done|].
  unfold u8z. rewrite (wrap_small 8 (Z.of_nat _)) by (simpl; lia).
  rewrite !wrap_small by (simpl; lia).
  destruct (Nat.eqb_spec (length data) 0) as [->|Hn]; [by destruct is_bytes|].
  destruct is_bytes; cbn [tv_as_u8].
  - replace (34 + Z.of_nat 1 + Z.of_nat (length data) - 1) with (34 + Z.of_nat (length data)) by lia.
    by rewrite tv_transmute_bytes by lia.
  - replace (Z.of_nat 1 + Z.of_nat (length data) - 1) with (Z.of_nat (length data)) by lia.
    by rewrite tv_transmute_int by lia.
Qed.

Lemma adynamic_types data :
  adynamic_get_basic_types data 32 = Some (chunk_types (length data)).
Proof.
  unfold adynamic_get_basic_types, chunk_types. rewrite decide_False by lia.
  set (r := (length data mod 32)%nat).
  assert (r < 32)%nat by (unfold r; apply Nat.mod_upper_bound; lia).
  destruct (Nat.eqb_spec r 0) as [E|E].
  - rewrite decide_True by done. by rewrite app_nil_r.
  - rewrite decide_False by done. unfold u8z.
    cbn [tv_as_u8]. rewrite (wrap_small 8 (Z.of_nat r)) by (simpl; lia).
    rewrite wrap_small by (simpl; lia).
    replace (34 + Z.of_nat 1 + Z.of_nat r - 1) with (34 + Z.of_nat r) by lia.
    rewrite tv_transmute_bytes by lia. done.
Qed.

(** ** The copying loop *)

Lemma flag_copy_loop (xs : list (list byte * list BasicVarType)) pre mid post :
  Forall (λ x, words x.1 (length x.2)) xs →
  length mid = nsum (map length (map snd xs)) →
  foldM flag_copy_step (pre ++ mid ++ post, 32 * length pre)%nat xs =
  Some (pre ++ concat (map snd xs) ++ post, 32 * (length pre + length mid))%nat.
Proof.
  intros H. revert pre mid. induction H as [|[bs ts] xs Hx _ IH]; intros pre mid E.
  - destruct mid; [|done]. cbn [foldM map concat length app]. by rewrite Nat.add_0_r.
  - assert (∃ m1 m2, mid = m1 ++ m2 ∧ length m1 = length ts) as (m1 & m2 & -> & E1).
    { cbn [map] in E. rewrite nsum_cons in E. cbn [snd] in E. exists (take (length ts) mid), (drop (length ts) mid).
      rewrite take_drop, length_take. split; [done|lia]. }
    cbn [map] in E. rewrite nsum_cons, length_app in E. cbn [snd] in E.
    unfold words in Hx. cbn [fst snd] in Hx. cbn [foldM flag_copy_step]. rewrite Hx.
    replace (32 * length pre + 32 * length ts)%nat with ((length pre + length ts) * 32)%nat by lia.
    rewrite (Nat.mul_comm 32 (length pre)), !Nat.div_mul by lia.
    rewrite decide_True by done. rewrite <- app_assoc.
    rewrite (copy_at_app pre m1 (m2 ++ post) ts) by done. cbn [mbind option_bind].
    rewrite app_assoc.
    replace ((length pre + length ts) * 32)%nat with (32 * length (pre ++ ts))%nat
      by (rewrite length_app; lia).
    rewrite IH by lia. cbn [map concat snd]. rewrite !length_app. rewrite <- !app_assoc.
    f_equal. f_equal. rewrite E1. clear. lia.
Qed.

(** The elements of an array with their encodings and types. *)
Definition elem_types (x : BoxedABI) : bool * list byte * list BasicVarType :=
  (elem_enc x, word_types (boxed_b x)).

Definition head_type (x : BoxedABI) : list BasicVarType :=
  if dynb (boxed_b x) then [TvOffset] else word_types (boxed_b x).
Definition tail_type (x : BoxedABI) : list BasicVarType :=
  if dynb (boxed_b x) then word_types (boxed_b x) else [].

Lemma word_types_array data dyn :
  word_types (AArray data dyn) =
  (if dyn then [TvLength] else []) ++ concat (map head_type data) ++ concat (map tail_type data).
Proof. simpl. f_equal. f_equal; f_equal; apply map_ext; by intros [b f]. Qed.

(** Every element takes as many words as it has types. *)
Definition types_fit (x : BoxedABI) : Prop :=
  words (enc (boxed_b x)) (length (word_types (boxed_b x))) ∧ enc (boxed_b x) ≠ [].

Lemma head_zip data off :
  Forall types_fit data →
  Forall (λ x : list byte * list BasicVarType, words x.1 (length x.2))
    (zip (spec_heads off (map elem_enc data)) (map head_type data)).
Proof.
  intros H. revert off. induction H as [|x data [Hx _] _ IH]; intros off; simpl; constructor; [|apply IH].
  unfold head_type, elem_enc. simpl. destruct (dynb (boxed_b x)); simpl; [apply word_words|done].
Qed.

Lemma tail_zip data :
  Forall types_fit data →
  Forall (λ x : list byte * list BasicVarType, words x.1 (length x.2))
    (zip (map elem_tail (map elem_enc data)) (map tail_type data)).
Proof.
  intros H. induction H as [|x data [Hx _] _ IH]; simpl; constructor; [|done].
  unfold tail_type, elem_tail, elem_enc. simpl. by destruct (dynb (boxed_b x)).
Qed.

Lemma length_spec_heads_list off elems : length (spec_heads off elems) = length elems.
Proof. revert off. induction elems as [|e elems IH]; intros off; simpl; [done|]. by rewrite IH. Qed.

Lemma head_flags data :
  Forall types_fit data →
  zip_with (λ (head : list byte) ts, if decide (length head = 0%nat) then [TvOffset] else ts)
    (map elem_head (map elem_enc data))
    (map (λ '(s, _, ts), if (s : bool) then ts else []) (map elem_types data)) =
  map head_type data.
Proof.
  induction 1 as [|x data [_ Hx] _ IH]; [done|]. cbn [map zip_with]. rewrite IH. f_equal.
  unfold elem_head, elem_types, elem_enc, head_type. simpl.
  destruct (dynb (boxed_b x)); simpl; [done|]. rewrite decide_False; [done|].
  by destruct (enc (boxed_b x)).
Qed.

Lemma tail_flags data :
  map (λ '(s, _, ts), if (s : bool) then [] else ts) (map elem_types data) = map tail_type data.
Proof.
  induction data as [|x data IH]; [done|]. cbn [map]. rewrite IH. f_equal.
  unfold elem_types, elem_enc, tail_type. simpl. by destruct (dynb (boxed_b x)).
Qed.

Lemma map_fst_elem_types data : map fst (map elem_types data) = map elem_enc data.
Proof. rewrite map_map. done. Qed.

(** Sizes in bytes and in types agree. *)
Lemma head_size_types data :
  Forall types_fit data → head_size (map elem_enc data) = (32 * nsum (map length (map head_type data)))%nat.
Proof.
  induction 1 as [|x data [Hx _] _ IH]; [done|]. unfold head_size in *. cbn [map].
  rewrite !nsum_cons, IH. unfold elem_head_size, elem_enc, head_type, words in *. cbn [fst snd].
  destruct (dynb (boxed_b x)); simpl; lia.
Qed.

Lemma tail_size_types data :
  Forall types_fit data →
  nsum (map length (map elem_tail (map elem_enc data))) = (32 * nsum (map length (map tail_type data)))%nat.
Proof.
  induction 1 as [|x data [Hx _] _ IH]; [done|]. cbn [map].
  rewrite !nsum_cons, IH. unfold elem_tail, elem_enc, tail_type, words in *. cbn [fst snd].
  destruct (dynb (boxed_b x)); simpl; lia.
Qed.

Lemma types_fit_heads_ok data : Forall types_fit data → heads_ok (map elem_enc data).
Proof.
  intros H. apply Forall_map. eapply Forall_impl; [exact H|]. intros x [_ Hx] _. done.
Qed.

Lemma snd_zip_heads data off :
  map snd (zip (spec_heads off (map elem_enc data)) (map head_type data)) = map head_type data.
Proof. apply snd_zip. rewrite length_spec_heads_list, !length_map. lia. Qed.

Lemma snd_zip_tails data :
  map snd (zip (map elem_tail (map elem_enc data)) (map tail_type data)) = map tail_type data.
Proof. apply snd_zip. rewrite !length_map. lia. Qed.

Lemma aarray_types data dyn :
  Forall types_fit data →
  aarray_get_basic_types (map elem_types data) dyn = Some (word_types (AArray data dyn)).
Proof.
  intros H. rewrite word_types_array. unfold aarray_get_basic_types.
  rewrite map_fst_elem_types, compute_head_data_spec by (by apply types_fit_heads_ok).
  rewrite collect_head_tail_spec. cbn [ht_head ht_tail].
  rewrite head_flags, tail_flags, head_size_types, tail_size_types by done.
  set (hs := nsum (map length (map head_type data))).
  set (ts := nsum (map length (map tail_type data))).
  set (pre := if dyn then [TvLength] else []).
  assert (Hb : (if dyn
     then if decide (0 < length (replicate ((32 * hs + 32 * ts + (if dyn then 32 else 0)) / 32) TvNone))%nat
          then Some (<[0%nat := TvLength]> (replicate ((32 * hs + 32 * ts + (if dyn then 32 else 0)) / 32) TvNone))
          else None
     else Some (replicate ((32 * hs + 32 * ts + (if dyn then 32 else 0)) / 32) TvNone)) =
     Some (pre ++ replicate hs TvNone ++ replicate ts TvNone)).
  { unfold pre. destruct dyn.
    - replace (32 * hs + 32 * ts + 32)%nat with (S (hs + ts) * 32)%nat by lia.
      rewrite Nat.div_mul by lia. rewrite decide_True by (rewrite length_replicate; lia).
      simpl. by rewrite replicate_add.
    - replace (32 * hs + 32 * ts + 0)%nat with ((hs + ts) * 32)%nat by lia.
      rewrite Nat.div_mul by lia. by rewrite replicate_add. }
  rewrite Hb. cbn [mbind option_bind].
  assert (Ho : (if dyn then 32%nat else 0%nat) = (32 * length pre)%nat) by (unfold pre; by destruct dyn).
  rewrite Ho.
  rewrite flag_copy_loop; [|by apply head_zip|
    rewrite length_replicate, snd_zip_heads; done].
  cbn [mbind option_bind]. rewrite snd_zip_heads, length_replicate.
  replace (32 * (length pre + hs))%nat with (32 * length (pre ++ concat (map head_type data)))%nat
    by (rewrite length_app, length_concat; done).
  rewrite app_assoc. rewrite <- (app_nil_r (replicate ts TvNone)).
  rewrite flag_copy_loop; [|by apply tail_zip|
    rewrite length_replicate, snd_zip_tails; done].
  cbn [mbind option_bind fst]. rewrite snd_zip_tails, app_nil_r, <- app_assoc. done.
Qed.

(** ** The main results *)

Lemma length_chunk_types n : (32 * length (chunk_types n) = 32 + n + padding n)%nat.
Proof.
  unfold chunk_types, padding. cbn [length]. rewrite length_app, length_replicate.
  pose proof (Nat.div_mod_eq n 32). pose proof (Nat.mod_upper_bound n 32 ltac:(lia)).
  destruct (Nat.eqb_spec (n mod 32) 0) as [E|E].
  - rewrite E. change ((32 - 0) mod 32)%nat with 0%nat. cbn [length]. lia.
  - rewrite (Nat.mod_small (32 - _)) by lia. cbn [length]. lia.
Qed.

(** The elements of a typed array fit their types. *)
Lemma enc_nonempty a : elem_ok a = true → enc a ≠ [].
Proof. intros [n Hn]%enc_elem_words E. rewrite E in Hn. unfold words in Hn. simpl in Hn. lia. Qed.
#[export] Hint Resolve enc_nonempty : mau.

Lemma length_layout_types data dyn :
  Forall types_fit data →
  length (layout (map elem_enc data) dyn) = (32 * length (word_types (AArray data dyn)))%nat.
Proof.
  intros H. rewrite word_types_array. unfold layout.
  rewrite !length_app, !length_concat, length_spec_heads, head_size_types, tail_size_types by done.
  destruct dyn; simpl; rewrite ?length_word; lia.
Qed.

Lemma words_word_types a : typed a = true → words (enc a) (length (word_types a)).
Proof.
  induction a as [|data ? ? ?|data m|data dyn IH|[b f] n IH] using ABI_nested_ind; try done.
  - unfold typed. rewrite andb_true_r. simpl. intros H%Nat.leb_le. unfold words. len.
  - intros _. unfold words. cbn [enc word_types].
    rewrite length_chunk_types, !length_app, length_word, length_replicate. lia.
  - intros [_ H]%typed_array. rewrite enc_array. apply length_layout_types.
    apply Forall_forall. intros x Hin. rewrite Forall_forall in H, IH.
    split; [|eauto with mau]. apply (IH _ Hin), H, Hin.
  - unfold typed. simpl. by rewrite andb_false_r.
Qed.

Lemma typed_types_fit data :
  Forall (λ x, typed (boxed_b x) = true) data → Forall types_fit data.
Proof.
  intros H. eapply Forall_impl; [exact H|]. intros x Hx.
  split; [by apply words_word_types|eauto with mau].
Qed.
#[export] Hint Resolve typed_types_fit : mau.

Lemma get_basic_types_typed a : typed a = true → get_basic_types a = Some (word_types a).
Proof.
  induction a as [|data ? ? ?|data m|data dyn IH|[b f] n IH] using ABI_nested_ind; try done.
  - unfold typed. rewrite andb_true_r. simpl. intros H%Nat.leb_le. by apply a256_types.
  - unfold typed. rewrite andb_true_r. cbn [elem_ok]. intros ->%Nat.eqb_eq. apply adynamic_types.
  - intros [_ H]%typed_array. cbn [get_basic_types].
    rewrite (mapM_opt_Some _ elem_types).
    + cbn [mbind option_bind]. apply aarray_types. eauto with mau.
    + apply Forall_forall. intros [b f] Hin. rewrite Forall_forall in H, IH.
      specialize (H _ Hin). specialize (IH _ Hin H). cbn [boxed_b] in *.
      rewrite is_static_elem by eauto with mau. cbn [mbind option_bind].
      rewrite get_bytes_elem by eauto with mau. cbn [mbind option_bind]. by rewrite IH.
  - unfold typed. simpl. by rewrite andb_false_r.
Qed.

(** The type vector that steers the GPU mutator is aligned with the encoding: for
    a value without [AUnknown] that encodes, [get_basic_types] does not panic, gives
    the types in the head/tail order of the layout, and has exactly one type per
    32-byte word of [get_bytes]. *)
Theorem basic_types_one_per_word a :
  typed a = true →
  ∃ bs, get_bytes a = Some bs ∧ get_basic_types a = Some (word_types a) ∧
        length bs = (32 * length (word_types a))%nat.
Proof.
  intros H. exists (enc a). split; [apply get_bytes_elem; eauto with mau|].
  split; [by apply get_basic_types_typed|by apply words_word_types].
Qed.

Lemma basic_types_one_per_word_witness :
  typed example_tuple = true ∧
  ∃ bs, get_bytes example_tuple = Some bs ∧
        get_basic_types example_tuple = Some (word_types example_tuple) ∧
        length bs = (32 * length (word_types example_tuple))%nat.
Proof. split; [reflexivity|]. apply (basic_types_one_per_word example_tuple). reflexivity. Defined.
