(* ===== verification/AbiRound.v ===== *)
(** * Decoding inverts encoding

    [set_bytes] overwrites a value with the arguments found in raw bytes (the GPU
    hands back mutated argument buffers this way).  Decoding the encoding of a
    value into any value of the same shape gives that value back, whatever
    follows the encoding. *)
From S2P Require Import Prelude Types Expr Abi AbiLayout AbiTypes.
#[local] Open Scope Z_scope.

(** [fits t v]: the value [t] that is overwritten has the shape of [v].  For an
    array of dynamic size the items of [t] after resizing must have it. *)
Inductive fits : ABI → ABI → Prop :=
| fits_empty : fits AEmpty AEmpty
| fits_256 (d d' : list byte) (a m b : bool) : length d = length d' → fits (A256 d a m b) (A256 d' a m b)
| fits_dynamic (d d' : list byte) (m : nat) : fits (ADynamic d m) (ADynamic d' m)
| fits_array ts vs (dyn : bool) :
    Forall2 fits_boxed (if dyn then resize BoxedABI_default ts (length vs) else ts) vs →
    fits (AArray ts dyn) (AArray vs dyn)
with fits_boxed : BoxedABI → BoxedABI → Prop :=
| fits_box b b' f : fits b b' → fits_boxed (mkBoxedABI b f) (mkBoxedABI b' f).

(** ** Sizes of static values *)

Lemma static_size a : elem_ok a = true → dynb a = false → abi_get_size a = length (enc a).
Proof.
  induction a as [|data ? ? ?|data m|data dyn IH|[b f] n IH] using ABI_nested_ind; try done.
  - simpl. intros H%Nat.leb_le _. len.
  - intros [_ H]%elem_ok_array Hd. simpl in Hd. apply orb_false_iff in Hd as [-> Hd].
    rewrite enc_array. unfold layout. rewrite !length_app, !length_concat, length_spec_heads.
    cbn [abi_get_size length app]. unfold head_size.
    assert (∀ x, x ∈ data → dynb (boxed_b x) = false) as Hs.
    { intros x Hin%list_elem_of_In. destruct (dynb (boxed_b x)) eqn:E; [|done].
      rewrite <- Hd. symmetry. apply existsb_exists. exists x. by destruct x. }
    clear Hd. induction data as [|x data IHd]; [done|].
    apply Forall_cons in IH as [IHx IH]. apply Forall_cons in H as [Hx H].
    cbn [map]. rewrite !nsum_cons, IHd by (done || (intros; apply Hs; by right)).
    specialize (Hs x ltac:(left)).
    assert (elem_head_size (elem_enc x) = abi_get_size (boxed_b x)) as ->.
    { unfold elem_head_size, elem_enc. rewrite Hs. symmetry. by apply IHx. }
    assert (elem_tail (elem_enc x) = []) as -> by (unfold elem_tail, elem_enc; by rewrite Hs).
    destruct x. cbn [boxed_b length]. lia.
Qed.

Lemma fits_dynb t v : fits t v → dynb t = dynb v.
Proof.
  revert t. induction v as [| | |vs dyn IH|[b f] n IH] using ABI_nested_ind; intros t H;
    inversion H as [| | |ts ? ? HF]; subst; try done.
  clear H. destruct dyn; [done|]. simpl. induction HF as [|? ? ts vs Hb HF IHF]; [done|].
  apply Forall_cons in IH as [IHx IH]. simpl. inversion Hb; subst. f_equal.
  - by apply IHx.
  - by apply IHF.
Qed.

Lemma fits_get_type t v : fits t v → get_type t = get_type v.
Proof. by destruct 1. Qed.

(** A template of a well-formed static value has its size. *)
Lemma fits_static t v :
  fits t v → elem_ok v = true → is_static t = Some (negb (dynb v)).
Proof.
  revert t. induction v as [| | |vs dyn IH|[b f] n IH] using ABI_nested_ind; intros t H;
    inversion H as [| | |ts ? ? HF]; subst; try done.
  intros [_ Hok]%elem_ok_array. destruct dyn; [done|]. simpl.
  clear H. induction HF as [|? ? ts vs Hb HF IHF]; [done|].
  apply Forall_cons in IH as [IHx IH]. apply Forall_cons in Hok as [Hx Hok].
  inversion Hb; subst. simpl. rewrite (IHx b) by done. cbn [mbind option_bind boxed_b].
  destruct (dynb b'); simpl; [done|]. by apply IHF.
Qed.

Lemma fits_size t v :
  fits t v → elem_ok v = true → dynb v = false → abi_get_size t = length (enc v).
Proof.
  intros H Hok Hd. rewrite <- static_size by done. revert t H Hok Hd.
  induction v as [| | |vs dyn IH|[b f] n IH] using ABI_nested_ind; intros t H;
    inversion H as [| | |ts ? ? HF]; subst; try done.
  intros [_ Hok]%elem_ok_array Hd. destruct dyn; [done|]. simpl in *.
  clear H. f_equal. induction HF as [|? ? ts vs Hb HF IHF]; [done|].
  apply Forall_cons in IH as [IHx IH]. apply Forall_cons in Hok as [Hx Hok].
  inversion Hb; subst. simpl in Hd. apply orb_false_iff in Hd as [Hd1 Hd2]. cbn [map]. f_equal.
  - by apply IHx.
  - by apply IHF.
Qed.

(** ** One iteration of the decoding loop *)

(** An item and its decoder, against the value it must decode to. *)
Definition item_ok (item : BoxedABI * (list byte → option ABI)) (y : BoxedABI) : Prop :=
  fits_boxed item.1 y ∧ typed (boxed_b y) = true ∧
  ∀ rest, item.2 (enc (boxed_b y) ++ rest) = Some (boxed_b y).

Lemma u64_small z : 0 ≤ z < 2 ^ 64 → u64 z = z.
Proof. apply wrap_small. Qed.

Lemma length_enc_static b : elem_ok b = true → get_type b = T256 → length (enc b) = 32%nat.
Proof. destruct b; try done. simpl. intros H%Nat.leb_le _. len. Qed.

Lemma set_bytes_step_static bytes pre h r done_items item y :
  item_ok item y → dynb (boxed_b y) = false →
  bytes = pre ++ h ++ enc (boxed_b y) ++ r →
  Z.of_nat (length pre + length h + length (enc (boxed_b y))) < 2 ^ 64 →
  set_bytes_step bytes (Z.of_nat (length pre)) (done_items, Z.of_nat (length h)) item =
  Some (done_items ++ [y], Z.of_nat (length h + length (enc (boxed_b y)))).
Proof.
  intros (Hfit & Hty & Hdec) Hd -> Hlen. destruct item as [x dec]. cbn [fst snd] in *.
  inversion Hfit as [b b' f Hb]; subst. cbn [boxed_b] in *.
  pose proof (typed_elem_ok _ Hty) as Hok.
  assert (item_location (pre ++ h ++ enc b' ++ r) (Z.of_nat (length pre)) (Z.of_nat (length h)) b
          = Some (Z.of_nat (length h), Z.of_nat (length (enc b')))) as E.
  { unfold item_location. rewrite (fits_get_type _ _ Hb). destruct (get_type b') eqn:Et.
    - by rewrite (length_enc_static b').
    - rewrite (fits_static _ _ Hb Hok), Hd. cbn [mbind option_bind negb].
      by rewrite (fits_size _ _ Hb).
    - by destruct b'.
    - by destruct b'.
    - destruct b'; try done. by inversion Hb. }
  unfold set_bytes_step. rewrite E. cbn [mbind option_bind].
  rewrite !u64_small by lia. rewrite app_assoc, slice_from_app by len.
  cbn [mbind option_bind]. rewrite Hdec. cbn [mbind option_bind]. do 3 f_equal. lia.
Qed.

Lemma item_location_indirect bytes pre h n r b :
  bytes = pre ++ h ++ word n ++ r →
  0 ≤ n < 2 ^ 64 → Z.of_nat (length pre + length h) < 2 ^ 64 →
  get_type b = TDynamic ∨ (get_type b = TArray ∧ is_static b = Some false) →
  item_location bytes (Z.of_nat (length pre)) (Z.of_nat (length h)) b = Some (n, 32).
Proof.
  intros -> Hn Hl Hb. unfold item_location. rewrite u64_small by lia.
  rewrite app_assoc, slice_from_app by (rewrite length_app; lia).
  rewrite obind_Some, get_size_word, obind_Some by exact Hn.
  destruct Hb as [->|[-> ->]]; [done|]. by rewrite obind_Some.
Qed.

Lemma decode_at bytes pre x b r (dec : list byte → option ABI) :
  bytes = pre ++ x ++ enc b ++ r →
  Z.of_nat (length pre + length x) < 2 ^ 64 →
  (∀ rest, dec (enc b ++ rest) = Some b) →
  (src ← slice_from bytes (u64 (Z.of_nat (length x) + Z.of_nat (length pre))); dec src) = Some b.
Proof.
  intros -> Hl Hdec. rewrite u64_small by lia.
  rewrite app_assoc, slice_from_app by (rewrite length_app; lia). apply Hdec.
Qed.

Lemma fits_dynamic_type t v :
  fits t v → elem_ok v = true → dynb v = true →
  get_type t = TDynamic ∨ (get_type t = TArray ∧ is_static t = Some false).
Proof.
  intros Hb Hok Hd. rewrite (fits_get_type _ _ Hb), (fits_static _ _ Hb Hok), Hd.
  destruct v; simpl in *; try done; [by left|by right|]. by inversion Hb.
Qed.

Lemma set_bytes_step_eq bytes base done_items offset b f dec n size b' :
  item_location bytes base offset b = Some (n, size) →
  (src ← slice_from bytes (u64 (n + base)); dec src) = Some b' →
  set_bytes_step bytes base (done_items, offset) (mkBoxedABI b f, dec) =
  Some (done_items ++ [mkBoxedABI b' f], u64 (offset + size)).
Proof.
  intros E H. unfold set_bytes_step. rewrite E. cbn [mbind option_bind].
  apply bind_Some in H as (src & -> & H). cbn [mbind option_bind]. by rewrite H.
Qed.

Lemma set_bytes_step_dynamic bytes pre h x r r' done_items item y :
  item_ok item y → dynb (boxed_b y) = true →
  bytes = pre ++ h ++ word (Z.of_nat (length x)) ++ r →
  bytes = pre ++ x ++ enc (boxed_b y) ++ r' →
  Z.of_nat (length pre + length h + 32) < 2 ^ 64 →
  Z.of_nat (length pre + length x) < 2 ^ 64 →
  set_bytes_step bytes (Z.of_nat (length pre)) (done_items, Z.of_nat (length h)) item =
  Some (done_items ++ [y], Z.of_nat (length h + 32)).
Proof.
  intros (Hfit & Hty & Hdec) Hd E1 E2 Hl1 Hl2. destruct item as [it dec]. cbn [fst snd] in *.
  inversion Hfit as [b b' f Hb]; subst it y. cbn [boxed_b] in *.
  rewrite (set_bytes_step_eq _ _ _ _ _ _ _ (Z.of_nat (length x)) 32 b').
  - by rewrite u64_small, Nat2Z.inj_add by lia.
  - eapply item_location_indirect; [done|lia|lia|].
    eapply fits_dynamic_type; eauto with mau.
  - by eapply decode_at.
Qed.

(** ** The decoding loop *)

(** The parts of an element of either kind *)
Lemma elem_dynamic y off : dynb (boxed_b y) = true →
  elem_tail (elem_enc y) = enc (boxed_b y) ∧ elem_head_size (elem_enc y) = 32%nat ∧
  (if (elem_enc y).1 then (elem_enc y).2 else word off) = word off.
Proof. intros Hd. unfold elem_tail, elem_head_size, elem_enc. by rewrite Hd. Qed.
Lemma elem_static y off : dynb (boxed_b y) = false →
  elem_tail (elem_enc y) = [] ∧ elem_head_size (elem_enc y) = length (enc (boxed_b y)) ∧
  (if (elem_enc y).1 then (elem_enc y).2 else word off) = enc (boxed_b y).
Proof. intros Hd. unfold elem_tail, elem_head_size, elem_enc. by rewrite Hd. Qed.

Lemma set_bytes_loop items ys : ∀ bytes pre h t off rest done_items,
  Forall2 item_ok items ys →
  bytes = pre ++ h ++ concat (spec_heads off (map elem_enc ys)) ++
          t ++ concat (map elem_tail (map elem_enc ys)) ++ rest →
  off = (length h + head_size (map elem_enc ys) + length t)%nat →
  Z.of_nat (length pre + off + length (concat (map elem_tail (map elem_enc ys)))) < 2 ^ 64 →
  ∃ o, foldM (set_bytes_step bytes (Z.of_nat (length pre))) (done_items, Z.of_nat (length h)) items =
       Some (done_items ++ ys, o).
Proof.
  intros bytes pre h t off rest done_items H. revert h t off rest done_items.
  induction H as [|item y items ys Hy _ IH]; intros h t off rest done_items Hb Ho Hl.
  { rewrite app_nil_r. by eexists. }
  cbn [map spec_heads] in Hb, Ho, Hl. cbn [concat map] in Hb, Hl.
  unfold head_size in Ho. cbn [map] in Ho. rewrite nsum_cons in Ho. fold (head_size (map elem_enc ys)) in Ho.
  rewrite length_app in Hl. cbn [foldM].
  destruct (dynb (boxed_b y)) eqn:Hd.
  - destruct (elem_dynamic y (Z.of_nat off) Hd) as (Et & Eh & Ew).
    rewrite Et, Ew in Hb. rewrite Et in Hl. rewrite Eh in Ho.
    assert (Hlx : length (h ++ word (Z.of_nat off) ++
              concat (spec_heads (off + length (enc (boxed_b y))) (map elem_enc ys)) ++ t) = off).
    { rewrite !length_app, length_word, (length_concat (spec_heads _ _)), length_spec_heads. lia. }
    rewrite (set_bytes_step_dynamic bytes pre h
               (h ++ word (Z.of_nat off) ++ concat (spec_heads (off + length (enc (boxed_b y))) (map elem_enc ys)) ++ t)
               (concat (spec_heads (off + length (enc (boxed_b y))) (map elem_enc ys)) ++ t ++
                  (enc (boxed_b y) ++ concat (map elem_tail (map elem_enc ys))) ++ rest)
               (concat (map elem_tail (map elem_enc ys)) ++ rest) done_items item y);
      [|done|done|by rewrite Hlx, Hb, <- !app_assoc|by rewrite Hb, <- !app_assoc|lia|lia].
    cbn [mbind option_bind].
    replace (length h + 32)%nat with (length (h ++ word (Z.of_nat off))) by len.
    destruct (IH (h ++ word (Z.of_nat off)) (t ++ enc (boxed_b y)) (off + length (enc (boxed_b y)))%nat
                rest (done_items ++ [y])) as [o Ho'].
    { by rewrite Hb, <- !app_assoc. }
    { rewrite !length_app, length_word. lia. }
    { lia. }
    exists o. rewrite Ho'. by rewrite <- app_assoc.
  - destruct (elem_static y (Z.of_nat off) Hd) as (Et & Eh & Ew).
    rewrite Et, Ew in Hb. rewrite Et in Hl. rewrite Eh in Ho. cbn [app length] in Hb, Hl.
    rewrite Nat.add_0_r in Hb.
    rewrite (set_bytes_step_static bytes pre h
               (concat (spec_heads off (map elem_enc ys)) ++ t ++ concat (map elem_tail (map elem_enc ys)) ++ rest)
               done_items item y);
      [|done|done|by rewrite Hb, <- !app_assoc|lia].
    cbn [mbind option_bind]. rewrite <- length_app.
    destruct (IH (h ++ enc (boxed_b y)) t off rest (done_items ++ [y])) as [o Ho'].
    { by rewrite Hb, <- !app_assoc. }
    { rewrite length_app. lia. }
    { lia. }
    exists o. rewrite Ho'. by rewrite <- app_assoc.
Qed.

(** ** The round trip *)

Lemma resize_map {A B} (g : A → B) d (l : list A) n :
  resize (g d) (map g l) n = map g (resize d l n).
Proof.
  unfold resize. rewrite length_map. change (@map A B) with (@fmap list _ A B).
  rewrite fmap_take, fmap_app, fmap_replicate. by destruct l.
Qed.

Definition item_of (x : BoxedABI) : BoxedABI * (list byte → option ABI) := (x, set_bytes (boxed_b x)).

Lemma set_bytes_array data dyn bytes :
  set_bytes (AArray data dyn) bytes =
  (items_base ← (if dyn
                 then n ← get_size bytes; Some (map item_of (resize BoxedABI_default data (Z.to_nat n)), 32)
                 else Some (map item_of data, 0));
   let '(items, base_offset) := items_base in
   st ← foldM (set_bytes_step bytes base_offset) ([], 0) items;
   Some (AArray (fst st) dyn)).
Proof.
  cbn [set_bytes].
  rewrite (map_ext _ item_of) by (by intros [b f]).
  destruct dyn; [|reflexivity]. destruct (get_size bytes); [|reflexivity].
  rewrite !obind_Some, <- resize_map. reflexivity.
Qed.

Lemma adynamic_set_bytes_enc data rest :
  Z.of_nat (32 + length data) < 2 ^ 64 →
  adynamic_set_bytes (word (Z.of_nat (length data)) ++ data ++ rest) = Some data.
Proof.
  intros H. unfold adynamic_set_bytes. rewrite decide_False.
  2:{ intros E%(f_equal length). rewrite length_app, length_word in E. simpl in E. lia. }
  rewrite get_size_word, obind_Some by lia. rewrite u64_small by lia.
  apply slice_app; [by rewrite length_word|lia].
Qed.

Lemma a256_set_bytes_enc d d' rest :
  length d = length d' → (length d' ≤ 32)%nat →
  a256_set_bytes d ((replicate (32 - length d') x00 ++ d') ++ rest) = Some d'.
Proof.
  intros E H. unfold a256_set_bytes. rewrite <- app_assoc.
  apply slice_app; rewrite ?length_replicate; lia.
Qed.

Lemma elem_sizes x :
  (length (enc (boxed_b x)) ≤ elem_head_size (elem_enc x) + length (elem_tail (elem_enc x)))%nat.
Proof. unfold elem_head_size, elem_tail, elem_enc. cbn [fst snd]. destruct (dynb _); simpl; lia. Qed.

Lemma elem_head_size_pos x : typed (boxed_b x) = true → (1 ≤ elem_head_size (elem_enc x))%nat.
Proof.
  intros [n Hn]%typed_elem_ok%enc_elem_words. unfold words in Hn.
  unfold elem_head_size, elem_enc. cbn [fst snd]. destruct (dynb _); simpl; lia.
Qed.

(** The parts of a layout are not longer than the layout. *)
Lemma length_elem_layout x data dyn :
  x ∈ data → (length (enc (boxed_b x)) ≤ length (layout (map elem_enc data) dyn))%nat.
Proof.
  intros Hin. unfold layout. rewrite !length_app, !length_concat, length_spec_heads.
  unfold head_size. apply list_elem_of_split in Hin as (l1 & l2 & ->).
  rewrite !map_app, !nsum_app. cbn [map]. rewrite !nsum_cons.
  pose proof (elem_sizes x). lia.
Qed.

Lemma length_layout_array data dyn :
  length (layout (map elem_enc data) dyn) =
  ((if dyn then 32 else 0) + head_size (map elem_enc data) +
   length (concat (map elem_tail (map elem_enc data))))%nat.
Proof.
  unfold layout. rewrite !length_app, (length_concat (spec_heads _ _)), length_spec_heads.
  destruct dyn; rewrite ?length_word; cbn [length]; lia.
Qed.

(** Every element takes at least 32 bytes of the heads. *)
Lemma length_head_size data :
  Forall (λ x, typed (boxed_b x) = true) data → (length data ≤ head_size (map elem_enc data))%nat.
Proof.
  induction 1 as [|x data Hx _ IH]; [done|]. unfold head_size in *. cbn [map length].
  rewrite nsum_cons. pose proof (elem_head_size_pos x Hx). lia.
Qed.

Lemma set_bytes_array_enc ts vs (dyn : bool) rest :
  Forall2 item_ok (map item_of (if dyn then resize BoxedABI_default ts (length vs) else ts)) vs →
  (length vs ≤ head_size (map elem_enc vs))%nat →
  Z.of_nat (length (layout (map elem_enc vs) dyn)) < 2 ^ 64 →
  set_bytes (AArray ts dyn) (layout (map elem_enc vs) dyn ++ rest) = Some (AArray vs dyn).
Proof.
  intros Hitems Hn Hlen. rewrite set_bytes_array. rewrite length_layout_array in Hlen.
  set (elems := map elem_enc vs) in *.
  set (bytes := layout elems dyn ++ rest).
  assert (Hloop : ∃ o, foldM (set_bytes_step bytes (if dyn then 32 else 0)) ([], 0)
            (map item_of (if dyn then resize BoxedABI_default ts (length vs) else ts)) = Some (vs, o)).
  { destruct (set_bytes_loop _ vs bytes (if dyn then word (Z.of_nat (length elems)) else []) [] []
                (head_size elems) rest [] Hitems) as [o Ho].
    - unfold bytes, layout. by rewrite <- !app_assoc.
    - fold elems. cbn [length]. lia.
    - fold elems. destruct dyn; rewrite ?length_word; cbn [length]; lia.
    - exists o. destruct dyn; rewrite ?length_word in Ho; exact Ho. }
  destruct Hloop as [o Ho]. destruct dyn; [|by rewrite obind_Some, Ho, obind_Some].
  assert (get_size bytes = Some (Z.of_nat (length vs))) as ->.
  { assert (length elems = length vs) as El by apply length_map.
    unfold bytes, layout. rewrite <- app_assoc, get_size_word by lia. by rewrite El. }
  by rewrite !obind_Some, Nat2Z.id, Ho, obind_Some.
Qed.

Lemma set_bytes_enc t v :
  fits t v → typed v = true → Z.of_nat (length (enc v)) < 2 ^ 64 →
  ∀ rest, set_bytes t (enc v ++ rest) = Some v.
Proof.
  revert t. induction v as [|d' a m b|d' m|vs dyn IH|[b f] n IH] using ABI_nested_ind;
    intros t Hf Hty Hlen rest; inversion Hf as [|d ? ? ? ? Ed|d ? ?|ts ? ? HF]; subst.
  - done.
  - cbn [set_bytes enc]. unfold typed in Hty. rewrite andb_true_r in Hty.
    apply Nat.leb_le in Hty. by rewrite a256_set_bytes_enc, obind_Some.
  - cbn [set_bytes enc] in *. rewrite <- app_assoc, <- app_assoc.
    rewrite !length_app, length_word in Hlen.
    by rewrite adynamic_set_bytes_enc, obind_Some by lia.
  - apply typed_array in Hty as [Hok Hty]. rewrite enc_array in *.
    apply set_bytes_array_enc; [|by apply length_head_size|done].
    apply Forall2_fmap_l. eapply Forall2_impl_in; [exact HF|].
    intros x y Hy Hxy. rewrite Forall_forall in IH, Hty.
    split; [done|]. split; [by apply Hty|].
    inversion Hxy as [bx by' fx Hb]; subst. cbn [boxed_b] in *.
    apply (IH _ Hy); [done|by apply (Hty _ Hy)|].
    pose proof (length_elem_layout _ _ dyn Hy). cbn [boxed_b] in *. lia.
Qed.

(** C1. Decoding inverts encoding: for a value [v] without [AUnknown] whose encoding is
    shorter than 2^64 bytes, [BoxedABI::get_bytes] succeeds, and [BoxedABI::set_bytes]
    with these bytes, followed by any trailing bytes, turns every value of the same
    shape into [v]: offsets, lengths and array sizes are read back as written. *)
Theorem set_bytes_get_bytes_roundtrip t v rest :
  fits_boxed t v → typed (boxed_b v) = true → Z.of_nat (length (enc (boxed_b v))) < 2 ^ 64 →
  ∃ bs, boxed_get_bytes v = Some bs ∧ boxed_set_bytes t (bs ++ rest) = Some v.
Proof.
  intros Hf Hty Hlen. destruct v as [b f]. inversion Hf as [b' ? ? Hb]; subst. cbn [boxed_b] in *.
  exists (sel_bytes f ++ enc b). unfold boxed_get_bytes, boxed_set_bytes. cbn [boxed_b boxed_function].
  rewrite get_bytes_elem by eauto with mau. split; [done|].
  rewrite <- app_assoc, slice_from_app by done.
  by rewrite obind_Some, (set_bytes_enc b' b), obind_Some.
Qed.

(** A template of the shape of [example_tuple]. *)
Definition example_template : ABI :=
  AArray [BoxedABI_new (A256 (z2be 32 0) false false false);
          BoxedABI_new (ADynamic [] 32)] false.

Lemma set_bytes_get_bytes_roundtrip_witness :
  ∃ bs, boxed_get_bytes (BoxedABI_new example_tuple) = Some bs ∧
        boxed_set_bytes (BoxedABI_new example_template) (bs ++ [x01]) =
        Some (BoxedABI_new example_tuple).
Proof.
  apply (set_bytes_get_bytes_roundtrip (BoxedABI_new example_template) (BoxedABI_new example_tuple) [x01]).
  - repeat constructor.
  - reflexivity.
  - reflexivity.
Defined.
