(* ===== verification/AbiConcolic.v ===== *)
(** * Symbolic calldata agrees with concrete calldata

    [get_concolic] builds one expression per byte of the calldata.  Its bytes are
    proved to agree with [get_bytes]: same length, and every constant byte is the
    byte that is sent. *)
From S2P Require Import Prelude Types Expr Abi AbiLayout AbiTypes.
From stdpp Require Import pretty.
#[local] Open Scope Z_scope.

(** A symbolic byte stands for a concrete one: it is that constant or a variable. *)
Definition agrees (e : Expr) (b : byte) : Prop := e = const_byte b ∨ ∃ s, e = sym_byte s.

Lemma agrees_const l : Forall2 agrees (map const_byte l) l.
Proof. induction l; constructor; [by left|done]. Qed.

Lemma agrees_syms c ty i l : Forall2 agrees (element_syms c ty i l) l.
Proof. induction l; constructor; [right; by eexists|done]. Qed.

Lemma agrees_imap (g : nat → byte → Expr) (l : list byte) :
  (∀ i b, ∃ s, g i b = sym_byte s) → Forall2 agrees (imap g l) l.
Proof.
  revert g. induction l as [|b l IH]; intros g H; simpl; constructor.
  - right. apply H.
  - apply IH. intros. apply H.
Qed.
#[export] Hint Resolve agrees_const agrees_syms : mau.

Lemma set_size_concolic_replicate n len :
  set_size_concolic (replicate (32 + n) (const_byte x00)) len =
  map const_byte (word len) ++ replicate n (const_byte x00).
Proof.
  unfold set_size_concolic. rewrite replicate_add.
  apply (set_size_loop_spec const_byte 32 0 len [] _ (replicate n (const_byte x00))); try done.
Qed.

Lemma split_length {A} (l : list A) m n :
  length l = (m + n)%nat → ∃ l1 l2, l = l1 ++ l2 ∧ length l1 = m ∧ length l2 = n.
Proof.
  intros E. exists (take m l), (drop m l). rewrite take_drop, length_take, length_drop. split_and!; [done|lia|lia].
Qed.

(** ** The copying loops *)

(** A step that writes one block at the running offset. *)
Definition writes_block (step : concolic_st → nat * (bool * string) * list byte → option concolic_st) : Prop :=
  ∀ i info l pre mid post c, length mid = length l →
  ∃ out c', step (ConcolicSt (pre ++ mid ++ post) (length pre) c) (i, info, l) =
            Some (ConcolicSt (pre ++ out ++ post) (length pre + length l) c') ∧
            Forall2 agrees out l.

Lemma head_step_block : writes_block concolic_head_step.
Proof.
  intros i [static ty] l pre mid post c E. unfold concolic_head_step. cbn [cs_bytes cs_offset cs_counter].
  destruct static.
  - exists (element_syms c ty i l), (c + 1)%N.
    rewrite copy_at_app by (done || unfold element_syms; rewrite length_map; done).
    split; [done|auto with mau].
  - exists (map const_byte l), c. rewrite copy_at_app by (done || by rewrite length_map).
    split; [done|auto with mau].
Qed.

Lemma tail_step_block : writes_block concolic_tail_step.
Proof.
  intros i [static ty] l pre mid post c E. unfold concolic_tail_step. cbn [cs_bytes cs_offset cs_counter].
  case_decide as Hl.
  - exists (element_syms c ty i l), (c + 1)%N.
    rewrite copy_at_app by (done || unfold element_syms; rewrite length_map; done).
    split; [done|auto with mau].
  - exists [], c. destruct l; [|simpl in Hl; lia]. destruct mid; [|done]. simpl.
    rewrite Nat.add_0_r. split; [done|constructor].
Qed.

Lemma concolic_loop step (ls : list (list byte)) infos idxs : ∀ pre mid post c,
  writes_block step →
  length idxs = length ls → length infos = length ls →
  length mid = nsum (map length ls) →
  ∃ out c', foldM step (ConcolicSt (pre ++ mid ++ post) (length pre) c) (zip (zip idxs infos) ls) =
            Some (ConcolicSt (pre ++ out ++ post) (length pre + length mid) c') ∧
            Forall2 agrees out (concat ls).
Proof.
  revert infos idxs. induction ls as [|l ls IH]; intros infos idxs pre mid post c Hstep E1 E2 E3.
  - destruct idxs; [|done]. destruct mid; [|done]. exists [], c. simpl. rewrite Nat.add_0_r.
    split; [done|constructor].
  - destruct idxs as [|i idxs]; [done|]. destruct infos as [|info infos]; [done|].
    cbn [map] in E3. rewrite nsum_cons in E3.
    destruct (split_length mid _ _ E3) as (m1 & m2 & -> & El1 & El2).
    cbn [zip zip_with foldM]. rewrite <- app_assoc.
    destruct (Hstep i info l pre m1 (m2 ++ post) c El1) as (o1 & c1 & E & A1). rewrite E, obind_Some.
    pose proof (Forall2_length _ _ _ A1) as L1. rewrite app_assoc, <- L1, <- length_app.
    destruct (IH infos idxs (pre ++ o1) m2 post c1 Hstep) as (o2 & c2 & E' & A2);
      [simpl in *; lia|simpl in *; lia|done|].
    exists (o1 ++ o2), c2. split.
    + etransitivity; [exact E'|]. f_equal. f_equal; [by rewrite <- !app_assoc|].
      rewrite !length_app. lia.
    + cbn [concat]. by apply Forall2_app.
Qed.

(** ** The result *)

Lemma aarray_get_concolic_agrees elems infos dyn c :
  heads_ok elems → length infos = length elems →
  ∃ es c', aarray_get_concolic elems infos dyn c = Some (es, c') ∧
           Forall2 agrees es (layout elems dyn).
Proof.
  intros H Hi. unfold aarray_get_concolic. rewrite compute_head_data_spec by done.
  rewrite collect_head_tail_spec. cbn [ht_tail].
  set (heads := spec_heads (head_size elems) elems).
  set (tails := map elem_tail elems).
  set (pre := if dyn then map const_byte (word (Z.of_nat (length elems))) else []).
  assert (E : (if dyn
                then set_size_concolic (replicate (head_size elems + nsum (map length tails) + (if dyn then 32 else 0)) (const_byte x00))
                       (Z.of_nat (length elems))
                else replicate (head_size elems + nsum (map length tails) + (if dyn then 32 else 0)) (const_byte x00))
               = pre ++ replicate (head_size elems) (const_byte x00) ++
                 replicate (nsum (map length tails)) (const_byte x00)).
  { unfold pre. destruct dyn.
    - rewrite (Nat.add_comm _ 32), set_size_concolic_replicate. by rewrite replicate_add.
    - by rewrite Nat.add_0_r, replicate_add. }
  assert (Ho : (if dyn then 32%nat else 0%nat) = length pre).
  { unfold pre. destruct dyn; [by rewrite length_map, length_word|done]. }
  rewrite E, Ho.
  assert (length heads = length elems) as Lh by apply length_spec_heads_list.
  assert (length tails = length elems) as Lt by apply length_map.
  destruct (concolic_loop concolic_head_step heads infos (seq 0 (length heads)) pre
              (replicate (head_size elems) (const_byte x00))
              (replicate (nsum (map length tails)) (const_byte x00)) c head_step_block)
    as (o1 & c1 & E1 & A1); [by rewrite length_seq|lia| |].
  { rewrite length_replicate. unfold heads. by rewrite length_spec_heads. }
  rewrite E1, obind_Some, length_replicate.
  assert (length o1 = head_size elems) as Lo.
  { rewrite (Forall2_length _ _ _ A1), length_concat. apply length_spec_heads. }
  rewrite <- Lo, <- length_app, app_assoc.
  rewrite <- (app_nil_r (replicate (nsum (map length tails)) _)).
  destruct (concolic_loop concolic_tail_step tails infos (seq 0 (length tails)) (pre ++ o1)
              (replicate (nsum (map length tails)) (const_byte x00)) [] c1 tail_step_block)
    as (o2 & c2 & E2 & A2); [by rewrite length_seq|lia|by rewrite length_replicate|].
  rewrite E2, obind_Some. cbn [cs_bytes cs_counter]. do 2 eexists. split; [done|].
  rewrite app_nil_r, <- app_assoc. unfold layout.
  repeat apply Forall2_app; [|done|done]. unfold pre. destruct dyn; [auto with mau|constructor].
Qed.

Lemma replicate_const n : replicate n (const_byte x00) = map const_byte (replicate n x00).
Proof. induction n; simpl; by f_equal. Qed.

Lemma a256_get_concolic_agrees data c :
  (length data ≤ 32)%nat →
  ∃ es c', a256_get_concolic data c = Some (es, c') ∧
           Forall2 agrees es (replicate (32 - length data) x00 ++ data).
Proof.
  intros H. unfold a256_get_concolic. rewrite decide_True by done.
  set (syms := imap _ data).
  replace (replicate 32 (const_byte x00)) with
    (replicate (32 - length data) (const_byte x00) ++ replicate (length data) (const_byte x00) ++ []).
  2:{ rewrite app_nil_r, <- replicate_add. f_equal. lia. }
  rewrite copy_at_app, obind_Some.
  2:{ by rewrite length_replicate. }
  2:{ unfold syms. by rewrite length_replicate, length_imap. }
  do 2 eexists. split; [done|]. rewrite app_nil_r, replicate_const.
  apply Forall2_app; [auto with mau|]. apply agrees_imap. intros. by eexists.
Qed.

Lemma adynamic_get_concolic_agrees data c :
  ∃ es c', adynamic_get_concolic data 32 c = Some (es, c') ∧
           Forall2 agrees es (word (Z.of_nat (length data)) ++ data ++ replicate (padding (length data)) x00).
Proof.
  unfold adynamic_get_concolic. rewrite roundup_32, obind_Some.
  set (syms := imap _ data). rewrite (Nat.add_comm _ 32), set_size_concolic_replicate, replicate_add.
  rewrite copy_at_app, obind_Some.
  2:{ by rewrite length_map, length_word. }
  2:{ unfold syms. by rewrite length_replicate, length_imap. }
  do 2 eexists. split; [done|]. rewrite replicate_const.
  repeat apply Forall2_app; [auto with mau| |auto with mau]. apply agrees_imap. intros. by eexists.
Qed.

Lemma get_concolic_agrees_lemma a c :
  encodable a = true → known a = true →
  ∃ es c', get_concolic a c = Some (es, c') ∧ Forall2 agrees es (enc a).
Proof.
  destruct a as [|data ? ? ?|data m|data dyn|b n]; intros H Hk; cbn [get_concolic].
  - do 2 eexists. split; [done|constructor].
  - apply Nat.leb_le in H. by apply a256_get_concolic_agrees.
  - cbn [encodable elem_ok] in H. apply Nat.eqb_eq in H as ->. apply adynamic_get_concolic_agrees.
  - cbn [encodable] in H. rewrite forallb_forall in H.
    assert (Forall (λ x, elem_ok (boxed_b x) = true) data) as Hok.
    { apply Forall_forall. intros x Hin. apply H. by apply list_elem_of_In. }
    rewrite (mapM_opt_Some _ elem_enc), obind_Some.
    + rewrite enc_array. apply aarray_get_concolic_agrees; [eauto with mau|].
      rewrite length_zip, !length_map. lia.
    + eapply Forall_impl; [exact Hok|]. intros x Hx. cbv beta.
      by rewrite is_static_elem, obind_Some, get_bytes_elem, obind_Some.
  - done.
Qed.

(** C35. Symbolic and concrete calldata agree: for every encodable value without
    [AUnknown], [BoxedABI::get_concolic] does not panic and yields exactly one byte
    expression per byte of [BoxedABI::get_bytes]; each is a symbolic byte or the
    constant that is really sent, so the selector, lengths, offsets and padding are
    concrete and correct. *)
Theorem get_concolic_agrees x c :
  encodable (boxed_b x) = true → known (boxed_b x) = true →
  ∃ es c' bs, boxed_get_concolic x c = Some (es, c') ∧ boxed_get_bytes x = Some bs ∧
              Forall2 agrees es bs.
Proof.
  intros H Hk. destruct (get_concolic_agrees_lemma _ c H Hk) as (es & c' & E & A).
  unfold boxed_get_concolic, boxed_get_bytes. rewrite E, (get_bytes_encodable _ H), !obind_Some.
  do 3 eexists. split; [done|]. split; [done|]. apply Forall2_app; [auto with mau|done].
Qed.

Lemma get_concolic_agrees_witness :
  ∃ es c' bs, boxed_get_concolic (BoxedABI_new example_tuple) 5 = Some (es, c') ∧
              boxed_get_bytes (BoxedABI_new example_tuple) = Some bs ∧ Forall2 agrees es bs.
Proof. apply (get_concolic_agrees (BoxedABI_new example_tuple) 5); reflexivity. Defined.

(** ** Names of symbolic bytes *)

(** The bytes of a top-level [A256] get pairwise distinct variables. *)
Lemma a256_get_concolic_distinct data c es c' :
  length data = 32%nat → a256_get_concolic data c = Some (es, c') → NoDup es.
Proof.
  intros H. unfold a256_get_concolic. rewrite decide_True by lia.
  set (syms := imap _ data).
  rewrite H. change (32 - 32)%nat with 0%nat.
  rewrite <- (app_nil_r (replicate 32 _)), <- (app_nil_l (replicate 32 _ ++ [])).
  rewrite copy_at_app, obind_Some; [|done|].
  2:{ unfold syms. by rewrite length_imap, H. }
  intros [= <- _]. rewrite app_nil_r. simpl. apply NoDup_alt. intros i j e Hi Hj.
  unfold syms in *. rewrite list_lookup_imap in Hi, Hj.
  destruct (data !! i), (data !! j); simpl in *; try done.
  rewrite <- Hi in Hj. injection Hj as Hj.
  apply (inj (String.append (pretty c))) in Hj. apply (inj (String.append "_A256_")) in Hj.
  by apply (inj pretty) in Hj.
Qed.

(** In an array or tuple, however, every byte of an element carries one and the
    same variable: the name is built from the index of the element and not from the
    index of the byte, so the solver can only assign words of 32 equal bytes to a
    static argument of a function. *)
Theorem tuple_bytes_share_symbol data a m b f c :
  length data = 32%nat →
  ∃ s c', get_concolic (AArray [mkBoxedABI (A256 data a m b) f] false) c =
          Some (replicate 32 (sym_byte s), c').
Proof.
  intros H. exists (pretty c +:+ "_" +:+ "A256" +:+ "_" +:+ pretty 0%nat), (c + 1)%N.
  do 32 (destruct data as [|? data]; [discriminate H|]). destruct data; [|discriminate H].
  vm_compute. reflexivity.
Qed.

Lemma tuple_bytes_share_symbol_witness :
  ∃ s c', get_concolic (AArray [BoxedABI_new (A256 (z2be 32 7) false false false)] false) 0 =
          Some (replicate 32 (sym_byte s), c').
Proof.
  apply (tuple_bytes_share_symbol (z2be 32 7) false false false sel_zero 0). apply length_z2be.
Defined.
