(* ===== verification/AbiParse.v ===== *)
(** * Parsing of ABI type names ([src/src/evm/abi.rs])

    [get_abi_type] builds the default argument of a Solidity type from its name.
    Strings are lists of characters.  The recursion is on shorter and shorter
    names; the fuel is the length of the name, which is proved to be enough. *)
From S2P Require Import Prelude Types Expr Abi AbiLayout.
#[local] Open Scope Z_scope.

Definition str := list ascii.
Definition lit (s : string) : str := list_ascii_of_string s.

(** ** String operations of the standard library *)

Definition starts_with (s p : str) : bool := bool_decide (take (length p) s = p).
Definition ends_with (s p : str) : bool :=
  bool_decide (length p ≤ length s ∧ drop (length s - length p) s = p)%nat.
Definition contains_char (s : str) (c : ascii) : bool := bool_decide (c ∈ s).

(** [rsplit_once(c)]: split at the last occurrence. *)
Fixpoint rsplit_once (s : str) (c : ascii) : option (str * str) :=
  match s with
  | [] => None
  | x :: s' =>
      match rsplit_once s' c with
      | Some (a, b) => Some (x :: a, b)
      | None => if decide (x = c) then Some ([], s') else None
      end
  end.

(** [split(c).next().unwrap()]: the part before the first occurrence. *)
Fixpoint before_char (s : str) (c : ascii) : str :=
  match s with
  | [] => []
  | x :: s' => if decide (x = c) then [] else x :: before_char s' c
  end.

(** [parse::<usize>()]: decimal digits, with an optional [+]; [None] is an error. *)
Definition digit_value (c : ascii) : option Z :=
  let n := Z.of_N (N_of_ascii c) - 48 in
  if (0 <=? n) && (n <=? 9) then Some n else None.

Definition parse_digit (acc : Z) (c : ascii) : option Z :=
  d ← digit_value c;
  let v := acc * 10 + d in
  if v <? USIZE then Some v else None.

Definition parse_usize (s : str) : option Z :=
  let digits := match s with
                | x :: s' => if decide (x = "+"%char) then s' else s
                | [] => []
                end in
  if decide (digits = []) then None else foldM parse_digit 0 digits.

(** ** The functions of the source *)

(** [split_with_parenthesis]: the loop state is [result], [current] and
    [parenthesis] (an [i32] that counts at most the length of the name). *)
Record split_st := SplitSt { sp_result : list str; sp_current : str; sp_parenthesis : Z }.

Definition split_step (st : split_st) (c : ascii) : split_st :=
  let parenthesis :=
    if decide (c = "("%char) then sp_parenthesis st + 1
    else if decide (c = ")"%char) then sp_parenthesis st - 1
    else sp_parenthesis st in
  if decide (c = ","%char ∧ parenthesis = 0)
  then SplitSt (sp_result st ++ [sp_current st]) [] parenthesis
  else SplitSt (sp_result st) (sp_current st ++ [c]) parenthesis.

Definition split_with_parenthesis (s : str) : list str :=
  let st := fold_left split_step s (SplitSt [] [] 0) in
  sp_result st ++ [sp_current st].

(** The arm ["uint" | "int"] of [get_abi_type_basic]. *)
Definition basic_uint (abi_bs : nat) : ABI := A256 (replicate abi_bs x00) false false false.

(** [abi_name[n..].parse().unwrap()] with the assertion on multiples of 8 bits. *)
Definition sized_uint (suffix : str) : option ABI :=
  len ← parse_usize suffix;
  if (len mod 8 =? 0) && (8 <=? len) then Some (basic_uint (Z.to_nat (len / 8))) else None.

(** [get_abi_type_basic] *)
Definition get_abi_type_basic (abi_name : str) (abi_bs : nat) (with_address : option (list byte))
  : option ABI :=
  if decide (abi_name = lit "uint" ∨ abi_name = lit "int") then Some (basic_uint abi_bs)
  else if decide (abi_name = lit "address")
       then Some (A256 (default (replicate 20 x00) with_address) true false false)
  else if decide (abi_name = lit "bool") then Some (A256 [x00] false false false)
  else if decide (abi_name = lit "bytes") then Some (ADynamic [] 32)
  else if decide (abi_name = lit "string") then Some (ADynamic [] 32)
  else if starts_with abi_name (lit "uint") then sized_uint (drop 4 abi_name)
  else if starts_with abi_name (lit "int") then sized_uint (drop 3 abi_name)
  else if decide (abi_name = lit "unknown") then Some (AUnknown (BoxedABI_new (basic_uint 32)) 1)
  else if starts_with abi_name (lit "bytes")
       then len ← parse_usize (drop 5 abi_name);
            Some (A256 (replicate (Z.to_nat len) x00) false false true)
  else if decide (length abi_name = 0%nat) then Some AEmpty
  else None.

(** [get_abi_type], with [rec] for its recursive calls. *)
Definition get_abi_type_body (rec : str → option ABI) (abi_name : str)
    (with_address : option (list byte)) : option ABI :=
  if decide (abi_name = lit "()") then Some AEmpty
  else if starts_with abi_name (lit "(") && ends_with abi_name (lit ")") then
    (* [&s[1..s.len() - 1]] *)
    inner ← slice abi_name 1 (Z.of_nat (length abi_name) - 1);
    data ← mapM_opt (λ x, b ← rec x; Some (mkBoxedABI b sel_zero)) (split_with_parenthesis inner);
    Some (AArray data false)
  else if ends_with abi_name (lit "[]") then
    b ← rec (take (length abi_name - 2) abi_name);
    Some (AArray [mkBoxedABI b sel_zero] true)
  else if ends_with abi_name (lit "]") && contains_char abi_name "["%char then
    split ← rsplit_once abi_name "["%char;
    len ← parse_usize (before_char split.2 "]"%char);
    b ← rec split.1;
    Some (AArray (replicate (Z.to_nat len) (mkBoxedABI b sel_zero)) false)
  else get_abi_type_basic abi_name 32 with_address.

Fixpoint get_abi_type_fuel (fuel : nat) (with_address : option (list byte)) (abi_name : str)
  : option ABI :=
  match fuel with
  | O => None
  | S n => get_abi_type_body (get_abi_type_fuel n with_address) abi_name with_address
  end.

Definition get_abi_type (abi_name : str) (with_address : option (list byte)) : option ABI :=
  get_abi_type_fuel (S (length abi_name)) with_address abi_name.

(** [get_abi_type_boxed] *)
Definition get_abi_type_boxed (abi_name : str) : option BoxedABI :=
  b ← get_abi_type abi_name None; Some (mkBoxedABI b sel_zero).

(** [get_abi_type_boxed_with_address] *)
Definition get_abi_type_boxed_with_address (abi_name : str) (address : list byte) : option BoxedABI :=
  b ← get_abi_type abi_name (Some address); Some (mkBoxedABI b sel_zero).

Example parse_nested :
  get_abi_type (lit "(uint256,(address,bytes4)[2],string[])") None =
  Some (AArray
    [BoxedABI_new (A256 (replicate 32 x00) false false false);
     BoxedABI_new (AArray (replicate 2 (BoxedABI_new (AArray
        [BoxedABI_new (A256 (replicate 20 x00) true false false);
         BoxedABI_new (A256 (replicate 4 x00) false false true)] false))) false);
     BoxedABI_new (AArray [BoxedABI_new (ADynamic [] 32)] true)] false).
Proof. vm_compute. reflexivity. Qed.

(** ** The fuel is enough *)

Lemma split_parts_short s st p :
  let st' := fold_left split_step s st in
  p ∈ sp_result st' ++ [sp_current st'] →
  p ∈ sp_result st ∨ (length p ≤ length (sp_current st) + length s)%nat.
Proof.
  revert st. induction s as [|c s IH]; intros st; simpl.
  - rewrite elem_of_app, list_elem_of_singleton. intros [?| ->]; [by left|right; lia].
  - intros [H|H]%IH.
    + revert H. unfold split_step. case_decide; cbn [sp_result]; [|by left].
      rewrite elem_of_app, list_elem_of_singleton. intros [?| ->]; [by left|right; lia].
    + right. revert H. unfold split_step. case_decide; cbn [sp_current length];
        rewrite ?length_app; simpl; lia.
Qed.

Lemma split_with_parenthesis_short s p :
  p ∈ split_with_parenthesis s → (length p ≤ length s)%nat.
Proof. intros [H|H]%split_parts_short; [by apply not_elem_of_nil in H|done]. Qed.

Lemma rsplit_once_spec s c a b : rsplit_once s c = Some (a, b) → s = a ++ c :: b.
Proof.
  revert a b. induction s as [|x s IH]; intros a b; simpl; [done|].
  destruct (rsplit_once s c) as [[a' b']|] eqn:E.
  - intros [= <- <-]. by rewrite (IH a' b').
  - case_decide; [|done]. by intros [= <- <-]; subst.
Qed.

Lemma slice_short {A} (l k : list A) i j :
  slice l i j = Some k → (length k = Z.to_nat (j - i))%nat.
Proof.
  unfold slice. case_decide; [|done]. intros [= <-]. rewrite length_take, length_drop. lia.
Qed.

Lemma mapM_opt_ext_in {A B} (f g : A → option B) l :
  (∀ x, x ∈ l → f x = g x) → mapM_opt f l = mapM_opt g l.
Proof.
  induction l as [|x l IH]; intros H; simpl; [done|].
  rewrite (H x) by left. rewrite IH; [done|]. intros. apply H. by right.
Qed.

(** The body only calls itself on shorter names. *)
Lemma get_abi_type_body_ext r1 r2 s w :
  (∀ t, (length t < length s)%nat → r1 t = r2 t) →
  get_abi_type_body r1 s w = get_abi_type_body r2 s w.
Proof.
  intros H. unfold get_abi_type_body. case_decide as E0; [done|].
  destruct (starts_with s (lit "(") && ends_with s (lit ")")) eqn:E1.
  { destruct (slice s 1 (Z.of_nat (length s) - 1)) as [inner|] eqn:Es; [|done].
    rewrite !obind_Some. erewrite mapM_opt_ext_in; [done|].
    intros t Ht%split_with_parenthesis_short. apply slice_short in Es.
    destruct s as [|c s']; [discriminate|]. rewrite H; [done|]. simpl in *. lia. }
  destruct (ends_with s (lit "[]")) eqn:E2.
  { apply bool_decide_eq_true in E2 as [E2 _]. simpl in E2.
    rewrite H; [done|]. rewrite length_take. lia. }
  destruct (ends_with s (lit "]") && contains_char s "[") eqn:E3; [|done].
  destruct (rsplit_once s "[") as [[a b]|] eqn:Er; [|done].
  apply rsplit_once_spec in Er. rewrite !obind_Some. cbn [fst snd].
  rewrite (H a); [done|]. rewrite Er, length_app. simpl. lia.
Qed.

Lemma get_abi_type_fuel_irrelevant n m w s :
  (length s < n)%nat → (length s < m)%nat → get_abi_type_fuel n w s = get_abi_type_fuel m w s.
Proof.
  revert m s. induction n as [|n IH]; intros [|m] s Hn Hm; [lia..|]. simpl.
  apply get_abi_type_body_ext. intros t Ht. apply IH; lia.
Qed.

Lemma get_abi_type_unfold s w :
  get_abi_type s w = get_abi_type_body (λ t, get_abi_type t w) s w.
Proof.
  apply get_abi_type_body_ext. intros t Ht. by apply get_abi_type_fuel_irrelevant; [|lia].
Qed.

(** C37. The recursion of [get_abi_type] always terminates: with any fuel above the
    length of the name the result is the same and satisfies the recursive equation of
    the source, so a result [None] is a panic of the source and never a lack of fuel. *)
Theorem get_abi_type_terminates s w n :
  (length s < n)%nat →
  get_abi_type_fuel n w s = get_abi_type s w ∧
  get_abi_type s w = get_abi_type_body (λ t, get_abi_type t w) s w.
Proof.
  intros Hn. split; [|apply get_abi_type_unfold].
  apply get_abi_type_fuel_irrelevant; [done|lia].
Qed.

Lemma get_abi_type_terminates_witness :
  get_abi_type_fuel 9 None (lit "(bool)[]") = get_abi_type (lit "(bool)[]") None ∧
  get_abi_type (lit "(bool)[]") None =
  get_abi_type_body (λ t, get_abi_type t None) (lit "(bool)[]") None.
Proof. apply (get_abi_type_terminates (lit "(bool)[]") None 9). vm_compute. lia. Defined.

(** ** Canonical type names *)

(** Solidity types.  [TyUint k], [TyInt k] and [TyBytesN k] have [k] bytes. *)
Inductive sol_type :=
| TyUint (k : nat)
| TyInt (k : nat)
| TyBytesN (k : nat)
| TyAddress
| TyBool
| TyBytes
| TyString
| TyTuple (l : list sol_type)
| TySlice (t : sol_type)
| TyFixed (t : sol_type) (n : nat).

(** Decimal notation. *)
Definition digit_char (d : Z) : ascii := ascii_of_N (Z.to_N (48 + d)).
Fixpoint decimal (k : nat) (n : Z) : str :=
  match k with
  | O => []
  | S k' => (if n <? 10 then [] else decimal k' (n / 10)) ++ [digit_char (n mod 10)]
  end.

Definition show_nat (n : nat) : str := decimal 20 (Z.of_nat n).

Fixpoint join (l : list str) : str :=
  match l with
  | [] => []
  | [x] => x
  | x :: l' => x ++ ","%char :: join l'
  end.

(** The canonical name of a type. *)
Fixpoint type_name (t : sol_type) : str :=
  match t with
  | TyUint k => lit "uint" ++ show_nat (8 * k)
  | TyInt k => lit "int" ++ show_nat (8 * k)
  | TyBytesN k => lit "bytes" ++ show_nat k
  | TyAddress => lit "address"
  | TyBool => lit "bool"
  | TyBytes => lit "bytes"
  | TyString => lit "string"
  | TyTuple l => "("%char :: join (map type_name l) ++ [")"%char]
  | TySlice t => type_name t ++ lit "[]"
  | TyFixed t n => type_name t ++ "["%char :: show_nat n ++ ["]"%char]
  end.

(** The default value of a type. *)
Fixpoint default_value (w : option (list byte)) (t : sol_type) : ABI :=
  match t with
  | TyUint k | TyInt k => A256 (replicate k x00) false false false
  | TyBytesN k => A256 (replicate k x00) false false true
  | TyAddress => A256 (default (replicate 20 x00) w) true false false
  | TyBool => A256 [x00] false false false
  | TyBytes | TyString => ADynamic [] 32
  | TyTuple [] => AEmpty
  | TyTuple l => AArray (map (λ t, BoxedABI_new (default_value w t)) l) false
  | TySlice t => AArray [BoxedABI_new (default_value w t)] true
  | TyFixed t n => AArray (replicate n (BoxedABI_new (default_value w t))) false
  end.

(** Sizes that Solidity allows (and array lengths that fit a [usize]). *)
Fixpoint type_ok (t : sol_type) : bool :=
  match t with
  | TyUint k | TyInt k | TyBytesN k => (1 <=? k)%nat && (k <=? 32)%nat
  | TyTuple l => forallb type_ok l
  | TySlice t => type_ok t
  | TyFixed t n => type_ok t && (Z.of_nat n <? USIZE)
  | _ => true
  end.

Section sol_type_ind.
Variable P : sol_type → Prop.
Hypothesis Hleaf : ∀ t, (∀ l, t ≠ TyTuple l) → (∀ u, t ≠ TySlice u) → (∀ u n, t ≠ TyFixed u n) → P t.
Hypothesis Htuple : ∀ l, Forall P l → P (TyTuple l).
Hypothesis Hslice : ∀ t, P t → P (TySlice t).
Hypothesis Hfixed : ∀ t n, P t → P (TyFixed t n).

Fixpoint sol_type_nested_ind (t : sol_type) : P t.
Proof using Hleaf Htuple Hslice Hfixed.
  destruct t; try (apply Hleaf; congruence).
  - apply Htuple. induction l; constructor; [apply sol_type_nested_ind|assumption].
  - apply Hslice, sol_type_nested_ind.
  - apply Hfixed, sol_type_nested_ind.
Qed.
End sol_type_ind.

(** ** Decimal notation *)

Definition is_digit (c : ascii) : Prop := ∃ d, 0 ≤ d ≤ 9 ∧ c = digit_char d.

Lemma digit_cases d (P : Z → Prop) :
  0 ≤ d ≤ 9 → P 0 → P 1 → P 2 → P 3 → P 4 → P 5 → P 6 → P 7 → P 8 → P 9 → P d.
Proof.
  intros H. intros.
  assert (d = 0 ∨ d = 1 ∨ d = 2 ∨ d = 3 ∨ d = 4 ∨ d = 5 ∨ d = 6 ∨ d = 7 ∨ d = 8 ∨ d = 9) as E by lia.
  by destruct E as [->|[->|[->|[->|[->|[->|[->|[->|[->| ->]]]]]]]]].
Qed.

Lemma digit_value_char d : 0 ≤ d ≤ 9 → digit_value (digit_char d) = Some d.
Proof. intros H. by apply (digit_cases d (λ d, digit_value (digit_char d) = Some d)). Qed.

Lemma is_digit_not c x : is_digit c → digit_value x = None → c ≠ x.
Proof. intros (d & Hd & ->) Hx <-. by rewrite digit_value_char in Hx. Qed.

Lemma decimal_digits k n : 0 ≤ n → Forall is_digit (decimal k n).
Proof.
  revert n. induction k as [|k IH]; intros n Hn; simpl; [constructor|].
  apply Forall_app. split.
  - destruct (n <? 10); [constructor|]. apply IH. by apply Z.div_pos.
  - constructor; [|constructor]. exists (n mod 10). split; [|done].
    pose proof (Z.mod_pos_bound n 10). lia.
Qed.

Lemma show_nat_digits n : Forall is_digit (show_nat n).
Proof. apply decimal_digits. lia. Qed.

Lemma show_nat_nonempty n : show_nat n ≠ [].
Proof. unfold show_nat. simpl. by destruct (if _ <? _ then _ else _). Qed.

Lemma parse_decimal k n :
  0 ≤ n < 10 ^ Z.of_nat k → n < USIZE → foldM parse_digit 0 (decimal k n) = Some n.
Proof.
  revert n. induction k as [|k IH]; intros n Hn Hu.
  { simpl. f_equal. simpl in Hn. lia. }
  cbn [decimal]. rewrite foldM_app.
  assert (foldM parse_digit 0 (if n <? 10 then [] else decimal k (n / 10)) = Some (n / 10)) as ->.
  { destruct (Z.ltb_spec n 10) as [H|H].
    - simpl. by rewrite Z.div_small by lia.
    - assert (0 ≤ n / 10) by (apply Z.div_pos; lia).
      assert (n / 10 < n) by (apply Z.div_lt; lia).
      apply IH; [|lia]. split; [done|].
      apply Z.div_lt_upper_bound; [lia|].
      replace (Z.of_nat (S k)) with (1 + Z.of_nat k) in Hn by lia. rewrite Z.pow_add_r in Hn by lia. lia. }
  pose proof (Z.mod_pos_bound n 10 ltac:(lia)). pose proof (Z.div_mod n 10 ltac:(lia)).
  rewrite obind_Some. cbn [foldM]. unfold parse_digit. rewrite digit_value_char by lia. rewrite obind_Some.
  destruct (Z.ltb_spec (n / 10 * 10 + n mod 10) USIZE); [|lia]. simpl. f_equal. lia.
Qed.

Lemma parse_show_nat n : Z.of_nat n < USIZE → parse_usize (show_nat n) = Some (Z.of_nat n).
Proof.
  intros H. pose proof (show_nat_digits n) as Hd. pose proof (show_nat_nonempty n) as Hne.
  assert (foldM parse_digit 0 (show_nat n) = Some (Z.of_nat n)) as Hp.
  { apply parse_decimal; [|done]. unfold USIZE in H. simpl in *. lia. }
  unfold parse_usize. destruct (show_nat n) as [|c s]; [done|].
  inversion Hd as [|? ? Hc _]; subst.
  destruct (decide (c = "+"%char)) as [->|_];
    [by destruct (is_digit_not _ "+"%char Hc)|].
  by rewrite decide_False.
Qed.

Lemma not_elem_digits s x : Forall is_digit s → digit_value x = None → x ∉ s.
Proof.
  intros H Hx Hin. rewrite Forall_forall in H. by apply (is_digit_not x x (H x Hin)).
Qed.

(** ** String operations on canonical names *)

Lemma ends_with_app s p : ends_with (s ++ p) p = true.
Proof.
  apply bool_decide_eq_true. rewrite length_app. split; [lia|].
  replace (length s + length p - length p)%nat with (length s) by lia. apply drop_app_length.
Qed.

Lemma ends_with_inv s p : ends_with s p = true → ∃ pre, s = pre ++ p.
Proof.
  intros [_ E]%bool_decide_eq_true. exists (take (length s - length p) s).
  rewrite <- E at 2. by rewrite take_drop.
Qed.

Lemma ends_with_snoc s c x : ends_with (s ++ [c]) [x] = bool_decide (c = x).
Proof.
  apply bool_decide_ext. rewrite length_app. simpl.
  replace (length s + 1 - 1)%nat with (length s) by lia. rewrite drop_app_length. split.
  - by intros [_ [= ->]].
  - intros ->. split; [lia|done].
Qed.

Lemma ends_with_snoc2 s c d : ends_with (s ++ [c; d]) (lit "[]") = bool_decide (c = "["%char ∧ d = "]"%char).
Proof.
  apply bool_decide_ext. rewrite length_app. simpl.
  replace (length s + 2 - 2)%nat with (length s) by lia. rewrite drop_app_length. split.
  - by intros [_ [= -> ->]].
  - intros [-> ->]. split; [lia|done].
Qed.

Lemma rsplit_once_last s t c : c ∉ t → rsplit_once (s ++ c :: t) c = Some (s, t).
Proof.
  intros H. induction s as [|x s IH]; simpl.
  - assert (rsplit_once t c = None) as ->.
    { induction t as [|x t IHt]; [done|]. apply not_elem_of_cons in H as [Hx Ht].
      simpl. rewrite IHt by done. by rewrite decide_False. }
    by rewrite decide_True.
  - by rewrite IH.
Qed.

Lemma before_char_app s c t : c ∉ s → before_char (s ++ c :: t) c = s.
Proof.
  induction s as [|x s IH]; simpl; intros H; [by rewrite decide_True|].
  apply not_elem_of_cons in H as [Hx Hs]. rewrite decide_False by done. by rewrite IH.
Qed.

(** ** Splitting at the commas of the outermost level *)

(** A text that the splitting loop takes over unchanged, at any depth. *)
Definition balanced (s : str) : Prop := ∀ st,
  0 ≤ sp_parenthesis st →
  fold_left split_step s st = SplitSt (sp_result st) (sp_current st ++ s) (sp_parenthesis st).

(** A text without commas and parentheses, and one inside parentheses. *)
Definition plain_char (c : ascii) : bool :=
  negb (bool_decide (c = "("%char) || bool_decide (c = ")"%char) || bool_decide (c = ","%char)).

Lemma balanced_app s t : balanced s → balanced t → balanced (s ++ t).
Proof.
  intros Hs Ht st Hp. rewrite fold_left_app, Hs, Ht by done. cbn [sp_result sp_current sp_parenthesis].
  by rewrite app_assoc.
Qed.

Lemma balanced_char c : plain_char c = true → balanced [c].
Proof.
  unfold plain_char. rewrite negb_true_iff, !orb_false_iff, !bool_decide_eq_false.
  intros [[H1 H2] H3] st _. simpl. unfold split_step.
  rewrite (decide_False (P := c = "("%char)), (decide_False (P := c = ")"%char)) by done.
  rewrite decide_False by tauto. done.
Qed.

Lemma balanced_plain s : Forall (λ c, plain_char c = true) s → balanced s.
Proof.
  induction 1 as [|c s Hc _ IH].
  - intros st _. simpl. rewrite app_nil_r. by destruct st.
  - apply (balanced_app [c] s); [by apply balanced_char|done].
Qed.

Lemma digits_plain s : Forall is_digit s → Forall (λ c, plain_char c = true) s.
Proof.
  intros H. eapply Forall_impl; [exact H|]. intros c Hc. unfold plain_char.
  rewrite !bool_decide_eq_false_2 by (by apply is_digit_not). done.
Qed.

Lemma split_step_comma r c p :
  split_step (SplitSt r c p) ","%char =
  if decide (p = 0) then SplitSt (r ++ [c]) [] p else SplitSt r (c ++ [","%char]) p.
Proof. unfold split_step. simpl. repeat case_decide; naive_solver. Qed.

Lemma split_step_open r c p :
  split_step (SplitSt r c p) "("%char = SplitSt r (c ++ ["("%char]) (p + 1).
Proof. unfold split_step. simpl. repeat case_decide; naive_solver. Qed.

Lemma split_step_close r c p :
  split_step (SplitSt r c p) ")"%char = SplitSt r (c ++ [")"%char]) (p - 1).
Proof. unfold split_step. simpl. repeat case_decide; naive_solver. Qed.

(** Inside parentheses a join of balanced texts is taken over unchanged. *)
Lemma join_inside l res cur p :
  Forall balanced l → 0 < p →
  fold_left split_step (join l) (SplitSt res cur p) = SplitSt res (cur ++ join l) p.
Proof.
  intros H Hp. revert cur. induction H as [|x l Hx H IH]; intros cur; simpl.
  { by rewrite app_nil_r. }
  destruct l as [|y l].
  { rewrite Hx by (simpl; lia). done. }
  rewrite fold_left_app, Hx by (simpl; lia). cbn [sp_result sp_current sp_parenthesis].
  cbn [fold_left]. rewrite split_step_comma, decide_False by lia. rewrite IH. by rewrite <- !app_assoc.
Qed.

Lemma balanced_parens l :
  Forall balanced l → balanced ("("%char :: join l ++ [")"%char]).
Proof.
  intros H [res cur p] Hp. cbn [sp_parenthesis] in Hp. cbn [fold_left].
  rewrite split_step_open, fold_left_app, join_inside by (done || lia). cbn [fold_left].
  rewrite split_step_close. cbn [sp_result sp_current sp_parenthesis].
  rewrite <- !app_assoc. f_equal. lia.
Qed.

Lemma balanced_forallb s : forallb plain_char s = true → balanced s.
Proof.
  intros H. apply balanced_plain, Forall_forall. intros c Hc%list_elem_of_In.
  rewrite forallb_forall in H. by apply H.
Qed.

Lemma balanced_show n : balanced (show_nat n).
Proof. apply balanced_plain, digits_plain, show_nat_digits. Qed.

Lemma type_name_balanced t : balanced (type_name t).
Proof.
  induction t as [t H1 H2 H3|l IH|t IH|t n IH] using sol_type_nested_ind.
  - destruct t; try (by destruct (H1 l)); try (by destruct (H2 t)); try (by destruct (H3 t n));
      cbn [type_name].
    1-3: apply balanced_app; [by apply balanced_forallb|apply balanced_show].
    all: by apply balanced_forallb.
  - cbn [type_name]. apply balanced_parens. by apply Forall_map.
  - cbn [type_name]. apply balanced_app; [done|by apply balanced_forallb].
  - cbn [type_name]. apply balanced_app; [done|]. apply (balanced_app ["["%char]).
    { by apply balanced_forallb. }
    apply balanced_app; [apply balanced_show|by apply balanced_forallb].
Qed.

(** Splitting a join of balanced texts gives the texts back. *)
Lemma split_join l : l ≠ [] → Forall balanced l → split_with_parenthesis (join l) = l.
Proof.
  intros Hne H. unfold split_with_parenthesis.
  assert (∀ res, l ≠ [] →
    (let st := fold_left split_step (join l) (SplitSt res [] 0) in
     sp_result st ++ [sp_current st]) = res ++ l) as G; [|by apply (G [])].
  clear Hne. induction H as [|x l Hx H IH]; intros res Hne; [done|].
  destruct l as [|y l].
  { simpl. by rewrite Hx by (simpl; lia). }
  change (join (x :: y :: l)) with (x ++ ","%char :: join (y :: l)).
  rewrite fold_left_app, Hx by (simpl; lia). cbn [sp_result sp_current sp_parenthesis app].
  cbn [fold_left]. rewrite split_step_comma, decide_True by done.
  rewrite IH by done. by rewrite <- app_assoc.
Qed.

(** ** Parsing of canonical names *)

Lemma body_basic rec s c w :
  head s ≠ Some "("%char → last s = Some c → c ≠ "]"%char →
  get_abi_type_body rec s w = get_abi_type_basic s 32 w.
Proof.
  intros Hh Hl Hc. apply last_Some in Hl as [s' ->]. unfold get_abi_type_body.
  rewrite decide_False by (intros E; rewrite E in Hh; done).
  assert (starts_with (s' ++ [c]) (lit "(") = false) as ->.
  { apply bool_decide_eq_false. destruct (s' ++ [c]) as [|x l]; simpl in *; congruence. }
  assert (ends_with (s' ++ [c]) (lit "[]") = false) as ->.
  { apply not_true_iff_false. intros [p E]%ends_with_inv.
    change (lit "[]") with (["["%char] ++ ["]"%char]) in E. rewrite app_assoc in E.
    apply app_inj_tail in E as [_ E]. done. }
  change (lit "]") with ["]"%char]. rewrite ends_with_snoc, bool_decide_eq_false_2 by done. done.
Qed.

Lemma basic_sized (pre : string) (k : nat) w :
  (pre = "uint" ∨ pre = "int") → (1 ≤ k ≤ 32)%nat →
  get_abi_type_basic (lit pre ++ show_nat (8 * k)) 32 w = Some (basic_uint k).
Proof.
  intros Hp Hk. pose proof (show_nat_digits (8 * k)) as Hd.
  pose proof (parse_show_nat (8 * k) ltac:(unfold USIZE; lia)) as Hn.
  assert (sized_uint (show_nat (8 * k)) = Some (basic_uint k)) as Hs.
  { unfold sized_uint. rewrite Hn, obind_Some.
    replace (Z.of_nat (8 * k)) with (Z.of_nat k * 8) by lia. rewrite Z.mod_mul, Z.div_mul by lia.
    destruct (Z.leb_spec 8 (Z.of_nat k * 8)); [|lia]. simpl. by rewrite Nat2Z.id. }
  pose proof (show_nat_nonempty (8 * k)) as Hne. set (d := show_nat (8 * k)) in *.
  destruct d as [|c d']; [done|]. inversion Hd as [|? ? Hc _]; subst.
  unfold get_abi_type_basic.
  destruct Hp as [-> | ->]; cbn [lit list_ascii_of_string app];
    repeat rewrite decide_False by (intros E; naive_solver).
  - exact Hs.
  - exact Hs.
Qed.

Lemma basic_bytes_n (k : nat) w :
  (1 ≤ k ≤ 32)%nat →
  get_abi_type_basic (lit "bytes" ++ show_nat k) 32 w =
  Some (A256 (replicate k x00) false false true).
Proof.
  intros Hk. pose proof (parse_show_nat k ltac:(unfold USIZE; lia)) as Hn.
  pose proof (show_nat_nonempty k) as Hne. unfold get_abi_type_basic.
  destruct (show_nat k) as [|c d']; [done|]. cbn [lit list_ascii_of_string app].
  repeat rewrite decide_False by (intros E; naive_solver).
  change (drop 5 _) with (c :: d'). simpl. rewrite Hn. simpl. by rewrite Nat2Z.id.
Qed.

Lemma last_show s n : ∃ c, last (s ++ show_nat n) = Some c ∧ is_digit c.
Proof.
  pose proof (show_nat_digits n) as Hd. pose proof (show_nat_nonempty n).
  destruct (show_nat n) as [|c d _] using rev_ind; [done|]. exists c.
  rewrite app_assoc, last_snoc. split; [done|].
  apply Forall_app in Hd as [_ Hd]. by inversion Hd.
Qed.

Lemma is_digit_not_bracket c : is_digit c → c ≠ "]"%char.
Proof. intros H. by apply is_digit_not. Qed.
#[export] Hint Resolve is_digit_not_bracket : mau.

Lemma parse_tuple l w :
  l ≠ [] → Forall (λ t, get_abi_type (type_name t) w = Some (default_value w t)) l →
  get_abi_type (type_name (TyTuple l)) w = Some (default_value w (TyTuple l)).
Proof.
  intros Hne H. rewrite get_abi_type_unfold. cbn [type_name]. unfold get_abi_type_body.
  set (inner := join (map type_name l)).
  assert (length inner ≠ 0%nat ∨ inner = []) as Hi by (destruct inner; [by right|by left]).
  case_decide as E0.
  { exfalso. change (lit "()") with ["("%char; ")"%char] in E0. injection E0 as E0.
    destruct inner as [|x i] eqn:Ei; [|destruct i; discriminate].
    destruct l as [|t l]; [done|]. unfold inner in Ei. cbn [map] in Ei.
    assert (type_name t ≠ []) as Ht.
    { clear. destruct t; simpl; try done.
      - by destruct (type_name t).
      - by destruct (type_name t). }
    destruct l; cbn [map join] in Ei; [done|].
    apply (f_equal length) in Ei. rewrite length_app in Ei. simpl in Ei. lia. }
  change ("("%char :: inner ++ [")"%char]) with (("("%char :: inner) ++ [")"%char]) at 1 2.
  change (lit ")") with [")"%char]. rewrite ends_with_app. cbn [starts_with app take length lit list_ascii_of_string].
  assert (starts_with ("("%char :: inner ++ [")"%char]) ["("%char] = true) as -> by done. cbn [andb].
  rewrite (slice_app ["("%char] inner [")"%char]); [|done|simpl; rewrite length_app; simpl; lia].
  rewrite obind_Some. unfold inner. rewrite split_join.
  2:{ destruct l; done. }
  2:{ apply Forall_map, Forall_forall. intros. apply type_name_balanced. }
  assert (mapM_opt (λ x, b ← get_abi_type x w; Some (mkBoxedABI b sel_zero)) (map type_name l) =
          Some (map (λ t, BoxedABI_new (default_value w t)) l)) as ->.
  { clear inner Hi E0 Hne. induction H as [|t l Ht _ IH]; [done|]. cbn [map mapM_opt].
    rewrite Ht, obind_Some, obind_Some. cbn [mapM_opt] in IH. rewrite IH. done. }
  rewrite obind_Some. by destruct l.
Qed.

Lemma parse_slice t w :
  get_abi_type (type_name t) w = Some (default_value w t) →
  get_abi_type (type_name (TySlice t)) w = Some (default_value w (TySlice t)).
Proof.
  intros H. rewrite get_abi_type_unfold. cbn [type_name]. unfold get_abi_type_body.
  assert (Es : type_name t ++ lit "[]" = (type_name t ++ ["["%char]) ++ ["]"%char])
    by (by rewrite <- app_assoc).
  rewrite decide_False.
  2:{ intros E. rewrite Es in E. change (lit "()") with (["("%char] ++ [")"%char]) in E.
      by apply app_inj_tail in E as [_ E]. }
  assert (ends_with (type_name t ++ lit "[]") (lit ")") = false) as ->.
  { change (lit ")") with [")"%char]. rewrite Es, ends_with_snoc. done. }
  rewrite andb_false_r, ends_with_app. rewrite length_app. change (length (lit "[]")) with 2%nat.
  replace (length (type_name t) + 2 - 2)%nat with (length (type_name t)) by lia.
  rewrite take_app_length, H. done.
Qed.

Lemma parse_fixed t n w :
  Z.of_nat n < USIZE →
  get_abi_type (type_name t) w = Some (default_value w t) →
  get_abi_type (type_name (TyFixed t n)) w = Some (default_value w (TyFixed t n)).
Proof.
  intros Hn H. rewrite get_abi_type_unfold. cbn [type_name]. unfold get_abi_type_body.
  set (s := type_name t ++ "["%char :: show_nat n ++ ["]"%char]).
  assert (Es : s = (type_name t ++ "["%char :: show_nat n) ++ ["]"%char])
    by (unfold s; by rewrite <- app_assoc).
  pose proof (show_nat_digits n) as Hd.
  rewrite decide_False.
  2:{ intros E. rewrite Es in E. change (lit "()") with (["("%char] ++ [")"%char]) in E.
      by apply app_inj_tail in E as [_ E]. }
  assert (ends_with s (lit ")") = false) as ->.
  { change (lit ")") with [")"%char]. rewrite Es, ends_with_snoc. done. }
  rewrite andb_false_r.
  assert (ends_with s (lit "[]") = false) as ->.
  { destruct (last_show [] n) as (c & Hl & Hc). simpl in Hl.
    apply last_Some in Hl as [d Ed]. rewrite Es, Ed.
    replace ((type_name t ++ "["%char :: d ++ [c]) ++ ["]"%char])
      with ((type_name t ++ "["%char :: d) ++ [c; "]"%char])
      by (rewrite <- !app_assoc; cbn [app]; by rewrite <- app_assoc).
    rewrite ends_with_snoc2. apply bool_decide_eq_false_2. intros [-> _].
    by destruct (is_digit_not _ "["%char Hc). }
  assert (ends_with s (lit "]") = true) as -> by (rewrite Es; apply ends_with_app).
  replace (contains_char s "[") with true.
  2:{ symmetry. apply bool_decide_eq_true_2. unfold s. apply elem_of_app. right. left. }
  cbn [andb]. unfold s. rewrite rsplit_once_last, obind_Some.
  2:{ rewrite elem_of_app, list_elem_of_singleton. intros [Hin|?]; [|done].
      by apply (not_elem_digits _ _ Hd) in Hin. }
  cbn [fst snd]. rewrite before_char_app by (by apply not_elem_digits).
  rewrite parse_show_nat, obind_Some, H, obind_Some, Nat2Z.id by done. done.
Qed.

Lemma parse_type_name t w :
  type_ok t = true → get_abi_type (type_name t) w = Some (default_value w t).
Proof.
  induction t as [t H1 H2 H3|l IH|t IH|t n IH] using sol_type_nested_ind; intros Hok.
  - destruct t; try (by destruct (H1 l)); try (by destruct (H2 t)); try (by destruct (H3 t n));
      try done.
    all: cbn [type_ok] in Hok; apply andb_true_iff in Hok as [Ha%Nat.leb_le Hb%Nat.leb_le].
    all: rewrite get_abi_type_unfold; cbn [type_name].
    + destruct (last_show (lit "uint") (8 * k)) as (c & Hl & Hc).
      rewrite (body_basic _ _ c) by (done || auto with mau). apply (basic_sized "uint"); auto.
    + destruct (last_show (lit "int") (8 * k)) as (c & Hl & Hc).
      rewrite (body_basic _ _ c) by (done || auto with mau). apply (basic_sized "int"); auto.
    + destruct (last_show (lit "bytes") k) as (c & Hl & Hc).
      rewrite (body_basic _ _ c) by (done || auto with mau). by apply basic_bytes_n.
  - cbn [type_ok] in Hok. rewrite forallb_forall in Hok.
    destruct l as [|t l]; [done|]. apply parse_tuple; [done|].
    apply Forall_forall. intros u Hu. rewrite Forall_forall in IH. apply (IH u Hu), Hok.
    by apply list_elem_of_In.
  - by apply parse_slice, IH.
  - cbn [type_ok] in Hok. apply andb_true_iff in Hok as [Ht Hn%Z.ltb_lt]. by apply parse_fixed, IH.
Qed.

(** C36. Parsing inverts printing of type names: for every Solidity type (integers and
    fixed bytes of 1 to 32 bytes, address, bool, bytes, string, nested tuples, slices
    and fixed arrays) [get_abi_type] accepts the canonical name and builds the default
    value of that type, element by element and with the given address. *)
Theorem get_abi_type_parses_names t w :
  type_ok t = true → get_abi_type (type_name t) w = Some (default_value w t).
Proof. apply parse_type_name. Qed.

Lemma get_abi_type_parses_names_witness :
  let t := TySlice (TyTuple [TyUint 32; TyFixed (TyTuple [TyAddress; TyBytesN 4]) 12; TyString]) in
  type_name t = lit "(uint256,(address,bytes4)[12],string)[]" ∧
  get_abi_type (type_name t) None = Some (default_value None t).
Proof. split; [reflexivity|]. apply get_abi_type_parses_names. reflexivity. Defined.
