(* ===== verification/State.v ===== *)
(** * Random numbers and the pools of the fuzzing state ([src/src/state.rs])

    The generator is libafl's; it is a parameter with the two operations the fuzzer
    calls and their documented ranges.  [FuzzState] holds the fields of the global
    state that the mutators read: the generator, the caller and address pools, the
    size limit of arrays and the pool of contract constants. *)
From S2P Require Import Prelude Types.
#[local] Open Scope Z_scope.

(** ** libafl's [Rand] *)

(** [next] yields a [u64]; [below n] yields a number under [n], and 0 for [n <= 1]. *)
Class Rand (R : Type) := {
  rand_next : R → Z * R;
  rand_below : R → Z → Z * R
}.

Class RandLaws (R : Type) `{Rand R} := {
  rand_next_range r : 0 ≤ fst (rand_next r) < 2 ^ 64;
  rand_below_range r n : 0 < n → 0 ≤ fst (rand_below r n) < n;
  rand_below_zero r n : n ≤ 0 → fst (rand_below r n) = 0
}.

(** A concrete generator, for examples: a counter. *)
#[export] Instance Rand_counter : Rand Z := {
  rand_next r := (r mod 2 ^ 64, r + 1);
  rand_below r n := (if n <=? 1 then 0 else r mod n, r + 1)
}.

#[export] Instance Rand_counter_laws : RandLaws Z.
Proof.
  split; intros; simpl.
  - by apply Z.mod_pos_bound.
  - destruct (Z.leb_spec n 1); [lia|]. apply Z.mod_pos_bound. lia.
  - destruct (Z.leb_spec n 1); [done|lia].
Qed.

(** ** The state the mutators use *)

Record FuzzState (R : Type) := mkFuzzState {
  rand_generator : R;
  callers_pool : list EVMAddress;
  addresses_pool : list EVMAddress;
  max_size : nat;
  (** [ConstantPoolMetadata], if the metadata map has one *)
  constants : option (list (list byte))
}.
Arguments mkFuzzState {R}.
Arguments rand_generator {R}.
Arguments callers_pool {R}.
Arguments addresses_pool {R}.
Arguments max_size {R}.
Arguments constants {R}.

Section state.
Context {R : Type} `{Rand R}.
Implicit Types st : FuzzState R.

(** [FuzzState::new]: the fields above ([seed] is the generator). *)
Definition FuzzState_new (seed : R) : FuzzState R := mkFuzzState seed [] [] 20 None.

Definition set_rand st (r : R) : FuzzState R :=
  mkFuzzState r (callers_pool st) (addresses_pool st) (max_size st) (constants st).

(** [state.rand_mut().next()] and [state.rand_mut().below(n)] *)
Definition st_next st : Z * FuzzState R :=
  let '(v, r) := rand_next (rand_generator st) in (v, set_rand st r).
Definition st_below st (n : Z) : Z * FuzzState R :=
  let '(v, r) := rand_below (rand_generator st) n in (v, set_rand st r).

(** Indexing a pool at a random position; an empty pool panics. *)
Definition pool_pick st (pool : list EVMAddress) : option (EVMAddress * FuzzState R) :=
  let '(idx, st) := st_below st (Z.of_nat (length pool)) in
  a ← pool !! Z.to_nat idx;
  Some (a, st).

Definition get_rand_address st : option (EVMAddress * FuzzState R) := pool_pick st (addresses_pool st).
Definition get_rand_caller st : option (EVMAddress * FuzzState R) := pool_pick st (callers_pool st).

(** [add_address] *)
Definition add_address st (addr : EVMAddress) : FuzzState R :=
  if decide (addr ∈ addresses_pool st) then st
  else mkFuzzState (rand_generator st) (callers_pool st) (addresses_pool st ++ [addr])
                   (max_size st) (constants st).

(** [add_caller]: also adds the address. *)
Definition add_caller st (addr : EVMAddress) : FuzzState R :=
  let st := if decide (addr ∈ callers_pool st) then st
            else mkFuzzState (rand_generator st) (callers_pool st ++ [addr]) (addresses_pool st)
                             (max_size st) (constants st) in
  add_address st addr.

(** ** The pools *)

(** No duplicates, every caller is an address, every entry is a 160-bit address. *)
Definition pools_ok st : Prop :=
  NoDup (callers_pool st) ∧ NoDup (addresses_pool st) ∧
  (∀ a, a ∈ callers_pool st → a ∈ addresses_pool st) ∧
  Forall is_address (addresses_pool st).

Context `{!RandLaws R}.

Lemma st_below_range st n : 0 < n → 0 ≤ fst (st_below st n) < n.
Proof.
  intros Hn. unfold st_below. pose proof (rand_below_range (rand_generator st) n Hn).
  by destruct (rand_below _ _).
Qed.

Lemma st_next_range st : 0 ≤ fst (st_next st) < 2 ^ 64.
Proof.
  unfold st_next. pose proof (rand_next_range (rand_generator st)). by destruct (rand_next _).
Qed.

(** The generator is the only thing a draw changes. *)
Definition same_but_rand st st' : Prop := ∃ r, st' = set_rand st r.

#[export] Instance same_but_rand_preorder : PreOrder same_but_rand.
Proof.
  split.
  - intros []. by eexists.
  - intros a b c [r1 ->] [r2 ->]. by exists r2.
Qed.

Lemma st_below_same st n : same_but_rand st (snd (st_below st n)).
Proof. unfold st_below. destruct (rand_below _ _). by eexists. Qed.
Lemma st_next_same st : same_but_rand st (snd (st_next st)).
Proof. unfold st_next. destruct (rand_next _). by eexists. Qed.

Lemma pool_pick_spec st pool :
  pool ≠ [] → ∃ a st', pool_pick st pool = Some (a, st') ∧ a ∈ pool ∧ same_but_rand st st'.
Proof.
  intros Hne. unfold pool_pick.
  pose proof (st_below_range st (Z.of_nat (length pool))) as Hr.
  pose proof (st_below_same st (Z.of_nat (length pool))) as Hs.
  destruct (st_below _ _) as [idx st']. simpl in *.
  destruct (lookup_lt_is_Some_2 pool (Z.to_nat idx)) as [a Ha].
  { destruct pool; [done|]. simpl in *. lia. }
  rewrite Ha. exists a, st'. split; [done|]. split; [|done].
  by eapply list_elem_of_lookup_2.
Qed.

Lemma pool_pick_elem st pool a st' :
  pool_pick st pool = Some (a, st') → a ∈ pool ∧ same_but_rand st st'.
Proof.
  unfold pool_pick. pose proof (st_below_same st (Z.of_nat (length pool))) as Hs.
  destruct (st_below _ _) as [idx st1]. simpl in *.
  destruct (pool !! Z.to_nat idx) eqn:E; simpl; [|done]. intros [= -> ->].
  split; [|done]. by eapply list_elem_of_lookup_2.
Qed.

Lemma add_address_ok st a : is_address a → pools_ok st → pools_ok (add_address st a).
Proof.
  intros Ha (H1 & H2 & H3 & H4). unfold add_address. case_decide as E; [done|].
  split_and!; simpl; [done| | |].
  - apply NoDup_app. split; [done|]. split; [|apply NoDup_singleton].
    intros x Hx ->%list_elem_of_singleton. done.
  - intros x Hx. apply elem_of_app. left. by apply H3.
  - apply Forall_app. split; [done|]. by constructor.
Qed.

(** The caller and address pools keep their invariant: [add_caller] leaves both
    pools free of duplicates and made of 160-bit addresses, keeps every caller in the
    address pool, contains the new address afterwards, and forgets none; a caller
    drawn from a non-empty pool is always found and is one of its members. *)
Theorem add_caller_pools st a :
  is_address a → pools_ok st →
  pools_ok (add_caller st a) ∧
  (∀ b, b ∈ callers_pool (add_caller st a) ↔ b = a ∨ b ∈ callers_pool st) ∧
  (∀ b, b ∈ addresses_pool (add_caller st a) ↔ b = a ∨ b ∈ addresses_pool st) ∧
  ∃ c st', get_rand_caller (add_caller st a) = Some (c, st') ∧ c ∈ callers_pool (add_caller st a).
Proof.
  intros Ha Hp. destruct Hp as (H1 & H2 & H3 & H4).
  assert (∀ b, b ∈ callers_pool (add_caller st a) ↔ b = a ∨ b ∈ callers_pool st) as Hc.
  { intros b. unfold add_caller, add_address. repeat case_decide; simpl in *; set_solver. }
  assert (∀ b, b ∈ addresses_pool (add_caller st a) ↔ b = a ∨ b ∈ addresses_pool st) as Hb.
  { intros b. unfold add_caller, add_address. repeat case_decide; simpl in *; set_solver. }
  split; [|split; [done|split; [done|]]].
  - split_and!.
    + unfold add_caller, add_address. repeat case_decide; simpl in *; try done;
        (apply NoDup_app; split; [done|]; split; [set_solver|apply NoDup_singleton]).
    + unfold add_caller, add_address. repeat case_decide; simpl in *; try done;
        (apply NoDup_app; split; [done|]; split; [set_solver|apply NoDup_singleton]).
    + intros b. rewrite Hc, Hb. naive_solver.
    + apply Forall_forall. intros b [->|Hin]%Hb; [done|]. by apply (proj1 (Forall_forall _ _) H4).
  - destruct (pool_pick_spec (add_caller st a) (callers_pool (add_caller st a))) as (c & st' & E & Hin & _).
    { intros E. assert (a ∈ callers_pool (add_caller st a)) as Hin by (apply Hc; by left).
      rewrite E in Hin. by apply not_elem_of_nil in Hin. }
    by exists c, st'.
Qed.
End state.

Lemma add_caller_pools_witness :
  let st := FuzzState_new 7 in
  pools_ok (add_caller st 5) ∧
  (∀ b, b ∈ callers_pool (add_caller st 5) ↔ b = 5 ∨ b ∈ callers_pool st) ∧
  (∀ b, b ∈ addresses_pool (add_caller st 5) ↔ b = 5 ∨ b ∈ addresses_pool st) ∧
  ∃ c st', get_rand_caller (add_caller st 5) = Some (c, st') ∧ c ∈ callers_pool (add_caller st 5).
Proof.
  intros st. apply (add_caller_pools st 5).
  - unfold is_address. lia.
  - split_and!; simpl; try constructor; set_solver.
Defined.
