(* ===== verification/MutationUtils.v ===== *)
(** * Byte mutators ([src/src/evm/mutation_utils.rs])

    The two mutators of the repository, [ConstantHintedMutator] and
    [VMStateHintedMutator], and the schedules that combine them with libafl's.
    libafl's mutators and its [StdScheduledMutator] are parameters: they are
    relied on to keep lengths and to apply nothing but the mutators they are given. *)
From S2P Require Import Prelude Types State.
#[local] Open Scope Z_scope.

(** [enum MutationResult] *)
Inductive MutationResult := Mutated | Skipped.

#[export] Instance MutationResult_eq_dec : EqDecision MutationResult.
Proof. solve_decision. Defined.

(** A mutator of bytes; a panic is [None]. *)
Definition mutator (R : Type) : Type :=
  FuzzState R → list byte → option (MutationResult * FuzzState R * list byte).

(** ** libafl *)

Class Libafl (R : Type) `{Rand R} := {
  (** [BitFlipMutator] ... [BytesSwapMutator] of [byte_mutator] *)
  fixed_mutators : list (mutator R);
  (** the same with [BytesExpandMutator] and the inserting ones *)
  expanding_mutators : list (mutator R);
  (** [StdScheduledMutator::mutate]: a random sequence of the given mutators *)
  scheduled : list (mutator R) → mutator R
}.

(** A mutator runs to completion from [P] and ends in [P]. *)
Definition runs_in {R} (P : FuzzState R → list byte → Prop) (m : mutator R) : Prop :=
  ∀ st b, P st b → ∃ r st' b', m st b = Some (r, st', b') ∧ P st' b'.
(** If a mutator completes from [P] it ends in [P]. *)
Definition stays_in {R} (P : FuzzState R → list byte → Prop) (m : mutator R) : Prop :=
  ∀ st b r st' b', P st b → m st b = Some (r, st', b') → P st' b'.

Class LibaflLaws (R : Type) `{Libafl R} := {
  fixed_mutators_length m st b : m ∈ fixed_mutators →
    ∃ r st' b', m st b = Some (r, st', b') ∧ length b' = length b ∧ same_but_rand st st';
  expanding_mutators_total m st b : m ∈ expanding_mutators →
    ∃ r st' b', m st b = Some (r, st', b') ∧ same_but_rand st st';
  scheduled_runs P ms : Forall (runs_in P) ms → runs_in P (scheduled ms);
  scheduled_stays P ms : Forall (stays_in P) ms → stays_in P (scheduled ms)
}.

(** A concrete libafl, for examples: the only byte mutator reverses its input, and
    the schedule applies every mutator once. *)
Definition run_all {R} (ms : list (mutator R)) : mutator R := λ st b,
  foldM (λ acc m, let '(_, st, b) := acc in m st b) (Skipped, st, b) ms.

Lemma run_all_runs {R} (P : FuzzState R → list byte → Prop) ms :
  Forall (runs_in P) ms → runs_in P (run_all ms).
Proof.
  intros Hms st b. unfold run_all. generalize Skipped. revert st b.
  induction Hms as [|m ms Hm _ IH]; intros st b r0 Hp; simpl; [by eexists _, _, _|].
  destruct (Hm st b Hp) as (r & st' & b' & E & Hp'). rewrite E. simpl. by apply IH.
Qed.

Lemma run_all_stays {R} (P : FuzzState R → list byte → Prop) ms :
  Forall (stays_in P) ms → stays_in P (run_all ms).
Proof.
  intros Hms st b. unfold run_all. generalize Skipped. revert st b.
  induction Hms as [|m ms Hm _ IH]; intros st b r0 r st' b' Hp; simpl; [by intros [= <- <- <-]|].
  destruct (m st b) as [[[r1 st1] b1]|] eqn:E; simpl; [|done]. apply IH. by eapply Hm.
Qed.

#[export] Instance Libafl_example : Libafl Z := {
  fixed_mutators := [λ st b, Some (Mutated, st, reverse b)];
  expanding_mutators := [λ st b, Some (Mutated, st, b ++ b)];
  scheduled := run_all
}.

#[export] Instance Libafl_example_laws : LibaflLaws Z.
Proof.
  split.
  - intros m st b ->%list_elem_of_singleton. do 3 eexists. split; [done|].
    by rewrite length_reverse.
  - intros m st b ->%list_elem_of_singleton. by do 3 eexists.
  - apply run_all_runs.
  - apply run_all_stays.
Qed.

Section mutation_utils.
Context {R : Type} `{Libafl R}.
Implicit Types st : FuzzState R.

(** ** The mutators of the repository *)

(** [ConstantHintedMutator::mutate].  An empty pool divides by zero. *)
Definition constant_hinted_mutate : mutator R := λ st input,
  let '(idx, st) := st_next st in
  match constants st with
  | None => Some (Skipped, st, input)
  | Some pool =>
      if decide (length pool = 0%nat) then None
      else
        constant ← pool !! Z.to_nat (idx mod Z.of_nat (length pool));
        if decide (length input < length constant)%nat
        then Some (Mutated, st, take (length input) constant)
        else Some (Mutated, st, replicate (length input - length constant) x00 ++ constant)
  end.

(** [mutate_with_vm_slot].  [vm_slots] lists the entries of the [HashMap] in its
    iteration order. *)
Definition mutate_with_vm_slot (vm_slots : list (EVMU256 * EVMU256)) st
  : option (EVMU256 * FuzzState R) :=
  let '(idx, st) := st_below st (Z.of_nat (length vm_slots)) in
  kv ← vm_slots !! Z.to_nat idx;
  let '(coin, st) := st_below st 100 in
  Some (if coin <? 90 then kv.2 else kv.1, st).

(** [VMStateHintedMutator::mutate]; the start [32 - input_len] of the slice is a
    [usize] that wraps. *)
Definition vm_hinted_mutate (vm_slots : list (EVMU256 * EVMU256)) : mutator R := λ st input,
  if decide (length input < 8)%nat then Some (Skipped, st, input)
  else
    v ← mutate_with_vm_slot vm_slots st;
    let '(new_val, st) := v in
    data ← slice_from (to_be_bytes new_val) (u64 (32 - Z.of_nat (length input)));
    (* [copy_from_slice] *)
    if decide (length data = length input) then Some (Mutated, st, data) else None.

Definition with_vm_hint (vm_slots : option (list (EVMU256 * EVMU256))) (ms : list (mutator R))
  : list (mutator R) :=
  match vm_slots with
  | Some slots => vm_hinted_mutate slots :: ms
  | None => ms
  end.

(** [byte_mutator] *)
Definition byte_mutator (vm_slots : option (list (EVMU256 * EVMU256))) : mutator R :=
  scheduled (with_vm_hint vm_slots (fixed_mutators ++ [constant_hinted_mutate])).

(** [byte_mutator_with_expansion] *)
Definition byte_mutator_with_expansion (vm_slots : option (list (EVMU256 * EVMU256))) : mutator R :=
  scheduled (with_vm_hint vm_slots expanding_mutators).

(** ** Their behaviour *)

Context `{!RandLaws R} `{!LibaflLaws R}.

Lemma constant_hinted_spec st input pool :
  constants st = Some pool → pool ≠ [] →
  ∃ st' c, constant_hinted_mutate st input =
    Some (Mutated, st', take (length input) (replicate (length input - length c) x00 ++ c)) ∧
    c ∈ pool ∧ same_but_rand st st'.
Proof.
  intros Hc Hne. unfold constant_hinted_mutate.
  pose proof (st_next_range st) as Hr. pose proof (st_next_same st) as Hs.
  destruct (st_next st) as [idx st']. simpl in *. destruct Hs as [r ->]. simpl. rewrite Hc.
  rewrite decide_False by (by destruct pool).
  destruct (lookup_lt_is_Some_2 pool (Z.to_nat (idx mod Z.of_nat (length pool)))) as [c Hl].
  { assert (0 < Z.of_nat (length pool)) by (destruct pool; simpl in *; [done|lia]).
    pose proof (Z.mod_pos_bound idx (Z.of_nat (length pool))). lia. }
  exists (set_rand st r), c. rewrite Hl. simpl.
  split; [|split; [by eapply list_elem_of_lookup_2|by eexists]].
  case_decide as Hd; do 2 f_equal.
  - by replace (length input - length c)%nat with 0%nat by lia.
  - rewrite take_ge; [done|]. rewrite length_app, length_replicate. lia.
Qed.

Lemma mutate_with_vm_slot_spec slots st :
  slots ≠ [] →
  ∃ kv v st', mutate_with_vm_slot slots st = Some (v, st') ∧
    kv ∈ slots ∧ (v = kv.1 ∨ v = kv.2) ∧ same_but_rand st st'.
Proof.
  intros Hne. unfold mutate_with_vm_slot.
  pose proof (st_below_range st (Z.of_nat (length slots))) as Hr.
  pose proof (st_below_same st (Z.of_nat (length slots))) as Hs.
  destruct (st_below st (Z.of_nat (length slots))) as [idx st1]. simpl in *.
  destruct (lookup_lt_is_Some_2 slots (Z.to_nat idx)) as [kv Hl].
  { destruct slots; [done|]. simpl in *. lia. }
  rewrite Hl. simpl. pose proof (st_below_same st1 100) as Hs1.
  destruct (st_below st1 100) as [coin st2]. simpl in *.
  exists kv. do 2 eexists. split; [done|]. split; [by eapply list_elem_of_lookup_2|].
  split; [destruct (coin <? 90); [by right|by left]|]. by etransitivity.
Qed.

Lemma vm_hinted_spec slots st input :
  slots ≠ [] → (8 ≤ length input ≤ 32)%nat →
  ∃ kv v st', vm_hinted_mutate slots st input =
    Some (Mutated, st', drop (32 - length input) (to_be_bytes v)) ∧
    kv ∈ slots ∧ (v = kv.1 ∨ v = kv.2) ∧ same_but_rand st st'.
Proof.
  intros Hne Hl. destruct (mutate_with_vm_slot_spec slots st Hne) as (kv & v & st' & E & Hin & Hv & Hs).
  exists kv, v, st'. split; [|done]. unfold vm_hinted_mutate. rewrite decide_False by lia.
  rewrite E, obind_Some. unfold u64. rewrite wrap_small by (simpl; lia).
  unfold slice_from. rewrite length_to_be_bytes, decide_True by lia. rewrite obind_Some.
  replace (Z.to_nat (32 - Z.of_nat (length input))) with (32 - length input)%nat by lia.
  rewrite decide_True; [done|]. rewrite length_drop, length_to_be_bytes. lia.
Qed.

(** The pools a mutation needs: the ones the fuzzer fills before it starts. *)
Definition constants_ok st : Prop := ∀ pool, constants st = Some pool → pool ≠ [].

Lemma same_constants_ok st st' : same_but_rand st st' → constants_ok st → constants_ok st'.
Proof. by intros [r ->]. Qed.

Lemma constant_hinted_length st input :
  constants_ok st →
  ∃ r st' b', constant_hinted_mutate st input = Some (r, st', b') ∧
    length b' = length input ∧ same_but_rand st st'.
Proof.
  intros Hc. destruct (constants st) as [pool|] eqn:E.
  - destruct (constant_hinted_spec st input pool E (Hc pool E)) as (st' & c & Er & _ & Hs).
    do 3 eexists. split; [exact Er|]. split; [|done].
    rewrite length_take, length_app, length_replicate. lia.
  - unfold constant_hinted_mutate. pose proof (st_next_same st) as Hs.
    destruct (st_next st) as [idx st']. destruct Hs as [r Es]. simpl in Es. subst st'.
    simpl. rewrite E. do 3 eexists. split; [done|]. split; [done|]. by eexists.
Qed.

Lemma vm_hinted_length slots st input :
  slots ≠ [] → (length input ≤ 32)%nat →
  ∃ r st' b', vm_hinted_mutate slots st input = Some (r, st', b') ∧
    length b' = length input ∧ same_but_rand st st'.
Proof.
  intros Hne Hl. destruct (decide (length input < 8)%nat) as [Hs|Hs].
  - exists Skipped, st, input. unfold vm_hinted_mutate. by rewrite decide_True.
  - destruct (vm_hinted_spec slots st input Hne) as (kv & v & st' & E & _ & _ & Hst); [lia|].
    do 3 eexists. split; [exact E|]. split; [|done]. rewrite length_drop, length_to_be_bytes. lia.
Qed.

(** The invariant the schedule of [byte_mutator] keeps. *)
Definition fixed_inv st0 (n : nat) : FuzzState R → list byte → Prop :=
  λ st b, length b = n ∧ same_but_rand st0 st.

Lemma byte_mutator_runs vm_slots st0 n :
  constants_ok st0 → (∀ slots, vm_slots = Some slots → slots ≠ [] ∧ (n ≤ 32)%nat) →
  runs_in (fixed_inv st0 n) (byte_mutator vm_slots).
Proof.
  intros Hc Hs. apply scheduled_runs.
  assert (Forall (runs_in (fixed_inv st0 n)) (fixed_mutators ++ [constant_hinted_mutate])) as Hf.
  { apply Forall_forall. intros m [Hm|Hm]%elem_of_app st b [Hl Hst].
    - destruct (fixed_mutators_length m st b Hm) as (r & st' & b' & E & El & Es).
      exists r, st', b'. split; [done|]. split; [congruence|by etransitivity].
    - apply list_elem_of_singleton in Hm as ->.
      destruct (constant_hinted_length st b) as (r & st' & b' & E & El & Es);
        [by eapply same_constants_ok|].
      exists r, st', b'. split; [done|]. split; [congruence|by etransitivity]. }
  destruct vm_slots as [slots|]; [|done]. cbn [with_vm_hint]. constructor; [|done].
  destruct (Hs slots eq_refl) as [Hne Hn]. intros st b [Hl Hst].
  destruct (vm_hinted_length slots st b Hne) as (r & st' & b' & E & El & Es); [lia|].
  exists r, st', b'. split; [done|]. split; [congruence|by etransitivity].
Qed.

(** Mutating a word keeps its size: whatever sequence of mutators libafl schedules,
    [byte_mutator] on an argument of at most 32 bytes (any length when there are no
    storage hints) runs without a panic, keeps the number of bytes, and changes
    nothing of the fuzzing state but its random generator, provided the constant pool
    and the hint map are not empty. *)
Theorem byte_mutator_keeps_length vm_slots st input :
  constants_ok st →
  (∀ slots, vm_slots = Some slots → slots ≠ [] ∧ (length input ≤ 32)%nat) →
  ∃ r st' b', byte_mutator vm_slots st input = Some (r, st', b') ∧
    length b' = length input ∧ same_but_rand st st'.
Proof.
  intros Hc Hs. destruct (byte_mutator_runs vm_slots st (length input) Hc Hs st input)
    as (r & st' & b' & E & Hl & Hst); [by split|]. by exists r, st', b'.
Qed.

(** [VMStateHintedMutator] panics on every input longer than 32 bytes (and only then
    slices out of range): the unsigned subtraction [32 - input_len] wraps.  Byte
    strings reach it through [byte_mutator_with_expansion]. *)
Theorem vm_hinted_panics_on_long_input slots st input :
  (32 < length input)%nat → Z.of_nat (length input) < 2 ^ 63 →
  vm_hinted_mutate slots st input = None.
Proof.
  intros Hl Hb. unfold vm_hinted_mutate. rewrite decide_False by lia.
  destruct (mutate_with_vm_slot slots st) as [[v st']|]; [|done]. rewrite obind_Some.
  assert (u64 (32 - Z.of_nat (length input)) = 2 ^ 64 + (32 - Z.of_nat (length input))) as ->.
  { unfold u64, wrap. rewrite <- (Z.mod_add _ 1) by done. rewrite Z.mod_small by lia. lia. }
  unfold slice_from. rewrite length_to_be_bytes, decide_False by lia. done.
Qed.
End mutation_utils.

Lemma byte_mutator_keeps_length_witness :
  let st := mkFuzzState 3 [] [] 20 (Some [[x01; x02]]) in
  ∃ r st' b', byte_mutator (Some [(1, 2)]) st (replicate 20 x05) = Some (r, st', b') ∧
    length b' = 20%nat ∧ same_but_rand st st'.
Proof.
  intros st. apply (byte_mutator_keeps_length (Some [(1, 2)]) st (replicate 20 x05)).
  - by intros pool [= <-].
  - intros slots [= <-]. split; [done|]. vm_compute. lia.
Defined.

Lemma vm_hinted_panics_on_long_input_witness :
  vm_hinted_mutate [(1, 2)] (FuzzState_new 3) (replicate 33 x05) = None.
Proof. apply vm_hinted_panics_on_long_input; [simpl; lia|reflexivity]. Defined.
