(* ===== verification/AbiMutate.v ===== *)
(** * Mutation of ABI values ([src/src/evm/abi.rs])

    [sample_abi], [BoxedABI::mutate] and [BoxedABI::mutate_with_vm_slots]. *)
From S2P Require Import Prelude Types Expr Abi AbiLayout AbiTypes State MutationUtils.
#[local] Open Scope Z_scope.

Section mutate.
Context {R : Type} `{Libafl R}.
Implicit Types st : FuzzState R.

(** ** The operations *)

(** [sample_abi] for [size == 32]. *)
Definition sample_static st : option (BoxedABI * FuzzState R) :=
  let '(v, st) := st_below st 100 in
  if v mod 2 =? 0 then Some (BoxedABI_new (A256 (replicate 32 x00) false false false), st)
  else
    r ← get_rand_address st;
    let '(a, st) := r in
    Some (BoxedABI_new (A256 (address_bytes a) true false false), st).

(** [sample_abi]; [vec![x; n]] evaluates [x] once. *)
Definition sample_abi st (size : nat) : option (BoxedABI * FuzzState R) :=
  if decide (size = 32%nat) then sample_static st
  else
    let '(vec_size, st) := st_below st (Z.of_nat (max_size st)) in
    let vec_size := Z.to_nat vec_size in
    let '(v, st) := st_below st 100 in
    match v mod 4 with
    | 0 => let '(x, st) := st_below st 255 in
           Some (BoxedABI_new (ADynamic (replicate vec_size (z2b x)) 32), st)
    | 1 | 2 => r ← sample_static st;
               Some (BoxedABI_new (AArray (replicate vec_size r.1) false), r.2)
    | _ => r ← sample_static st;
           Some (BoxedABI_new (AArray (replicate vec_size r.1) true), r.2)
    end.

(** The result of a mutation of a value. *)
Definition mres : Type := option (MutationResult * FuzzState R * ABI).

(** The mutation of the element at a random index of an array, given the mutation
    of each element ([data[index].mutate_with_vm_slots(..)]). *)
Definition mutate_at (data : list BoxedABI) (muts : list (FuzzState R → mres))
    (dynamic_size : bool) st : mres :=
  let '(n, st) := st_next st in
  let index := Z.to_nat (n mod Z.of_nat (length data)) in
  mut ← muts !! index;
  x ← data !! index;
  r ← mut st;
  let '(res, st, b') := r in
  Some (res, st, AArray (<[index := mkBoxedABI b' (boxed_function x)]> data) dynamic_size).

(** The arm [TArray]. *)
Definition mutate_array (data : list BoxedABI) (muts : list (FuzzState R → mres))
    (dynamic_size : bool) st : mres :=
  let data_len := length data in
  if decide (data_len = 0%nat) then Some (Skipped, st, AArray data dynamic_size)
  else if dynamic_size then
    let '(v, st) := st_below st 100 in
    if v <=? 80 then mutate_at data muts true st
    else if v <=? 90 then
      (* increase size *)
      if decide (max_size st ≤ length data)%nat then Some (Skipped, st, AArray data true)
      else
        let '(n, st) := st_next st in
        let k := Z.to_nat (n mod Z.of_nat (max_size st)) in
        x ← head data;
        Some (Mutated, st, AArray (data ++ replicate k x) true)
    else
      (* decrease size *)
      let '(n, st) := st_next st in
      let index := Z.to_nat (n mod Z.of_nat data_len) in
      Some (Mutated, st, AArray (delete index data) true)
  else mutate_at data muts false st.

(** The arm [T256]. *)
Definition mutate_a256 (vm_slots : option (list (EVMU256 * EVMU256)))
    (data : list byte) (is_address dont_mutate is_bytes : bool) st : mres :=
  if dont_mutate then Some (Skipped, st, A256 data is_address dont_mutate is_bytes)
  else if is_address then
    let '(v, st) := st_below st 100 in
    if v <? 90 then
      r ← get_rand_address st;
      let '(a, st) := r in
      Some (Mutated, st, A256 (address_bytes a) is_address dont_mutate is_bytes)
    else Some (Mutated, st, A256 (replicate 20 x00) is_address dont_mutate is_bytes)
  else
    r ← byte_mutator vm_slots st data;
    let '(res, st, data') := r in
    Some (res, st, A256 data' is_address dont_mutate is_bytes).

(** [BoxedABI::mutate_with_vm_slots] on the value inside the box. *)
Fixpoint mutate_with_vm_slots (vm_slots : option (list (EVMU256 * EVMU256))) (a : ABI) st : mres :=
  match a with
  | AEmpty => Some (Skipped, st, AEmpty)
  | A256 data is_address dont_mutate is_bytes =>
      mutate_a256 vm_slots data is_address dont_mutate is_bytes st
  | ADynamic data multiplier =>
      r ← byte_mutator_with_expansion vm_slots st data;
      let '(res, st, data') := r in
      Some (res, st, ADynamic data' multiplier)
  | AArray data dynamic_size =>
      mutate_array data
        (map (λ x, match x with mkBoxedABI b _ => mutate_with_vm_slots vm_slots b end) data)
        dynamic_size st
  | AUnknown (mkBoxedABI b f) size =>
      if decide (size = 0%nat) then Some (Skipped, st, AUnknown (BoxedABI_new AEmpty) size)
      else
        let '(v, st) := st_below st 100 in
        if v <? 80 then
          r ← mutate_with_vm_slots vm_slots b st;
          let '(res, st, b') := r in
          Some (res, st, AUnknown (mkBoxedABI b' f) size)
        else
          r ← sample_abi st size;
          Some (Mutated, r.2, AUnknown r.1 size)
  end.

(** [BoxedABI::mutate_with_vm_slots] and [BoxedABI::mutate] *)
Definition boxed_mutate_with_vm_slots st (x : BoxedABI) (vm_slots : option (list (EVMU256 * EVMU256)))
  : option (MutationResult * FuzzState R * BoxedABI) :=
  r ← mutate_with_vm_slots vm_slots (boxed_b x) st;
  let '(res, st, b') := r in
  Some (res, st, mkBoxedABI b' (boxed_function x)).

Definition boxed_mutate st (x : BoxedABI) : option (MutationResult * FuzzState R * BoxedABI) :=
  boxed_mutate_with_vm_slots st x None.

(** ** The type of a value is kept *)

(** [retyped n v v']: [v'] is a value of the type of [v]; words keep their number
    of bytes (an address may become one of twenty), protected words are the same,
    tuples keep their arity, and arrays grow by less than [n]. *)
Inductive retyped (n : nat) : ABI → ABI → Prop :=
| retyped_empty : retyped n AEmpty AEmpty
| retyped_256 (d d' : list byte) (a m b : bool) :
    (length d' = length d ∨ a = true ∧ length d' = 20%nat) → (m = true → d' = d) →
    retyped n (A256 d a m b) (A256 d' a m b)
| retyped_dynamic (d d' : list byte) k : retyped n (ADynamic d k) (ADynamic d' k)
| retyped_tuple vs vs' :
    Forall2 (retyped_boxed n) vs vs' → retyped n (AArray vs false) (AArray vs' false)
| retyped_array vs vs' :
    (length vs' ≤ length vs + n)%nat →
    Forall (λ y, Exists (λ x, retyped_boxed n x y) vs) vs' →
    retyped n (AArray vs true) (AArray vs' true)
with retyped_boxed (n : nat) : BoxedABI → BoxedABI → Prop :=
| retyped_box b b' f : retyped n b b' → retyped_boxed n (mkBoxedABI b f) (mkBoxedABI b' f).

Lemma retyped_refl n v : known v = true → retyped n v v.
Proof.
  induction v as [| | |data dyn IH|[b f] m IH] using ABI_nested_ind; intros Hk; try done;
    try (constructor; by auto).
  simpl in Hk. rewrite forallb_forall in Hk.
  assert (∀ x, x ∈ data → retyped_boxed n x x) as Hx.
  { intros [b f] Hin. constructor. rewrite Forall_forall in IH. apply (IH _ Hin).
    apply (Hk (mkBoxedABI b f)). by apply list_elem_of_In. }
  destruct dyn; constructor; [lia| |].
  - apply Forall_forall. intros y Hy. apply Exists_exists. exists y. split; [done|by apply Hx].
  - apply Forall_Forall2_diag, Forall_forall, Hx.
Qed.

Context `{!RandLaws R} `{!LibaflLaws R}.

Lemma st_next_max st : max_size (snd (st_next st)) = max_size st.
Proof. destruct (st_next_same st) as [r ->]. done. Qed.
Lemma st_below_max st k : max_size (snd (st_below st k)) = max_size st.
Proof. destruct (st_below_same st k) as [r ->]. done. Qed.

Lemma byte_mutator_stays vm_slots n :
  stays_in (λ (_ : FuzzState R) b, length b = n) (byte_mutator vm_slots).
Proof.
  apply scheduled_stays.
  assert (Forall (stays_in (λ (_ : FuzzState R) b, length b = n))
            (fixed_mutators ++ [constant_hinted_mutate])) as Hf.
  { apply Forall_forall. intros m [Hm|Hm]%elem_of_app st b r st' b' Hl E.
    - destruct (fixed_mutators_length m st b Hm) as (r1 & st1 & b1 & E1 & El & _). congruence.
    - apply list_elem_of_singleton in Hm as ->. revert E. unfold constant_hinted_mutate.
      destruct (st_next st) as [idx st1]. destruct (constants st1) as [pool|]; [|congruence].
      case_decide; [done|]. destruct (pool !! _) as [c|]; [|done]. rewrite obind_Some.
      case_decide; intros [= <- <- <-]; rewrite ?length_app, ?length_take, ?length_replicate; lia. }
  destruct vm_slots as [slots|]; [|done]. cbn [with_vm_hint]. constructor; [|done].
  intros st b r st' b' Hl. unfold vm_hinted_mutate. case_decide; [congruence|].
  destruct (mutate_with_vm_slot slots st) as [[v st1]|]; [|done]. rewrite obind_Some.
  destruct (slice_from _ _); [|done]. rewrite obind_Some. case_decide; [|done]. congruence.
Qed.

Lemma mutate_a256_retyped n vm_slots d a m b st r st' v' :
  mutate_a256 vm_slots d a m b st = Some (r, st', v') → retyped n (A256 d a m b) v'.
Proof.
  unfold mutate_a256. destruct m; [intros [= <- <- <-]; constructor; auto|].
  destruct a.
  - destruct (st_below st 100) as [v st1]. destruct (v <? 90).
    + destruct (get_rand_address st1) as [[x st2]|]; [|done]. simpl. intros [= <- <- <-].
      constructor; [|done]. right. split; [done|]. apply length_z2be.
    + intros [= <- <- <-]. constructor; [|done]. by right.
  - destruct (byte_mutator vm_slots st d) as [[[r1 st1] d1]|] eqn:E; [|done]. simpl.
    intros [= <- <- <-]. constructor; [|done]. left.
    by apply (byte_mutator_stays vm_slots (length d) st d r1 st1 d1).
Qed.

(** Mutating one element of an array. *)
Lemma mutate_at_retyped n vm_slots data dyn st r st' v' :
  (∀ x, x ∈ data → retyped_boxed n x x) →
  (∀ x st r st' b', x ∈ data → max_size st = n →
     mutate_with_vm_slots vm_slots (boxed_b x) st = Some (r, st', b') →
     retyped n (boxed_b x) b') →
  max_size st = n →
  mutate_at data (map (λ x, match x with mkBoxedABI b _ => mutate_with_vm_slots vm_slots b end) data) dyn st
    = Some (r, st', v') →
  retyped n (AArray data dyn) v'.
Proof.
  intros Hrefl IH Hn. unfold mutate_at. pose proof (st_next_max st) as Hn1.
  destruct (st_next st) as [k st1]. cbn [snd] in Hn1.
  set (index := Z.to_nat _). change (@map ?A ?B) with (@fmap list _ A B).
  rewrite list_lookup_fmap. destruct (data !! index) as [[b f]|] eqn:E; [|done]. simpl.
  destruct (mutate_with_vm_slots vm_slots b st1) as [[[r1 st2] b1]|] eqn:Em; [|done]. simpl.
  intros [= <- <- <-].
  assert (Hb : retyped_boxed n (mkBoxedABI b f) (mkBoxedABI b1 f)).
  { constructor. refine (IH (mkBoxedABI b f) st1 _ _ _ _ _ Em); [|congruence].
    by eapply list_elem_of_lookup_2. }
  destruct dyn; constructor.
  - rewrite length_insert. lia.
  - apply Forall_forall. intros y Hy. apply Exists_exists.
    apply list_elem_of_lookup in Hy as [j Hj].
    destruct (decide (j = index)) as [->|Hne].
    + rewrite list_lookup_insert_eq in Hj by (by eapply lookup_lt_Some). injection Hj as <-.
      exists (mkBoxedABI b f). split; [by eapply list_elem_of_lookup_2|done].
    + rewrite list_lookup_insert_ne in Hj by done. exists y.
      assert (y ∈ data) by (by eapply list_elem_of_lookup_2). auto.
  - apply Forall2_same_length_lookup_2; [by rewrite length_insert|].
    intros j x y Hx Hy. destruct (decide (j = index)) as [->|Hne].
    + rewrite list_lookup_insert_eq in Hy by (by eapply lookup_lt_Some). congruence.
    + rewrite list_lookup_insert_ne in Hy by done. assert (x = y) as -> by congruence.
      apply Hrefl. by eapply list_elem_of_lookup_2.
Qed.

Lemma mutate_array_retyped n vm_slots data dyn st r st' v' :
  (∀ x, x ∈ data → retyped_boxed n x x) →
  (∀ x st r st' b', x ∈ data → max_size st = n →
     mutate_with_vm_slots vm_slots (boxed_b x) st = Some (r, st', b') →
     retyped n (boxed_b x) b') →
  max_size st = n →
  mutate_with_vm_slots vm_slots (AArray data dyn) st = Some (r, st', v') →
  retyped n (AArray data dyn) v'.
Proof.
  intros Hrefl IH Hn. cbn [mutate_with_vm_slots]. unfold mutate_array.
  assert (Hself : retyped n (AArray data dyn) (AArray data dyn)).
  { destruct dyn; constructor; [lia| |].
    - apply Forall_forall. intros y Hy. apply Exists_exists. exists y. auto.
    - by apply Forall_Forall2_diag, Forall_forall. }
  case_decide as He; [intros [= <- <- <-]; exact Hself|].
  destruct dyn; [|by apply mutate_at_retyped].
  pose proof (st_below_max st 100) as Hm. destruct (st_below st 100) as [v st1]. cbn [snd] in Hm.
  destruct (v <=? 80); [apply mutate_at_retyped; (done || congruence)|].
  destruct (v <=? 90).
  - case_decide as Hg; [intros [= <- <- <-]; exact Hself|].
    pose proof (st_next_max st1) as Hm2. destruct (st_next st1) as [k st2]. cbn [snd] in Hm2.
    destruct (head data) as [x|] eqn:Eh; [|done]. simpl. intros [= <- <- <-]. constructor.
    + rewrite length_app, length_replicate.
      pose proof (Z.mod_pos_bound k (Z.of_nat (max_size st2))). lia.
    + apply Forall_forall. intros y [Hy|[-> _]%elem_of_replicate]%elem_of_app; apply Exists_exists.
      * exists y. auto.
      * exists x. assert (x ∈ data) by (apply head_Some_elem_of in Eh; done). auto.
  - destruct (st_next st1) as [k st2]. intros [= <- <- <-]. constructor.
    + pose proof (sublist_length _ _ (sublist_delete data (Z.to_nat (k mod Z.of_nat (length data))))). lia.
    + apply Forall_forall. intros y Hy. apply Exists_exists. exists y.
      assert (y ∈ data) by (by eapply list_elem_of_delete_inv). auto.
Qed.

Lemma known_elems data dyn :
  known (AArray data dyn) = true → ∀ x, x ∈ data → known (boxed_b x) = true.
Proof.
  simpl. rewrite forallb_forall. intros Hk [b f] Hin%list_elem_of_In. by apply (Hk (mkBoxedABI b f)).
Qed.

Lemma mutate_retyped vm_slots v : ∀ st r st' v',
  known v = true → mutate_with_vm_slots vm_slots v st = Some (r, st', v') →
  retyped (max_size st) v v'.
Proof.
  induction v as [|d a m b|d k|data dyn IH|[b f] n IH] using ABI_nested_ind; intros st r st' v' Hk.
  - intros [= <- <- <-]. constructor.
  - apply mutate_a256_retyped.
  - cbn [mutate_with_vm_slots]. destruct (byte_mutator_with_expansion vm_slots st d) as [[[? ?] ?]|]; [|done].
    simpl. intros [= <- <- <-]. constructor.
  - intros E. eapply mutate_array_retyped; [| |done|exact E].
    + intros [b f] Hin. constructor. apply retyped_refl. by apply (known_elems _ _ Hk (mkBoxedABI b f)).
    + intros x st1 r1 st1' b' Hin Hn. rewrite <- Hn. rewrite Forall_forall in IH.
      apply (IH x Hin). by apply (known_elems _ _ Hk).
  - done.
Qed.

(** Values of the same type are known and well-formed together. *)
Lemma retyped_ok n v v' :
  retyped n v v' → known v = true →
  known v' = true ∧ (elem_ok v = true → elem_ok v' = true).
Proof.
  revert v'. induction v as [|d a m b|d k|data dyn IH|[b f] l IH] using ABI_nested_ind;
    intros v' Hr Hk; inversion Hr as [|? d' ? ? ? Hl _|? d' ?|? vs' HF|? vs' _ HF]; subst; try done.
  - split; [done|]. simpl. rewrite !Nat.leb_le. lia.
  - assert (Hx : Forall2 (λ x y, known (boxed_b y) = true ∧
                           (elem_ok (boxed_b x) = true → elem_ok (boxed_b y) = true)) data vs').
    { pose proof (known_elems _ _ Hk) as Hke. clear Hr Hk.
      induction HF as [|x y data vs' Hxy _ IHF]; constructor.
      - inversion Hxy; subst. apply Forall_cons in IH as [IHx _]. apply (IHx b'); [done|].
        apply (Hke (mkBoxedABI b f)). left.
      - apply Forall_cons in IH as [_ IH]. apply IHF; [done|]. intros. apply Hke. by right. }
    split.
    + simpl. rewrite forallb_forall. intros [b f] Hin%list_elem_of_In.
      apply list_elem_of_lookup in Hin as [i Hi].
      destruct (Forall2_lookup_r _ _ _ _ _ Hx Hi) as (x & _ & Hy & _). done.
    + intros [Hne Hok]%elem_ok_array. simpl. apply andb_true_iff. split.
      * apply negb_true_iff, Nat.eqb_neq. rewrite <- (Forall2_length _ _ _ HF).
        destruct Hne as [?|Hne]; [done|]. by destruct data.
      * rewrite forallb_forall. intros [b f] Hin%list_elem_of_In.
        apply list_elem_of_lookup in Hin as [i Hi].
        destruct (Forall2_lookup_r _ _ _ _ _ Hx Hi) as (x & Hxi & _ & Hy). apply Hy.
        rewrite Forall_forall in Hok. apply Hok. by eapply list_elem_of_lookup_2.
  - assert (Hx : ∀ y, y ∈ vs' → ∃ x, x ∈ data ∧ known (boxed_b y) = true ∧
                           (elem_ok (boxed_b x) = true → elem_ok (boxed_b y) = true)).
    { intros y Hy. rewrite Forall_forall in HF. apply HF, Exists_exists in Hy as (x & Hin & Hxy).
      exists x. split; [done|]. inversion Hxy; subst. rewrite Forall_forall in IH.
      apply (IH _ Hin); [done|]. by apply (known_elems _ _ Hk). }
    split.
    + simpl. rewrite forallb_forall. intros [b f] Hin%list_elem_of_In.
      by destruct (Hx _ Hin) as (x & _ & Hy & _).
    + intros [_ Hok]%elem_ok_array. simpl. rewrite forallb_forall. intros [b f] Hin%list_elem_of_In.
      destruct (Hx _ Hin) as (x & Hxin & _ & Hy). apply Hy. rewrite Forall_forall in Hok. by apply Hok.
Qed.

(** C38. Mutation keeps the type of an argument: a mutated value has the constructors,
    flags, word sizes (20 bytes for addresses), tuple arities and element types of the
    original, protected words are unchanged, and arrays grow by less than the size
    limit; in particular a value that encodes still encodes after any mutation. *)
Theorem mutate_keeps_type vm_slots v st r st' v' :
  known v = true → mutate_with_vm_slots vm_slots v st = Some (r, st', v') →
  retyped (max_size st) v v' ∧ known v' = true ∧
  (elem_ok v = true → elem_ok v' = true ∧ get_bytes v' = Some (enc v')).
Proof.
  intros Hk E. pose proof (mutate_retyped _ _ _ _ _ _ Hk E) as Hr.
  destruct (retyped_ok _ _ _ Hr Hk) as [Hk' Hok]. split; [done|]. split; [done|].
  intros Ho. split; [by apply Hok|]. by apply get_bytes_elem, Hok.
Qed.

(** ** Mutation completes *)

(** Storage hints are safe for a value without byte strings. *)
Fixpoint words_only (a : ABI) : bool :=
  match a with
  | ADynamic _ _ => false
  | AArray data _ => forallb (λ x, match x with mkBoxedABI b _ => words_only b end) data
  | AUnknown (mkBoxedABI b _) _ => words_only b
  | _ => true
  end.

Definition hints_ok (vm_slots : option (list (EVMU256 * EVMU256))) (v : ABI) : Prop :=
  ∀ slots, vm_slots = Some slots → slots ≠ [] ∧ words_only v = true.

Lemma expansion_runs st d :
  ∃ r st' d', byte_mutator_with_expansion None st d = Some (r, st', d') ∧ same_but_rand st st'.
Proof.
  unfold byte_mutator_with_expansion. cbn [with_vm_hint].
  assert (Forall (runs_in (λ st1 _, same_but_rand st st1)) expanding_mutators) as Hf.
  { apply Forall_forall. intros m Hm st1 b1 H1.
    destruct (expanding_mutators_total m st1 b1 Hm) as (r & st2 & b2 & E & Hs).
    exists r, st2, b2. split; [done|]. by etransitivity. }
  destruct (scheduled_runs _ _ Hf st d) as (r & st' & d' & E & Hs); [done|]. by exists r, st', d'.
Qed.

Lemma mutate_a256_total vm_slots d a m b st :
  constants_ok st → addresses_pool st ≠ [] → (length d ≤ 32)%nat →
  (∀ slots, vm_slots = Some slots → slots ≠ []) →
  ∃ r st' v', mutate_a256 vm_slots d a m b st = Some (r, st', v').
Proof.
  intros Hc Ha Hl Hs. unfold mutate_a256. destruct m; [by do 3 eexists|]. destruct a.
  - pose proof (st_below_same st 100) as Hsame. destruct (st_below st 100) as [v st1].
    destruct Hsame as [rr E]. simpl in E. subst st1. destruct (v <? 90); [|by do 3 eexists].
    destruct (pool_pick_spec (set_rand st rr) (addresses_pool st) Ha) as (x & st2 & E & _).
    unfold get_rand_address. cbn [set_rand addresses_pool]. fold (set_rand st rr). rewrite E.
    by do 3 eexists.
  - destruct (byte_mutator_runs vm_slots st (length d) Hc) with (st := st) (b := d)
      as (r & st' & d' & E & _); [naive_solver|by split|]. rewrite E. by do 3 eexists.
Qed.

(** What a mutation needs of the state; draws keep it. *)
Definition ready st : Prop := constants_ok st ∧ addresses_pool st ≠ [].

Lemma ready_same st st' : same_but_rand st st' → ready st → ready st'.
Proof. by intros [r ->]. Qed.

Lemma ready_next st : ready st → ready (snd (st_next st)).
Proof. apply ready_same, st_next_same. Qed.
Lemma ready_below st n : ready st → ready (snd (st_below st n)).
Proof. apply ready_same, st_below_same. Qed.

Definition completes (f : FuzzState R → mres) : Prop :=
  ∀ st, ready st → ∃ r st' v', f st = Some (r, st', v').

Lemma mutate_at_completes data muts dyn :
  data ≠ [] → length muts = length data → Forall completes muts →
  completes (mutate_at data muts dyn).
Proof.
  intros Hne Hl Hm st Hst. unfold mutate_at. pose proof (ready_next st Hst) as Hr.
  destruct (st_next st) as [k st1]. cbn [snd] in Hr. cbv zeta.
  set (index := Z.to_nat _).
  assert (index < length data)%nat as Hi.
  { unfold index. assert (0 < Z.of_nat (length data)) by (destruct data; [done|simpl; lia]).
    pose proof (Z.mod_pos_bound k (Z.of_nat (length data))). lia. }
  destruct (lookup_lt_is_Some_2 muts index) as [f Hf]; [lia|].
  destruct (lookup_lt_is_Some_2 data index Hi) as [x Hx]. unfold mres in *. rewrite Hf, Hx, !obind_Some.
  rewrite Forall_forall in Hm.
  destruct (Hm f) with (st := st1) as (r & st' & v' & E); [by eapply list_elem_of_lookup_2|done|].
  rewrite E. by do 3 eexists.
Qed.

Lemma mutate_array_completes data muts dyn :
  length muts = length data → Forall completes muts → completes (mutate_array data muts dyn).
Proof.
  intros Hl Hm st Hst. unfold mutate_array. case_decide as He; [by do 3 eexists|].
  assert (data ≠ []) as Hne by (by intros ->).
  destruct dyn; [|by apply mutate_at_completes].
  pose proof (ready_below st 100 Hst) as Hr. destruct (st_below st 100) as [v st1]. cbn [snd] in Hr.
  destruct (v <=? 80); [by apply mutate_at_completes|].
  destruct (v <=? 90).
  - case_decide; [by do 3 eexists|]. destruct (st_next st1) as [k st2].
    destruct data; [done|]. by do 3 eexists.
  - destruct (st_next st1) as [k st2]. by do 3 eexists.
Qed.

Lemma hints_ok_elem vm_slots data dyn x :
  hints_ok vm_slots (AArray data dyn) → x ∈ data → hints_ok vm_slots (boxed_b x).
Proof.
  intros Hh Hin slots Es. destruct (Hh slots Es) as [Hne Hw]. split; [done|].
  simpl in Hw. rewrite forallb_forall in Hw. destruct x as [b f].
  apply (Hw (mkBoxedABI b f)). by apply list_elem_of_In.
Qed.

(** Mutation always completes: for every well-formed argument, with a non-empty
    address pool and constant pool, [mutate_with_vm_slots] never panics, at any
    nesting depth and for any random draws.  Storage hints may be present when the
    argument holds no byte string (see the panic of the hinted mutator). *)
Theorem mutate_total vm_slots v :
  known v = true → elem_ok v = true → hints_ok vm_slots v →
  completes (mutate_with_vm_slots vm_slots v).
Proof.
  induction v as [|d a m b|d k|data dyn IH|[b f] n IH] using ABI_nested_ind; intros Hk Hok Hh; try done.
  - intros st [Hc Ha]. apply mutate_a256_total; try done.
    + by apply Nat.leb_le.
    + intros slots Es. by destruct (Hh slots Es).
  - intros st _. cbn [mutate_with_vm_slots]. destruct vm_slots as [slots|].
    + by destruct (Hh slots eq_refl) as [_ ?].
    + destruct (expansion_runs st d) as (r & st' & d' & E & _). rewrite E. by do 3 eexists.
  - cbn [mutate_with_vm_slots]. apply mutate_array_completes; [by rewrite length_map|].
    apply Forall_map, Forall_forall. intros [b f] Hin. apply elem_ok_array in Hok as [_ Hok].
    rewrite Forall_forall in IH, Hok. apply (IH _ Hin).
    + by apply (known_elems _ _ Hk (mkBoxedABI b f)).
    + by apply (Hok _ Hin).
    + by apply (hints_ok_elem _ _ _ _ Hh Hin).
Qed.
End mutate.

(** A state to mutate with. *)
Definition example_state (seed : Z) : FuzzState Z := mkFuzzState seed [5] [5; 6] 20 (Some [[x01]]).

Lemma mutate_keeps_type_witness :
  ∃ r st' v', mutate_with_vm_slots None example_tuple (example_state 4) = Some (r, st', v') ∧
    retyped 20 example_tuple v' ∧ known v' = true ∧
    (elem_ok example_tuple = true → elem_ok v' = true ∧ get_bytes v' = Some (enc v')).
Proof.
  do 3 eexists. split; [vm_compute; reflexivity|].
  refine (mutate_keeps_type None example_tuple (example_state 4) Mutated _ _ _ _);
    [reflexivity|vm_compute; reflexivity].
Defined.

Lemma mutate_total_witness :
  completes (R := Z) (mutate_with_vm_slots (Some [(1, 2)])
    (AArray [BoxedABI_new (A256 [x07] false false false)] true)).
Proof.
  apply mutate_total; [reflexivity|reflexivity|].
  intros slots [= <-]. split; [discriminate|reflexivity].
Defined.
