(* ===== verification/F64.v ===== *)
(** * IEEE doubles, as far as the scheduler uses them

    [f64] arithmetic on the executable [SpecFloat] of the Standard Library:
    conversion of a [u64], division, multiplication, addition and comparison. *)
From S2P Require Import Prelude Types.
#[local] Open Scope Z_scope.

Definition f64 := spec_float.
Definition PREC : Z := 53.
Definition EMAX : Z := 1024.

(** [x as f64] for an unsigned integer. *)
Definition f64_of_u64 (z : Z) : f64 := binary_normalize PREC EMAX z 0 false.
Definition f64_div (a b : f64) : f64 := SFdiv PREC EMAX a b.
Definition f64_mul (a b : f64) : f64 := SFmul PREC EMAX a b.
Definition f64_add (a b : f64) : f64 := SFadd PREC EMAX a b.
Definition f64_zero : f64 := S754_zero false.
(** [a.partial_cmp(&b)] *)
Definition f64_partial_cmp (a b : f64) : option comparison := SFcompare a b.
(** [a > b] *)
Definition f64_gt (a b : f64) : bool := SFltb b a.

(** ** Quotients of positive integers *)

Lemma digits2_shift_pos n m : digits2_pos (Pos.iter xO m n) = (n + digits2_pos m)%positive.
Proof.
  induction n as [|n IH] using Pos.peano_ind; [simpl; lia|].
  rewrite Pos.iter_succ. simpl. rewrite IH. lia.
Qed.

Lemma binary_round_aux_exact s m e :
  fexp PREC EMAX (Zpos (digits2_pos m) + e) = e → e ≤ EMAX - PREC →
  binary_round_aux PREC EMAX s (Zpos m) e loc_Exact = S754_finite s m e.
Proof.
  intros H He. unfold binary_round_aux, shr_fexp. cbn [Zdigits2 shr_record_of_loc].
  rewrite H, Z.sub_diag. cbn [shr shr_m loc_of_shr_record round_nearest_even shr_record_of_loc Zdigits2].
  rewrite H, Z.sub_diag. cbn [shr shr_m]. rewrite (proj2 (Z.leb_le _ _) He). done.
Qed.

Lemma digits2_pos_bound m k : Zpos m < 2 ^ k → 0 ≤ k → Zpos (digits2_pos m) ≤ k.
Proof.
  intros H Hk.
  assert (2 ^ (Zpos (digits2_pos m) - 1) ≤ Zpos m) as Hd.
  { clear. induction m as [m IH|m IH|]; cbn [digits2_pos].
    - rewrite Pos2Z.inj_succ. replace (Z.succ _ - 1) with (1 + (Zpos (digits2_pos m) - 1)) by lia.
      rewrite Z.pow_add_r by lia. lia.
    - rewrite Pos2Z.inj_succ. replace (Z.succ _ - 1) with (1 + (Zpos (digits2_pos m) - 1)) by lia.
      rewrite Z.pow_add_r by lia. lia.
    - done. }
  assert (Zpos (digits2_pos m) - 1 < k); [|lia]. apply (Z.pow_lt_mono_r_iff 2); lia.
Qed.

(** A positive integer below 2^53 is represented exactly, by a finite number. *)
Lemma f64_of_u64_finite z :
  0 < z < 2 ^ 53 → ∃ m e, f64_of_u64 z = S754_finite false m e.
Proof.
  intros Hz. destruct z as [|p|p]; [lia| |lia].
  pose proof (digits2_pos_bound p 53 ltac:(lia) ltac:(lia)) as Hd.
  unfold f64_of_u64, binary_normalize, binary_round.
  set (d := digits2_pos p) in *.
  assert (fexp PREC EMAX (Zpos d + 0) = Zpos d - 53) as Ef.
  { unfold fexp, emin, PREC, EMAX. lia. }
  rewrite Ef. unfold shl_align. rewrite Z.sub_0_r.
  destruct (Zpos d - 53) as [|n|n] eqn:Es; [|lia|].
  - exists p, 0. apply binary_round_aux_exact; [|done]. fold d. by rewrite Ef.
  - exists (Pos.iter xO p n), (Zneg n). apply binary_round_aux_exact.
    + rewrite digits2_shift_pos. fold d. unfold fexp, emin, PREC, EMAX. lia.
    + unfold EMAX, PREC. lia.
Qed.

Lemma shr_1_pos r : 0 ≤ shr_m r → 0 ≤ shr_m (shr_1 r).
Proof. destruct r as [m ro st]. simpl. destruct m as [|[p|p|]|p]; simpl; lia. Qed.

Lemma iter_shr_pos n : ∀ r, 0 ≤ shr_m r → 0 ≤ shr_m (iter_pos shr_1 n r).
Proof. induction n; intros r H; simpl; auto using shr_1_pos. Qed.

Lemma shr_fexp_pos m e l : 0 ≤ m → 0 ≤ shr_m (fst (shr_fexp PREC EMAX m e l)).
Proof.
  intros H. unfold shr_fexp, shr.
  assert (0 ≤ shr_m (shr_record_of_loc m l)) by (by destruct l as [|[]]).
  destruct (_ - _) as [|p|p]; simpl; [done| |done].
  by apply iter_shr_pos.
Qed.

Lemma round_nearest_even_pos m l : 0 ≤ m → 0 ≤ round_nearest_even m l.
Proof. intros H. destruct l as [|[]]; simpl; try lia. destruct (Z.even m); lia. Qed.

(** Numbers without a sign: zero, positive numbers and positive infinity. *)
Definition unsigned (a : f64) : bool :=
  match a with
  | S754_zero s | S754_infinity s | S754_finite s _ _ => negb s
  | S754_nan => false
  end.

Lemma binary_round_aux_unsigned m e l :
  0 ≤ m → unsigned (binary_round_aux PREC EMAX false m e l) = true.
Proof.
  intros H. unfold binary_round_aux.
  pose proof (shr_fexp_pos m e l H) as H1. destruct (shr_fexp PREC EMAX m e l) as [r1 e1].
  cbn [fst] in H1.
  pose proof (shr_fexp_pos (round_nearest_even (shr_m r1) (loc_of_shr_record r1)) e1 loc_Exact
                (round_nearest_even_pos _ _ H1)) as H2.
  destruct (shr_fexp PREC EMAX (round_nearest_even _ _) e1 loc_Exact) as [r2 e2]. cbn [fst] in H2.
  destruct (shr_m r2); [done| |lia]. by destruct (_ <=? _).
Qed.

(** The quotient of two integers, the divisor positive, is a number without a sign (not NaN). *)
Lemma f64_ratio_unsigned a b :
  0 < a < 2 ^ 53 → 0 < b < 2 ^ 53 → unsigned (f64_div (f64_of_u64 a) (f64_of_u64 b)) = true.
Proof.
  intros Ha Hb. destruct (f64_of_u64_finite a Ha) as (ma & ea & ->).
  destruct (f64_of_u64_finite b Hb) as (mb & eb & ->).
  unfold f64_div, SFdiv. destruct (SFdiv_core_binary _ _ _ _ _ _) as [[q e] l] eqn:E.
  apply binary_round_aux_unsigned. revert E. unfold SFdiv_core_binary.
  cbv zeta. set (s := Z.min _ _). set (m' := match _ with Z0 => _ | Zpos _ => _ | Zneg _ => _ end).
  assert (0 ≤ m') as Hm.
  { unfold m'. destruct (ea - eb - s) eqn:Es; [lia| |lia]. rewrite Z.shiftl_mul_pow2 by lia. lia. }
  destruct (Z.div_eucl m' (Zpos mb)) as [q' r'] eqn:Ed. intros E. injection E as <- <- <-.
  pose proof (Z.div_pos _ (Zpos mb) Hm ltac:(lia)) as Hq. unfold Z.div in Hq. by rewrite Ed in Hq.
Qed.

(** ** The order of unsigned numbers *)

Definition f64_le (a b : f64) : Prop := ∃ c, f64_partial_cmp a b = Some c ∧ c ≠ Gt.

Lemma partial_cmp_total a b :
  unsigned a = true → unsigned b = true → ∃ c, f64_partial_cmp a b = Some c.
Proof.
  unfold f64_partial_cmp, SFcompare.
  destruct a as [[]|[]| |[] ma ea], b as [[]|[]| |[] mb eb]; simpl; try done; intros _ _;
    repeat case_match; by eexists.
Qed.

Lemma partial_cmp_gt a b :
  unsigned a = true → unsigned b = true → f64_partial_cmp a b = Some Gt → f64_le b a.
Proof.
  unfold f64_le, f64_partial_cmp, SFcompare.
  destruct a as [[]|[]| |[] ma ea], b as [[]|[]| |[] mb eb]; simpl; try done; intros _ _ E;
    try (by eexists).
  rewrite (Z.compare_antisym ea eb). destruct (Z.compare ea eb); simpl; try done; [|by eexists].
  injection E as E. change (Pos.compare_cont Eq ma mb) with (Pos.compare ma mb) in E.
  change (Pos.compare_cont Eq mb ma) with (Pos.compare mb ma).
  rewrite Pos.compare_antisym, E. by eexists.
Qed.

Lemma f64_le_trans a b c :
  unsigned a = true → unsigned b = true → unsigned c = true →
  f64_le a b → f64_le b c → f64_le a c.
Proof.
  unfold f64_le, f64_partial_cmp, SFcompare.
  destruct a as [[]|[]| |[] ma ea], b as [[]|[]| |[] mb eb], c as [[]|[]| |[] mc ec];
    simpl; try done; intros _ _ _ (c1 & E1 & N1) (c2 & E2 & N2); try (by eexists);
    try (by simplify_eq).
  change (Pos.compare_cont Eq ma mb) with (Pos.compare ma mb) in E1.
  change (Pos.compare_cont Eq mb mc) with (Pos.compare mb mc) in E2.
  change (Pos.compare_cont Eq ma mc) with (Pos.compare ma mc).
  injection E1 as E1. injection E2 as E2. rewrite <- E1 in N1. rewrite <- E2 in N2. clear E1 E2.
  destruct (Z.compare_spec ea eb), (Z.compare_spec eb ec); try done;
    destruct (Z.compare_spec ea ec); try lia; try (by eexists).
  destruct (Pos.compare_spec ma mb), (Pos.compare_spec mb mc); try done;
    destruct (Pos.compare_spec ma mc); try lia; by eexists.
Qed.
