(* ===== verification/Corpus.v ===== *)
(** * The infant-state corpus ([src/src/indexed_corpus.rs])

    [IndexedInMemoryCorpus]: testcases under self-incrementing indices.  A method
    returns its result, an error, or panics. *)
From S2P Require Import Prelude Types.
#[local] Open Scope Z_scope.

(** [Result<A, Error>], and panics ([unwrap] of a missing entry). *)
Inductive outcome (A : Type) := Ok (a : A) | KeyNotFound | Panic.
Arguments Ok {A}.
Arguments KeyNotFound {A}.
Arguments Panic {A}.

(** [struct IndexedInMemoryCorpus<I>]; an entry is the testcase in its [RefCell]. *)
Record IndexedInMemoryCorpus (I : Type) := mkCorpus {
  entries : gmap Z I;
  current_idx : Z;
  current : option Z
}.
Arguments mkCorpus {I}.
Arguments entries {I}.
Arguments current_idx {I}.
Arguments current {I}.

Section corpus.
Context {I : Type}.
Implicit Types c : IndexedInMemoryCorpus I.

(** [IndexedInMemoryCorpus::new] *)
Definition corpus_new : IndexedInMemoryCorpus I := mkCorpus ∅ 0 None.

Definition corpus_count c : Z := Z.of_nat (size (entries c)).

(** [add]: insert at [current_idx], then increment it (a [usize]). *)
Definition corpus_add c (testcase : I) : Z * IndexedInMemoryCorpus I :=
  let c' := mkCorpus (<[current_idx c := testcase]> (entries c)) (u64 (current_idx c + 1)) (current c) in
  (u64 (current_idx c' - 1), c').

(** [replace] *)
Definition corpus_replace c (idx : Z) (testcase : I) : outcome (I * IndexedInMemoryCorpus I) :=
  if corpus_count c <=? idx then KeyNotFound
  else match entries c !! idx with
       | Some old => Ok (old, mkCorpus (<[idx := testcase]> (entries c)) (current_idx c) (current c))
       | None => Panic
       end.

(** [remove] *)
Definition corpus_remove c (idx : Z) : outcome (I * IndexedInMemoryCorpus I) :=
  match entries c !! idx with
  | Some old => Ok (old, mkCorpus (delete idx (entries c)) (current_idx c) (current c))
  | None => Panic
  end.

(** [get] *)
Definition corpus_get c (idx : Z) : outcome I :=
  match entries c !! idx with
  | Some x => Ok x
  | None => KeyNotFound
  end.

(** ** Properties *)

(** Every index in use was handed out before. *)
Definition corpus_ok c : Prop :=
  0 ≤ current_idx c < 2 ^ 64 ∧ ∀ i, is_Some (entries c !! i) → 0 ≤ i < current_idx c.

Lemma corpus_new_ok : corpus_ok corpus_new.
Proof. split; [done|]. intros i [x Hx]. done. Qed.

Lemma corpus_fresh c : corpus_ok c → entries c !! current_idx c = None.
Proof.
  intros [_ H]. destruct (entries c !! current_idx c) as [x|] eqn:E; [|done].
  assert (is_Some (entries c !! current_idx c)) as Hi by (by eexists). apply H in Hi. lia.
Qed.

Lemma corpus_add_spec c x :
  corpus_ok c → current_idx c + 1 < 2 ^ 64 →
  corpus_add c x =
  (current_idx c, mkCorpus (<[current_idx c := x]> (entries c)) (current_idx c + 1) (current c)).
Proof.
  intros [H _] Hb. unfold corpus_add. cbn [current_idx]. unfold u64.
  rewrite (wrap_small 64 (current_idx c + 1)) by lia. rewrite wrap_small by lia.
  f_equal. lia.
Qed.

Lemma corpus_add_ok c x :
  corpus_ok c → current_idx c + 1 < 2 ^ 64 → corpus_ok (snd (corpus_add c x)).
Proof.
  intros Hok Hb. rewrite corpus_add_spec by done. cbn [snd]. destruct Hok as [H1 H2].
  split; cbn [current_idx entries]; [lia|]. intros i Hi.
  destruct (decide (i = current_idx c)) as [->|Hne]; [lia|].
  rewrite lookup_insert_ne in Hi by done. apply H2 in Hi. lia.
Qed.

Lemma corpus_count_add c x :
  corpus_ok c → current_idx c + 1 < 2 ^ 64 →
  corpus_count (snd (corpus_add c x)) = corpus_count c + 1.
Proof.
  intros Hok Hb. rewrite corpus_add_spec by done. unfold corpus_count. cbn [snd entries].
  rewrite map_size_insert_None by (by apply corpus_fresh). lia.
Qed.

(** Adding a testcase hands out a fresh index: as long as fewer than 2^64
    testcases were added, [add] returns an index that was not in use, stores exactly
    the given testcase there, leaves every other entry alone, increases the count by
    one, and keeps all indices below the next one, so indices are never reused. *)
Theorem corpus_add_fresh c x :
  corpus_ok c → current_idx c + 1 < 2 ^ 64 →
  let idx := fst (corpus_add c x) in
  let c' := snd (corpus_add c x) in
  corpus_ok c' ∧ corpus_get c idx = KeyNotFound ∧ corpus_get c' idx = Ok x ∧
  (∀ j, j ≠ idx → corpus_get c' j = corpus_get c j) ∧
  corpus_count c' = corpus_count c + 1 ∧ idx < current_idx c'.
Proof.
  intros Hok Hb idx c'. split; [by apply corpus_add_ok|].
  unfold idx, c'. rewrite corpus_count_add by done. rewrite corpus_add_spec by done. cbn [fst snd].
  unfold corpus_get. cbn [entries current_idx].
  rewrite corpus_fresh by done. rewrite lookup_insert_eq. split_and!; try done; [|lia].
  intros j Hj. by rewrite lookup_insert_ne.
Qed.

(** [replace] checks the index against the number of entries, not against the
    indices in use: after a removal it rejects a testcase that is present. *)
Theorem corpus_replace_rejects_live c x y z :
  corpus_ok c → current_idx c + 2 < 2 ^ 64 → corpus_count c = current_idx c →
  let '(i1, c1) := corpus_add c x in
  let '(i2, c2) := corpus_add c1 y in
  ∃ c', corpus_remove c2 i1 = Ok (x, c') ∧
        corpus_get c' i2 = Ok y ∧ corpus_replace c' i2 z = KeyNotFound.
Proof.
  intros Hok Hb Hc. rewrite corpus_add_spec by (done || lia).
  pose proof (corpus_add_ok c x Hok ltac:(lia)) as Hok1.
  pose proof (corpus_count_add c x Hok ltac:(lia)) as Hc1.
  rewrite corpus_add_spec in Hok1, Hc1 by (done || lia). cbn [snd] in Hok1, Hc1.
  rewrite corpus_add_spec by (done || (cbn [current_idx]; lia)). cbn [entries current_idx current] in *.
  unfold corpus_remove, corpus_get, corpus_replace. cbn [entries].
  rewrite lookup_insert_ne, lookup_insert_eq by lia. eexists. split; [done|].
  cbn [entries current_idx]. rewrite lookup_delete_ne, lookup_insert_eq by lia. split; [done|].
  unfold corpus_count in *. cbn [entries] in *.
  rewrite map_size_delete_Some by (rewrite lookup_insert_ne, lookup_insert_eq by lia; by eexists).
  rewrite map_size_insert_None.
  - destruct (Z.leb_spec (Z.of_nat (Nat.pred (S (size (<[current_idx c:=x]> (entries c))))))
                (current_idx c + 1)); [done|lia].
  - rewrite lookup_insert_ne by lia. destruct (entries c !! (current_idx c + 1)) eqn:E; [|done].
    destruct Hok as [_ Hok]. assert (is_Some (entries c !! (current_idx c + 1))) as Hi by (by eexists).
    apply Hok in Hi. lia.
Qed.
End corpus.

Lemma corpus_add_fresh_witness :
  let c := snd (corpus_add corpus_new 7) in
  let idx := fst (corpus_add c 8) in
  let c' := snd (corpus_add c 8) in
  corpus_ok c' ∧ corpus_get c idx = KeyNotFound ∧ corpus_get c' idx = Ok 8 ∧
  (∀ j, j ≠ idx → corpus_get c' j = corpus_get c j) ∧
  corpus_count c' = corpus_count c + 1 ∧ idx < current_idx c'.
Proof.
  intros c. apply (corpus_add_fresh c 8); [|reflexivity].
  apply corpus_add_ok; [apply corpus_new_ok|reflexivity].
Defined.

Lemma corpus_replace_rejects_live_witness :
  let '(i1, c1) := corpus_add corpus_new 7 in
  let '(i2, c2) := corpus_add c1 8 in
  ∃ c', corpus_remove c2 i1 = Ok (7, c') ∧
        corpus_get c' i2 = Ok 8 ∧ corpus_replace c' i2 9 = KeyNotFound.
Proof.
  apply (corpus_replace_rejects_live corpus_new 7 8 9); [apply corpus_new_ok|reflexivity|reflexivity].
Defined.
