(* ===== verification/Scheduler.v ===== *)
(** * The infant-state scheduler ([src/src/scheduler.rs], [src/src/state.rs])

    [SortedDroppingScheduler]: votes and visits per VM state, weighted sampling and
    pruning.  The build has the feature [full_trace]: pruned states leave the
    metadata but stay in the corpus, and [REMOVED_CORPUS] counts them. *)
From Stdlib Require Import Sorting.Sorted.
From S2P Require Import Prelude Types State F64 Corpus.
#[local] Open Scope Z_scope.

(** ** Stable sorting with a comparison that may panic ([slice::sort_by]) *)

Section sort.
Context {A : Type} (cmp : A → A → option comparison).

Fixpoint insertM (x : A) (l : list A) : option (list A) :=
  match l with
  | [] => Some [x]
  | y :: l' =>
      c ← cmp x y;
      match c with
      | Gt => r ← insertM x l'; Some (y :: r)
      | _ => Some (x :: y :: l')
      end
  end.

Fixpoint sort_by (l : list A) : option (list A) :=
  match l with
  | [] => Some []
  | x :: l' => r ← sort_by l'; insertM x r
  end.

Lemma insertM_perm x l r : insertM x l = Some r → r ≡ₚ x :: l.
Proof.
  revert r. induction l as [|y l IH]; intros r; simpl; [by intros [= <-]|].
  destruct (cmp x y) as [[]|]; simpl; try done; try (by intros [= <-]).
  destruct (insertM x l) as [r'|]; simpl; [|done]. intros [= <-].
  rewrite (IH r' eq_refl). constructor.
Qed.

Lemma sort_by_perm l r : sort_by l = Some r → r ≡ₚ l.
Proof.
  revert r. induction l as [|x l IH]; intros r; simpl; [by intros [= <-]|].
  destruct (sort_by l) as [r'|]; simpl; [|done]. intros E%insertM_perm.
  by rewrite E, (IH r' eq_refl).
Qed.

(** The comparison never panics on the elements of a list. *)
Definition cmp_total (l : list A) : Prop := ∀ x y, x ∈ l → y ∈ l → is_Some (cmp x y).

Lemma insertM_total x l : cmp_total (x :: l) → ∃ r, insertM x l = Some r.
Proof.
  intros H. induction l as [|y l IH]; simpl; [by eexists|].
  destruct (H x y) as [c Hc]; [left|right; left|]. rewrite Hc. simpl.
  destruct c; [by eexists|by eexists|]. destruct IH as [r Hr].
  { intros a b Ha Hb. apply H; set_solver. }
  rewrite Hr. by eexists.
Qed.

Lemma sort_by_total l : cmp_total l → ∃ r, sort_by l = Some r.
Proof.
  induction l as [|x l IH]; intros H; simpl; [by eexists|].
  destruct IH as [r Hr]; [intros a b Ha Hb; apply H; set_solver|]. rewrite Hr. simpl.
  apply insertM_total. pose proof (sort_by_perm _ _ Hr) as Hp.
  intros a b Ha Hb. apply H; rewrite <- Hp; done.
Qed.

(** The comparison is that of a total preorder [le]. *)
Context (le : A → A → Prop) (P : A → Prop).
Definition cmp_spec : Prop :=
  (∀ x y, P x → P y → cmp x y = Some Gt → le y x) ∧
  (∀ x y c, P x → P y → cmp x y = Some c → c ≠ Gt → le x y) ∧
  (∀ x y z, P x → P y → P z → le x y → le y z → le x z).

Lemma insertM_sorted x l r :
  cmp_spec → P x → Forall P l → StronglySorted le l → insertM x l = Some r → StronglySorted le r.
Proof.
  intros (Hgt & Hle & Htr) Hx. revert r. induction l as [|y l IH]; intros r HP Hs; simpl.
  { intros [= <-]. repeat constructor. }
  apply Forall_cons in HP as [Hy HP]. apply StronglySorted_inv in Hs as [Hs Hall].
  destruct (cmp x y) as [c|] eqn:Ec; simpl; [|done].
  assert (c ≠ Gt → Some (x :: y :: l) = Some r → StronglySorted le r) as Hfirst.
  { intros Hc [= <-]. assert (le x y) by (by eapply Hle).
    constructor; [by constructor|]. constructor; [done|].
    rewrite Forall_forall in Hall, HP |- *. intros z Hz. eapply (Htr x y z); auto. }
  destruct c; [by apply Hfirst|by apply Hfirst|].
  destruct (insertM x l) as [r'|] eqn:Ei; simpl; [|done]. intros [= <-].
  constructor; [by apply (IH r')|].
  rewrite (insertM_perm _ _ _ Ei). constructor; [by apply Hgt|done].
Qed.

Lemma sort_by_sorted l r :
  cmp_spec → Forall P l → sort_by l = Some r → StronglySorted le r.
Proof.
  intros Hc. revert r. induction l as [|x l IH]; intros r HP; simpl; [intros [= <-]; constructor|].
  apply Forall_cons in HP as [Hx HP].
  destruct (sort_by l) as [r'|] eqn:E; simpl; [|done]. apply insertM_sorted; auto.
  by rewrite (sort_by_perm _ _ E).
Qed.
End sort.

(** ** The metadata *)

Definition DROP_THRESHOLD : Z := 500.
Definition PRUNE_AMT : nat := 250.
Definition VISIT_IGNORE_THRESHOLD : Z := 2.

(** [struct VoteData] *)
Record VoteData := mkVoteData {
  used : bool;
  storage_candiates : list Z;
  storage_map : gmap Z Z;
  prev_sorted_votes : list Z;
  votes_and_visits : gmap Z (Z * Z);
  sorted_votes : list Z;
  visits_total : Z;
  votes_total : Z
}.

(** The scheduler's part of [InfantStateState], with the static [REMOVED_CORPUS]. *)
Record InfantStateState (I R : Type) := mkInfant {
  infant_state : IndexedInMemoryCorpus I;
  vote_data : option VoteData;
  infant_rand : R;
  removed_corpus : Z
}.
Arguments mkInfant {I R}.
Arguments infant_state {I R}.
Arguments vote_data {I R}.
Arguments infant_rand {I R}.
Arguments removed_corpus {I R}.

(** The order in which a [HashMap] is iterated: some order of its entries. *)
Class HashOrder := {
  hash_iter : gmap Z (Z * Z) → list (Z * (Z * Z));
  hash_iter_perm m : hash_iter m ≡ₚ map_to_list m
}.

#[export] Instance HashOrder_default : HashOrder :=
  {| hash_iter := map_to_list; hash_iter_perm := λ m, Permutation_refl (map_to_list m) |}.

(** [(votes as f64) / (visits as f64)] *)
Definition score (v : Z * Z) : f64 := f64_div (f64_of_u64 v.1) (f64_of_u64 v.2).

Definition score_cmp (x y : Z * (Z * Z)) : option comparison := f64_partial_cmp (score x.2) (score y.2).

Definition set_votes (d : VoteData) (m : gmap Z (Z * Z)) (sorted : list Z) (visits votes : Z) : VoteData :=
  mkVoteData (used d) (storage_candiates d) (storage_map d) (prev_sorted_votes d) m sorted visits votes.

(** The metadata inserted by the first [on_add]. *)
Definition vote_data_init : VoteData :=
  mkVoteData false (map Z.of_nat (seq 0 501)) ∅ [] ∅ [] 1 1.

(** [on_remove] *)
Definition vote_on_remove (d : VoteData) (idx : Z) : option VoteData :=
  v ← votes_and_visits d !! idx;
  Some (set_votes d (delete idx (votes_and_visits d))
          (filter (λ x, x ≠ idx) (sorted_votes d))
          (u64 (visits_total d - v.2)) (u64 (votes_total d - v.1))).

Section scheduler.
Context {I R : Type} `{Rand R} `{HashOrder}.
Implicit Types st : InfantStateState I R.

Definition set_data st (d : VoteData) : InfantStateState I R :=
  mkInfant (infant_state st) (Some d) (infant_rand st) (removed_corpus st).

(** [on_remove] on the state *)
Definition on_remove st (idx : Z) : option (InfantStateState I R) :=
  d ← vote_data st; d' ← vote_on_remove d idx; Some (set_data st d').

(** The body of [to_remove.iter().for_each(..)]. *)
Definition prune_one st (idx : Z) : option (InfantStateState I R) :=
  st' ← on_remove st idx;
  Some (mkInfant (infant_state st') (vote_data st') (infant_rand st') (u64 (removed_corpus st' + 1))).

(** [on_add] *)
Definition on_add st (idx : Z) : option (InfantStateState I R) :=
  let d := default vote_data_init (vote_data st) in
  let d := set_votes d (<[idx := (3, 1)]> (votes_and_visits d)) (sorted_votes d ++ [idx])
                     (u64 (visits_total d + 1)) (u64 (votes_total d + 3)) in
  let st := set_data st d in
  let corpus_size := u64 (corpus_count (infant_state st) - removed_corpus st) in
  if DROP_THRESHOLD <? corpus_size then
    sorted ← sort_by score_cmp (hash_iter (votes_and_visits d));
    let to_remove := map fst (take PRUNE_AMT sorted) in
    foldM prune_one st to_remove
  else Some st.

(** The loop of [next] over [sorted_votes]: [None] is a panic. *)
Fixpoint sample (votes : gmap Z (Z * Z)) (threshold s : f64) (l : list Z) : option Z :=
  match l with
  | [] => Some usize_max
  | i :: l' =>
      v ← votes !! i;
      let s := f64_add s (f64_of_u64 v.1) in
      if f64_gt s threshold then Some i else sample votes threshold s l'
  end.

(** [next] *)
Definition next st : option (Z * InfantStateState I R) :=
  let '(r, rand) := rand_below (infant_rand st) 1000 in
  d ← vote_data st;
  let threshold := f64_mul (f64_div (f64_of_u64 r) (f64_of_u64 1000)) (f64_of_u64 (votes_total d)) in
  idx ← sample (votes_and_visits d) threshold f64_zero (sorted_votes d);
  idx ← (if idx =? usize_max then last (sorted_votes d) else Some idx);
  v ← votes_and_visits d !! idx;
  let d := set_votes d (<[idx := (v.1, u64 (v.2 + 1))]> (votes_and_visits d)) (sorted_votes d)
                     (u64 (visits_total d + 1)) (votes_total d) in
  Some (idx, mkInfant (infant_state st) (Some d) rand (removed_corpus st)).

(** The comparison of [vote]: descending votes. *)
Definition votes_cmp (votes : gmap Z (Z * Z)) (x y : Z) : option comparison :=
  vx ← votes !! x; vy ← votes !! y; Some (Z.compare vy.1 vx.1).

(** [vote] *)
Definition vote st (idx : Z) : option (InfantStateState I R) :=
  d ← vote_data st;
  let increment := 3 in
  let increment := if increment <? 1 then 1 else increment in
  let votes := match votes_and_visits d !! idx with
               | Some v => <[idx := (u64 (v.1 + increment), v.2)]> (votes_and_visits d)
               | None => votes_and_visits d
               end in
  sorted ← sort_by (votes_cmp votes) (sorted_votes d);
  Some (set_data st (set_votes d votes sorted (visits_total d) (u64 (votes_total d + increment)))).

(** [get_is_state_used] *)
Definition get_is_state_used st (idx : Z) : option Z :=
  d ← vote_data st;
  Some (match storage_map d !! idx with Some a => a | None => -1 end).

(** [FuzzState::get_infant_state] *)
Definition get_infant_state st : option (Z * I * InfantStateState I R) :=
  r ← next st;
  let '(idx, st) := r in
  match corpus_get (infant_state st) idx with
  | Ok x => Some (idx, x, st)
  | _ => None
  end.

(** [FuzzState::add_infant_state] *)
Definition add_infant_state st (x : I) : option (Z * InfantStateState I R) :=
  let '(idx, c) := corpus_add (infant_state st) x in
  st' ← on_add (mkInfant c (vote_data st) (infant_rand st) (removed_corpus st)) idx;
  Some (idx, st').
End scheduler.
