(* ===== verification/SchedulerInv.v ===== *)
(** * Invariants of the scheduler

    The cached totals, the sorted index list and the size bound of the scheduler
    metadata, over every sequence of additions, selections and votes. *)
From Stdlib Require Import Sorting.Sorted.
From stdpp Require Import sorting.
From S2P Require Import Prelude Types State F64 Corpus Scheduler.
#[local] Open Scope Z_scope.

(** ** Sums over the metadata map *)

Section sums.
Context (f : Z * Z → Z).
Definition msum (m : gmap Z (Z * Z)) : Z := map_fold (λ _ v acc, f v + acc) 0 m.

Lemma msum_insert m i v : m !! i = None → msum (<[i := v]> m) = f v + msum m.
Proof. intros Hi. unfold msum. rewrite map_fold_insert_L; [done| |done]. intros. lia. Qed.

Lemma msum_delete m i v : m !! i = Some v → msum m = f v + msum (delete i m).
Proof.
  intros Hi. rewrite <- (insert_delete_id m i v Hi) at 1. apply msum_insert, lookup_delete_eq.
Qed.

Lemma msum_update m i v w : m !! i = Some v → msum (<[i := w]> m) = msum m - f v + f w.
Proof.
  intros Hi. rewrite <- insert_delete_eq, msum_insert by apply lookup_delete_eq.
  rewrite (msum_delete m i v Hi). lia.
Qed.

Lemma msum_nonneg m : (∀ i v, m !! i = Some v → 0 ≤ f v) → 0 ≤ msum m.
Proof.
  induction m as [|i v m Hi IH] using map_ind; intros H; [done|].
  rewrite msum_insert by done. pose proof (H i v (lookup_insert_eq _ _ _)).
  assert (0 ≤ msum m); [|lia]. apply IH. intros j w Hj. apply (H j).
  rewrite lookup_insert_ne; [done|]. congruence.
Qed.
End sums.

(** ** The invariant of the metadata *)

(** After [k] operations, with [n] indices handed out.  [msum fst] and [msum snd]
    are the sums of the votes and of the visits of the live states. *)
Record data_inv (k n : Z) (d : VoteData) : Prop := {
  di_nodup : NoDup (sorted_votes d);
  di_dom i : i ∈ sorted_votes d ↔ is_Some (votes_and_visits d !! i);
  di_idx i : is_Some (votes_and_visits d !! i) → 0 ≤ i < n;
  di_bounds i v : votes_and_visits d !! i = Some v → 1 ≤ v.1 ≤ 3 * k ∧ 1 ≤ v.2 ≤ k;
  di_visits : visits_total d = 1 + msum snd (votes_and_visits d);
  di_visits_le : visits_total d ≤ 1 + k;
  di_votes : 1 + msum fst (votes_and_visits d) ≤ votes_total d ≤ 1 + 3 * k
}.

(** The number of operations considered: far more than a campaign performs, and
    small enough that no 64-bit counter wraps and no score is rounded to NaN. *)
Definition MAX_STEPS : Z := 2 ^ 50.

Lemma votes_sum_nonneg k n d : data_inv k n d → 0 ≤ msum fst (votes_and_visits d).
Proof. intros Hd. apply msum_nonneg. intros i v Hi. apply (di_bounds _ _ _ Hd) in Hi. lia. Qed.
Lemma visits_sum_nonneg k n d : data_inv k n d → 0 ≤ msum snd (votes_and_visits d).
Proof. intros Hd. apply msum_nonneg. intros i v Hi. apply (di_bounds _ _ _ Hd) in Hi. lia. Qed.

Lemma data_inv_mono k k' n n' d : k ≤ k' → n ≤ n' → data_inv k n d → data_inv k' n' d.
Proof.
  intros Hk Hn [H1 H2 H3 H4 H5 H6 H7]. split; try done; try lia.
  - intros i Hi. apply H3 in Hi. lia.
  - intros i v Hi. apply H4 in Hi. lia.
Qed.

Lemma data_inv_init n : data_inv 0 n vote_data_init.
Proof.
  split; cbn [vote_data_init sorted_votes votes_and_visits visits_total votes_total].
  - constructor.
  - intros i. rewrite lookup_empty. split; [by intros ?%not_elem_of_nil|by intros [? ?]].
  - intros i. rewrite lookup_empty. by intros [? ?].
  - intros i v. by rewrite lookup_empty.
  - done.
  - done.
  - done.
Qed.

(** Adding an entry. *)
Definition add_entry (d : VoteData) (idx : Z) : VoteData :=
  set_votes d (<[idx := (3, 1)]> (votes_and_visits d)) (sorted_votes d ++ [idx])
    (u64 (visits_total d + 1)) (u64 (votes_total d + 3)).

Lemma add_entry_inv k n d :
  0 ≤ k < MAX_STEPS → 0 ≤ n → data_inv k n d → data_inv (k + 1) (n + 1) (add_entry d n).
Proof.
  intros Hk Hn Hd.
  assert (votes_and_visits d !! n = None) as Hfresh.
  { destruct (votes_and_visits d !! n) eqn:E; [|done].
    assert (is_Some (votes_and_visits d !! n)) as Hi by (by eexists).
    apply (di_idx _ _ _ Hd) in Hi. lia. }
  pose proof (votes_sum_nonneg _ _ _ Hd). pose proof (visits_sum_nonneg _ _ _ Hd).
  destruct Hd as [H1 H2 H3 H4 H5 H6 H7]. unfold MAX_STEPS in Hk.
  assert (u64 (visits_total d + 1) = visits_total d + 1) as Ev by (apply wrap_small; lia).
  assert (u64 (votes_total d + 3) = votes_total d + 3) as Eo by (apply wrap_small; lia).
  split; cbn [add_entry set_votes sorted_votes votes_and_visits visits_total votes_total]; rewrite ?Ev, ?Eo.
  - apply NoDup_app. split; [done|]. split; [|apply NoDup_singleton].
    intros x Hx ->%list_elem_of_singleton. apply H2 in Hx as [? ?]. congruence.
  - intros i. rewrite elem_of_app, list_elem_of_singleton, lookup_insert_is_Some, H2.
    destruct (decide (n = i)); naive_solver.
  - intros i. rewrite lookup_insert_is_Some. intros [->|[_ Hi]]; [lia|]. apply H3 in Hi. lia.
  - intros i v. rewrite lookup_insert_Some. intros [[_ <-]|[_ Hi]]; simpl; [lia|].
    apply H4 in Hi. lia.
  - rewrite msum_insert by done. simpl. lia.
  - lia.
  - rewrite msum_insert by done. simpl. lia.
Qed.

Lemma vote_on_remove_inv k n d idx d' :
  0 ≤ k < MAX_STEPS → data_inv k n d → vote_on_remove d idx = Some d' →
  data_inv k n d' ∧ votes_and_visits d' = delete idx (votes_and_visits d).
Proof.
  intros Hk Hd. unfold vote_on_remove.
  destruct (votes_and_visits d !! idx) as [v|] eqn:E; [|done]. simpl. intros [= <-].
  split; [|done].
  pose proof (votes_sum_nonneg _ _ _ Hd). pose proof (visits_sum_nonneg _ _ _ Hd).
  pose proof (di_bounds _ _ _ Hd _ _ E) as Hb.
  destruct Hd as [H1 H2 H3 H4 H5 H6 H7]. unfold MAX_STEPS in Hk.
  assert (0 ≤ msum fst (delete idx (votes_and_visits d))) as P1.
  { apply msum_nonneg. intros i w Hi%lookup_delete_Some. destruct Hi as [_ Hi%H4]. lia. }
  assert (0 ≤ msum snd (delete idx (votes_and_visits d))) as P2.
  { apply msum_nonneg. intros i w Hi%lookup_delete_Some. destruct Hi as [_ Hi%H4]. lia. }
  rewrite (msum_delete fst _ _ _ E) in H7. rewrite (msum_delete snd _ _ _ E) in H5.
  assert (u64 (visits_total d - v.2) = visits_total d - v.2) as Ev by (apply wrap_small; lia).
  assert (u64 (votes_total d - v.1) = votes_total d - v.1) as Eo by (apply wrap_small; lia).
  split; cbn [set_votes sorted_votes votes_and_visits visits_total votes_total]; rewrite ?Ev, ?Eo; try lia.
  - by apply NoDup_filter.
  - intros i. rewrite list_elem_of_filter, lookup_delete_is_Some, H2. naive_solver.
  - intros i Hi%lookup_delete_is_Some. apply H3. naive_solver.
  - intros i w Hi%lookup_delete_Some. apply (H4 i). naive_solver.
Qed.

(** ** The invariant of the state *)

Section inv.
Context {I R : Type} `{Rand R} `{!RandLaws R} `{HashOrder}.
Implicit Types st : InfantStateState I R.

Definition live (d : VoteData) : Z := Z.of_nat (size (votes_and_visits d)).

(** The corpus is never shrunk: every index handed out is still present. *)
Definition corpus_full (c : IndexedInMemoryCorpus I) : Prop :=
  corpus_ok c ∧ corpus_count c = current_idx c ∧
  ∀ i, 0 ≤ i < current_idx c → is_Some (entries c !! i).

Definition sched_inv (k : Z) st : Prop :=
  corpus_full (infant_state st) ∧ 0 ≤ current_idx (infant_state st) ≤ k ∧
  match vote_data st with
  | None => current_idx (infant_state st) = 0 ∧ removed_corpus st = 0
  | Some d =>
      data_inv k (current_idx (infant_state st)) d ∧
      removed_corpus st = current_idx (infant_state st) - live d ∧ 0 ≤ removed_corpus st ∧
      1 ≤ live d ≤ DROP_THRESHOLD
  end.

(** *** Pruning *)

Lemma prune_one_spec st d x d1 :
  vote_data st = Some d → vote_on_remove d x = Some d1 →
  prune_one st x = Some (mkInfant (infant_state st) (Some d1) (infant_rand st)
                                  (u64 (removed_corpus st + 1))).
Proof. intros Hd E. unfold prune_one, on_remove. by rewrite Hd, obind_Some, E. Qed.

Lemma prune_loop k n st d l :
  0 ≤ k < MAX_STEPS → vote_data st = Some d → data_inv k n d →
  NoDup l → (∀ i, i ∈ l → is_Some (votes_and_visits d !! i)) →
  0 ≤ removed_corpus st → removed_corpus st + Z.of_nat (length l) < 2 ^ 64 →
  ∃ d', foldM prune_one st l =
          Some (mkInfant (infant_state st) (Some d') (infant_rand st)
                         (removed_corpus st + Z.of_nat (length l))) ∧
        data_inv k n d' ∧ live d' = live d - Z.of_nat (length l) ∧
        ∀ i, votes_and_visits d' !! i = if decide (i ∈ l) then None else votes_and_visits d !! i.
Proof.
  intros Hk. revert st d. induction l as [|x l IH]; intros st d Hd Hinv Hnd Hin Hr Hb.
  { exists d. cbn [foldM length Z.of_nat]. rewrite Z.add_0_r. split; [destruct st; simpl in *; by subst|].
    split; [done|]. split; [lia|]. intros i. case_decide as Hn; [by apply not_elem_of_nil in Hn|done]. }
  apply NoDup_cons in Hnd as [Hx Hnd]. cbn [length] in Hb.
  destruct (Hin x ltac:(left)) as [v Hv].
  destruct (vote_on_remove d x) as [d1|] eqn:E1.
  2:{ unfold vote_on_remove in E1. by rewrite Hv in E1. }
  destruct (vote_on_remove_inv k n d x d1 Hk Hinv E1) as [Hinv1 Hm1].
  cbn [foldM]. rewrite (prune_one_spec st d x d1 Hd E1), obind_Some.
  assert (u64 (removed_corpus st + 1) = removed_corpus st + 1) as -> by (apply wrap_small; lia).
  destruct (IH (mkInfant (infant_state st) (Some d1) (infant_rand st) (removed_corpus st + 1)) d1)
    as (d' & E' & Hinv' & Hl' & Hlook'); try done.
  - intros i Hi. rewrite Hm1. apply lookup_delete_is_Some. split; [|apply Hin; by right].
    intros ->. done.
  - cbn [removed_corpus]. lia.
  - cbn [removed_corpus]. lia.
  - exists d'. split.
    { rewrite E'. cbn [removed_corpus infant_state infant_rand length]. do 2 f_equal. lia. }
    split; [done|]. split.
    + rewrite Hl'. unfold live. rewrite Hm1, map_size_delete_Some by (by eexists).
      assert (size (votes_and_visits d) ≠ 0%nat) by (apply map_size_non_empty_iff; intros E0; by rewrite E0 in Hv).
      cbn [length]. lia.
    + intros i. rewrite Hlook', Hm1. destruct (decide (i = x)) as [->|Hne].
      * rewrite (decide_True (P := x ∈ x :: l)) by left. rewrite lookup_delete_eq. by case_decide.
      * rewrite lookup_delete_ne by done. rewrite (decide_ext (i ∈ l) (i ∈ x :: l)); [done|].
        rewrite elem_of_cons. naive_solver.
Qed.

(** *** Scores *)

Definition entry_ok (k : Z) (x : Z * (Z * Z)) : Prop := 1 ≤ x.2.1 ≤ 3 * k ∧ 1 ≤ x.2.2 ≤ k.
Definition score_le (x y : Z * (Z * Z)) : Prop := f64_le (score x.2) (score y.2).

Lemma score_unsigned k x : k ≤ MAX_STEPS → entry_ok k x → unsigned (score x.2) = true.
Proof.
  intros Hk [H1 H2]. unfold MAX_STEPS in Hk.
  apply f64_ratio_unsigned; lia.
Qed.

Lemma score_cmp_spec k : k ≤ MAX_STEPS → cmp_spec score_cmp score_le (entry_ok k).
Proof.
  intros Hk. unfold score_cmp, score_le. split_and!.
  - intros x y Hx Hy E. apply partial_cmp_gt; eauto using score_unsigned.
  - intros x y c Hx Hy E Hc. by exists c.
  - intros x y z Hx Hy Hz. apply f64_le_trans; eauto using score_unsigned.
Qed.

Lemma hash_iter_ok k n d : data_inv k n d → Forall (entry_ok k) (hash_iter (votes_and_visits d)).
Proof.
  intros Hd. rewrite hash_iter_perm. apply Forall_forall. intros [i v] Hin%elem_of_map_to_list.
  by apply (di_bounds _ _ _ Hd) in Hin.
Qed.

Lemma sort_scores k n d :
  k ≤ MAX_STEPS → data_inv k n d →
  ∃ sorted, sort_by score_cmp (hash_iter (votes_and_visits d)) = Some sorted ∧
    sorted ≡ₚ map_to_list (votes_and_visits d) ∧ StronglySorted score_le sorted.
Proof.
  intros Hk Hd. pose proof (hash_iter_ok _ _ _ Hd) as Hok.
  destruct (sort_by_total score_cmp (hash_iter (votes_and_visits d))) as [sorted Hs].
  { intros x y Hx Hy. rewrite Forall_forall in Hok.
    destruct (partial_cmp_total (score x.2) (score y.2)) as [c Hc]; eauto using score_unsigned. }
  exists sorted. split; [done|]. split.
  - etransitivity; [by eapply sort_by_perm|apply hash_iter_perm].
  - eapply sort_by_sorted; [by apply (score_cmp_spec k)|exact Hok|exact Hs].
Qed.

(** The entries chosen for removal. *)
Lemma pruned_entries k n d sorted :
  data_inv k n d → sorted ≡ₚ map_to_list (votes_and_visits d) →
  let l := map fst (take PRUNE_AMT sorted) in
  NoDup l ∧ (∀ i, i ∈ l → is_Some (votes_and_visits d !! i)) ∧
  Z.of_nat (length l) = Z.min 250 (live d).
Proof.
  intros Hd Hp l. split_and!.
  - unfold l. change (@map ?A ?B) with (@fmap list _ A B). rewrite fmap_take.
    apply (sublist_NoDup _ (fst <$> sorted)); [|apply sublist_take].
    rewrite Hp. apply NoDup_fst_map_to_list.
  - intros i Hi. unfold l in Hi. apply list_elem_of_fmap in Hi as ([j v] & -> & Hj).
    assert ((j, v) ∈ sorted) as Hin by (eapply elem_of_sublist; [exact Hj|apply sublist_take]).
    rewrite Hp in Hin. apply elem_of_map_to_list in Hin. by eexists.
  - unfold l, live. rewrite length_map, length_take, Hp, length_map_to_list. unfold PRUNE_AMT. lia.
Qed.

(** *** The operations *)

Lemma corpus_full_add c x :
  corpus_full c → current_idx c + 1 < 2 ^ 64 →
  ∃ c', corpus_add c x = (current_idx c, c') ∧ corpus_full c' ∧ current_idx c' = current_idx c + 1 ∧
        corpus_count c' = current_idx c + 1 ∧ entries c' !! current_idx c = Some x.
Proof.
  intros (Hok & Hc & Hf) Hb. pose proof (corpus_add_ok c x Hok Hb) as Hok'.
  pose proof (corpus_count_add c x Hok Hb) as Hc'.
  rewrite corpus_add_spec in * by done. cbn [snd] in *. eexists. split; [done|].
  split; [|split; [done|split; [lia|apply lookup_insert_eq]]].
  split; [done|]. split; [cbn [current_idx]; lia|]. cbn [current_idx entries]. intros i Hi.
  apply lookup_insert_is_Some. destruct (decide (current_idx c = i)); [by left|right].
  split; [done|]. apply Hf. lia.
Qed.

Lemma live_add_entry k n d : data_inv k n d → 0 ≤ n → live (add_entry d n) = live d + 1.
Proof.
  intros Hd Hn. unfold live, add_entry. cbn [set_votes votes_and_visits].
  rewrite map_size_insert_None; [lia|]. destruct (votes_and_visits d !! n) eqn:E; [|done].
  assert (is_Some (votes_and_visits d !! n)) as Hi by (by eexists).
  apply (di_idx _ _ _ Hd) in Hi. lia.
Qed.

(** The metadata before an addition: [sched_inv] with the default filled in. *)
Lemma sched_inv_data k st :
  sched_inv k st →
  let d := default vote_data_init (vote_data st) in
  data_inv k (current_idx (infant_state st)) d ∧
  removed_corpus st = current_idx (infant_state st) - live d ∧ 0 ≤ removed_corpus st ∧
  0 ≤ live d ≤ DROP_THRESHOLD.
Proof.
  intros (Hf & Hk & Hd). destruct (vote_data st) as [d|]; cbn [default id].
  - destruct Hd as (H1 & H2 & H3 & H4). split_and!; try done; lia.
  - destruct Hd as [H1 H2]. split_and!; [|rewrite H1, H2; done|lia|done|done].
    eapply (data_inv_mono 0); [lia|reflexivity|apply data_inv_init].
Qed.

(** [add_infant_state] completes and keeps the invariant. *)
Lemma add_infant_state_inv k st x :
  0 ≤ k < MAX_STEPS - 1 → sched_inv k st →
  ∃ idx st', add_infant_state st x = Some (idx, st') ∧ sched_inv (k + 1) st' ∧
    idx = current_idx (infant_state st) ∧ corpus_get (infant_state st') idx = Ok x.
Proof.
  intros Hk Hinv. pose proof Hinv as (Hf & Hk' & _). unfold MAX_STEPS in Hk.
  destruct (sched_inv_data k st Hinv) as (Hd & Hr & Hr0 & Hl).
  set (d := default vote_data_init (vote_data st)) in *.
  set (n := current_idx (infant_state st)) in *.
  destruct (corpus_full_add (infant_state st) x Hf) as (c' & Ec & Hf' & Hn' & Hcnt & Hx); [fold n; lia|].
  pose proof (add_entry_inv k n d ltac:(unfold MAX_STEPS; lia) ltac:(lia) Hd) as Hd1.
  pose proof (live_add_entry k n d Hd ltac:(lia)) as Hl1.
  unfold add_infant_state. rewrite Ec. unfold on_add. cbn [vote_data infant_state removed_corpus set_data infant_rand].
  fold d n. fold (add_entry d n). rewrite Hcnt. fold n in Hcnt, Hx, Hn' |- *.
  assert (u64 (n + 1 - removed_corpus st) = live d + 1) as ->.
  { rewrite Hr. replace (n + 1 - (n - live d)) with (live d + 1) by lia. apply wrap_small.
    unfold DROP_THRESHOLD in Hl. lia. }
  destruct (Z.ltb_spec DROP_THRESHOLD (live d + 1)) as [Hp|Hp].
  - destruct (sort_scores (k + 1) (n + 1) (add_entry d n)) as (sorted & Es & Hperm & _);
      [unfold MAX_STEPS; lia|done|].
    fold (add_entry d n). rewrite Es, obind_Some.
    destruct (pruned_entries (k + 1) (n + 1) (add_entry d n) sorted Hd1 Hperm) as (P1 & P2 & P3).
    cbn zeta in P1, P2, P3. set (l := map fst (take PRUNE_AMT sorted)) in *. unfold DROP_THRESHOLD in *.
    destruct (prune_loop (k + 1) (n + 1) (mkInfant c' (Some (add_entry d n)) (infant_rand st) (removed_corpus st))
                (add_entry d n) l) as (d' & Ed & Hd' & Hl' & _);
      [unfold MAX_STEPS; lia|done|done|done|done|cbn [removed_corpus]; lia|cbn [removed_corpus]; lia|].
    unfold set_data. cbn [infant_state infant_rand removed_corpus]. rewrite Ed, obind_Some.
    do 2 eexists. split; [done|]. cbn [infant_state]. split; [|split; [done|unfold corpus_get; by rewrite Hx]].
    split; [done|]. cbn [infant_state vote_data removed_corpus]. rewrite Hn'. split; [lia|].
    split; [done|]. unfold DROP_THRESHOLD. lia.
  - rewrite obind_Some. do 2 eexists. split; [done|]. cbn [set_data infant_state].
    split; [|split; [done|unfold corpus_get; by rewrite Hx]].
    split; [done|]. cbn [set_data infant_state vote_data removed_corpus]. rewrite Hn'. split; [lia|].
    fold (add_entry d n). split; [done|]. lia.
Qed.

Lemma sample_spec votes thr s l :
  (∀ i, i ∈ l → is_Some (votes !! i)) →
  ∃ j, sample votes thr s l = Some j ∧ (j = usize_max ∨ j ∈ l).
Proof.
  revert s. induction l as [|i l IH]; intros s Hl; simpl; [exists usize_max; auto|].
  destruct (Hl i ltac:(left)) as [v ->]. simpl.
  destruct (f64_gt _ _); [exists i; split; [done|right; left]|].
  destruct (IH (f64_add s (f64_of_u64 v.1))) as (j & Ej & Hj); [intros; apply Hl; by right|].
  exists j. split; [done|]. destruct Hj; [by left|right; by right].
Qed.

Lemma sorted_votes_nonempty k n d : data_inv k n d → 1 ≤ live d → sorted_votes d ≠ [].
Proof.
  intros Hd Hl E. unfold live in Hl.
  destruct (map_choose (votes_and_visits d)) as (i & v & Hi).
  { intros E0. rewrite E0, map_size_empty in Hl. lia. }
  assert (i ∈ sorted_votes d) as Hin by (apply (di_dom _ _ _ Hd); by eexists).
  rewrite E in Hin. by apply not_elem_of_nil in Hin.
Qed.

(** Incrementing the visits of a live state. *)
Definition visit_entry (d : VoteData) (idx : Z) (v : Z * Z) : VoteData :=
  set_votes d (<[idx := (v.1, u64 (v.2 + 1))]> (votes_and_visits d)) (sorted_votes d)
    (u64 (visits_total d + 1)) (votes_total d).

Lemma visit_entry_inv k n d idx v :
  0 ≤ k < MAX_STEPS → data_inv k n d → votes_and_visits d !! idx = Some v →
  data_inv (k + 1) n (visit_entry d idx v) ∧ live (visit_entry d idx v) = live d.
Proof.
  intros Hk Hd Hv. pose proof (di_bounds _ _ _ Hd _ _ Hv) as Hb.
  pose proof (visits_sum_nonneg _ _ _ Hd) as Hvs. destruct Hd as [H1 H2 H3 H4 H5 H6 H7]. unfold MAX_STEPS in Hk.
  assert (u64 (v.2 + 1) = v.2 + 1) as Ev by (apply wrap_small; lia).
  assert (u64 (visits_total d + 1) = visits_total d + 1) as Et by (apply wrap_small; lia).
  split; [|unfold live; cbn [visit_entry set_votes votes_and_visits]; by rewrite map_size_insert_Some by (by eexists)].
  split; cbn [visit_entry set_votes sorted_votes votes_and_visits visits_total votes_total]; rewrite ?Ev, ?Et; try done.
  - intros i. rewrite H2, lookup_insert_is_Some. destruct (decide (idx = i)) as [->|]; naive_solver.
  - intros i. rewrite lookup_insert_is_Some. intros [->|[_ Hi]]; apply H3; [by eexists|done].
  - intros i w. rewrite lookup_insert_Some. intros [[_ <-]|[_ Hi]]; simpl; [lia|]. apply H4 in Hi. lia.
  - rewrite (msum_update snd _ _ v) by done. simpl. lia.
  - lia.
  - rewrite (msum_update fst _ _ v) by done. simpl. lia.
Qed.

Lemma next_inv k st d :
  0 ≤ k < MAX_STEPS → sched_inv k st → vote_data st = Some d →
  ∃ idx v st', next st = Some (idx, st') ∧ sched_inv (k + 1) st' ∧
    votes_and_visits d !! idx = Some v ∧ vote_data st' = Some (visit_entry d idx v) ∧
    infant_state st' = infant_state st ∧ is_Some (entries (infant_state st) !! idx).
Proof.
  intros Hk (Hf & Hk' & Hd) Ed. rewrite Ed in Hd. destruct Hd as (Hd & Hr & Hr0 & Hl).
  unfold next. destruct (rand_below (infant_rand st) 1000) as [r rand]. rewrite Ed, obind_Some. cbv zeta.
  set (thr := f64_mul _ _).
  destruct (sample_spec (votes_and_visits d) thr f64_zero (sorted_votes d)) as (j & Ej & Hj).
  { intros i Hi. by apply (di_dom _ _ _ Hd). }
  rewrite Ej, obind_Some.
  assert (∃ idx, (if j =? usize_max then last (sorted_votes d) else Some j) = Some idx ∧
                 idx ∈ sorted_votes d) as (idx & Ei & Hi).
  { destruct (Z.eqb_spec j usize_max) as [->|Hne].
    - pose proof (sorted_votes_nonempty _ _ _ Hd ltac:(lia)) as Hne.
      destruct (last (sorted_votes d)) as [y|] eqn:Ey; [|by apply last_None in Ey].
      exists y. split; [done|]. by apply last_Some_elem_of.
    - exists j. split; [done|]. by destruct Hj. }
  rewrite Ei, obind_Some. apply (di_dom _ _ _ Hd) in Hi as [v Hv]. rewrite Hv, obind_Some.
  destruct (visit_entry_inv k _ d idx v Hk Hd Hv) as [Hd' Hl'].
  exists idx, v. eexists. split; [done|]. fold (visit_entry d idx v).
  split; [|split; [done|split; [done|split; [done|]]]].
  - split; [done|]. cbn [vote_data infant_state removed_corpus]. split; [lia|]. by rewrite Hl'.
  - destruct Hf as (_ & _ & Hf). apply Hf. apply (di_idx _ _ _ Hd). by eexists.
Qed.

(** *** Votes *)

Definition vote_map (d : VoteData) (idx : Z) : gmap Z (Z * Z) :=
  match votes_and_visits d !! idx with
  | Some v => <[idx := (u64 (v.1 + 3), v.2)]> (votes_and_visits d)
  | None => votes_and_visits d
  end.

(** Descending votes. *)
Definition votes_ge (m : gmap Z (Z * Z)) (x y : Z) : Prop :=
  ∃ vx vy, m !! x = Some vx ∧ m !! y = Some vy ∧ vy.1 ≤ vx.1.

Lemma votes_cmp_spec m : cmp_spec (votes_cmp m) (votes_ge m) (λ _, True).
Proof.
  unfold votes_cmp, votes_ge. split_and!.
  - intros x y _ _. destruct (m !! x) as [vx|]; [|done]. destruct (m !! y) as [vy|]; [|done].
    simpl. intros [= E]. apply Z.compare_gt_iff in E. exists vy, vx. split_and!; [done..|lia].
  - intros x y c _ _. destruct (m !! x) as [vx|]; [|done]. destruct (m !! y) as [vy|]; [|done].
    simpl. intros [= <-] E. exists vx, vy. split_and!; [done..|]. exact E.
  - intros x y z _ _ _ (vx & vy & E1 & E2 & H1) (vy' & vz & E3 & E4 & H2).
    exists vx, vz. split_and!; [done..|]. simplify_eq. lia.
Qed.

Lemma vote_map_dom d idx i :
  is_Some (vote_map d idx !! i) ↔ is_Some (votes_and_visits d !! i).
Proof.
  unfold vote_map. destruct (votes_and_visits d !! idx) as [v|] eqn:E; [|done].
  rewrite lookup_insert_is_Some. destruct (decide (idx = i)) as [->|]; naive_solver.
Qed.

Lemma vote_inv k st d idx :
  0 ≤ k < MAX_STEPS → sched_inv k st → vote_data st = Some d →
  ∃ d', vote st idx = Some (set_data st d') ∧ sched_inv (k + 1) (set_data st d') ∧
    votes_and_visits d' = vote_map d idx ∧ sorted_votes d' ≡ₚ sorted_votes d ∧
    StronglySorted (votes_ge (votes_and_visits d')) (sorted_votes d') ∧
    votes_total d' = votes_total d + 3.
Proof.
  intros Hk (Hf & Hk' & Hd) Ed. rewrite Ed in Hd. destruct Hd as (Hd & Hr & Hr0 & Hl).
  pose proof (votes_sum_nonneg _ _ _ Hd) as Hs0.
  unfold vote. rewrite Ed, obind_Some. cbv zeta. change (3 <? 1) with false. cbv iota.
  fold (vote_map d idx).
  destruct (sort_by_total (votes_cmp (vote_map d idx)) (sorted_votes d)) as [sorted Es].
  { intros x y Hx Hy. unfold votes_cmp.
    apply (di_dom _ _ _ Hd), (vote_map_dom d idx) in Hx as [vx ->].
    apply (di_dom _ _ _ Hd), (vote_map_dom d idx) in Hy as [vy ->]. by eexists. }
  rewrite Es, obind_Some. eexists. split; [done|].
  pose proof (sort_by_perm _ _ _ Es) as Hp.
  assert (u64 (votes_total d + 3) = votes_total d + 3) as Et.
  { destruct Hd as [_ _ _ _ _ _ Hvt]. unfold MAX_STEPS in Hk. apply wrap_small. lia. }
  cbn [set_votes votes_and_visits sorted_votes votes_total]. rewrite Et.
  split; [|split; [done|split; [done|split; [|done]]]].
  - split; [done|]. cbn [set_data infant_state vote_data removed_corpus]. split; [lia|].
    assert (live (set_votes d (vote_map d idx) sorted (visits_total d) (votes_total d + 3)) = live d) as El.
    { unfold live, vote_map. cbn [set_votes votes_and_visits].
      destruct (votes_and_visits d !! idx) eqn:E; [|done]. by rewrite map_size_insert_Some by (by eexists). }
    rewrite El. split_and!; [|done|lia|lia|lia].
    unfold MAX_STEPS in Hk. destruct Hd as [H1 H2 H3 H4 H5 H6 H7].
    split; cbn [set_votes sorted_votes votes_and_visits visits_total votes_total].
    + by rewrite Hp.
    + intros i. by rewrite Hp, H2, vote_map_dom.
    + intros i Hi%vote_map_dom. by apply H3.
    + intros i v. unfold vote_map. destruct (votes_and_visits d !! idx) as [w|] eqn:E.
      * pose proof (H4 _ _ E). rewrite lookup_insert_Some. intros [[_ <-]|[_ Hi]]; simpl.
        -- unfold u64. rewrite wrap_small by lia. lia.
        -- apply H4 in Hi. lia.
      * intros Hi%H4. lia.
    + unfold vote_map. destruct (votes_and_visits d !! idx) as [w|] eqn:E; [|done].
      rewrite (msum_update snd _ _ w) by done. simpl. lia.
    + lia.
    + unfold vote_map. destruct (votes_and_visits d !! idx) as [w|] eqn:E; [|lia].
      pose proof (H4 _ _ E). rewrite (msum_update fst _ _ w) by done. cbn [fst].
      unfold u64. rewrite wrap_small by lia. lia.
  - eapply sort_by_sorted; [apply votes_cmp_spec| |exact Es]. by apply Forall_forall.
Qed.

(** ** Reachable states *)

(** The calls the fuzzer makes on the infant scheduler. *)
Inductive sched_step : InfantStateState I R → InfantStateState I R → Prop :=
| step_add st x idx st' : add_infant_state st x = Some (idx, st') → sched_step st st'
| step_get st idx x st' : get_infant_state st = Some (idx, x, st') → sched_step st st'
| step_vote st idx st' : vote st idx = Some st' → sched_step st st'.

Inductive reachable (rand : R) : Z → InfantStateState I R → Prop :=
| reach_init : reachable rand 0 (mkInfant corpus_new None rand 0)
| reach_step k st st' : reachable rand k st → sched_step st st' → reachable rand (k + 1) st'.

Lemma sched_inv_init rand : sched_inv 0 (mkInfant corpus_new None rand 0).
Proof.
  split; [|done]. split; [apply corpus_new_ok|]. split; [done|]. cbn [current_idx infant_state corpus_new]. lia.
Qed.

Lemma get_infant_state_inv k st d :
  0 ≤ k < MAX_STEPS → sched_inv k st → vote_data st = Some d →
  ∃ idx v x st', get_infant_state st = Some (idx, x, st') ∧ sched_inv (k + 1) st' ∧
    votes_and_visits d !! idx = Some v ∧ vote_data st' = Some (visit_entry d idx v) ∧
    corpus_get (infant_state st) idx = Ok x.
Proof.
  intros Hk Hinv Hd.
  destruct (next_inv k st d Hk Hinv Hd) as (idx & v & st' & En & Hinv' & Hv & Hd' & Hc & [x Hx]).
  exists idx, v, x, st'. unfold get_infant_state. rewrite En, obind_Some, Hc. unfold corpus_get.
  by rewrite Hx.
Qed.

Lemma reachable_inv rand k st : reachable rand k st → 0 ≤ k ∧ (k < MAX_STEPS → sched_inv k st).
Proof.
  induction 1 as [|k st st' Hr [Hk IH] Hs]; [split; [done|intros _; apply sched_inv_init]|].
  split; [lia|]. intros Hb. specialize (IH ltac:(lia)).
  destruct Hs as [st x idx st' E|st idx x st' E|st idx st' E].
  - destruct (add_infant_state_inv k st x ltac:(lia) IH) as (i & st1 & E1 & Hinv & _). congruence.
  - destruct (vote_data st) as [d|] eqn:Ed.
    + destruct (get_infant_state_inv k st d ltac:(lia) IH Ed) as (i & v & y & st1 & E1 & Hinv & _). congruence.
    + unfold get_infant_state, next in E. destruct (rand_below _ _). by rewrite Ed in E.
  - destruct (vote_data st) as [d|] eqn:Ed.
    + destruct (vote_inv k st d idx ltac:(lia) IH Ed) as (d' & E1 & Hinv & _). congruence.
    + unfold vote in E. by rewrite Ed in E.
Qed.

(** C3. The scheduler metadata stays consistent over any sequence of additions,
    selections and votes (up to 2^50 of them): the sorted index list holds exactly the
    live states without duplicates, the cached number of visits is one plus the visits
    of the live states, the cached number of votes is at least one plus their votes,
    the live states are those handed out minus [REMOVED_CORPUS], and there are between
    1 and [DROP_THRESHOLD] of them once a state was added. *)
Theorem scheduler_invariant rand k st d :
  reachable rand k st → k < MAX_STEPS → vote_data st = Some d →
  NoDup (sorted_votes d) ∧
  (∀ i, i ∈ sorted_votes d ↔ is_Some (votes_and_visits d !! i)) ∧
  visits_total d = 1 + msum snd (votes_and_visits d) ∧
  1 + msum fst (votes_and_visits d) ≤ votes_total d ∧
  live d = corpus_count (infant_state st) - removed_corpus st ∧
  1 ≤ live d ≤ DROP_THRESHOLD.
Proof.
  intros Hr Hk Ed. apply reachable_inv in Hr as [_ Hinv]. destruct (Hinv Hk) as ((_ & Hc & _) & _ & Hd).
  rewrite Ed in Hd. destruct Hd as ([H1 H2 H3 H4 H5 H6 H7] & Hrm & _ & Hl). split_and!; try done; lia.
Qed.

(** C11. No scheduler call of the fuzzer ever panics: in every reachable state adding a
    VM state succeeds and stores it; once one was added, selecting one succeeds,
    returns a live index together with the state stored under it and counts one visit;
    and a vote succeeds for every index, live or not. *)
Theorem scheduler_total rand k st :
  reachable rand k st → k < MAX_STEPS - 1 →
  (∀ x, ∃ idx st', add_infant_state st x = Some (idx, st') ∧ corpus_get (infant_state st') idx = Ok x) ∧
  (∀ d, vote_data st = Some d →
     (∃ idx v x st', get_infant_state st = Some (idx, x, st') ∧ votes_and_visits d !! idx = Some v ∧
        corpus_get (infant_state st) idx = Ok x ∧ vote_data st' = Some (visit_entry d idx v)) ∧
     (∀ idx, is_Some (vote st idx))).
Proof.
  intros Hr Hk. apply reachable_inv in Hr as [Hk0 Hinv]. specialize (Hinv ltac:(lia)). split.
  - intros x. destruct (add_infant_state_inv k st x ltac:(lia) Hinv) as (i & st' & E & _ & _ & Hg).
    by exists i, st'.
  - intros d Ed. split.
    + destruct (get_infant_state_inv k st d ltac:(lia) Hinv Ed) as (i & v & x & st' & E & _ & Hv & Hd & Hg).
      by exists i, v, x, st'.
    + intros idx. destruct (vote_inv k st d idx ltac:(lia) Hinv Ed) as (d' & E & _). by eexists.
Qed.

(** Voting re-sorts the states: after a vote in a reachable state the index list is a
    permutation of the old one in descending order of votes, a live index gains
    exactly three votes, and nothing else of the votes changes.  The cached total also
    grows by three when the index was pruned, which is how it drifts above the sum. *)
Theorem vote_resorts rand k st d idx :
  reachable rand k st → k < MAX_STEPS → vote_data st = Some d →
  ∃ d', vote st idx = Some (set_data st d') ∧
    StronglySorted (votes_ge (votes_and_visits d')) (sorted_votes d') ∧
    sorted_votes d' ≡ₚ sorted_votes d ∧
    (∀ v, votes_and_visits d !! idx = Some v →
       votes_and_visits d' = <[idx := (v.1 + 3, v.2)]> (votes_and_visits d)) ∧
    (votes_and_visits d !! idx = None → votes_and_visits d' = votes_and_visits d) ∧
    votes_total d' = votes_total d + 3.
Proof.
  intros Hr Hk Ed. apply reachable_inv in Hr as [Hk0 Hinv]. specialize (Hinv Hk).
  destruct (vote_inv k st d idx ltac:(lia) Hinv Ed) as (d' & E & _ & Hm & Hp & Hs & Ht).
  exists d'. split; [done|]. split; [done|]. split; [done|]. rewrite Hm. unfold vote_map.
  split; [|split; [|done]].
  - intros v Hv. rewrite Hv. destruct Hinv as (_ & _ & Hd). rewrite Ed in Hd. destruct Hd as [Hd _].
    pose proof (di_bounds _ _ _ Hd _ _ Hv). unfold MAX_STEPS in Hk. unfold u64. by rewrite wrap_small by lia.
  - by intros ->.
Qed.

(** Of the sorted entries, those after the first [PRUNE_AMT] have no lower score. *)
Lemma kept_above_pruned (m : gmap Z (Z * Z)) sorted i j v w :
  sorted ≡ₚ map_to_list m → StronglySorted score_le sorted →
  let l := map fst (take PRUNE_AMT sorted) in
  i ∉ l → j ∈ l → m !! i = Some v → m !! j = Some w → score_le (j, w) (i, v).
Proof.
  intros Hperm Hsorted l Hil Hjl Hi Hj. apply elem_of_map_to_list in Hi, Hj. rewrite <- Hperm in Hi, Hj.
  rewrite <- (take_drop PRUNE_AMT sorted) in Hi, Hj, Hsorted.
  apply StronglySorted_app_1_elem_of with (x1 := (j, w)) (x2 := (i, v)) in Hsorted; [done| |].
  - apply elem_of_app in Hj as [Hj|Hj]; [done|]. exfalso.
    apply list_elem_of_fmap in Hjl as ([j' w'] & -> & Hjt). cbn [fst] in *.
    pose proof (NoDup_fst_map_to_list m) as Hnd. rewrite <- Hperm in Hnd.
    rewrite <- (take_drop PRUNE_AMT sorted), fmap_app, NoDup_app in Hnd.
    destruct Hnd as (_ & Hdis & _). apply (Hdis j'); apply list_elem_of_fmap; [by exists (j', w')|by exists (j', w)].
  - apply elem_of_app in Hi as [Hi|Hi]; [|done]. destruct Hil. apply list_elem_of_fmap. by exists (i, v).
Qed.

Lemma on_add_prunes k st d :
  0 ≤ k < MAX_STEPS - 1 → vote_data st = Some d →
  let idx := current_idx (infant_state st) - 1 in
  data_inv k idx d →
  removed_corpus st = idx - live d → 0 ≤ removed_corpus st →
  idx ≤ k → live d = DROP_THRESHOLD →
  corpus_count (infant_state st) = idx + 1 →
  let m := <[idx := (3, 1)]> (votes_and_visits d) in
  ∃ st' d', on_add st idx = Some st' ∧ vote_data st' = Some d' ∧ infant_state st' = infant_state st ∧
    live d' = 251 ∧
    (∀ i v, votes_and_visits d' !! i = Some v → m !! i = Some v) ∧
    (∀ i j v w, votes_and_visits d' !! i = Some v → m !! j = Some w →
       votes_and_visits d' !! j = None → f64_le (score w) (score v)).
Proof.
  intros Hk Ed idx Hd Hr Hr0 Hn Hl Hc m. unfold MAX_STEPS in Hk.
  assert (0 ≤ idx) as Hi0 by (unfold DROP_THRESHOLD in Hl; lia).
  pose proof (add_entry_inv k idx d ltac:(unfold MAX_STEPS; lia) Hi0 Hd) as Hd1.
  pose proof (live_add_entry k idx d Hd Hi0) as Hl1.
  unfold on_add. cbn [set_data infant_state vote_data removed_corpus]. rewrite Ed. cbn [default id].
  fold (add_entry d idx). rewrite Hc.
  assert (u64 (idx + 1 - removed_corpus st) = 501) as ->.
  { rewrite Hr, Hl. unfold DROP_THRESHOLD. replace (idx + 1 - (idx - 500)) with 501 by lia. done. }
  change (DROP_THRESHOLD <? 501) with true. cbv iota.
  destruct (sort_scores (k + 1) (idx + 1) (add_entry d idx)) as (sorted & Es & Hperm & Hsorted);
    [unfold MAX_STEPS; lia|done|].
  rewrite Es, obind_Some.
  destruct (pruned_entries (k + 1) (idx + 1) (add_entry d idx) sorted Hd1 Hperm) as (P1 & P2 & P3).
  cbn zeta in P1, P2, P3. set (l := map fst (take PRUNE_AMT sorted)) in *. unfold DROP_THRESHOLD in *.
  destruct (prune_loop (k + 1) (idx + 1) (set_data st (add_entry d idx)) (add_entry d idx) l)
    as (d' & Ed' & Hd' & Hl' & Hlook);
    [unfold MAX_STEPS; lia|done|done|done|done|cbn [set_data removed_corpus]; lia|cbn [set_data removed_corpus]; lia|].
  rewrite Ed'. do 2 eexists. split; [done|]. split; [done|]. split; [done|]. split; [lia|].
  change (votes_and_visits (add_entry d idx)) with m in *. split.
  - intros i v. rewrite Hlook. by case_decide.
  - intros i j v w Hi Hj Hjn. rewrite Hlook in Hi, Hjn.
    destruct (decide (i ∈ l)) as [Hil|Hil]; [done|].
    destruct (decide (j ∈ l)) as [Hjl|Hjl]; [|congruence].
    by apply (kept_above_pruned m sorted i j).
Qed.

(** Pruning drops the worst states: when an addition takes the number of live states
    over [DROP_THRESHOLD], exactly [PRUNE_AMT] of the 501 entries leave the metadata,
    no surviving entry has a lower votes-per-visit score (as computed in floating
    point) than a removed one, survivors keep their votes and visits, and no VM state
    leaves the corpus. *)
Theorem add_prunes_worst rand k st d x :
  reachable rand k st → k < MAX_STEPS - 1 → vote_data st = Some d → live d = DROP_THRESHOLD →
  let m := <[current_idx (infant_state st) := (3, 1)]> (votes_and_visits d) in
  ∃ idx st' d', add_infant_state st x = Some (idx, st') ∧ vote_data st' = Some d' ∧
    live d' = 251 ∧
    (∀ i y, corpus_get (infant_state st) i = Ok y → corpus_get (infant_state st') i = Ok y) ∧
    (∀ i v, votes_and_visits d' !! i = Some v → m !! i = Some v) ∧
    (∀ i j v w, votes_and_visits d' !! i = Some v → m !! j = Some w →
       votes_and_visits d' !! j = None → f64_le (score w) (score v)).
Proof.
  intros Hr Hk Ed Hl m. apply reachable_inv in Hr as [Hk0 Hinv]. specialize (Hinv ltac:(lia)).
  destruct Hinv as (Hf & Hn & Hd). rewrite Ed in Hd. destruct Hd as (Hd & Hrm & Hr0 & _).
  unfold MAX_STEPS in Hk.
  destruct (corpus_full_add (infant_state st) x Hf) as (c' & Ec & Hf' & Hn' & Hcnt & Hx); [lia|].
  destruct (on_add_prunes k (mkInfant c' (vote_data st) (infant_rand st) (removed_corpus st)) d)
    as (st' & d' & E & Hd' & Hc & Hl' & Hsub & Hbest);
    cbn [infant_state removed_corpus vote_data]; rewrite ?Hn'; unfold MAX_STEPS;
    replace (current_idx (infant_state st) + 1 - 1) with (current_idx (infant_state st)) by lia;
    try done; try lia.
  cbn [infant_state] in E, Hsub, Hbest, Hc. rewrite Hn' in E, Hsub, Hbest.
  replace (current_idx (infant_state st) + 1 - 1) with (current_idx (infant_state st)) in E, Hsub, Hbest by lia.
  exists (current_idx (infant_state st)), st', d'. unfold add_infant_state. rewrite Ec, E, obind_Some.
  split; [done|]. split; [done|]. split; [done|]. split; [|done].
  rewrite Hc. intros i y. unfold corpus_get. destruct (entries (infant_state st) !! i) eqn:Ei; [|done].
  destruct Hf as [Hok _]. rewrite corpus_add_spec in Ec by (done || lia). injection Ec as <-.
  cbn [entries]. rewrite lookup_insert_ne; [by rewrite Ei|]. intros Ee.
  rewrite <- Ee, corpus_fresh in Ei by done. done.
Qed.
End inv.

(** ** Concrete runs *)

Definition run_adds (n : nat) : option (InfantStateState Z Z) :=
  foldM (λ st x, r ← add_infant_state st x; Some r.2) (mkInfant corpus_new None 7 0)
    (map Z.of_nat (seq 0 n)).

Lemma run_adds_reachable n st : run_adds n = Some st → reachable 7 (Z.of_nat n) st.
Proof.
  revert st. induction n as [|n IH]; intros st.
  - intros [= <-]. constructor.
  - unfold run_adds. rewrite seq_S, map_app, foldM_app. fold (run_adds n).
    destruct (run_adds n) as [st1|]; [|done]. rewrite obind_Some. cbn [map foldM].
    destruct (add_infant_state st1 _) as [[idx st2]|] eqn:E; [|done]. rewrite !obind_Some.
    intros [= <-]. replace (Z.of_nat (S n)) with (Z.of_nat n + 1) by lia.
    econstructor; [by apply IH|]. by eapply step_add.
Qed.

(** The metadata after [n] additions, if all succeed. *)
Definition run_data (n : nat) : option VoteData := st ← run_adds n; vote_data st.

Lemma run_data_live n d :
  run_data n = Some d → ∃ st : InfantStateState Z Z, reachable 7 (Z.of_nat n) st ∧ vote_data st = Some d.
Proof.
  unfold run_data. destruct (run_adds n) as [st|] eqn:E; [|done]. rewrite obind_Some. intros Hd.
  exists st. split; [by apply run_adds_reachable|done].
Qed.

Definition run_live (n : nat) : option Z := d ← run_data n; Some (live d).

Lemma run_live_500 : run_live 500 = Some 500.
Proof. vm_compute. reflexivity. Qed.

Lemma run_live_state n m :
  run_live n = Some m → ∃ (st : InfantStateState Z Z) d, reachable 7 (Z.of_nat n) st ∧ vote_data st = Some d ∧ live d = m.
Proof.
  unfold run_live. destruct (run_data n) as [d|] eqn:E; [|done]. rewrite obind_Some. intros [= <-].
  destruct (run_data_live n d E) as (st & Hr & Hd). by exists st, d.
Qed.

Lemma scheduler_invariant_witness :
  ∃ (st : InfantStateState Z Z) d, reachable 7 500 st ∧ vote_data st = Some d ∧
    NoDup (sorted_votes d) ∧
    (∀ i, i ∈ sorted_votes d ↔ is_Some (votes_and_visits d !! i)) ∧
    visits_total d = 1 + msum snd (votes_and_visits d) ∧
    1 + msum fst (votes_and_visits d) ≤ votes_total d ∧
    live d = corpus_count (infant_state st) - removed_corpus st ∧ 1 ≤ live d ≤ DROP_THRESHOLD.
Proof.
  destruct (run_live_state 500 500 run_live_500) as (st & d & Hr & Hd & _).
  exists st, d. split; [exact Hr|]. split; [exact Hd|].
  apply (scheduler_invariant 7 500 st d Hr); [reflexivity|exact Hd].
Defined.

Lemma scheduler_total_witness :
  ∃ st : InfantStateState Z Z, reachable 7 500 st ∧
  (∀ x, ∃ idx st', add_infant_state st x = Some (idx, st') ∧ corpus_get (infant_state st') idx = Ok x) ∧
  (∀ d, vote_data st = Some d →
     (∃ idx v x st', get_infant_state st = Some (idx, x, st') ∧ votes_and_visits d !! idx = Some v ∧
        corpus_get (infant_state st) idx = Ok x ∧ vote_data st' = Some (visit_entry d idx v)) ∧
     (∀ idx, is_Some (vote st idx))).
Proof.
  destruct (run_live_state 500 500 run_live_500) as (st & d & Hr & _).
  exists st. split; [exact Hr|]. apply (scheduler_total 7 500 st Hr). reflexivity.
Defined.

Lemma vote_resorts_witness :
  ∃ (st : InfantStateState Z Z) d d', reachable 7 500 st ∧ vote_data st = Some d ∧
    vote st 3 = Some (set_data st d') ∧
    StronglySorted (votes_ge (votes_and_visits d')) (sorted_votes d') ∧
    sorted_votes d' ≡ₚ sorted_votes d ∧
    (∀ v, votes_and_visits d !! 3 = Some v →
       votes_and_visits d' = <[3 := (v.1 + 3, v.2)]> (votes_and_visits d)) ∧
    (votes_and_visits d !! 3 = None → votes_and_visits d' = votes_and_visits d) ∧
    votes_total d' = votes_total d + 3.
Proof.
  destruct (run_live_state 500 500 run_live_500) as (st & d & Hr & Hd & _).
  destruct (vote_resorts 7 500 st d 3 Hr eq_refl Hd) as (d' & Hd').
  exists st, d, d'. split; [exact Hr|]. split; [exact Hd|exact Hd'].
Defined.

Lemma add_prunes_worst_witness :
  ∃ (st : InfantStateState Z Z) d, reachable 7 500 st ∧ vote_data st = Some d ∧
  let m := <[current_idx (infant_state st) := (3, 1)]> (votes_and_visits d) in
  ∃ idx st' d', add_infant_state st 9 = Some (idx, st') ∧ vote_data st' = Some d' ∧
    live d' = 251 ∧
    (∀ i y, corpus_get (infant_state st) i = Ok y → corpus_get (infant_state st') i = Ok y) ∧
    (∀ i v, votes_and_visits d' !! i = Some v → m !! i = Some v) ∧
    (∀ i j v w, votes_and_visits d' !! i = Some v → m !! j = Some w →
       votes_and_visits d' !! j = None → f64_le (score w) (score v)).
Proof.
  destruct (run_live_state 500 500 run_live_500) as (st & d & Hr & Hd & Hl).
  exists st, d. split; [exact Hr|]. split; [exact Hd|].
  apply (add_prunes_worst 7 500 st d 9 Hr); [reflexivity|exact Hd|exact Hl].
Defined.
