(* ===== verification/Uniswap.v ===== *)
(** * Uniswap pricing ([src/src/evm/uniswap/mod.rs])

    Swap quotes on constant-product pairs, quotes along a path of pairs, the best
    liquidation of a set of tokens, the router call that buys a token, and the
    CREATE2 address of a pair.  Keccak and the iterator of the Cartesian product
    come from libraries and are parameters. *)
From S2P Require Import Prelude Types Expr Abi AbiLayout.
#[local] Open Scope Z_scope.

(** ** Data *)

Inductive UniswapVer := V1 | V2 | V3.
Definition is_uniswap : option UniswapVer := None.

Inductive UniswapProvider := PancakeSwap | SushiSwap | UniswapV2 | UniswapV3 | Biswap.

(** [UniswapProvider::from_str] *)
Definition provider_from_str (s : string) : option UniswapProvider :=
  if decide (s = "pancakeswap") then Some PancakeSwap
  else if decide (s = "sushiswap") then Some SushiSwap
  else if decide (s = "uniswapv2") then Some UniswapV2
  else if decide (s = "uniswapv3") then Some UniswapV3
  else if decide (s = "biswap") then Some Biswap
  else None.

Record UniswapInfo := mkUniswapInfo {
  pool_fee : Z;
  router : EVMAddress;
  factory : EVMAddress;
  init_code_hash : list byte
}.

Record SwapResult := mkSwapResult {
  amount : EVMU256;
  new_reserve_in : EVMU256;
  new_reserve_out : EVMU256
}.

Record PairContext := mkPairContext {
  pair_address : EVMAddress;
  next_hop : EVMAddress;
  side : Z;
  uniswap_info : UniswapInfo;
  initial_reserves : EVMU256 * EVMU256
}.

Record PathContext := mkPathContext {
  route : list PairContext;
  final_pegged_ratio : EVMU256;
  final_pegged_pair : option PairContext
}.

Record TokenContext := mkTokenContext {
  swaps : list PathContext;
  is_weth : bool;
  weth_address : EVMAddress;
  token_address : EVMAddress
}.

(** [HashMap<EVMAddress, (EVMU256, EVMU256)>] *)
Abbreviation reserves_map := (gmap Z (Z * Z)) (only parsing).

(** ** Quotes of one pair *)

(** [EVMU256::from(10000 - self.pool_fee)] (a [usize] subtraction) *)
Definition fee_factor (info : UniswapInfo) : Z := u64 (10000 - pool_fee info).

(** [UniswapInfo::calculate_amounts_out] *)
Definition calculate_amounts_out (info : UniswapInfo) (amount_in reserve_in reserve_out : EVMU256)
  : option SwapResult :=
  let amount_in_with_fee := mul256 amount_in (fee_factor info) in
  let numerator := mul256 amount_in_with_fee reserve_out in
  let denominator := add256 (mul256 reserve_in 10000) amount_in_with_fee in
  if decide (denominator = 0) then Some (mkSwapResult 0 reserve_in reserve_out)
  else
    amount_out ← div256 numerator denominator;
    Some (mkSwapResult amount_out (add256 reserve_in amount_in) (sub256 reserve_out amount_out)).

(** [UniswapInfo::calculate_amounts_in] *)
Definition calculate_amounts_in (info : UniswapInfo) (amount_out reserve_in reserve_out : EVMU256)
  : option SwapResult :=
  let adjusted_amount_out := if reserve_out <? amount_out then sub256 reserve_out 1 else amount_out in
  let numerator := mul256 (mul256 reserve_in adjusted_amount_out) 10000 in
  let denominator := mul256 (sub256 reserve_out adjusted_amount_out) (fee_factor info) in
  if decide (denominator = 0) then Some (mkSwapResult 0 reserve_in reserve_out)
  else
    q ← div256 numerator denominator;
    let amount_in := add256 q 1 in
    Some (mkSwapResult amount_in (add256 reserve_in amount_in) (sub256 reserve_out adjusted_amount_out)).

Definition U128_MAX : Z := 2 ^ 128 - 1.
Definition clamp_u128 (x : EVMU256) : EVMU256 := if U128_MAX <? x then U128_MAX else x.

(** [PairContext::get_amount_out] and [PairContext::get_amount_in] *)
Definition pair_get_amount_out (p : PairContext) (amount_in reserve0 reserve1 : EVMU256) : option SwapResult :=
  calculate_amounts_out (uniswap_info p) (clamp_u128 amount_in)
    (if side p =? 0 then reserve0 else reserve1) (if side p =? 0 then reserve1 else reserve0).
Definition pair_get_amount_in (p : PairContext) (amount_out reserve0 reserve1 : EVMU256) : option SwapResult :=
  calculate_amounts_in (uniswap_info p) (clamp_u128 amount_out)
    (if side p =? 0 then reserve1 else reserve0) (if side p =? 0 then reserve0 else reserve1).

(** ** Quotes along a path *)

Definition reserves_of (data : reserves_map) (p : PairContext) : Z * Z :=
  default (initial_reserves p) (data !! pair_address p).

(** One iteration of [PathContext::get_amount_out]. *)
Definition swap_step (st : Z * reserves_map) (p : PairContext) : option (Z * reserves_map) :=
  let '(amount_in, data) := st in
  let reserves := reserves_of data p in
  r ← pair_get_amount_out p amount_in reserves.1 reserves.2;
  Some (amount r,
        <[pair_address p :=
            (if side p =? 0 then new_reserve_in r else new_reserve_out r,
             if side p =? 0 then new_reserve_out r else new_reserve_in r)]> data).

(** [PathContext::get_amount_out] *)
Definition path_get_amount_out (path : PathContext) (amount_in : EVMU256) (data : reserves_map)
  : option (EVMU256 * reserves_map) :=
  st ← foldM swap_step (amount_in, data) (route path);
  Some (mul256 st.1 (final_pegged_ratio path), st.2).

(** One application of [process_pair!] in [PathContext::get_amount_in]. *)
Definition process_pair (data : reserves_map) (amount_out : Z) (p : PairContext) : option Z :=
  let reserves := reserves_of data p in
  r ← pair_get_amount_in p amount_out reserves.1 reserves.2;
  Some (amount r).

(** [PathContext::get_amount_in]; an empty route panics. *)
Definition path_get_amount_in (path : PathContext) (percentage : Z) (data : reserves_map) : option EVMU256 :=
  initial_pair ← head (route path);
  let initial_reserve := reserves_of data initial_pair in
  amount_out ← div256 (mul256 (if side initial_pair =? 0 then initial_reserve.1 else initial_reserve.2)
                              percentage) 1000;
  amount_out ← foldM (process_pair data) amount_out (route path);
  match final_pegged_pair path with
  | Some p => process_pair data amount_out p
  | None => Some amount_out
  end.

(** ** The router call *)

Definition address_arg (a : EVMAddress) : BoxedABI :=
  BoxedABI_new (A256 (address_bytes a) true false false).

Definition deposit_selector : sel4 := Sel xd0 xe3 x0d xb0.
Definition swap_selector : sel4 := Sel xb6 xf9 xde x95.

(** The path of hops of a swap. *)
Definition router_path (token : TokenContext) (path_ctx : PathContext) : list EVMAddress :=
  let path := map next_hop (rev (route path_ctx)) in
  let path := match path with
              | [] => [weth_address token]
              | p0 :: _ => if decide (p0 ≠ weth_address token) then weth_address token :: path else path
              end in
  path ++ [token_address token].

(** [generate_uniswap_router_call]; the outer [option] is a panic. *)
Definition generate_uniswap_router_call (token : TokenContext) (path_idx : Z) (amount_in : EVMU256)
    (to : EVMAddress) : option (option (BoxedABI * EVMU256 * EVMAddress)) :=
  if is_weth token then
    Some (Some (mkBoxedABI AEmpty deposit_selector, amount_in, weth_address token))
  else if decide (length (swaps token) = 0%nat) then Some None
  else
    path_ctx ← swaps token !! Z.to_nat (path_idx mod Z.of_nat (length (swaps token)));
    let abi := mkBoxedABI
      (AArray [BoxedABI_new (A256 (replicate 32 x00) false false false);
               BoxedABI_new (AArray (map address_arg (router_path token path_ctx)) true);
               address_arg to;
               BoxedABI_new (A256 (replicate 32 xff) false false false)] false) swap_selector in
    match final_pegged_pair path_ctx with
    | None => p ← last (route path_ctx); Some (Some (abi, amount_in, router (uniswap_info p)))
    | Some info => Some (Some (abi, amount_in, router (uniswap_info info)))
    end.

(** ** Liquidation *)

(** [permutator::CartesianProductIterator]: some order of all the choices of one
    element per list. *)
Class Cartesian := {
  cartesian {A} : list (list A) → list (list A);
  cartesian_elem {A} (ls : list (list A)) l : ls ≠ [] → l ∈ cartesian ls ↔ Forall2 (λ x k, x ∈ k) l ls
}.

Section liquidate.
Context `{Cartesian}.

(** The paths of the tokens that can be swapped, each with the amount. *)
Definition swap_combos (tokens : list (TokenContext * EVMU256)) : list (list (PathContext * EVMU256)) :=
  filter (λ l, length l ≠ 0%nat)
    (map (λ t, map (λ swap, (swap, snd t)) (swaps (fst t))) tokens).

(** The body of [for_each]: the value of one choice of paths. *)
Definition quote_step (st : Z * reserves_map) (x : PathContext * EVMU256) : option (Z * reserves_map) :=
  let '(total, data) := st in
  r ← path_get_amount_out x.1 x.2 data;
  Some (add256 total r.1, r.2).
Definition quote_swaps (data : reserves_map) (choice : list (PathContext * EVMU256))
  : option (Z * reserves_map) :=
  foldM quote_step (0, data) choice.

(** The loop that keeps the best quote. *)
Definition best_step (best : Z * option reserves_map) (x : Z * reserves_map) : Z * option reserves_map :=
  if best.1 <? x.1 then (x.1, Some x.2) else best.

(** [liquidate_all_token] *)
Definition liquidate_all_token (tokens : list (TokenContext * EVMU256)) (initial : reserves_map)
  : option (EVMU256 * reserves_map) :=
  let combos := swap_combos tokens in
  if decide (length combos = 0%nat) then Some (0, initial)
  else
    quotes ← mapM_opt (quote_swaps initial) (cartesian combos);
    let best := fold_left best_step quotes (0, None) in
    Some (best.1, default initial best.2).
End liquidate.

(** ** Chains and pair addresses *)

(** [enum Chain] of [onchain/endpoints.rs] *)
Inductive Chain := ETH | BSC | POLYGON | MUMBAI | LOCAL.

(** [get_uniswap_info] *)
Definition get_uniswap_info (provider : UniswapProvider) (chain : Chain) : option UniswapInfo :=
  match provider, chain with
  | PancakeSwap, BSC => Some (mkUniswapInfo 25
      0x10ed43c718714eb63d5aa57b78b54704e256024e 0xca143ce32fe78f1f7019d7d551a6402fc5350c73
      (z2be 32 0x00fb7f630766e6a796048ea87d01acd3068e8ff67d078148a3fa3f4a84f69bd5))
  | UniswapV2, ETH => Some (mkUniswapInfo 3
      0x7a250d5630b4cf539739df2c5dacb4c659f2488d 0x5c69bee701ef814a2b6a3edd4b1652cb9cc5aa6f
      (z2be 32 0x96e8ac4277198ff8b6f785478aa9a39f403cb768dd02cbee326c3e7da348845f))
  | _, _ => None
  end.

Section pair_address.
Variable keccak : list byte → list byte.

(** [UniswapInfo::get_pair_address] *)
Definition get_pair_address (info : UniswapInfo) (token_a token_b : EVMAddress) : option EVMAddress :=
  let tokens := if token_a <=? token_b then (token_a, token_b) else (token_b, token_a) in
  let data := address_bytes tokens.1 ++ address_bytes tokens.2 in
  let keccak_token := keccak data in
  if decide (length keccak_token = 32%nat ∧ length (init_code_hash info) = 32%nat) then
    let data := xff :: address_bytes (factory info) ++ keccak_token ++ init_code_hash info in
    hash ← slice_from (keccak data) 12;
    address_from_slice hash
  else None.
End pair_address.

(** [reserve_parser] *)
Definition reserve_parser (reserve_slot : EVMU256) : option (EVMU256 * EVMU256) :=
  let reserve_bytes := to_be_bytes reserve_slot in
  b0 ← slice reserve_bytes 4 18;
  reserve_0 ← try_from_be_slice b0;
  b1 ← slice reserve_bytes 18 32;
  reserve_1 ← try_from_be_slice b1;
  Some (reserve_0, reserve_1).
