(* ===== verification/UniswapProps.v ===== *)
(** * Properties of the Uniswap pricing *)
From S2P Require Import Prelude Types Expr Abi AbiLayout Uniswap.
#[local] Open Scope Z_scope.

(** Fees below 100% and reserves of 112 bits, as pairs have. *)
Definition info_ok (info : UniswapInfo) : Prop := 0 ≤ pool_fee info < 10000.
Definition reserve_ok (r : Z) : Prop := 0 ≤ r < 2 ^ 112.

Lemma fee_factor_ok info : info_ok info → fee_factor info = 10000 - pool_fee info.
Proof. intros H. unfold fee_factor. apply wrap_small. unfold info_ok in H. lia. Qed.

(** ** Swaps *)

(** The unwrapped quote. *)
Lemma amounts_out_spec info a rin rout :
  info_ok info → 0 ≤ a ≤ U128_MAX → 0 < rin < 2 ^ 112 → reserve_ok rout →
  let g := 10000 - pool_fee info in
  let out := a * g * rout / (rin * 10000 + a * g) in
  calculate_amounts_out info a rin rout = Some (mkSwapResult out (rin + a) (rout - out)) ∧
  0 ≤ out ≤ rout ∧ (0 < rout → out < rout).
Proof.
  intros Hi Ha Hrin Hrout g out. unfold U128_MAX in Ha. unfold reserve_ok, info_ok in *.
  assert (1 ≤ g ≤ 10000) as Hg by lia.
  assert (0 ≤ a * g < 2 ^ 128 * 10000) as Hag by nia.
  assert (0 ≤ a * g * rout < 2 ^ 128 * 10000 * 2 ^ 112) as Hn by nia.
  assert (0 < rin * 10000 + a * g < 2 ^ 256) as Hd by nia.
  assert (0 ≤ out ≤ rout ∧ (0 < rout → out < rout)) as Hout.
  { split; [split|].
    - apply Z.div_pos; lia.
    - apply Z.div_le_upper_bound; nia.
    - intros Hr. apply Z.div_lt_upper_bound; nia. }
  split; [|done]. unfold calculate_amounts_out. rewrite fee_factor_ok by done. fold g.
  rewrite (mul256_small a g) by (unfold U256_MOD; lia).
  rewrite (mul256_small (a * g) rout) by (unfold U256_MOD; lia).
  rewrite (mul256_small rin 10000) by (unfold U256_MOD; lia).
  rewrite add256_small by (unfold U256_MOD; lia).
  rewrite decide_False by lia. unfold div256. rewrite decide_False by lia. rewrite obind_Some. fold out.
  rewrite add256_small by (unfold U256_MOD; lia). rewrite sub256_small by (unfold U256_MOD; lia). done.
Qed.

(** A swap quote never drains a pair and never loses liquidity: for 112-bit reserves, a
    fee below 100% and an input of at most 2^128-1, [calculate_amounts_out] does not
    overflow or panic, gives out strictly less than the reserve, moves exactly the
    input into one reserve and the output out of the other, and the product of the
    reserves does not decrease. *)
Theorem swap_out_constant_product info a rin rout :
  info_ok info → 0 ≤ a ≤ U128_MAX → 0 < rin < 2 ^ 112 → 0 < rout < 2 ^ 112 →
  ∃ r, calculate_amounts_out info a rin rout = Some r ∧
    0 ≤ amount r < rout ∧ new_reserve_in r = rin + a ∧ new_reserve_out r = rout - amount r ∧
    rin * rout ≤ new_reserve_in r * new_reserve_out r.
Proof.
  intros Hi Ha Hrin Hrout.
  destruct (amounts_out_spec info a rin rout Hi Ha Hrin) as (E & Hb & Hs); [unfold reserve_ok; lia|].
  cbn zeta in *. rewrite E. eexists. split; [done|]. cbn [amount new_reserve_in new_reserve_out].
  split_and!; try done; try lia.
  set (g := 10000 - pool_fee info) in *. unfold info_ok in Hi. assert (1 ≤ g ≤ 10000) by lia.
  set (D := rin * 10000 + a * g) in *. assert (0 < D) by nia.
  pose proof (Z.mul_div_le (a * g * rout) D ltac:(lia)) as Hle.
  set (out := a * g * rout / D) in *. unfold D in Hle.
  (* out * (rin*10000 + a*g) <= a*g*rout, hence out * (rin + a) <= a * rout *)
  assert (out * (rin + a) ≤ a * rout) as Hk; [|nia].
  assert (out * (rin * 10000) ≤ a * g * (rout - out)) by nia.
  assert (a * g * (rout - out) ≤ a * 10000 * (rout - out)) by nia. nia.
Qed.

(** Quotes are consistent: buying [out] (less than the reserve) at the price quoted by
    [calculate_amounts_in] really yields at least [out] when the swap is computed by
    [calculate_amounts_out], for 112-bit reserves and a price of at most 2^128-1. *)
Theorem swap_in_suffices info out rin rout r :
  info_ok info → 0 < rin < 2 ^ 112 → 0 ≤ out < rout → rout < 2 ^ 112 →
  calculate_amounts_in info out rin rout = Some r → amount r ≤ U128_MAX →
  ∃ r', calculate_amounts_out info (amount r) rin rout = Some r' ∧ out ≤ amount r' ∧
    new_reserve_out r = rout - out ∧ new_reserve_in r = rin + amount r.
Proof.
  intros Hi Hrin Hout Hrout E Hmax. unfold U128_MAX in Hmax.
  set (g := 10000 - pool_fee info). assert (1 ≤ g ≤ 10000) as Hg by (unfold g, info_ok in *; lia).
  assert (0 ≤ rin * out < 2 ^ 224) as H1 by nia.
  assert (0 < (rout - out) * g < 2 ^ 126) as H2 by nia.
  revert E. unfold calculate_amounts_in. destruct (Z.ltb_spec rout out); [lia|].
  rewrite fee_factor_ok by done. fold g.
  rewrite (mul256_small rin out) by (unfold U256_MOD; lia).
  rewrite (mul256_small (rin * out) 10000) by (unfold U256_MOD; lia).
  rewrite (sub256_small rout out) by (unfold U256_MOD; lia).
  rewrite (mul256_small (rout - out) g) by (unfold U256_MOD; lia).
  rewrite decide_False by lia. unfold div256. rewrite decide_False by lia. rewrite obind_Some.
  set (q := rin * out * 10000 / ((rout - out) * g)).
  assert (0 ≤ q < 2 ^ 240) as Hq.
  { split; [apply Z.div_pos; lia|]. apply Z.div_lt_upper_bound; nia. }
  rewrite (add256_small q 1) by (unfold U256_MOD; lia).
  rewrite (add256_small rin (q + 1)) by (unfold U256_MOD; lia).
  intros [= <-]. cbn [amount new_reserve_out new_reserve_in] in *.
  destruct (amounts_out_spec info (q + 1) rin rout Hi) as (E' & _);
    [unfold U128_MAX; lia|done|unfold reserve_ok; lia|].
  cbn zeta in E'. fold g in E'. rewrite E'. eexists. split; [done|]. split; [|done].
  cbn [amount]. apply Z.div_le_lower_bound; [nia|].
  pose proof (Z.mul_succ_div_gt (rin * out * 10000) ((rout - out) * g) ltac:(lia)) as Hgt.
  fold q in Hgt. nia.
Qed.

(** Asking for the whole reserve is quoted as free: the guard of
    [calculate_amounts_in] only lowers amounts above the reserve, so an amount equal to
    the reserve makes the denominator zero and the quoted input is 0. *)
Theorem full_reserve_is_free info rin rout :
  0 ≤ rout → calculate_amounts_in info rout rin rout = Some (mkSwapResult 0 rin rout).
Proof.
  intros H. unfold calculate_amounts_in. rewrite Z.ltb_irrefl.
  assert (sub256 rout rout = 0) as -> by (unfold sub256; by rewrite Z.sub_diag).
  assert (mul256 0 (fee_factor info) = 0) as -> by (unfold mul256; by rewrite Z.mul_0_l).
  by rewrite decide_True.
Qed.

Definition example_info : UniswapInfo := mkUniswapInfo 25 1 2 [].

Lemma swap_out_constant_product_witness :
  ∃ r, calculate_amounts_out example_info 1000 50000 70000 = Some r ∧
    0 ≤ amount r < 70000 ∧ new_reserve_in r = 50000 + 1000 ∧ new_reserve_out r = 70000 - amount r ∧
    50000 * 70000 ≤ new_reserve_in r * new_reserve_out r.
Proof.
  apply (swap_out_constant_product example_info 1000 50000 70000);
    unfold info_ok, U128_MAX; simpl; lia.
Defined.

Lemma swap_in_suffices_witness :
  ∃ r', calculate_amounts_out example_info 727 50000 70000 = Some r' ∧ 1000 ≤ amount r' ∧
    69000 = 70000 - 1000 ∧ 50727 = 50000 + 727.
Proof.
  apply (swap_in_suffices example_info 1000 50000 70000 (mkSwapResult 727 50727 69000));
    unfold info_ok, U128_MAX; simpl; try lia.
  vm_compute. reflexivity.
Defined.

Lemma full_reserve_is_free_witness :
  calculate_amounts_in example_info 70000 50000 70000 = Some (mkSwapResult 0 50000 70000).
Proof. apply full_reserve_is_free. lia. Defined.

(** ** Paths *)

Definition product (r : Z * Z) : Z := r.1 * r.2.

Definition pair_ok (data : reserves_map) (p : PairContext) : Prop :=
  info_ok (uniswap_info p) ∧ 0 < (reserves_of data p).1 < 2 ^ 112 ∧ 0 < (reserves_of data p).2 < 2 ^ 112.

Lemma clamp_ok a : 0 ≤ a → 0 ≤ clamp_u128 a ≤ U128_MAX.
Proof. intros H. unfold clamp_u128, U128_MAX. destruct (Z.ltb_spec (2 ^ 128 - 1) a); lia. Qed.

Lemma swap_step_spec data p a :
  pair_ok data p → 0 ≤ a →
  ∃ a' res, swap_step (a, data) p = Some (a', <[pair_address p := res]> data) ∧
    0 ≤ a' ∧ product (reserves_of data p) ≤ product res.
Proof.
  intros (Hi & H0 & H1) Ha. unfold swap_step, pair_get_amount_out. pose proof (clamp_ok a Ha) as Hc.
  destruct (reserves_of data p) as [r0 r1]. cbn [fst snd] in *.
  assert (∀ rin rout, 0 < rin < 2 ^ 112 → 0 < rout < 2 ^ 112 →
    ∃ out, calculate_amounts_out (uniswap_info p) (clamp_u128 a) rin rout =
             Some (mkSwapResult out (rin + clamp_u128 a) (rout - out)) ∧ 0 ≤ out ∧
           rin * rout ≤ (rin + clamp_u128 a) * (rout - out)) as Hswap.
  { intros rin rout Hrin Hrout.
    destruct (amounts_out_spec (uniswap_info p) (clamp_u128 a) rin rout Hi Hc Hrin) as (E & Hb & Hs);
      [unfold reserve_ok; lia|]. cbn zeta in *. rewrite E. eexists. split; [done|]. split; [lia|].
    set (x := clamp_u128 a) in *. set (g := 10000 - pool_fee (uniswap_info p)) in *.
    assert (1 ≤ g ≤ 10000) by (unfold g, info_ok in *; lia).
    pose proof (Z.mul_div_le (x * g * rout) (rin * 10000 + x * g) ltac:(nia)) as Hle.
    set (out := x * g * rout / (rin * 10000 + x * g)) in *.
    assert (out * (rin + x) ≤ x * rout); [|nia].
    assert (out * (rin * 10000) ≤ x * g * (rout - out)) by nia.
    assert (x * g * (rout - out) ≤ x * 10000 * (rout - out)) by nia. nia. }
  destruct (side p =? 0).
  - destruct (Hswap r0 r1 H0 H1) as (out & E & Ho & Hk). rewrite E, obind_Some.
    do 2 eexists. split; [done|]. cbn [amount]. split; [done|]. unfold product. cbn [fst snd new_reserve_in new_reserve_out]. lia.
  - destruct (Hswap r1 r0 H1 H0) as (out & E & Ho & Hk). rewrite E, obind_Some.
    do 2 eexists. split; [done|]. cbn [amount]. split; [done|]. unfold product. cbn [fst snd new_reserve_in new_reserve_out]. lia.
Qed.

Lemma reserves_of_insert_ne data p q res :
  pair_address p ≠ pair_address q → reserves_of (<[pair_address p := res]> data) q = reserves_of data q.
Proof. intros H. unfold reserves_of. by rewrite lookup_insert_ne. Qed.

Lemma reserves_of_insert data p res : reserves_of (<[pair_address p := res]> data) p = res.
Proof. unfold reserves_of. by rewrite lookup_insert_eq. Qed.

Lemma swap_route_spec ps : ∀ data a,
  NoDup (map pair_address ps) → Forall (pair_ok data) ps → 0 ≤ a →
  ∃ a' data', foldM swap_step (a, data) ps = Some (a', data') ∧ 0 ≤ a' ∧
    (∀ p, p ∈ ps → product (reserves_of data p) ≤ product (reserves_of data' p)) ∧
    (∀ x, x ∉ map pair_address ps → data' !! x = data !! x).
Proof.
  induction ps as [|p ps IH]; intros data a Hnd Hok Ha.
  { exists a, data. split; [done|]. split; [done|]. split; [|done]. by intros p ?%not_elem_of_nil. }
  cbn [map] in Hnd. apply NoDup_cons in Hnd as [Hp Hnd]. apply Forall_cons in Hok as [Hpok Hok].
  destruct (swap_step_spec data p a Hpok Ha) as (a1 & res & E & Ha1 & Hk).
  cbn [foldM]. rewrite E, obind_Some.
  assert (∀ q, q ∈ ps → pair_address p ≠ pair_address q) as Hne.
  { intros q Hq Eq. apply Hp. rewrite Eq. by apply list_elem_of_fmap_2. }
  destruct (IH (<[pair_address p := res]> data) a1 Hnd) as (a' & data' & E' & Ha' & Hk' & Hrest); [|done|].
  { rewrite Forall_forall in Hok |- *. intros q Hq. unfold pair_ok.
    rewrite reserves_of_insert_ne by auto. by apply Hok. }
  exists a', data'. split; [done|]. split; [done|]. split.
  - intros q [->|Hq]%elem_of_cons.
    + assert (reserves_of data' p = res) as ->; [|done].
      unfold reserves_of. by rewrite (Hrest (pair_address p) Hp), lookup_insert_eq.
    + rewrite <- (reserves_of_insert_ne data p q res) by auto. by apply Hk'.
  - intros x Hx. cbn [map] in Hx. apply not_elem_of_cons in Hx as [Hx1 Hx2].
    rewrite (Hrest x Hx2). by rewrite lookup_insert_ne.
Qed.

(** Quoting a path is safe for every pair on it: for a route of distinct pairs with
    positive 112-bit reserves, [PathContext::get_amount_out] never panics, the product
    of the reserves of each pair does not decrease, and the reserves of all other
    pairs are untouched. *)
Theorem path_keeps_products path a data :
  NoDup (map pair_address (route path)) → Forall (pair_ok data) (route path) → 0 ≤ a →
  ∃ out data', path_get_amount_out path a data = Some (out, data') ∧
    (∀ p, p ∈ route path → product (reserves_of data p) ≤ product (reserves_of data' p)) ∧
    (∀ x, x ∉ map pair_address (route path) → data' !! x = data !! x).
Proof.
  intros Hnd Hok Ha. destruct (swap_route_spec (route path) data a Hnd Hok Ha) as (a' & data' & E & _ & Hk & Hr).
  unfold path_get_amount_out. rewrite E, obind_Some. by eexists _, _.
Qed.

(** ** Liquidation *)

Lemma best_step_fold quotes : ∀ best,
  let r := fold_left best_step quotes best in
  best.1 ≤ r.1 ∧ (∀ q, q ∈ quotes → q.1 ≤ r.1) ∧
  (r = best ∨ ∃ q, q ∈ quotes ∧ r = (q.1, Some q.2)).
Proof.
  induction quotes as [|q quotes IH]; intros best; cbn [fold_left].
  { split; [lia|]. split; [|by left]. by intros q ?%not_elem_of_nil. }
  destruct (IH (best_step best q)) as (H1 & H2 & H3). cbn zeta in *.
  assert (best.1 ≤ (best_step best q).1 ∧ q.1 ≤ (best_step best q).1 ∧
          (best_step best q = best ∨ best_step best q = (q.1, Some q.2))) as (B1 & B2 & B3).
  { unfold best_step. destruct (Z.ltb_spec best.1 q.1); cbn [fst]; split_and!; auto; lia. }
  split; [lia|]. split.
  - intros x [->|Hx]%elem_of_cons; [lia|by apply H2].
  - destruct H3 as [H3|(x & Hx & H3)].
    + rewrite H3. destruct B3 as [->| ->]; [by left|right]. exists q. split; [left|done].
    + right. exists x. split; [by right|done].
Qed.

Lemma mapM_opt_elem {A B} (f : A → option B) l r :
  mapM_opt f l = Some r →
  (∀ x, x ∈ l → ∃ y, f x = Some y ∧ y ∈ r) ∧ (∀ y, y ∈ r → ∃ x, x ∈ l ∧ f x = Some y).
Proof.
  revert r. induction l as [|x l IH]; intros r; simpl.
  - intros [= <-]. split; intros ? ?%not_elem_of_nil; done.
  - destruct (f x) as [y|] eqn:E; simpl; [|done].
    destruct (mapM_opt f l) as [ys|]; simpl; [|done]. intros [= <-].
    destruct (IH ys eq_refl) as [H1 H2]. split.
    + intros z [->|Hz]%elem_of_cons; [exists y; split; [done|left]|].
      destruct (H1 z Hz) as (w & ? & ?). exists w. split; [done|by right].
    + intros z [->|Hz]%elem_of_cons; [exists x; split; [left|done]|].
      destruct (H2 z Hz) as (w & ? & ?). exists w. split; [by right|done].
Qed.

Section liquidation.
Context `{Cartesian}.

(** C39. Liquidation picks the best quote: [liquidate_all_token] returns the maximum of the
    total values of all choices of one path per token (0 when nothing can be sold),
    the value of every choice is at most the result, and the returned reserves are
    those after the choice that attains it, or the initial ones. *)
Theorem liquidate_is_best tokens initial q data :
  liquidate_all_token tokens initial = Some (q, data) →
  (∀ choice, swap_combos tokens ≠ [] → Forall2 (λ x k, x ∈ k) choice (swap_combos tokens) →
     ∃ v, quote_swaps initial choice = Some v ∧ v.1 ≤ q) ∧
  ((q = 0 ∧ data = initial) ∨
   ∃ choice, Forall2 (λ x k, x ∈ k) choice (swap_combos tokens) ∧
             quote_swaps initial choice = Some (q, data)).
Proof.
  unfold liquidate_all_token. case_decide as Hl.
  { intros [= <- <-]. split; [|by left]. intros choice Hne. by destruct (swap_combos tokens). }
  assert (swap_combos tokens ≠ []) as Hne by (by intros E; rewrite E in Hl).
  destruct (mapM_opt (quote_swaps initial) (cartesian (swap_combos tokens))) as [quotes|] eqn:E; [|done].
  rewrite obind_Some. destruct (mapM_opt_elem _ _ _ E) as [H1 H2].
  destruct (best_step_fold quotes (0, None)) as (B0 & B1 & B2). cbn zeta in *.
  intros [= <- <-]. split.
  - intros choice _ Hc. destruct (H1 choice) as (v & Hv & Hin); [by apply cartesian_elem|].
    exists v. split; [done|]. by apply B1.
  - destruct B2 as [B2|(x & Hx & B2)].
    + left. rewrite B2. done.
    + right. destruct (H2 x Hx) as (choice & Hin & Hq). exists choice.
      split; [by apply cartesian_elem|]. rewrite B2, Hq. by destruct x.
Qed.
End liquidation.

(** A concrete product, for examples. *)
Fixpoint product_lists {A} (ls : list (list A)) : list (list A) :=
  match ls with
  | [] => [[]]
  | k :: ls' => concat (map (λ x, map (cons x) (product_lists ls')) k)
  end.

Lemma product_lists_elem {A} (ls : list (list A)) l :
  l ∈ product_lists ls ↔ Forall2 (λ x k, x ∈ k) l ls.
Proof.
  revert l. induction ls as [|k ls IH]; intros l; simpl.
  - rewrite list_elem_of_singleton. split; [intros ->; constructor|by inversion 1].
  - rewrite list_elem_of_In, in_concat. split.
    + intros (l' & Hl' & Hin). apply in_map_iff in Hl' as (x & <- & Hx).
      apply in_map_iff in Hin as (t & <- & Ht). constructor; [by apply list_elem_of_In|].
      by apply IH, list_elem_of_In.
    + intros HF. inversion HF as [|x ? t ? Hx Ht]; subst. exists (map (cons x) (product_lists ls)).
      split; apply in_map_iff.
      * exists x. split; [done|by apply list_elem_of_In].
      * exists t. split; [done|]. by apply list_elem_of_In, IH.
Qed.

#[export] Instance Cartesian_lists : Cartesian :=
  {| cartesian := @product_lists; cartesian_elem := λ A ls l _, @product_lists_elem A ls l |}.

Definition example_pair : PairContext := mkPairContext 7 8 0 example_info (50000, 70000).
Definition example_path : PathContext := mkPathContext [example_pair] 1 None.
Definition example_token : TokenContext := mkTokenContext [example_path; example_path] false 3 4.

Lemma path_keeps_products_witness :
  ∃ out data', path_get_amount_out example_path 1000 ∅ = Some (out, data') ∧
    (∀ p, p ∈ route example_path → product (reserves_of ∅ p) ≤ product (reserves_of data' p)) ∧
    (∀ x, x ∉ map pair_address (route example_path) → data' !! x = (∅ : gmap Z (Z * Z)) !! x).
Proof.
  apply (path_keeps_products example_path 1000 ∅); [apply NoDup_singleton| |lia].
  constructor; [|constructor]. unfold pair_ok, info_ok, reserves_of. simpl. rewrite lookup_empty. simpl. lia.
Defined.

Lemma liquidate_is_best_witness :
  ∃ q data, liquidate_all_token [(example_token, 1000)] ∅ = Some (q, data) ∧ 0 < q ∧
  (∀ choice, swap_combos [(example_token, 1000)] ≠ [] →
     Forall2 (λ x k, x ∈ k) choice (swap_combos [(example_token, 1000)]) →
     ∃ v, quote_swaps ∅ choice = Some v ∧ v.1 ≤ q) ∧
  ((q = 0 ∧ data = ∅) ∨
   ∃ choice, Forall2 (λ x k, x ∈ k) choice (swap_combos [(example_token, 1000)]) ∧
             quote_swaps ∅ choice = Some (q, data)).
Proof.
  do 2 eexists. split; [vm_compute; reflexivity|]. split; [lia|].
  apply (liquidate_is_best [(example_token, 1000)] ∅). vm_compute. reflexivity.
Defined.

(** ** Reserves and addresses *)

(** [reserve_parser] unpacks a pair's storage slot: a timestamp of 32 bits and two
    reserves of 112 bits, packed in this order, are read back exactly, and the parser
    never panics. *)
Theorem reserve_parser_unpacks t r0 r1 :
  0 ≤ t < 2 ^ 32 → 0 ≤ r0 < 2 ^ 112 → 0 ≤ r1 < 2 ^ 112 →
  reserve_parser (t * 2 ^ 224 + r0 * 2 ^ 112 + r1) = Some (r0, r1).
Proof.
  intros Ht H0 H1. unfold reserve_parser. set (v := t * 2 ^ 224 + r0 * 2 ^ 112 + r1).
  assert (E : to_be_bytes v = z2be 4 (v / 256 ^ 28) ++ z2be 14 (v / 256 ^ 14) ++ z2be 14 v).
  { unfold to_be_bytes. rewrite <- (take_drop 4 (z2be 32 v)) at 1. f_equal.
    - apply (take_z2be 4 28).
    - change 32%nat with (4 + 28)%nat. rewrite drop_z2be.
      rewrite <- (take_drop 14 (z2be 28 v)) at 1. change 28%nat with (14 + 14)%nat.
      rewrite (take_z2be 14 14), drop_z2be. done. }
  assert (v / 256 ^ 14 = t * 2 ^ 112 + r0) as Ev.
  { change (256 ^ 14) with (2 ^ 112). symmetry. apply (Z.div_unique_pos _ _ _ r1); [lia|]. unfold v. lia. }
  rewrite E. rewrite (slice_app (z2be 4 (v / 256 ^ 28)) (z2be 14 (v / 256 ^ 14)) (z2be 14 v) 4 18)
    by (by rewrite length_z2be).
  rewrite obind_Some, try_from_be_slice_32 by (rewrite length_z2be; lia). rewrite obind_Some.
  rewrite (app_assoc (z2be 4 _)), <- (app_nil_r (z2be 14 v)).
  rewrite (slice_app (z2be 4 (v / 256 ^ 28) ++ z2be 14 (v / 256 ^ 14)) (z2be 14 v) [] 18 32)
    by (by rewrite ?length_app, !length_z2be).
  rewrite obind_Some, try_from_be_slice_32 by (rewrite length_z2be; lia). rewrite obind_Some.
  do 2 f_equal; rewrite be2z_z2be.
  - rewrite Ev. change (256 ^ Z.of_nat 14) with (2 ^ 112). rewrite Z.add_comm, Z.mod_add by lia.
    apply Z.mod_small. lia.
  - unfold v. change (256 ^ Z.of_nat 14) with (2 ^ 112).
    replace (t * 2 ^ 224 + r0 * 2 ^ 112 + r1) with (r1 + (t * 2 ^ 112 + r0) * 2 ^ 112) by lia.
    rewrite Z.mod_add by lia. apply Z.mod_small. lia.
Qed.

Lemma reserve_parser_unpacks_witness :
  reserve_parser (7 * 2 ^ 224 + 11 * 2 ^ 112 + 13) = Some (11, 13).
Proof. apply (reserve_parser_unpacks 7 11 13); lia. Defined.

(** The pair address does not depend on the order of the tokens, and it is always
    computed: with a 32-byte hash function and a 32-byte init code hash
    [get_pair_address] does not panic and yields a 160-bit address. *)
Theorem pair_address_symmetric keccak info a b :
  (∀ l, length (keccak l) = 32%nat) → length (init_code_hash info) = 32%nat →
  get_pair_address keccak info a b = get_pair_address keccak info b a ∧
  ∃ p, get_pair_address keccak info a b = Some p ∧ is_address p.
Proof.
  intros Hk Hi. split.
  - unfold get_pair_address. destruct (Z.leb_spec a b), (Z.leb_spec b a); try lia; [|done|done].
    assert (a = b) as -> by lia. done.
  - unfold get_pair_address. rewrite decide_True by (split; [apply Hk|done]).
    set (h := keccak (xff :: _)). assert (length h = 32%nat) as Hh by apply Hk.
    unfold slice_from. rewrite Hh, decide_True by lia. rewrite obind_Some. change (Z.to_nat 12) with 12%nat.
    unfold address_from_slice. rewrite length_drop, Hh, decide_True by done.
    eexists. split; [done|]. pose proof (be2z_range (drop 12 h)) as Hr.
    rewrite length_drop, Hh in Hr. exact Hr.
Qed.

Lemma pair_address_symmetric_witness :
  let keccak := λ l : list byte, z2be 32 (be2z l) in
  let info := mkUniswapInfo 3 1 2 (z2be 32 9) in
  get_pair_address keccak info 5 6 = get_pair_address keccak info 6 5 ∧
  ∃ p, get_pair_address keccak info 5 6 = Some p ∧ is_address p.
Proof.
  intros keccak info. apply (pair_address_symmetric keccak info 5 6).
  - intros l. apply length_z2be.
  - apply length_z2be.
Defined.

(** ** The router call *)

Lemma address_arg_ok a : elem_ok (boxed_b (address_arg a)) = true.
Proof. unfold address_arg, address_bytes. cbn [boxed_b BoxedABI_new elem_ok]. by rewrite length_z2be. Qed.

(** A path that tokens can be bought along: it has a pair, or it ends in a pair with WETH
    (the route of a token with a known price is empty). *)
Definition path_ok (p : PathContext) : Prop := route p ≠ [] ∨ is_Some (final_pegged_pair p).

(** The generated router call is well-formed: for a token with swap paths that have a
    pair, [generate_uniswap_router_call] does not panic, the call goes from WETH to the
    token (the hop list starts with WETH and ends with the token), it keeps the amount,
    and its arguments encode as (uint256, address[], address, uint256). *)
Theorem router_call_encodes token idx amt to :
  is_weth token = false → swaps token ≠ [] → 0 ≤ idx →
  Forall path_ok (swaps token) →
  ∃ abi dst path bs, generate_uniswap_router_call token idx amt to = Some (Some (abi, amt, dst)) ∧
    head path = Some (weth_address token) ∧ last path = Some (token_address token) ∧
    boxed_b abi = AArray [BoxedABI_new (A256 (replicate 32 x00) false false false);
                          BoxedABI_new (AArray (map address_arg path) true); address_arg to;
                          BoxedABI_new (A256 (replicate 32 xff) false false false)] false ∧
    boxed_get_bytes abi = Some (sel_bytes swap_selector ++ bs) ∧ bs = enc (boxed_b abi).
Proof.
  intros Hw Hne Hidx Hr. unfold generate_uniswap_router_call. rewrite Hw.
  rewrite decide_False by (by destruct (swaps token)).
  destruct (lookup_lt_is_Some_2 (swaps token) (Z.to_nat (idx mod Z.of_nat (length (swaps token))))) as [pc Hpc].
  { assert (0 < Z.of_nat (length (swaps token))) by (destruct (swaps token); [done|simpl; lia]).
    pose proof (Z.mod_pos_bound idx (Z.of_nat (length (swaps token)))). lia. }
  rewrite Hpc, obind_Some.
  assert (path_ok pc) as Hpath by (rewrite Forall_forall in Hr; apply Hr; by eapply list_elem_of_lookup_2).
  set (abi := mkBoxedABI _ swap_selector).
  assert (∃ dst, match final_pegged_pair pc with
                 | None => p ← last (route pc); Some (Some (abi, amt, router (uniswap_info p)))
                 | Some info => Some (Some (abi, amt, router (uniswap_info info)))
                 end = Some (Some (abi, amt, dst))) as [dst ->].
  { destruct (final_pegged_pair pc) eqn:Ef; [by eexists|]. destruct Hpath as [Hp|[? Hp]]; [|congruence].
    destruct (last (route pc)) as [lp|] eqn:El; [by eexists|]. by apply last_None in El. }
  exists abi, dst, (router_path token pc), (enc (boxed_b abi)). split; [done|].
  split_and!; [| |done| |done].
  - unfold router_path. destruct (map next_hop (rev (route pc))) as [|p0 l]; [done|].
    case_decide as Hd; [done|]. simpl. f_equal. destruct (decide (p0 = weth_address token)); [done|].
    by destruct Hd.
  - unfold router_path. apply last_snoc.
  - unfold boxed_get_bytes. rewrite get_bytes_encodable; [done|].
    assert (forallb (λ x, elem_ok (boxed_b x)) (map address_arg (router_path token pc)) = true) as Ha.
    { apply forallb_forall. intros x Hx. apply in_map_iff in Hx as (a & <- & _). apply address_arg_ok. }
    unfold abi. cbn [boxed_b encodable forallb BoxedABI_new]. rewrite address_arg_ok. cbn [elem_ok orb andb].
    rewrite !length_replicate. simpl. rewrite !andb_true_r.
    rewrite forallb_forall in Ha |- *. intros x Hx. specialize (Ha x Hx). by destruct x.
Qed.

Lemma router_call_encodes_witness :
  ∃ abi dst path bs, generate_uniswap_router_call example_token 5 100 9 = Some (Some (abi, 100, dst)) ∧
    head path = Some (weth_address example_token) ∧ last path = Some (token_address example_token) ∧
    boxed_b abi = AArray [BoxedABI_new (A256 (replicate 32 x00) false false false);
                          BoxedABI_new (AArray (map address_arg path) true); address_arg 9;
                          BoxedABI_new (A256 (replicate 32 xff) false false false)] false ∧
    boxed_get_bytes abi = Some (sel_bytes swap_selector ++ bs) ∧ bs = enc (boxed_b abi).
Proof.
  apply (router_call_encodes example_token 5 100 9); [reflexivity|discriminate|lia|].
  repeat constructor; discriminate.
Defined.
