(* ===== verification/Evm.v ===== *)
(** * The interpreter seen from the host, and the VM state ([src/src/evm/vm.rs])

    The interpreter is the vendored revm: its state is a record, the semantics of a
    single instruction is a parameter of the components that run it, and its main loop
    is in [HostCall].  [EVMState] is mau's: storage, suspended executions, flash loans. *)
From S2P Require Import Prelude Types.
#[local] Open Scope Z_scope.

(** ** revm *)

(** [InstructionResult]: the codes the host and the executor distinguish; the other
    error codes are [Halt]. *)
Inductive InstructionResult :=
| Continue
| Stop
| Return
| SelfDestruct
| Revert
| Halt (code : Z)
| FatalExternalError.

#[export] Instance InstructionResult_eq_dec : EqDecision InstructionResult.
Proof. solve_decision. Defined.

(** [ControlLeak] of [host.rs] *)
Definition ControlLeak : InstructionResult := FatalExternalError.

Inductive CallScheme := SchemeCall | SchemeCallCode | SchemeDelegateCall | SchemeStaticCall.

Record CallContext := mkCallContext {
  cc_address : EVMAddress;
  cc_caller : EVMAddress;
  cc_code_address : EVMAddress;
  cc_apparent_value : EVMU256;
  cc_scheme : CallScheme
}.

(** [Contract::new_with_context_analyzed] *)
Record Contract := mkContract {
  ct_input : list byte;
  ct_bytecode : list byte;
  ct_context : CallContext
}.

(** [Interpreter]; the instruction pointer is an offset, the top of the stack is last,
    as in [Stack::data], and gas is not measured ([no_gas_measuring]). *)
Record Interpreter := mkInterpreter {
  instruction_pointer : Z;
  instruction_result : InstructionResult;
  it_memory : list byte;
  it_stack : list EVMU256;
  return_data_buffer : list byte;
  return_range : Z * Z;
  is_static : bool;
  contract : Contract
}.

(** [Interpreter::new]; every call of it passes [false] for [is_static]. *)
Definition Interpreter_new (c : Contract) : Interpreter :=
  mkInterpreter 0 Continue [] [] [] (0, 0) false c.

(** [Interpreter::return_value]: the slice of the memory is checked. *)
Definition return_value (i : Interpreter) : option (list byte) :=
  if (return_range i).1 =? usize_max then Some []
  else slice (it_memory i) (return_range i).1 (return_range i).2.

(** [Memory::resize] *)
Definition memory_resize (m : list byte) (n : Z) : list byte :=
  let n := Z.to_nat n in take n m ++ replicate (n - length m) x00.

(** [Memory::set] *)
Definition memory_set (m : list byte) (offset : Z) (value : list byte) : option (list byte) :=
  if decide (value = []) then Some m
  else if decide (0 ≤ offset) then copy_at m (Z.to_nat offset) value else None.

(** ** The VM state *)

(** [struct PostExecutionCtx] *)
Record PostExecutionCtx := mkPostExec {
  pe_stack : list EVMU256;
  pe_memory : list byte;
  pe_pc : Z;
  pe_output_offset : Z;
  pe_output_len : Z;
  pe_call_data : list byte;
  pe_address : EVMAddress;
  pe_caller : EVMAddress;
  pe_code_address : EVMAddress;
  pe_apparent_value : EVMU256
}.

(** [PostExecutionCtx::get_call_ctx] *)
Definition get_call_ctx (p : PostExecutionCtx) : CallContext :=
  mkCallContext (pe_address p) (pe_caller p) (pe_code_address p) (pe_apparent_value p) SchemeCall.

(** [struct FlashloanData] *)
Record FlashloanData := mkFlashloan { owed : EVMU512; earned : EVMU512 }.

(** [FlashloanData::new] *)
Definition FlashloanData_new : FlashloanData := mkFlashloan 0 0.

(** [struct EVMState] *)
Record EVMState := mkEVMState {
  es_state : gmap Z (gmap Z Z);
  post_execution : list PostExecutionCtx;
  flashloan_data : FlashloanData;
  es_bug_hit : bool
}.

(** [EVMState::new] *)
Definition EVMState_new : EVMState := mkEVMState ∅ [] FlashloanData_new false.

(** [EVMState::insert] *)
Definition evmstate_insert (s : EVMState) (address : EVMAddress) (storage : gmap Z Z) : EVMState :=
  mkEVMState (<[address := storage]> (es_state s)) (post_execution s) (flashloan_data s) (es_bug_hit s).

(** [has_post_execution], [get_post_execution_len], [get_post_execution_pc] and
    [get_post_execution_needed_len] (which unwraps) *)
Definition has_post_execution (s : EVMState) : bool := bool_decide (0 < length (post_execution s))%nat.
Definition get_post_execution_len (s : EVMState) : nat := length (post_execution s).
Definition get_post_execution_pc (s : EVMState) : Z :=
  match last (post_execution s) with Some p => pe_pc p | None => 0 end.
Definition get_post_execution_needed_len (s : EVMState) : option Z :=
  p ← last (post_execution s); Some (pe_output_len p).

Definition set_post_execution (s : EVMState) (l : list PostExecutionCtx) : EVMState :=
  mkEVMState (es_state s) l (flashloan_data s) (es_bug_hit s).
Definition set_bug_hit (s : EVMState) (b : bool) : EVMState :=
  mkEVMState (es_state s) (post_execution s) (flashloan_data s) b.
Definition add_owed (s : EVMState) (amount : EVMU512) : EVMState :=
  mkEVMState (es_state s) (post_execution s)
    (mkFlashloan (add512 (owed (flashloan_data s)) amount) (earned (flashloan_data s))) (es_bug_hit s).
Definition add_earned (s : EVMState) (amount : EVMU512) : EVMState :=
  mkEVMState (es_state s) (post_execution s)
    (mkFlashloan (owed (flashloan_data s)) (add512 (earned (flashloan_data s)) amount)) (es_bug_hit s).
