(* ===== verification/Host.v ===== *)
(** * The instrumented EVM host ([src/src/evm/host.rs], [AccessPattern] of [mutator.rs])

    [FuzzHost] observes every instruction the interpreter is about to execute and
    fills the coverage, comparison and data-flow maps.  The interpreter is vendored
    code; the model sees it through the opcode, the program counter, the stack and
    the address of the running contract.  Middlewares are hooks. *)
From S2P Require Import Prelude Types Evm.
#[local] Open Scope Z_scope.

(** ** Constants and views *)

(** [MAP_SIZE] of [generic_vm/vm_executor.rs] *)
Definition MAP_SIZE : Z := 8192.
Definition map_size : nat := Z.to_nat MAP_SIZE.
Definition RW_SKIPPER_PERCT_IDX : Z := 100.
Definition RW_SKIPPER_AMT : Z := MAP_SIZE - RW_SKIPPER_PERCT_IDX.

(** What a step reads of the interpreter; the top of the stack comes first. *)
Record Interp := mkInterp {
  opcode : Z;
  program_counter : Z;
  stack : list EVMU256;
  contract_address : EVMAddress
}.

(** [fast_peek!]: [stack.data()[stack.len() - 1 - idx]], which panics below the bottom. *)
Definition fast_peek (i : Interp) (idx : nat) : option EVMU256 := stack i !! idx.

(** ** Access patterns *)

(** [struct AccessPattern] *)
Record AccessPattern := mkAccessPattern {
  ap_caller : bool;
  ap_balance : list EVMAddress;
  ap_call_value : bool;
  ap_gas_price : bool;
  ap_number : bool;
  ap_coinbase : bool;
  ap_timestamp : bool;
  ap_prevrandao : bool;
  ap_gas_limit : bool;
  ap_chain_id : bool;
  ap_basefee : bool
}.

(** [AccessPattern::new] *)
Definition AccessPattern_new : AccessPattern :=
  mkAccessPattern false [] false false false false false false false false false.

(** [AccessPattern::decode_instruction] *)
Definition decode_instruction (p : AccessPattern) (i : Interp) : option AccessPattern :=
  let '(mkAccessPattern c b cv gp n cb ts pr gl ci bf) := p in
  let op := opcode i in
  if op =? 0x31 then
    v ← fast_peek i 0; a ← convert_u256_to_h160 v;
    Some (mkAccessPattern c (b ++ [a]) cv gp n cb ts pr gl ci bf)
  else if op =? 0x33 then Some (mkAccessPattern true b cv gp n cb ts pr gl ci bf)
  else if op =? 0x34 then
    Some (if 0xb <? program_counter i then mkAccessPattern c b true gp n cb ts pr gl ci bf else p)
  else if op =? 0x3a then Some (mkAccessPattern c b cv true n cb ts pr gl ci bf)
  else if op =? 0x43 then Some (mkAccessPattern c b cv gp true cb ts pr gl ci bf)
  else if op =? 0x41 then Some (mkAccessPattern c b cv gp n true ts pr gl ci bf)
  else if op =? 0x42 then Some (mkAccessPattern c b cv gp n cb true pr gl ci bf)
  else if op =? 0x44 then Some (mkAccessPattern c b cv gp n cb ts true gl ci bf)
  else if op =? 0x45 then Some (mkAccessPattern c b cv gp n cb ts pr true ci bf)
  else if op =? 0x46 then Some (mkAccessPattern c b cv gp n cb ts pr gl true bf)
  else if op =? 0x48 then Some (mkAccessPattern c b cv gp n cb ts pr gl ci true)
  else Some p.

(** ** The host *)

(** The fields of [FuzzHost] that a step uses, and the static maps. *)
Record FuzzHost := mkFuzzHost {
  evmstate : EVMState;
  next_slot : EVMU256;
  edge_hashmap : gmap Z Z;
  ins_hashmap : gset Z;
  coverage_changed : bool;
  host_pc : Z;
  access_pattern : AccessPattern;
  (** [JMP_MAP], [READ_MAP], [WRITE_MAP], [CMP_MAP] *)
  jmp_map : list Z;
  read_map : list bool;
  write_map : list Z;
  cmp_map : list EVMU256;
  (** [STATE_CHANGE], [BRANCH_DISTANCE], [RET_OFFSET], [RET_SIZE] *)
  state_change : bool;
  branch_distance : EVMU256;
  ret_offset : Z;
  ret_size : Z;
  explored_ins : Z;
  explored_edge : Z
}.

(** [sload] *)
Definition sload (h : FuzzHost) (address : EVMAddress) (index : EVMU256) : EVMU256 :=
  default (next_slot h) (account ← es_state (evmstate h) !! address; account !! index).

Definition set_evmstate (h : FuzzHost) (s : EVMState) : FuzzHost :=
  mkFuzzHost s (next_slot h) (edge_hashmap h) (ins_hashmap h) (coverage_changed h) (host_pc h)
    (access_pattern h) (jmp_map h) (read_map h) (write_map h) (cmp_map h) (state_change h)
    (branch_distance h) (ret_offset h) (ret_size h) (explored_ins h) (explored_edge h).

(** [sstore] *)
Definition sstore (h : FuzzHost) (address : EVMAddress) (index value : EVMU256) : FuzzHost :=
  set_evmstate h
    match es_state (evmstate h) !! address with
    | Some account => evmstate_insert (evmstate h) address (<[index := value]> account)
    | None => evmstate_insert (evmstate h) address {[index := value]}
    end.

(** [process_rw_key!] *)
Definition process_rw_key (key : EVMU256) : option Z :=
  if RW_SKIPPER_PERCT_IDX <? key then
    r ← rem256 key RW_SKIPPER_AMT;
    Some (as_u64 (add256 r RW_SKIPPER_PERCT_IDX) mod MAP_SIZE)
  else Some (as_u64 key mod MAP_SIZE).

(** [u256_to_u8!] *)
Definition u256_to_u8 (v : EVMU256) : Z := u8z (as_u64 (Z.shiftr v 4) mod 254).

(** Writing an entry of a static map; the index is checked. *)
Definition map_set {A} (l : list A) (i : Z) (x : A) : option (list A) :=
  if decide (0 ≤ i < Z.of_nat (length l)) then Some (<[Z.to_nat i := x]> l) else None.
Definition map_get {A} (l : list A) (i : Z) : option A :=
  if decide (0 ≤ i) then l !! Z.to_nat i else None.

(** The number of an edge: a new hash gets the next number. *)
Definition edge_index (m : gmap Z Z) (hash : Z) : Z * gmap Z Z :=
  match m !! hash with
  | Some v => (v mod MAP_SIZE, m)
  | None => let s := Z.of_nat (size m) in (s mod MAP_SIZE, <[hash := s]> m)
  end.

(** [jump_dest << 32 | pc] on [u64] *)
Definition edge_hash (jump_dest pc : Z) : Z := Z.lor (u64 (Z.shiftl jump_dest 32)) pc.

(** What the arms of the [match] update. *)
Record step_maps := mkStepMaps {
  sm_edges : gmap Z Z;
  sm_coverage : bool;
  sm_pc : Z;
  sm_jmp : list Z;
  sm_read : list bool;
  sm_write : list Z;
  sm_cmp : list EVMU256;
  sm_change : bool;
  sm_distance : EVMU256;
  sm_ret_offset : Z;
  sm_ret_size : Z
}.

Definition maps_of (h : FuzzHost) : step_maps :=
  mkStepMaps (edge_hashmap h) (coverage_changed h) (host_pc h) (jmp_map h) (read_map h) (write_map h)
    (cmp_map h) (state_change h) (branch_distance h) (ret_offset h) (ret_size h).

(** Counting an edge: [JMP_MAP[idx]] saturates at 255. *)
Definition count_edge (m : step_maps) (hash : Z) : option step_maps :=
  let '(idx, edges) := edge_index (sm_edges m) hash in
  c ← map_get (sm_jmp m) idx;
  jmp ← map_set (sm_jmp m) idx (if c <? 255 then c + 1 else c);
  Some (mkStepMaps edges (if c =? 0 then true else sm_coverage m) (sm_pc m) jmp (sm_read m) (sm_write m)
          (sm_cmp m) (sm_change m) (sm_distance m) (sm_ret_offset m) (sm_ret_size m)).

(** [BRANCH_DISTANCE + |v1 - v2|] *)
Definition add_distance (d v1 v2 : EVMU256) : EVMU256 :=
  if v1 <? v2 then sub256 (add256 d v2) v1 else sub256 (add256 d v1) v2.

(** The distance of a comparison to the branch where it holds. *)
Definition lt_distance (v1 v2 : EVMU256) : EVMU256 :=
  if v2 <=? v1 then (if negb (sub256 v1 v2 =? 0) then sub256 v1 v2 else 1) else 0.
Definition gt_distance (v1 v2 : EVMU256) : EVMU256 :=
  if v1 <=? v2 then (if negb (sub256 v2 v1 =? 0) then sub256 v2 v1 else 1) else 0.
Definition eq_distance (v1 v2 : EVMU256) : option EVMU256 :=
  r ← rem256 (if v1 <? v2 then sub256 v2 v1 else sub256 v1 v2) (U256_MAX - 1);
  Some (add256 r 1).

(** [if abs_diff < CMP_MAP[idx] { CMP_MAP[idx] = abs_diff }] and the total distance. *)
Definition record_cmp (m : step_maps) (pc v1 v2 abs_diff : Z) : option step_maps :=
  let idx := pc mod MAP_SIZE in
  old ← map_get (sm_cmp m) idx;
  cmp ← (if abs_diff <? old then map_set (sm_cmp m) idx abs_diff else Some (sm_cmp m));
  Some (mkStepMaps (sm_edges m) (sm_coverage m) (sm_pc m) (sm_jmp m) (sm_read m) (sm_write m)
          cmp (sm_change m) (add_distance (sm_distance m) v1 v2) (sm_ret_offset m) (sm_ret_size m)).

(** The arm [0x57]. *)
Definition step_jumpi (m : step_maps) (i : Interp) : option step_maps :=
  br ← fast_peek i 1;
  jump_dest ← (if is_zero br then Some (u64 (program_counter i + 1))
               else d ← fast_peek i 0; Some (as_u64 d));
  m ← count_edge m (edge_hash jump_dest (program_counter i));
  cmp ← map_set (sm_cmp m) (program_counter i mod MAP_SIZE) br;
  Some (mkStepMaps (sm_edges m) (sm_coverage m) (sm_pc m) (sm_jmp m) (sm_read m) (sm_write m)
          cmp (sm_change m) (sm_distance m) (sm_ret_offset m) (sm_ret_size m)).

(** The arm [0x55]. *)
Definition step_sstore (h : FuzzHost) (m : step_maps) (i : Interp) : option step_maps :=
  value ← fast_peek i 1;
  key ← fast_peek i 0;
  let v := u8z (u256_to_u8 value + 1) in
  k ← process_rw_key key;
  write ← map_set (sm_write m) k v;
  let value_changed := negb (sload h (contract_address i) key =? value) in
  let '(idx, edges) := edge_index (sm_edges m) (program_counter i) in
  jmp ← map_set (sm_jmp m) idx (if value_changed then 1 else 0);
  Some (mkStepMaps edges (sm_coverage m) (sm_pc m) jmp (sm_read m) write (sm_cmp m)
          (sm_change m || value_changed) (sm_distance m) (sm_ret_offset m) (sm_ret_size m)).

(** The arm [0x54]. *)
Definition step_sload (m : step_maps) (i : Interp) : option step_maps :=
  key ← fast_peek i 0;
  k ← process_rw_key key;
  read ← map_set (sm_read m) k true;
  Some (mkStepMaps (sm_edges m) (sm_coverage m) (sm_pc m) (sm_jmp m) read (sm_write m) (sm_cmp m)
          (sm_change m) (sm_distance m) (sm_ret_offset m) (sm_ret_size m)).

(** The arm of the calls. *)
Definition step_call (m : step_maps) (i : Interp) : option step_maps :=
  let n := if (opcode i =? 0xf1) || (opcode i =? 0xf2) then 6%nat else 5%nat in
  off ← fast_peek i (n - 1);
  sz ← fast_peek i n;
  Some (mkStepMaps (sm_edges m) (sm_coverage m) (program_counter i) (sm_jmp m) (sm_read m) (sm_write m)
          (sm_cmp m) (sm_change m) (sm_distance m) (as_u64 off) (as_u64 sz)).

Definition is_op (i : Interp) (ops : list Z) : bool := existsb (Z.eqb (opcode i)) ops.

(** The [match *interp.instruction_pointer]. *)
Definition step_maps_of (h : FuzzHost) (m : step_maps) (i : Interp) : option step_maps :=
  if is_op i [0x56] then d ← fast_peek i 0; count_edge m (edge_hash (as_u64 d) (program_counter i))
  else if is_op i [0x57] then step_jumpi m i
  else if is_op i [0x55] then step_sstore h m i
  else if is_op i [0x54] then step_sload m i
  else if is_op i [0x10; 0x12] then
    v1 ← fast_peek i 0; v2 ← fast_peek i 1;
    record_cmp m (program_counter i) v1 v2 (lt_distance v1 v2)
  else if is_op i [0x11; 0x13] then
    v1 ← fast_peek i 0; v2 ← fast_peek i 1;
    record_cmp m (program_counter i) v1 v2 (gt_distance v1 v2)
  else if is_op i [0x14] then
    v1 ← fast_peek i 0; v2 ← fast_peek i 1;
    d ← eq_distance v1 v2;
    record_cmp m (program_counter i) v1 v2 d
  else if is_op i [0xf1; 0xf2; 0xf4; 0xfa] then step_call m i
  else Some m.

(** [step], after the middleware hooks [hooks] (the identity when they are disabled). *)
Definition step (hooks : FuzzHost → Interp → FuzzHost) (h : FuzzHost) (i : Interp) : option FuzzHost :=
  let h := hooks h i in
  let ins := {[program_counter i]} ∪ ins_hashmap h in
  m ← step_maps_of h (maps_of h) i;
  ap ← decode_instruction (access_pattern h) i;
  Some (mkFuzzHost (evmstate h) (next_slot h) (sm_edges m) ins (sm_coverage m) (sm_pc m) ap
          (sm_jmp m) (sm_read m) (sm_write m) (sm_cmp m) (sm_change m) (sm_distance m)
          (sm_ret_offset m) (sm_ret_size m)
          (if decide (program_counter i ∈ ins_hashmap h) then explored_ins h else Z.of_nat (size ins))
          (Z.of_nat (size (sm_edges m)))).

(** The host before a campaign. *)
Definition FuzzHost_new : FuzzHost :=
  mkFuzzHost EVMState_new 0 ∅ ∅ false 0 AccessPattern_new (replicate map_size 0) (replicate map_size false)
    (replicate map_size 0) (replicate map_size U256_MAX) false U256_MAX 0 0 0 0.
