(* ===== verification/HostProps.v ===== *)
(** * Properties of the host: storage, map indices, coverage and comparison maps *)
From S2P Require Import Prelude Types Evm Host.
#[local] Open Scope Z_scope.

(** ** Storage *)

(** Contract storage behaves as a map: a stored value is what the next load of that
    slot of that contract returns, loads of every other slot and of every other
    contract are unchanged, and a slot never written reads as [next_slot]. *)
Theorem sload_sstore h a k v b j :
  sload (sstore h a k v) b j = if decide (b = a ∧ j = k) then v else sload h b j.
Proof.
  unfold sload, sstore, set_evmstate, evmstate_insert. cbn [evmstate next_slot].
  destruct (decide (b = a)) as [->|Hb].
  - destruct (es_state (evmstate h) !! a) as [account|] eqn:E; cbn [es_state]; rewrite lookup_insert_eq, ?E; simpl;
      destruct (decide (j = k)) as [->|Hj].
    + rewrite lookup_insert_eq, decide_True by done. done.
    + rewrite lookup_insert_ne by done. rewrite decide_False by naive_solver. done.
    + rewrite lookup_singleton_eq, decide_True by done. done.
    + rewrite lookup_singleton_ne by done. rewrite decide_False by naive_solver. done.
  - rewrite decide_False by naive_solver.
    destruct (es_state (evmstate h) !! a); cbn [es_state]; by rewrite lookup_insert_ne.
Qed.

(** ** Indices *)

Lemma as_u64_small v : 0 ≤ v < 2 ^ 64 → as_u64 v = v.
Proof. apply Z.mod_small. Qed.

Lemma process_rw_key_spec key :
  0 ≤ key → ∃ k, process_rw_key key = Some k ∧ 0 ≤ k < MAP_SIZE ∧
    (key ≤ RW_SKIPPER_PERCT_IDX → k = key) ∧ (RW_SKIPPER_PERCT_IDX < key → RW_SKIPPER_PERCT_IDX ≤ k).
Proof.
  intros Hk. unfold process_rw_key, rem256, RW_SKIPPER_AMT, RW_SKIPPER_PERCT_IDX, MAP_SIZE.
  destruct (Z.ltb_spec 100 key).
  - rewrite decide_False by done. rewrite obind_Some.
    pose proof (Z.mod_pos_bound key (8192 - 100) ltac:(lia)).
    rewrite add256_small by (unfold U256_MOD; lia). rewrite as_u64_small by lia.
    eexists. split; [done|]. rewrite Z.mod_small by lia. lia.
  - rewrite as_u64_small by lia. eexists. split; [done|]. rewrite Z.mod_small by lia. lia.
Qed.

Lemma u256_to_u8_range v : 0 ≤ u256_to_u8 v < 254.
Proof.
  unfold u256_to_u8. pose proof (Z.mod_pos_bound (as_u64 (Z.shiftr v 4)) 254 ltac:(lia)).
  unfold u8z. rewrite wrap_small by lia. lia.
Qed.

Lemma map_set_spec {A} (l : list A) i x :
  0 ≤ i < Z.of_nat (length l) → map_set l i x = Some (<[Z.to_nat i := x]> l).
Proof. intros H. unfold map_set. by rewrite decide_True. Qed.

Lemma map_get_spec {A} (l : list A) i :
  0 ≤ i < Z.of_nat (length l) → ∃ x, map_get l i = Some x ∧ l !! Z.to_nat i = Some x.
Proof.
  intros H. unfold map_get. rewrite decide_True by lia.
  destruct (lookup_lt_is_Some_2 l (Z.to_nat i)) as [x Hx]; [lia|]. by exists x.
Qed.

(** ** The invariant of the maps *)

(** Edges are numbered by the order of discovery, without gaps or repetitions. *)
Definition edges_ok (m : gmap Z Z) : Prop :=
  (∀ k v, m !! k = Some v → 0 ≤ v < Z.of_nat (size m)) ∧
  (∀ k k' v, m !! k = Some v → m !! k' = Some v → k = k').

Record maps_ok (m : step_maps) : Prop := {
  mo_edges : edges_ok (sm_edges m);
  mo_jmp : length (sm_jmp m) = map_size;
  mo_read : length (sm_read m) = map_size;
  mo_write : length (sm_write m) = map_size;
  mo_cmp : length (sm_cmp m) = map_size;
  mo_jmp_u8 : Forall (λ c, 0 ≤ c ≤ 255) (sm_jmp m);
  mo_write_u8 : Forall (λ c, 0 ≤ c ≤ 254) (sm_write m)
}.

Lemma edge_index_spec m hash :
  edges_ok m →
  ∃ idx m', edge_index m hash = (idx, m') ∧ edges_ok m' ∧ 0 ≤ idx < MAP_SIZE ∧ m ⊆ m' ∧
    is_Some (m' !! hash) ∧ (∀ k, is_Some (m' !! k) → k = hash ∨ is_Some (m !! k)).
Proof.
  intros [H1 H2]. unfold edge_index. destruct (m !! hash) as [v|] eqn:E.
  - do 2 eexists. split; [done|]. split; [done|]. split; [apply Z.mod_pos_bound; done|].
    split; [done|]. split; [by eexists|]. auto.
  - do 2 eexists. split; [done|].
    assert (size (<[hash:=Z.of_nat (size m)]> m) = S (size m)) as Hs by (by apply map_size_insert_None).
    split; [|split; [apply Z.mod_pos_bound; done|split; [by apply insert_subseteq|]]].
    + split.
      * intros k v. rewrite lookup_insert_Some, Hs. intros [[_ <-]|[_ Hk]]; [lia|]. apply H1 in Hk. lia.
      * intros k k' v. rewrite !lookup_insert_Some.
        intros [[<- <-]|[Hk Hv]] [[<- Hv']|[Hk' Hv']]; try done.
        -- apply H1 in Hv'. lia.
        -- apply H1 in Hv. lia.
        -- by eapply H2.
    + split; [rewrite lookup_insert_eq; by eexists|]. intros k Hk%lookup_insert_is_Some. naive_solver.
Qed.

Lemma map_size_Z : Z.of_nat map_size = MAP_SIZE.
Proof. done. Qed.
#[global] Opaque map_size.

(** A step keeps the storage and the numbers of the known edges. *)
Definition maps_extend (m m' : step_maps) : Prop := sm_edges m ⊆ sm_edges m'.

Lemma count_edge_ok m hash :
  maps_ok m →
  ∃ m', count_edge m hash = Some m' ∧ maps_ok m' ∧ maps_extend m m' ∧
    sm_cmp m' = sm_cmp m ∧ sm_write m' = sm_write m ∧ sm_read m' = sm_read m ∧
    (sm_coverage m = true → sm_coverage m' = true) ∧
    (∃ idx c, (edge_index (sm_edges m) hash).1 = idx ∧ sm_jmp m !! Z.to_nat idx = Some c ∧
       sm_jmp m' = <[Z.to_nat idx := if c <? 255 then c + 1 else c]> (sm_jmp m) ∧
       (c = 0 → sm_coverage m' = true)).
Proof.
  intros [He Hj Hr Hw Hc Hj8 Hw8]. unfold count_edge.
  destruct (edge_index_spec (sm_edges m) hash He) as (idx & edges & E & He' & Hi & Hsub & _).
  rewrite E. pose proof map_size_Z as Hms.
  destruct (map_get_spec (sm_jmp m) idx) as (c & -> & Hl); [lia|]. rewrite obind_Some.
  rewrite map_set_spec by lia. rewrite obind_Some.
  assert (0 ≤ c ≤ 255) as Hc8 by (rewrite Forall_forall in Hj8; apply Hj8; by eapply list_elem_of_lookup_2).
  eexists. split; [done|]. split; [split; cbn; try done|].
  - by rewrite length_insert.
  - apply Forall_insert; [done|]. destruct (Z.ltb_spec c 255); lia.
  - split; [done|]. cbn. split_and!; try done.
    + intros ->. by destruct (c =? 0).
    + exists idx, c. split_and!; try done. intros ->. done.
Qed.

(** The operands each instrumented opcode peeks at. *)
Definition operands (i : Interp) : nat :=
  if is_op i [0x56; 0x54; 0x31] then 1
  else if is_op i [0x57; 0x55; 0x10; 0x11; 0x12; 0x13; 0x14] then 2
  else if is_op i [0xf1; 0xf2] then 7
  else if is_op i [0xf4; 0xfa] then 6
  else 0.

Definition interp_ok (i : Interp) : Prop :=
  0 ≤ program_counter i < 2 ^ 32 ∧ Forall is_u256 (stack i) ∧ (operands i ≤ length (stack i))%nat.

Lemma fast_peek_ok i n :
  Forall is_u256 (stack i) → (n < length (stack i))%nat → ∃ v, fast_peek i n = Some v ∧ is_u256 v.
Proof.
  intros Hs Hn. destruct (lookup_lt_is_Some_2 (stack i) n Hn) as [v Hv]. exists v. split; [done|].
  rewrite Forall_forall in Hs. apply Hs. by eapply list_elem_of_lookup_2.
Qed.

Lemma record_cmp_ok m pc v1 v2 d :
  maps_ok m → 0 ≤ pc →
  ∃ m' old, record_cmp m pc v1 v2 d = Some m' ∧ maps_ok m' ∧ maps_extend m m' ∧
    sm_cmp m !! Z.to_nat (pc mod MAP_SIZE) = Some old ∧
    sm_cmp m' = <[Z.to_nat (pc mod MAP_SIZE) := Z.min old d]> (sm_cmp m).
Proof.
  intros [He Hj Hr Hw Hc Hj8 Hw8] Hpc. unfold record_cmp. pose proof map_size_Z as Hms.
  pose proof (Z.mod_pos_bound pc MAP_SIZE ltac:(done)) as Hi.
  destruct (map_get_spec (sm_cmp m) (pc mod MAP_SIZE)) as (old & -> & Hl); [lia|]. rewrite obind_Some.
  destruct (Z.ltb_spec d old) as [Hd|Hd].
  - rewrite map_set_spec by lia. rewrite obind_Some. eexists _, old. split; [reflexivity|].
    split; [split; cbn; try done; by rewrite length_insert|]. split; [unfold maps_extend; reflexivity|]. split; [done|].
    cbn. by rewrite Z.min_r by lia.
  - rewrite obind_Some. eexists _, old. split; [reflexivity|]. split; [by split|]. split; [unfold maps_extend; reflexivity|]. split; [done|].
    cbn. rewrite Z.min_l by lia. by rewrite list_insert_id.
Qed.

Lemma step_jumpi_ok m i :
  maps_ok m → Forall is_u256 (stack i) → (2 ≤ length (stack i))%nat → 0 ≤ program_counter i →
  ∃ m', step_jumpi m i = Some m' ∧ maps_ok m' ∧ maps_extend m m'.
Proof.
  intros Hm Hs Hn Hpc. unfold step_jumpi.
  destruct (fast_peek_ok i 1 Hs) as (br & Ebr & _); [lia|].
  destruct (fast_peek_ok i 0 Hs) as (d & Ed & _); [lia|]. rewrite Ebr, obind_Some, Ed.
  assert (∃ jd, (if is_zero br then Some (u64 (program_counter i + 1)) else d0 ← Some d; Some (as_u64 d0)) = Some jd)
    as [jd ->] by (destruct (is_zero br); by eexists).
  rewrite obind_Some.
  destruct (count_edge_ok m (edge_hash jd (program_counter i)) Hm) as (m1 & -> & Hm1 & Hx & Hc & _).
  rewrite obind_Some. pose proof map_size_Z. pose proof (Z.mod_pos_bound (program_counter i) MAP_SIZE ltac:(done)).
  rewrite map_set_spec by (rewrite (mo_cmp _ Hm1); lia). rewrite obind_Some.
  eexists. split; [reflexivity|]. split; [|exact Hx].
  destruct Hm1. split; cbn; try done. by rewrite length_insert.
Qed.

Lemma step_sstore_ok h m i :
  maps_ok m → Forall is_u256 (stack i) → (2 ≤ length (stack i))%nat →
  ∃ m' key k value, step_sstore h m i = Some m' ∧ maps_ok m' ∧ maps_extend m m' ∧
    fast_peek i 0 = Some key ∧ fast_peek i 1 = Some value ∧ process_rw_key key = Some k ∧
    sm_write m' = <[Z.to_nat k := u256_to_u8 value + 1]> (sm_write m) ∧
    sm_change m' = sm_change m || negb (sload h (contract_address i) key =? value) ∧
    sm_read m' = sm_read m.
Proof.
  intros Hm Hs Hn. unfold step_sstore.
  destruct (fast_peek_ok i 1 Hs) as (value & Ev & _); [lia|].
  destruct (fast_peek_ok i 0 Hs) as (key & Ek & Hkey); [lia|]. rewrite Ev, Ek, !obind_Some.
  pose proof map_size_Z as Hms. pose proof (u256_to_u8_range value) as Hv.
  assert (u8z (u256_to_u8 value + 1) = u256_to_u8 value + 1) as -> by (unfold u8z; apply wrap_small; lia).
  destruct (process_rw_key_spec key) as (k & Ekk & Hk & _); [unfold is_u256 in Hkey; lia|].
  rewrite Ekk, obind_Some. destruct Hm as [He Hj Hr Hw Hc Hj8 Hw8].
  rewrite map_set_spec by lia. rewrite obind_Some.
  destruct (edge_index_spec (sm_edges m) (program_counter i) He) as (idx & edges & Ee & He' & Hidx & Hsub & _).
  rewrite Ee. rewrite map_set_spec by lia. rewrite obind_Some.
  eexists _, key, k, value. split; [reflexivity|]. split; [|split_and!; done].
  split; cbn; try done; rewrite ?length_insert; try done.
  - apply Forall_insert; [done|]. destruct (negb _); lia.
  - apply Forall_insert; [done|]. lia.
Qed.

Lemma step_sload_ok m i :
  maps_ok m → Forall is_u256 (stack i) → (1 ≤ length (stack i))%nat →
  ∃ m' key k, step_sload m i = Some m' ∧ maps_ok m' ∧ maps_extend m m' ∧
    fast_peek i 0 = Some key ∧ process_rw_key key = Some k ∧
    sm_read m' = <[Z.to_nat k := true]> (sm_read m).
Proof.
  intros Hm Hs Hn. unfold step_sload.
  destruct (fast_peek_ok i 0 Hs) as (key & Ek & Hkey); [lia|]. rewrite Ek, obind_Some.
  destruct (process_rw_key_spec key) as (k & Ekk & Hk & _); [unfold is_u256 in Hkey; lia|].
  rewrite Ekk, obind_Some. pose proof map_size_Z as Hms. destruct Hm as [He Hj Hr Hw Hc Hj8 Hw8].
  rewrite map_set_spec by lia. rewrite obind_Some.
  eexists _, key, k. split; [reflexivity|]. split; [|split_and!; try done; unfold maps_extend; reflexivity].
  split; cbn; try done. by rewrite length_insert.
Qed.

Lemma step_call_ok m i n :
  maps_ok m → Forall is_u256 (stack i) → (n ≤ length (stack i))%nat →
  n = (if (opcode i =? 0xf1) || (opcode i =? 0xf2) then 7%nat else 6%nat) →
  ∃ m', step_call m i = Some m' ∧ maps_ok m' ∧ maps_extend m m'.
Proof.
  intros Hm Hs Hn En. unfold step_call.
  destruct (fast_peek_ok i ((if (opcode i =? 0xf1) || (opcode i =? 0xf2) then 6 else 5) - 1) Hs) as (o & Eo & _).
  { destruct (_ || _); lia. }
  destruct (fast_peek_ok i (if (opcode i =? 0xf1) || (opcode i =? 0xf2) then 6 else 5) Hs) as (z & Ez & _).
  { destruct (_ || _); lia. }
  rewrite Eo, Ez, !obind_Some. eexists. split; [reflexivity|]. destruct Hm. split; [by split|].
  unfold maps_extend; reflexivity.
Qed.

Lemma eq_distance_total v1 v2 : ∃ d, eq_distance v1 v2 = Some d.
Proof. unfold eq_distance, rem256. rewrite decide_False by done. by eexists. Qed.

Lemma decode_instruction_total p i :
  interp_ok i → ∃ p', decode_instruction p i = Some p'.
Proof.
  intros (_ & Hs & Hn). unfold decode_instruction. destruct p.
  destruct (Z.eqb_spec (opcode i) 0x31) as [E|E].
  - destruct (fast_peek_ok i 0 Hs) as (v & -> & _).
    { unfold operands, is_op in Hn. rewrite E in Hn. simpl in Hn. lia. }
    rewrite obind_Some, convert_u256_to_h160_spec. by eexists.
  - repeat match goal with |- context [if ?b then Some _ else _] => destruct b; [by eexists|] end. by eexists.
Qed.

(** An opcode of a list is one of them. *)
Lemma is_op_elem i ops : is_op i ops = true → opcode i ∈ ops.
Proof.
  unfold is_op. rewrite existsb_exists. intros (x & Hx & ->%Z.eqb_eq). by apply list_elem_of_In.
Qed.

Lemma operands_le i n : interp_ok i → (n ≤ operands i)%nat → (n ≤ length (stack i))%nat.
Proof. intros (_ & _ & H) Hn. lia. Qed.

Ltac operand_goal E :=
  apply is_op_elem in E; rewrite !elem_of_cons in E; unfold operands, is_op;
  destruct_or? E; try (by apply not_elem_of_nil in E); rewrite E; simpl; lia.

Lemma step_maps_total h m i :
  maps_ok m → interp_ok i → ∃ m', step_maps_of h m i = Some m' ∧ maps_ok m' ∧ maps_extend m m'.
Proof.
  intros Hm Hi. pose proof Hi as (Hpc & Hs & _). unfold step_maps_of.
  destruct (is_op i [0x56]) eqn:E1.
  { destruct (fast_peek_ok i 0 Hs) as (d & -> & _); [apply (operands_le i 1 Hi); operand_goal E1|].
    rewrite obind_Some. destruct (count_edge_ok m (edge_hash (as_u64 d) (program_counter i)) Hm)
      as (m' & E & H1 & H2 & _). by exists m'. }
  destruct (is_op i [0x57]) eqn:E2.
  { apply step_jumpi_ok; try done; [apply (operands_le i 2 Hi); operand_goal E2|lia]. }
  destruct (is_op i [0x55]) eqn:E3.
  { destruct (step_sstore_ok h m i Hm Hs) as (m' & ? & ? & ? & E & H1 & H2 & _);
      [apply (operands_le i 2 Hi); operand_goal E3|]. by exists m'. }
  destruct (is_op i [0x54]) eqn:E4.
  { destruct (step_sload_ok m i Hm Hs) as (m' & ? & ? & E & H1 & H2 & _);
      [apply (operands_le i 1 Hi); operand_goal E4|]. by exists m'. }
  assert (∀ ops, is_op i ops = true → (2 ≤ operands i)%nat → ∀ f,
    ∃ m', (v1 ← fast_peek i 0; v2 ← fast_peek i 1;
           record_cmp m (program_counter i) v1 v2 (f v1 v2)) = Some m' ∧ maps_ok m' ∧ maps_extend m m') as Hcmp.
  { intros ops _ H2 f. pose proof (operands_le i 2 Hi H2).
    destruct (fast_peek_ok i 0 Hs) as (v1 & -> & _); [lia|].
    destruct (fast_peek_ok i 1 Hs) as (v2 & -> & _); [lia|]. rewrite !obind_Some.
    destruct (record_cmp_ok m (program_counter i) v1 v2 (f v1 v2) Hm) as (m' & old & E & H3 & H4 & _); [lia|].
    by exists m'. }
  destruct (is_op i [0x10; 0x12]) eqn:E5; [apply (Hcmp _ E5); operand_goal E5|].
  destruct (is_op i [0x11; 0x13]) eqn:E6; [apply (Hcmp _ E6); operand_goal E6|].
  destruct (is_op i [0x14]) eqn:E7.
  { pose proof (operands_le i 2 Hi) as H2.
    destruct (fast_peek_ok i 0 Hs) as (v1 & -> & _); [apply (operands_le i 1 Hi); operand_goal E7|].
    destruct (fast_peek_ok i 1 Hs) as (v2 & -> & _); [apply H2; operand_goal E7|]. rewrite !obind_Some.
    destruct (eq_distance_total v1 v2) as [d ->]. rewrite obind_Some.
    destruct (record_cmp_ok m (program_counter i) v1 v2 d Hm) as (m' & old & E & H3 & H4 & _); [lia|].
    by exists m'. }
  destruct (is_op i [0xf1; 0xf2; 0xf4; 0xfa]) eqn:E8.
  - eapply step_call_ok; [done|done| |reflexivity]. apply operands_le; [done|]. operand_goal E8.
  - exists m. split; [done|]. split; [done|]. unfold maps_extend; reflexivity.
Qed.

Definition host_ok (h : FuzzHost) : Prop := maps_ok (maps_of h).

(** Running the instrumentation over a trace of instructions. *)
Definition run_steps (hooks : FuzzHost → Interp → FuzzHost) (h : FuzzHost) (trace : list Interp)
  : option FuzzHost := foldM (step hooks) h trace.

Lemma step_ok hooks h i :
  host_ok (hooks h i) → interp_ok i →
  ∃ h', step hooks h i = Some h' ∧ host_ok h' ∧ evmstate h' = evmstate (hooks h i) ∧
    edge_hashmap (hooks h i) ⊆ edge_hashmap h' ∧ explored_edge h' = Z.of_nat (size (edge_hashmap h')).
Proof.
  intros Hh Hi. unfold step.
  destruct (step_maps_total (hooks h i) (maps_of (hooks h i)) i Hh Hi) as (m & -> & Hm & Hx).
  rewrite obind_Some. destruct (decode_instruction_total (access_pattern (hooks h i)) i Hi) as (ap & ->).
  rewrite obind_Some. eexists. split; [reflexivity|]. split; [|done].
  destruct Hm. by split.
Qed.

(** The instrumentation never panics and keeps its maps well-formed over any trace:
    as long as every instruction finds its operands on the stack and the middleware
    hooks keep the maps, running [step] over a whole trace succeeds; the maps keep
    their size, the byte maps stay within a byte, edges are numbered injectively and
    without gaps, and an edge keeps its number forever. *)
Theorem trace_keeps_maps hooks trace h :
  (∀ h i, host_ok h → host_ok (hooks h i) ∧ edge_hashmap h ⊆ edge_hashmap (hooks h i)) →
  host_ok h → Forall interp_ok trace →
  ∃ h', run_steps hooks h trace = Some h' ∧ host_ok h' ∧ edge_hashmap h ⊆ edge_hashmap h'.
Proof.
  intros Hhooks Hh Ht. unfold run_steps. revert h Hh.
  induction Ht as [|i trace Hi _ IH]; intros h Hh; cbn [foldM]; [by exists h|].
  destruct (Hhooks h i Hh) as [Hh1 Hs1].
  destruct (step_ok hooks h i Hh1 Hi) as (h1 & E & Hok & _ & Hs2 & _). rewrite E, obind_Some.
  destruct (IH h1 Hok) as (h' & E' & Hok' & Hs3). exists h'. split; [done|]. split; [done|].
  etransitivity; [exact Hs1|]. by etransitivity.
Qed.

Lemma FuzzHost_new_ok : host_ok FuzzHost_new.
Proof.
  split; cbn; try apply length_replicate.
  - split; intros k; intros; by simplify_map_eq.
  - apply Forall_replicate. lia.
  - apply Forall_replicate. lia.
Qed.

Lemma trace_keeps_maps_witness :
  ∃ h', run_steps (λ h _, h) FuzzHost_new
          [mkInterp 0x54 1 [7] 9; mkInterp 0x57 5 [40; 1] 9; mkInterp 0x10 6 [3; 4] 9] = Some h' ∧
        host_ok h' ∧ edge_hashmap FuzzHost_new ⊆ edge_hashmap h'.
Proof.
  apply (trace_keeps_maps (λ h _, h)).
  - intros h i Hh. split; [exact Hh|reflexivity].
  - apply FuzzHost_new_ok.
  - repeat constructor; simpl; lia.
Defined.

(** ** Comparisons *)

Lemma lt_distance_zero v1 v2 :
  is_u256 v1 → is_u256 v2 → lt_distance v1 v2 = (if v1 <? v2 then 0 else Z.max 1 (v1 - v2)).
Proof.
  unfold is_u256, lt_distance. intros H1 H2. destruct (Z.leb_spec v2 v1), (Z.ltb_spec v1 v2); try lia.
  rewrite sub256_small by lia. destruct (Z.eqb_spec (v1 - v2) 0); simpl; lia.
Qed.

Lemma gt_distance_zero v1 v2 :
  is_u256 v1 → is_u256 v2 → gt_distance v1 v2 = (if v2 <? v1 then 0 else Z.max 1 (v2 - v1)).
Proof.
  unfold is_u256, gt_distance. intros H1 H2. destruct (Z.leb_spec v1 v2), (Z.ltb_spec v2 v1); try lia.
  rewrite sub256_small by lia. destruct (Z.eqb_spec (v2 - v1) 0); simpl; lia.
Qed.

(** Comparison feedback measures how far a branch is: when [LT] or [GT] is executed,
    the entry of its program counter in [CMP_MAP] becomes the minimum of its old value
    and the distance, all other entries are unchanged, and the distance is 0 exactly
    when the comparison holds (else the difference, at least 1). *)
Theorem cmp_map_records_minimum hooks h i v1 v2 st :
  host_ok (hooks h i) → interp_ok i → stack i = v1 :: v2 :: st →
  is_op i [0x10] = true ∨ is_op i [0x11] = true →
  let lt := is_op i [0x10] in
  ∃ h' old d, step hooks h i = Some h' ∧
    cmp_map (hooks h i) !! Z.to_nat (program_counter i mod MAP_SIZE) = Some old ∧
    cmp_map h' = <[Z.to_nat (program_counter i mod MAP_SIZE) := Z.min old d]> (cmp_map (hooks h i)) ∧
    (d = 0 ↔ if lt then v1 < v2 else v2 < v1) ∧
    (d ≠ 0 → d = Z.max 1 (Z.abs (v1 - v2))).
Proof.
  intros Hh Hi Es Hop lt. pose proof Hi as (Hpc & Hs & _). unfold step.
  assert (is_u256 v1 ∧ is_u256 v2) as [Hv1 Hv2].
  { rewrite Es in Hs. apply Forall_cons in Hs as [? Hs]. by apply Forall_cons in Hs as [? _]. }
  assert (fast_peek i 0 = Some v1 ∧ fast_peek i 1 = Some v2) as [P0 P1] by (unfold fast_peek; by rewrite Es).
  destruct (decode_instruction_total (access_pattern (hooks h i)) i Hi) as (ap & Eap).
  assert (step_maps_of (hooks h i) (maps_of (hooks h i)) i =
          record_cmp (maps_of (hooks h i)) (program_counter i) v1 v2
            (if lt then lt_distance v1 v2 else gt_distance v1 v2)) as E.
  { unfold step_maps_of, lt. destruct Hop as [Hop|Hop]; unfold is_op in *; simpl in Hop;
      rewrite orb_false_r in Hop; apply Z.eqb_eq in Hop; rewrite Hop; simpl;
      by rewrite P0, P1, !obind_Some. }
  rewrite E. destruct (record_cmp_ok (maps_of (hooks h i)) (program_counter i) v1 v2
    (if lt then lt_distance v1 v2 else gt_distance v1 v2) Hh) as (m & old & -> & _ & _ & Ho & Hc); [lia|].
  rewrite obind_Some, Eap, obind_Some. eexists _, old, _. split; [reflexivity|]. split; [exact Ho|].
  split; [exact Hc|]. destruct lt.
  - rewrite lt_distance_zero by done. destruct (Z.ltb_spec v1 v2); (split; [split; intros; lia|lia]).
  - rewrite gt_distance_zero by done. destruct (Z.ltb_spec v2 v1); (split; [split; intros; lia|lia]).
Qed.

Lemma cmp_map_records_minimum_witness :
  let i := mkInterp 0x10 70 [9; 4] 3 in
  let lt := is_op i [0x10] in
  ∃ h' old d, step (λ h _, h) FuzzHost_new i = Some h' ∧
    cmp_map FuzzHost_new !! Z.to_nat (program_counter i mod MAP_SIZE) = Some old ∧
    cmp_map h' = <[Z.to_nat (program_counter i mod MAP_SIZE) := Z.min old d]> (cmp_map FuzzHost_new) ∧
    (d = 0 ↔ if lt then 9 < 4 else 4 < 9) ∧ (d ≠ 0 → d = Z.max 1 (Z.abs (9 - 4))).
Proof.
  intros i. apply (cmp_map_records_minimum (λ h _, h) FuzzHost_new i 9 4 []).
  - apply FuzzHost_new_ok.
  - split; [simpl; lia|]. split; [repeat constructor; simpl; lia|]. vm_compute. lia.
  - reflexivity.
  - left. reflexivity.
Defined.

(** A conditional jump does not record a minimum: [JUMPI] overwrites the entry of its
    program counter in [CMP_MAP] with the raw condition, whatever was recorded there,
    so an entry may increase. *)
Theorem jumpi_overwrites_cmp hooks h i d br st :
  host_ok (hooks h i) → interp_ok i → opcode i = 0x57 → stack i = d :: br :: st →
  ∃ h', step hooks h i = Some h' ∧
    cmp_map h' = <[Z.to_nat (program_counter i mod MAP_SIZE) := br]> (cmp_map (hooks h i)).
Proof.
  intros Hh Hi Hop Es. pose proof Hi as (Hpc & Hs & _). unfold step.
  assert (fast_peek i 0 = Some d ∧ fast_peek i 1 = Some br) as [P0 P1] by (unfold fast_peek; by rewrite Es).
  destruct (decode_instruction_total (access_pattern (hooks h i)) i Hi) as (ap & Eap).
  assert (step_maps_of (hooks h i) (maps_of (hooks h i)) i = step_jumpi (maps_of (hooks h i)) i) as E.
  { unfold step_maps_of, is_op. rewrite Hop. done. }
  rewrite E. unfold step_jumpi. rewrite P0, P1, !obind_Some.
  assert (∃ jd, (if is_zero br then Some (u64 (program_counter i + 1)) else Some (as_u64 d)) = Some jd)
    as [jd ->] by (destruct (is_zero br); by eexists). rewrite obind_Some.
  destruct (count_edge_ok (maps_of (hooks h i)) (edge_hash jd (program_counter i)) Hh) as (m1 & -> & Hm1 & _ & Hc & _).
  rewrite obind_Some. pose proof map_size_Z. pose proof (Z.mod_pos_bound (program_counter i) MAP_SIZE ltac:(done)).
  rewrite map_set_spec by (rewrite (mo_cmp _ Hm1); lia). rewrite obind_Some, obind_Some, Eap, obind_Some.
  eexists. split; [reflexivity|]. cbn. by rewrite Hc.
Qed.

Lemma jumpi_overwrites_cmp_witness :
  ∃ h', step (λ h _, h) FuzzHost_new (mkInterp 0x57 70 [9; 4] 3) = Some h' ∧
    cmp_map h' = <[70%nat := 4]> (cmp_map FuzzHost_new).
Proof.
  apply (jumpi_overwrites_cmp (λ h _, h) FuzzHost_new (mkInterp 0x57 70 [9; 4] 3) 9 4 []).
  - apply FuzzHost_new_ok.
  - split; [simpl; lia|]. split; [repeat constructor; simpl; lia|]. vm_compute. lia.
  - reflexivity.
  - reflexivity.
Defined.
