(* ===== verification/HostCall.v ===== *)
(** * Calls, creations and code of the host ([src/src/evm/host.rs])

    The rest of [FuzzHost]: the code and selector tables, the middlewares, and the
    handlers [call], [create], [log] and [set_code] that the interpreter calls back.
    The main loop of the interpreter ties the knot: an instruction may call the host,
    which runs another interpreter.  The semantics of one instruction is a parameter. *)
From S2P Require Import Prelude Types Evm Host.
#[local] Open Scope Z_scope.

(** ** Data *)

Inductive MiddlewareType := OnChain | Concolic | Flashloan | InstructionCoverage.
#[export] Instance MiddlewareType_eq_dec : EqDecision MiddlewareType.
Proof. solve_decision. Defined.

Inductive CallMiddlewareReturn :=
| MwContinue
| ReturnRevert
| ReturnSuccess (b : list byte).

(** [FuzzHost] with the fields that only the handlers use, and the statics
    [GLOBAL_CALL_CONTEXT], [ABI_MAX_SIZE], [ARBITRARY_CALL], [COVERAGE_NOT_CHANGED] and
    [IS_FAST_CALL].  [core] is what a step reads and updates; [middlewares] lists the
    registered middlewares in the order of iteration. *)
Record VMHost (E : Type) := mkVMHost {
  core : FuzzHost;
  env : E;
  code : gmap Z (list byte);
  hash_to_address : gmap (list byte) (gset Z);
  address_to_hash : gmap Z (list (list byte));
  pc_to_addresses : gmap Z (gset Z);
  pc_to_call_hash : gmap Z (gset (list byte));
  middlewares_enabled : bool;
  middlewares : list MiddlewareType;
  middlewares_latent_call_actions : list CallMiddlewareReturn;
  origin : EVMAddress;
  bug_hit : bool;
  call_count : Z;
  setcode_data : gmap Z (list byte);
  global_call_context : option CallContext;
  abi_max_size : list Z;
  arbitrary_call : bool;
  coverage_not_changed : Z;
  is_fast_call : bool
}.
Arguments mkVMHost {E}.
Arguments core {E}.
Arguments env {E}.
Arguments code {E}.
Arguments hash_to_address {E}.
Arguments address_to_hash {E}.
Arguments pc_to_addresses {E}.
Arguments pc_to_call_hash {E}.
Arguments middlewares_enabled {E}.
Arguments middlewares {E}.
Arguments middlewares_latent_call_actions {E}.
Arguments origin {E}.
Arguments bug_hit {E}.
Arguments call_count {E}.
Arguments setcode_data {E}.
Arguments global_call_context {E}.
Arguments abi_max_size {E}.
Arguments arbitrary_call {E}.
Arguments coverage_not_changed {E}.
Arguments is_fast_call {E}.

Section setters.
Context {E : Type}.
Implicit Types h : VMHost E.

Definition set_core (x : FuzzHost) h : VMHost E :=
  mkVMHost x (env h) (code h) (hash_to_address h) (address_to_hash h) (pc_to_addresses h) (pc_to_call_hash h)
    (middlewares_enabled h) (middlewares h) (middlewares_latent_call_actions h) (origin h) (bug_hit h)
    (call_count h) (setcode_data h) (global_call_context h) (abi_max_size h) (arbitrary_call h)
    (coverage_not_changed h) (is_fast_call h).
Definition set_host_env (x : E) h : VMHost E :=
  mkVMHost (core h) x (code h) (hash_to_address h) (address_to_hash h) (pc_to_addresses h) (pc_to_call_hash h)
    (middlewares_enabled h) (middlewares h) (middlewares_latent_call_actions h) (origin h) (bug_hit h)
    (call_count h) (setcode_data h) (global_call_context h) (abi_max_size h) (arbitrary_call h)
    (coverage_not_changed h) (is_fast_call h).
Definition set_code_map (x : gmap Z (list byte)) h : VMHost E :=
  mkVMHost (core h) (env h) x (hash_to_address h) (address_to_hash h) (pc_to_addresses h) (pc_to_call_hash h)
    (middlewares_enabled h) (middlewares h) (middlewares_latent_call_actions h) (origin h) (bug_hit h)
    (call_count h) (setcode_data h) (global_call_context h) (abi_max_size h) (arbitrary_call h)
    (coverage_not_changed h) (is_fast_call h).
Definition set_hash_to_address (x : gmap (list byte) (gset Z)) h : VMHost E :=
  mkVMHost (core h) (env h) (code h) x (address_to_hash h) (pc_to_addresses h) (pc_to_call_hash h)
    (middlewares_enabled h) (middlewares h) (middlewares_latent_call_actions h) (origin h) (bug_hit h)
    (call_count h) (setcode_data h) (global_call_context h) (abi_max_size h) (arbitrary_call h)
    (coverage_not_changed h) (is_fast_call h).
Definition set_address_to_hash (x : gmap Z (list (list byte))) h : VMHost E :=
  mkVMHost (core h) (env h) (code h) (hash_to_address h) x (pc_to_addresses h) (pc_to_call_hash h)
    (middlewares_enabled h) (middlewares h) (middlewares_latent_call_actions h) (origin h) (bug_hit h)
    (call_count h) (setcode_data h) (global_call_context h) (abi_max_size h) (arbitrary_call h)
    (coverage_not_changed h) (is_fast_call h).
Definition set_pc_to_addresses (x : gmap Z (gset Z)) h : VMHost E :=
  mkVMHost (core h) (env h) (code h) (hash_to_address h) (address_to_hash h) x (pc_to_call_hash h)
    (middlewares_enabled h) (middlewares h) (middlewares_latent_call_actions h) (origin h) (bug_hit h)
    (call_count h) (setcode_data h) (global_call_context h) (abi_max_size h) (arbitrary_call h)
    (coverage_not_changed h) (is_fast_call h).
Definition set_pc_to_call_hash (x : gmap Z (gset (list byte))) h : VMHost E :=
  mkVMHost (core h) (env h) (code h) (hash_to_address h) (address_to_hash h) (pc_to_addresses h) x
    (middlewares_enabled h) (middlewares h) (middlewares_latent_call_actions h) (origin h) (bug_hit h)
    (call_count h) (setcode_data h) (global_call_context h) (abi_max_size h) (arbitrary_call h)
    (coverage_not_changed h) (is_fast_call h).
Definition set_middlewares_enabled (x : bool) h : VMHost E :=
  mkVMHost (core h) (env h) (code h) (hash_to_address h) (address_to_hash h) (pc_to_addresses h)
    (pc_to_call_hash h) x (middlewares h) (middlewares_latent_call_actions h) (origin h) (bug_hit h) (call_count
    h) (setcode_data h) (global_call_context h) (abi_max_size h) (arbitrary_call h) (coverage_not_changed h)
    (is_fast_call h).
Definition set_middlewares (x : list MiddlewareType) h : VMHost E :=
  mkVMHost (core h) (env h) (code h) (hash_to_address h) (address_to_hash h) (pc_to_addresses h)
    (pc_to_call_hash h) (middlewares_enabled h) x (middlewares_latent_call_actions h) (origin h) (bug_hit h)
    (call_count h) (setcode_data h) (global_call_context h) (abi_max_size h) (arbitrary_call h)
    (coverage_not_changed h) (is_fast_call h).
Definition set_middlewares_latent_call_actions (x : list CallMiddlewareReturn) h : VMHost E :=
  mkVMHost (core h) (env h) (code h) (hash_to_address h) (address_to_hash h) (pc_to_addresses h)
    (pc_to_call_hash h) (middlewares_enabled h) (middlewares h) x (origin h) (bug_hit h) (call_count h)
    (setcode_data h) (global_call_context h) (abi_max_size h) (arbitrary_call h) (coverage_not_changed h)
    (is_fast_call h).
Definition set_origin (x : EVMAddress) h : VMHost E :=
  mkVMHost (core h) (env h) (code h) (hash_to_address h) (address_to_hash h) (pc_to_addresses h)
    (pc_to_call_hash h) (middlewares_enabled h) (middlewares h) (middlewares_latent_call_actions h) x (bug_hit
    h) (call_count h) (setcode_data h) (global_call_context h) (abi_max_size h) (arbitrary_call h)
    (coverage_not_changed h) (is_fast_call h).
Definition set_host_bug_hit (x : bool) h : VMHost E :=
  mkVMHost (core h) (env h) (code h) (hash_to_address h) (address_to_hash h) (pc_to_addresses h)
    (pc_to_call_hash h) (middlewares_enabled h) (middlewares h) (middlewares_latent_call_actions h) (origin h) x
    (call_count h) (setcode_data h) (global_call_context h) (abi_max_size h) (arbitrary_call h)
    (coverage_not_changed h) (is_fast_call h).
Definition set_call_count (x : Z) h : VMHost E :=
  mkVMHost (core h) (env h) (code h) (hash_to_address h) (address_to_hash h) (pc_to_addresses h)
    (pc_to_call_hash h) (middlewares_enabled h) (middlewares h) (middlewares_latent_call_actions h) (origin h)
    (bug_hit h) x (setcode_data h) (global_call_context h) (abi_max_size h) (arbitrary_call h)
    (coverage_not_changed h) (is_fast_call h).
Definition set_setcode_data (x : gmap Z (list byte)) h : VMHost E :=
  mkVMHost (core h) (env h) (code h) (hash_to_address h) (address_to_hash h) (pc_to_addresses h)
    (pc_to_call_hash h) (middlewares_enabled h) (middlewares h) (middlewares_latent_call_actions h) (origin h)
    (bug_hit h) (call_count h) x (global_call_context h) (abi_max_size h) (arbitrary_call h)
    (coverage_not_changed h) (is_fast_call h).
Definition set_global_call_context (x : option CallContext) h : VMHost E :=
  mkVMHost (core h) (env h) (code h) (hash_to_address h) (address_to_hash h) (pc_to_addresses h)
    (pc_to_call_hash h) (middlewares_enabled h) (middlewares h) (middlewares_latent_call_actions h) (origin h)
    (bug_hit h) (call_count h) (setcode_data h) x (abi_max_size h) (arbitrary_call h) (coverage_not_changed h)
    (is_fast_call h).
Definition set_abi_max_size (x : list Z) h : VMHost E :=
  mkVMHost (core h) (env h) (code h) (hash_to_address h) (address_to_hash h) (pc_to_addresses h)
    (pc_to_call_hash h) (middlewares_enabled h) (middlewares h) (middlewares_latent_call_actions h) (origin h)
    (bug_hit h) (call_count h) (setcode_data h) (global_call_context h) x (arbitrary_call h)
    (coverage_not_changed h) (is_fast_call h).
Definition set_arbitrary_call (x : bool) h : VMHost E :=
  mkVMHost (core h) (env h) (code h) (hash_to_address h) (address_to_hash h) (pc_to_addresses h)
    (pc_to_call_hash h) (middlewares_enabled h) (middlewares h) (middlewares_latent_call_actions h) (origin h)
    (bug_hit h) (call_count h) (setcode_data h) (global_call_context h) (abi_max_size h) x (coverage_not_changed
    h) (is_fast_call h).
Definition set_coverage_not_changed (x : Z) h : VMHost E :=
  mkVMHost (core h) (env h) (code h) (hash_to_address h) (address_to_hash h) (pc_to_addresses h)
    (pc_to_call_hash h) (middlewares_enabled h) (middlewares h) (middlewares_latent_call_actions h) (origin h)
    (bug_hit h) (call_count h) (setcode_data h) (global_call_context h) (abi_max_size h) (arbitrary_call h) x
    (is_fast_call h).
Definition set_is_fast_call (x : bool) h : VMHost E :=
  mkVMHost (core h) (env h) (code h) (hash_to_address h) (address_to_hash h) (pc_to_addresses h)
    (pc_to_call_hash h) (middlewares_enabled h) (middlewares h) (middlewares_latent_call_actions h) (origin h)
    (bug_hit h) (call_count h) (setcode_data h) (global_call_context h) (abi_max_size h) (arbitrary_call h)
    (coverage_not_changed h) x.
End setters.


(** [struct CallInputs] and [struct CreateInputs] of revm, as far as they are used. *)
Record CallInputs := mkCallInputs { cl_contract : EVMAddress; cl_input : list byte; cl_context : CallContext }.
Record CreateInputs := mkCreateInputs { ci_caller : EVMAddress; ci_value : EVMU256; ci_init_code : list byte }.

(** What the interpreter gets back. *)
Record CallResult := mkCallResult { cr_result : InstructionResult; cr_output : list byte }.
Record CreateResult := mkCreateResult {
  cre_result : InstructionResult; cre_address : option EVMAddress; cre_output : list byte }.

(** [trait Middleware] *)
Record Middleware (E S : Type) := mkMiddleware {
  mw_on_step : Interpreter → VMHost E → S → option (Interpreter * VMHost E * S);
  mw_on_insert : list byte → EVMAddress → VMHost E → S → option (list byte * VMHost E * S)
}.
Arguments mw_on_step {E S}.
Arguments mw_on_insert {E S}.

(** ** Selector tables *)

Section tables.
Context {E : Type}.
Implicit Types h : VMHost E.

(** The [match .. get_mut(&hash)] that inserts or creates. *)
Definition add_address_of_hash (m : gmap (list byte) (gset Z)) (hash : list byte) (address : EVMAddress)
  : gmap (list byte) (gset Z) :=
  match m !! hash with
  | Some s => <[hash := {[address]} ∪ s]> m
  | None => <[hash := {[address]}]> m
  end.

(** The [match .. get_mut(&address)] that pushes or creates. *)
Definition push_hash (m : gmap Z (list (list byte))) (address : EVMAddress) (hash : list byte)
  : gmap Z (list (list byte)) :=
  match m !! address with
  | Some s => <[address := s ++ [hash]]> m
  | None => <[address := [hash]]> m
  end.

(** [initialize]; the tables are iterated in some order. *)
Definition initialize (table : gmap (list byte) (gset Z)) h : VMHost E :=
  let per_key m (kv : list byte * gset Z) := fold_left (λ m a, push_hash m a kv.1) (elements kv.2) m in
  set_address_to_hash (fold_left per_key (map_to_list table) (address_to_hash h))
    (set_hash_to_address table h).

(** [add_hashes] *)
Definition add_hashes (address : EVMAddress) (hashes : list (list byte)) h : VMHost E :=
  let h := set_address_to_hash (<[address := hashes]> (address_to_hash h)) h in
  set_hash_to_address (fold_left (λ m hash, add_address_of_hash m hash address) hashes (hash_to_address h)) h.

(** [add_one_hashes] *)
Definition add_one_hashes (address : EVMAddress) (hash : list byte) h : VMHost E :=
  let h := set_address_to_hash (push_hash (address_to_hash h) address hash) h in
  set_hash_to_address (add_address_of_hash (hash_to_address h) hash address) h.

(** [set_codedata] and [clear_codedata] *)
Definition set_codedata (address : EVMAddress) (c : list byte) h : VMHost E :=
  set_setcode_data (<[address := c]> (setcode_data h)) h.
Definition clear_codedata h : VMHost E := set_setcode_data ∅ h.

(** [sstore] and [log]; [panic_on_bug] is the static [PANIC_ON_BUG]. *)
Definition host_sstore (address : EVMAddress) (index value : EVMU256) h : VMHost E :=
  set_core (sstore (core h) address index value) h.
Definition log (panic_on_bug : bool) (topics : list EVMU256) h : option (VMHost E) :=
  if (length topics =? 1)%nat && (default 0 (last topics) mod 256 =? 0x37) then
    if panic_on_bug then None else Some (set_host_bug_hit true h)
  else Some h.
End tables.

(** [CONTROL_LEAK_THRESHOLD], [UNBOUND_CALL_THRESHOLD] *)
Definition CONTROL_LEAK_THRESHOLD : nat := 2.
Definition UNBOUND_CALL_THRESHOLD : nat := 3.

(** [hash.resize(4, 0)] *)
Definition selector (input : list byte) : list byte := take 4 input ++ replicate (4 - length input) x00.

(** The view of the interpreter that [step] has. *)
Definition view (i : Interpreter) : Interp :=
  mkInterp (default 0 (b2z <$> ct_bytecode (contract i) !! Z.to_nat (instruction_pointer i)))
    (instruction_pointer i) (reverse (it_stack i)) (cc_address (ct_context (contract i))).

(** ** The handlers *)

(** What the handlers use of the world: the code analysis of revm, the hash of
    [DefaultHasher], the random addresses, the middlewares and the settings. *)
Record Config (E S : Type) := mkConfig {
  to_analysed : list byte → list byte;
  default_hash : list byte → Z;
  random_address : S → EVMAddress * S;
  flashloan_middleware : option (Middleware E S);
  middleware_of : MiddlewareType → Middleware E S;
  call_until : Z;
  active_match_ext_call : bool
}.
Arguments to_analysed {E S}.
Arguments default_hash {E S}.
Arguments random_address {E S}.
Arguments flashloan_middleware {E S}.
Arguments middleware_of {E S}.
Arguments call_until {E S}.
Arguments active_match_ext_call {E S}.

Section handlers.
Context {E S : Type} (cfg : Config E S).
Implicit Types (h : VMHost E) (s : S).

Definition on_insert_step (st : list byte * VMHost E * S) (address : EVMAddress) (m : Middleware E S)
  : option (list byte * VMHost E * S) :=
  let '(c, h, s) := st in mw_on_insert m c address h s.

(** [set_code] *)
Definition set_code (address : EVMAddress) (c : list byte) h s : option (VMHost E * S) :=
  '(c, h, s) ← (if middlewares_enabled h then
      st ← match flashloan_middleware cfg with
           | Some m => on_insert_step (c, h, s) address m
           | None => Some (c, h, s)
           end;
      foldM (λ st ty, on_insert_step st address (middleware_of cfg ty)) st (middlewares st.1.2)
    else Some (c, h, s));
  match code h !! address with
  | Some _ => None
  | None => Some (set_code_map (<[address := to_analysed cfg c]> (code h)) h, s)
  end.

Definition on_step_step (st : Interpreter * VMHost E * S) (m : Middleware E S)
  : option (Interpreter * VMHost E * S) :=
  let '(i, h, s) := st in mw_on_step m i h s.

(** The middlewares of a step, and the code they ask to install. *)
Definition run_middlewares (i : Interpreter) h s : option (Interpreter * VMHost E * S) :=
  '(i, h, s) ← match flashloan_middleware cfg with
               | Some m => on_step_step (i, h, s) m
               | None => Some (i, h, s)
               end;
  let h := clear_codedata h in
  '(i, h, s) ← foldM (λ st ty, on_step_step st (middleware_of cfg ty)) (i, h, s) (middlewares h);
  '(h, s) ← foldM (λ '(h, s) '(a, c), set_code a c h s) (h, s) (map_to_list (setcode_data h));
  Some (i, h, s).

(** [Host::step], the whole of it. *)
Definition host_step (i : Interpreter) h s : option (Interpreter * VMHost E * S) :=
  '(i, h, s) ← (if middlewares_enabled h then run_middlewares i h s else Some (i, h, s));
  c ← step (λ (c : FuzzHost) _, c) (core h) (view i);
  Some (i, set_core c h, s).

(** The handlers below run another interpreter. *)
Context (run : Interpreter → VMHost E → S → option (InstructionResult * Interpreter * VMHost E * S)).

(** [create] *)
Definition create (inputs : CreateInputs) h s : option (CreateResult * VMHost E * S) :=
  let '(r_addr, s) := random_address cfg s in
  let ctx := mkCallContext r_addr (ci_caller inputs) r_addr (ci_value inputs) SchemeCall in
  '(ret, i, h, s) ← run (Interpreter_new (mkContract [] (ci_init_code inputs) ctx)) h s;
  if decide (ret = Continue) then
    v ← return_value i;
    '(h, s) ← set_code r_addr v h s;
    Some (mkCreateResult Continue (Some r_addr) v, h, s)
  else Some (mkCreateResult ret (Some r_addr) [], h, s).

(** [record_func_hash!] *)
Definition record_func_hash (hash : list byte) h : option (VMHost E) :=
  m ← map_set (abi_max_size h) (default_hash cfg hash mod MAP_SIZE) (ret_size (core h));
  Some (set_abi_max_size m h).

(** The loop over [middlewares_latent_call_actions]: the first action that is not
    [Continue] decides. *)
Fixpoint latent_result (l : list CallMiddlewareReturn) : option CallResult :=
  match l with
  | [] => None
  | MwContinue :: l' => latent_result l'
  | ReturnRevert :: _ => Some (mkCallResult Revert [])
  | ReturnSuccess b :: _ => Some (mkCallResult Continue b)
  end.

(** The check of unbounded calls: the call data, with its selector replaced when the
    program counter has seen many selectors. *)
Definition unbound_call (hash input_seq : list byte) (code_address : EVMAddress) h
  : option (list byte * VMHost E) :=
  let pc := host_pc (core h) in
  let seen := {[hash]} ∪ default ∅ (pc_to_call_hash h !! pc) in
  let h := set_pc_to_call_hash (<[pc := seen]> (pc_to_call_hash h)) h in
  if (UNBOUND_CALL_THRESHOLD <? size seen)%nat && (4 <=? length input_seq)%nat then
    let h := set_arbitrary_call true h in
    match address_to_hash h !! code_address with
    | None => Some (input_seq, h)
    | Some hashes =>
        if decide (hashes = []) then None
        else
          key ← hashes !! Z.to_nat (foldr Z.add 0 (map b2z hash) mod Z.of_nat (length hashes));
          Some (key ++ drop 4 input_seq, h)
    end
  else Some (input_seq, h).

(** Running the code of a contract, and going back to the caller's context. *)
Definition run_code (input_bytes c : list byte) (ctx : CallContext) (old : option CallContext) h s
  : option (CallResult * VMHost E * S) :=
  '(ret, i, h, s) ← run (Interpreter_new (mkContract input_bytes c ctx)) h s;
  v ← return_value i;
  Some (mkCallResult ret v, set_global_call_context old h, s).

(** The end of [call], after the checks. *)
Definition dispatch (inputs : CallInputs) (hash input_bytes : list byte) h s
  : option (CallResult * VMHost E * S) :=
  let old := global_call_context h in
  let ctx := cl_context inputs in
  let h := set_global_call_context (Some ctx) h in
  let by_address :=
    match code h !! cc_code_address ctx with
    | Some c => run_code input_bytes c ctx old h s
    | None =>
        let h := set_global_call_context old h in
        if decide (hash = replicate 4 x00) then Some (mkCallResult Continue [], h, s)
        else Some (mkCallResult Revert [], h, s)
    end in
  match hash_to_address h !! hash with
  | Some loc =>
      if active_match_ext_call cfg && negb (bool_decide (cl_contract inputs ∈ loc)) then
        match elements loc with
        | [a] => c ← code h !! a; run_code input_bytes c ctx old h s
        | _ => None
        end
      else by_address
  | None => by_address
  end.

(** [call] *)
Definition call (inputs : CallInputs) h s : option (CallResult * VMHost E * S) :=
  let h := set_call_count (wrap 32 (call_count h + 1)) h in
  if call_until cfg <=? call_count h then Some (mkCallResult ControlLeak [], h, s)
  else
    let hash := selector (cl_input inputs) in
    let middleware_result := latent_result (middlewares_latent_call_actions h) in
    let h := set_middlewares_latent_call_actions [] h in
    match middleware_result with
    | Some r => Some (r, h, s)
    | None =>
        if origin h =? cl_contract inputs then
          h ← record_func_hash hash h; Some (mkCallResult ControlLeak [], h, s)
        else
          '(input_seq, h) ← unbound_call hash (cl_input inputs) (cc_code_address (cl_context inputs)) h;
          if host_pc (core h) =? 0 then None
          else
            let pc := host_pc (core h) in
            let addresses := {[cl_contract inputs]} ∪ default ∅ (pc_to_addresses h !! pc) in
            let h := set_pc_to_addresses (<[pc := addresses]> (pc_to_addresses h)) h in
            if (CONTROL_LEAK_THRESHOLD <? size addresses)%nat then
              h ← record_func_hash hash h; Some (mkCallResult ControlLeak [], h, s)
            else dispatch inputs hash input_seq h s
    end.
End handlers.

(** ** The main loop of the interpreter *)

Section interpreter.
Context {E S : Type} (cfg : Config E S).

Definition call_handler : Type := CallInputs → VMHost E → S → option (CallResult * VMHost E * S).
Definition create_handler : Type := CreateInputs → VMHost E → S → option (CreateResult * VMHost E * S).

(** One instruction of revm, given the handlers of the host. *)
Context (eval : call_handler → create_handler → Interpreter → VMHost E → S →
                option (Interpreter * VMHost E * S)).

(** [Interpreter::run_inspect]; [None] is a panic or an execution longer than the fuel. *)
Fixpoint run_inspect (fuel : nat) (i : Interpreter) (h : VMHost E) (s : S)
  : option (InstructionResult * Interpreter * VMHost E * S) :=
  if decide (instruction_result i = Continue) then
    match fuel with
    | O => None
    | Datatypes.S fuel =>
        '(i, h, s) ← host_step cfg i h s;
        '(i, h, s) ← eval (call cfg (run_inspect fuel)) (create cfg (run_inspect fuel)) i h s;
        run_inspect fuel i h s
    end
  else Some (instruction_result i, i, h, s).
End interpreter.
