(* ===== verification/HostCallProps.v ===== *)
(** * Properties of the host's handlers

    The interface between the interpreter, the middlewares and the host ([EvalLaws],
    [MiddlewareLaws]), what nested executions keep, and the branches of [call] and
    [create]. *)
From S2P Require Import Prelude Types Evm Host HostProps HostCall.
#[local] Open Scope Z_scope.

(** ** What an execution keeps *)

Section extends.
Context {E : Type}.

(** The call context and the suspended executions are the same, installed code stays,
    and the targets seen at a program counter only grow. *)
Record extends (h h' : VMHost E) : Prop := mkExtends {
  ex_context : global_call_context h' = global_call_context h;
  ex_post : post_execution (evmstate (core h')) = post_execution (evmstate (core h));
  ex_code : code h ⊆ code h';
  ex_targets pc a : a ∈ default ∅ (pc_to_addresses h !! pc) → a ∈ default ∅ (pc_to_addresses h' !! pc)
}.

#[export] Instance extends_preorder : PreOrder extends.
Proof.
  split.
  - intros h. by split.
  - intros h1 h2 h3 [C1 P1 K1 T1] [C2 P2 K2 T2]. split; [congruence|congruence|by etransitivity|auto].
Qed.

(** Updates that leave those fields alone. *)
Lemma extends_eq (h h' : VMHost E) :
  global_call_context h' = global_call_context h →
  post_execution (evmstate (core h')) = post_execution (evmstate (core h)) →
  code h' = code h → pc_to_addresses h' = pc_to_addresses h → extends h h'.
Proof. intros ? ? Hc Ht. split; [done|done|by rewrite Hc|intros pc a; by rewrite Ht]. Qed.

Lemma sstore_post h a k v : post_execution (evmstate (sstore h a k v)) = post_execution (evmstate h).
Proof. unfold sstore, set_evmstate, evmstate_insert. cbn [evmstate]. by case_match. Qed.

Lemma extends_sstore a k v (h : VMHost E) : extends h (host_sstore a k v h).
Proof. apply extends_eq; try done. apply sstore_post. Qed.

Lemma extends_log b topics (h h' : VMHost E) : log b topics h = Some h' → extends h h'.
Proof. unfold log. repeat case_match; try done; intros [= <-]; [by apply extends_eq|reflexivity]. Qed.

Lemma step_evmstate h i h' : step (λ c _, c) h i = Some h' → evmstate h' = evmstate h.
Proof.
  unfold step. destruct (step_maps_of _ _ _); [|done]. rewrite obind_Some.
  destruct (decode_instruction _ _); [|done]. rewrite obind_Some. by intros [= <-].
Qed.
End extends.

(** ** Interfaces *)

(** An instruction changes the host and the state only through the handlers and the storage
    and log operations of the [Host] trait: it keeps every preorder that those keep. *)
Class EvalLaws {E S : Type}
    (eval : @call_handler E S → @create_handler E S → Interpreter → VMHost E → S →
            option (Interpreter * VMHost E * S)) := {
  eval_frame (P : VMHost E * S → VMHost E * S → Prop) call_h create_h :
    PreOrder P →
    (∀ a k v h s, P (h, s) (host_sstore a k v h, s)) →
    (∀ b topics h h' s, log b topics h = Some h' → P (h, s) (h', s)) →
    (∀ x h s r h' s', call_h x h s = Some (r, h', s') → P (h, s) (h', s')) →
    (∀ x h s r h' s', create_h x h s = Some (r, h', s') → P (h, s) (h', s')) →
    ∀ i h s i' h' s', eval call_h create_h i h s = Some (i', h', s') → P (h, s) (h', s')
}.

(** The registered middlewares keep what an execution keeps. *)
Definition middleware_ok {E S} (m : Middleware E S) : Prop :=
  (∀ i h s i' h' s', mw_on_step m i h s = Some (i', h', s') → extends h h') ∧
  (∀ c a h s c' h' s', mw_on_insert m c a h s = Some (c', h', s') → extends h h').

Class MiddlewareLaws {E S : Type} (cfg : Config E S) := {
  flashloan_ok m : flashloan_middleware cfg = Some m → middleware_ok m;
  registered_ok ty : middleware_ok (middleware_of cfg ty)
}.

Section frames.
Context {E S : Type} (cfg : Config E S) `{!MiddlewareLaws cfg}.
Implicit Types (h : VMHost E) (s : S).

Lemma on_insert_extends l address : ∀ c h s c' h' s',
  foldM (λ st ty, on_insert_step st address (middleware_of cfg ty)) (c, h, s) l = Some (c', h', s') →
  extends h h'.
Proof.
  induction l as [|ty l IH]; intros c h s c' h' s'; cbn [foldM]; [by intros [= _ <- _]|].
  unfold on_insert_step at 1. intros ([[c1 h1] s1] & E1 & E2)%bind_Some. apply IH in E2.
  apply (proj2 (registered_ok ty)) in E1. by etransitivity.
Qed.

Lemma on_step_extends l : ∀ i h s i' h' s',
  foldM (λ st ty, on_step_step st (middleware_of cfg ty)) (i, h, s) l = Some (i', h', s') → extends h h'.
Proof.
  induction l as [|ty l IH]; intros i h s i' h' s'; cbn [foldM]; [by intros [= _ <- _]|].
  unfold on_step_step at 1. intros ([[i1 h1] s1] & E1 & E2)%bind_Some. apply IH in E2.
  apply (proj1 (registered_ok ty)) in E1. by etransitivity.
Qed.

Lemma set_code_extends address c h s h' s' : set_code cfg address c h s = Some (h', s') → extends h h'.
Proof.
  unfold set_code. intros ([[c1 h1] s1] & E1 & E2)%bind_Some.
  assert (extends h h1) as H1.
  { destruct (middlewares_enabled h); [|by injection E1 as _ <- _].
    apply bind_Some in E1 as ([[c2 h2] s2] & E0 & E1). apply on_insert_extends in E1.
    destruct (flashloan_middleware cfg) as [m|] eqn:Em; [|by injection E0 as _ <- _].
    apply (proj2 (flashloan_ok m Em)) in E0. by etransitivity. }
  destruct (code h1 !! address) eqn:Ec; [done|]. injection E2 as <- _. etransitivity; [exact H1|].
  split; try done. by apply insert_subseteq.
Qed.

Lemma set_code_loop_extends l : ∀ h s h' s',
  foldM (λ '(h, s) '(a, c), set_code cfg a c h s) (h, s) l = Some (h', s') → extends h h'.
Proof.
  induction l as [|[a c] l IH]; intros h s h' s'; cbn [foldM]; [by intros [= <- _]|].
  intros ([h1 s1] & E1%set_code_extends & E2%IH)%bind_Some. by etransitivity.
Qed.

Lemma host_step_extends i h s i' h' s' : host_step cfg i h s = Some (i', h', s') → extends h h'.
Proof.
  unfold host_step. intros ([[i1 h1] s1] & E1 & E2)%bind_Some.
  assert (extends h h1) as H1.
  { destruct (middlewares_enabled h); [|by injection E1 as _ <- _]. unfold run_middlewares in E1.
    apply bind_Some in E1 as ([[i2 h2] s2] & E0 & E1). apply bind_Some in E1 as ([[i3 h3] s3] & E3 & E1).
    apply bind_Some in E1 as ([h4 s4] & E4 & E1). injection E1 as _ <- _.
    apply on_step_extends in E3. apply set_code_loop_extends in E4.
    assert (extends h h2) as H2.
    { destruct (flashloan_middleware cfg) as [m|] eqn:Em; [|by injection E0 as _ <- _].
      by apply (proj1 (flashloan_ok m Em)) in E0. }
    etransitivity; [exact H2|]. etransitivity; [|exact E4]. etransitivity; [|exact E3].
    by apply extends_eq. }
  apply bind_Some in E2 as (c & E2%step_evmstate & E3). injection E3 as _ <- _.
  etransitivity; [exact H1|]. apply extends_eq; try done. cbn [set_core core]. by rewrite E2.
Qed.

(** ** The handlers *)

Section handlers.
Context (run : Interpreter → VMHost E → S → option (InstructionResult * Interpreter * VMHost E * S)).
Context (run_extends : ∀ i h s r i' h' s', run i h s = Some (r, i', h', s') → extends h h').

Lemma create_extends x h s r h' s' : create cfg run x h s = Some (r, h', s') → extends h h'.
Proof.
  unfold create. destruct (random_address cfg s) as [a s0].
  intros ([[[ret i] h1] s1] & E1%run_extends & E2)%bind_Some. case_decide.
  - apply bind_Some in E2 as (v & _ & E2). apply bind_Some in E2 as ([h2 s2] & E2%set_code_extends & E3).
    injection E3 as _ <- _. by etransitivity.
  - by injection E2 as _ <- _.
Qed.

(** Running code under another context: everything but the context is kept. *)
Lemma run_code_extends bytes c ctx h0 h s r h' s' :
  extends h0 (set_global_call_context (global_call_context h0) h) →
  run_code run bytes c ctx (global_call_context h0) h s = Some (r, h', s') → extends h0 h'.
Proof.
  intros H0. unfold run_code.
  intros ([[[ret i] h1] s1] & [C P K T]%run_extends & E2)%bind_Some.
  apply bind_Some in E2 as (v & _ & E2). injection E2 as _ <- _. destruct H0 as [C0 P0 K0 T0].
  split; [done| | |]; cbn in *.
  - by rewrite P.
  - by etransitivity.
  - auto.
Qed.

Lemma dispatch_extends x hash bytes h s r h' s' :
  dispatch cfg run x hash bytes h s = Some (r, h', s') → extends h h'.
Proof.
  unfold dispatch. set (h1 := set_global_call_context _ h).
  assert (extends h (set_global_call_context (global_call_context h) h1)) as H1 by (by apply extends_eq).
  assert (∀ c, run_code run bytes c (cl_context x) (global_call_context h) h1 s = Some (r, h', s') →
    extends h h') as Hrun by (intros c; by apply run_code_extends).
  assert (match code h1 !! cc_code_address (cl_context x) with
    | Some c => run_code run bytes c (cl_context x) (global_call_context h) h1 s
    | None => if decide (hash = replicate 4 x00)
              then Some (mkCallResult Continue [], set_global_call_context (global_call_context h) h1, s)
              else Some (mkCallResult Revert [], set_global_call_context (global_call_context h) h1, s)
    end = Some (r, h', s') → extends h h') as Haddr.
  { destruct (code h1 !! _); [by apply Hrun|]. case_decide; by intros [= _ <- _]. }
  destruct (hash_to_address h1 !! hash) as [loc|]; [|exact Haddr].
  destruct (active_match_ext_call cfg && _); [|exact Haddr].
  destruct (elements loc) as [|a [|]]; try done.
  intros (c & _ & E2)%bind_Some. by apply (Hrun c).
Qed.

Lemma record_func_hash_spec hash h :
  length (abi_max_size h) = map_size → ∃ m, record_func_hash cfg hash h = Some (set_abi_max_size m h).
Proof.
  intros Hl. unfold record_func_hash. pose proof map_size_Z.
  pose proof (Z.mod_pos_bound (default_hash cfg hash) MAP_SIZE ltac:(done)).
  rewrite map_set_spec by lia. rewrite obind_Some. by eexists.
Qed.

Lemma record_func_hash_extends hash h h' : record_func_hash cfg hash h = Some h' → extends h h'.
Proof. unfold record_func_hash. intros (m & _ & [= <-])%bind_Some. by apply extends_eq. Qed.

Lemma unbound_call_extends hash bytes a h r h' :
  unbound_call hash bytes a h = Some (r, h') → extends h h' ∧ host_pc (core h') = host_pc (core h) ∧
    pc_to_addresses h' = pc_to_addresses h ∧ abi_max_size h' = abi_max_size h.
Proof.
  unfold unbound_call. destruct (_ && _); [|intros [= _ <-]; split; [by apply extends_eq|done]].
  destruct (address_to_hash _ !! a); [|intros [= _ <-]; split; [by apply extends_eq|done]].
  case_decide; [done|]. intros (k & _ & [= _ <-])%bind_Some. split; [by apply extends_eq|done].
Qed.

Lemma extends_target pc a h :
  extends h (set_pc_to_addresses (<[pc := {[a]} ∪ default ∅ (pc_to_addresses h !! pc)]> (pc_to_addresses h)) h).
Proof.
  split; try done. intros pc' b Hb. cbn [set_pc_to_addresses pc_to_addresses].
  destruct (decide (pc' = pc)) as [->|Hne].
  - rewrite lookup_insert_eq. simpl. set_solver.
  - by rewrite lookup_insert_ne.
Qed.

Lemma call_extends x h s r h' s' : call cfg run x h s = Some (r, h', s') → extends h h'.
Proof.
  unfold call. set (h1 := set_call_count _ h). assert (extends h h1) as H1 by (by apply extends_eq).
  destruct (call_until cfg <=? call_count h1); [by intros [= _ <- _]|].
  set (h2 := set_middlewares_latent_call_actions [] h1). assert (extends h h2) as H2 by (by apply extends_eq).
  destruct (latent_result _); [by intros [= _ <- _]|].
  destruct (origin h2 =? cl_contract x).
  { intros (h3 & E1%record_func_hash_extends & [= _ <- _])%bind_Some. by etransitivity. }
  intros ([bytes h3] & (E1 & _)%unbound_call_extends & E2)%bind_Some.
  destruct (host_pc (core h3) =? 0); [done|].
  pose proof (extends_target (host_pc (core h3)) (cl_contract x) h3) as H4.
  assert (extends h h3) as H3 by (by etransitivity).
  destruct (_ <? _)%nat.
  - apply bind_Some in E2 as (h5 & E2%record_func_hash_extends & E3). injection E3 as _ <- _.
    etransitivity; [exact H3|]. by etransitivity.
  - apply dispatch_extends in E2. etransitivity; [exact H3|]. by etransitivity.
Qed.
End handlers.

Context (eval : @call_handler E S → @create_handler E S → Interpreter → VMHost E → S →
                option (Interpreter * VMHost E * S)) `{!EvalLaws eval}.

Lemma run_inspect_extends fuel : ∀ i h s r i' h' s',
  run_inspect cfg eval fuel i h s = Some (r, i', h', s') → extends h h'.
Proof.
  induction fuel as [|fuel IH]; intros i h s r i' h' s'; cbn [run_inspect].
  { case_decide; [done|]. by intros [= _ _ <- _]. }
  case_decide; [|by intros [= _ _ <- _]].
  intros ([[i1 h1] s1] & E1%host_step_extends & E2)%bind_Some.
  apply bind_Some in E2 as ([[i2 h2] s2] & E2 & E3%IH).
  assert (extends h1 h2); [|etransitivity; [exact E1|]; by etransitivity].
  eapply (eval_frame (λ a b, extends a.1 b.1)); [split; [intros a; reflexivity|intros a b c; apply transitivity]|..|exact E2]; cbn [fst].
  - intros a k v h0 s0. apply extends_sstore.
  - intros b topics h0 h0' s0. apply extends_log.
  - intros x h0 s0 r0 h0' s0'. apply (call_extends _ IH).
  - intros x h0 s0 r0 h0' s0'. apply (create_extends _ IH).
Qed.

(** The loop only stops with a result, the one the interpreter holds. *)
Lemma run_inspect_result fuel : ∀ i h s r i' h' s',
  run_inspect cfg eval fuel i h s = Some (r, i', h', s') → r ≠ Continue ∧ instruction_result i' = r.
Proof.
  induction fuel as [|fuel IH]; intros i h s r i' h' s'; cbn [run_inspect].
  { case_decide; [done|]. by intros [= <- <- _ _]. }
  case_decide; [|by intros [= <- <- _ _]].
  intros ([[i1 h1] s1] & _ & E2)%bind_Some. by apply bind_Some in E2 as ([[i2 h2] s2] & _ & E3%IH).
Qed.

Lemma run_inspect_finished fuel i h s :
  instruction_result i ≠ Continue → run_inspect cfg eval fuel i h s = Some (instruction_result i, i, h, s).
Proof. intros Hi. destruct fuel; cbn [run_inspect]; by rewrite decide_False. Qed.
End frames.

(** ** Claims *)

Section claims.
Context {E S : Type} (cfg : Config E S) `{!MiddlewareLaws cfg}.
Context (eval : @call_handler E S → @create_handler E S → Interpreter → VMHost E → S →
                option (Interpreter * VMHost E * S)) `{!EvalLaws eval}.
Implicit Types (h : VMHost E) (s : S).

(** C12. Executions are balanced at any depth of nested calls: whatever the contract does
    through [call] and [create], when the interpreter returns the global call context is
    the one it started with, the suspended executions are untouched, no installed code
    was replaced, no recorded call target was forgotten, and the result is never
    [Continue]. *)
Theorem execution_is_balanced fuel i h s r i' h' s' :
  run_inspect cfg eval fuel i h s = Some (r, i', h', s') →
  global_call_context h' = global_call_context h ∧
  post_execution (evmstate (core h')) = post_execution (evmstate (core h)) ∧
  code h ⊆ code h' ∧
  (∀ pc a, a ∈ default ∅ (pc_to_addresses h !! pc) → a ∈ default ∅ (pc_to_addresses h' !! pc)) ∧
  r ≠ Continue.
Proof.
  intros Hr. pose proof (run_inspect_result _ _ _ _ _ _ _ _ _ _ Hr) as [Hn _].
  apply (run_inspect_extends cfg eval) in Hr as [C P K T]. done.
Qed.

(** Contract creation never installs code: the handler stores the created code only
    when the interpreter returns [Continue], which it never does, so every creation
    reports the constructor's own result with an empty output, and the code of the
    host is what the constructor's execution left. *)
Theorem create_never_installs fuel x h s r h' s' :
  create cfg (run_inspect cfg eval fuel) x h s = Some (r, h', s') →
  cre_result r ≠ Continue ∧ cre_output r = [] ∧
  ∃ i i', run_inspect cfg eval fuel i h (random_address cfg s).2 = Some (cre_result r, i', h', s') ∧
    contract i = mkContract [] (ci_init_code x)
      (mkCallContext (random_address cfg s).1 (ci_caller x) (random_address cfg s).1 (ci_value x) SchemeCall).
Proof.
  unfold create. destruct (random_address cfg s) as [a s0]. cbn [fst snd].
  intros ([[[ret i] h1] s1] & E1 & E2)%bind_Some.
  pose proof (run_inspect_result _ _ _ _ _ _ _ _ _ _ E1) as [Hn _].
  rewrite decide_False in E2 by done. injection E2 as <- <- <-.
  split; [done|]. split; [done|]. by eexists _, i.
Qed.

(** The checks that come before the control-leak test let the call through. *)
Definition reaches_leak_check (x : CallInputs) h : Prop :=
  wrap 32 (call_count h + 1) < call_until cfg ∧
  latent_result (middlewares_latent_call_actions h) = None ∧
  origin h ≠ cl_contract x ∧
  host_pc (core h) ≠ 0 ∧
  (∀ l, address_to_hash h !! cc_code_address (cl_context x) = Some l → l ≠ []) ∧
  length (abi_max_size h) = map_size.

Lemma unbound_call_total hash bytes a h :
  (∀ l, address_to_hash h !! a = Some l → l ≠ []) → ∃ r h', unbound_call hash bytes a h = Some (r, h').
Proof.
  intros Ha. unfold unbound_call. destruct (_ && _); [|by eexists _, _].
  cbn [set_arbitrary_call set_pc_to_call_hash address_to_hash].
  destruct (address_to_hash h !! a) as [l|] eqn:El; [|by eexists _, _].
  specialize (Ha l eq_refl). rewrite decide_False by done.
  destruct (lookup_lt_is_Some_2 l (Z.to_nat (foldr Z.add 0 (map b2z hash) mod Z.of_nat (length l)))) as [k Hk].
  { destruct l; [done|]. pose proof (Z.mod_pos_bound (foldr Z.add 0 (map b2z hash)) (Z.of_nat (length (l :: l0))) ltac:(simpl; lia)).
    lia. }
  rewrite Hk, obind_Some. by eexists _, _.
Qed.

(** A call from a program counter with more than two targets leaks, without running code. *)
Lemma call_leaks run x h s :
  reaches_leak_check x h →
  let seen := {[cl_contract x]} ∪ default ∅ (pc_to_addresses h !! host_pc (core h)) in
  (CONTROL_LEAK_THRESHOLD < size seen)%nat →
  ∃ h', call cfg run x h s = Some (mkCallResult ControlLeak [], h', s) ∧
    pc_to_addresses h' = <[host_pc (core h) := seen]> (pc_to_addresses h).
Proof.
  intros (Hu & Hl & Ho & Hpc & Ha & Habi) seen Hs. unfold call.
  set (h1 := set_call_count _ h). set (h2 := set_middlewares_latent_call_actions [] h1).
  change (call_count h1) with (wrap 32 (call_count h + 1)).
  rewrite (proj2 (Z.leb_gt _ _) Hu).
  change (middlewares_latent_call_actions h1) with (middlewares_latent_call_actions h). rewrite Hl.
  change (origin h2) with (origin h). rewrite (proj2 (Z.eqb_neq _ _) Ho).
  destruct (unbound_call_total (selector (cl_input x)) (cl_input x) (cc_code_address (cl_context x)) h2 Ha)
    as (bytes & h3 & E3).
  rewrite E3, obind_Some. apply unbound_call_extends in E3 as (_ & Ep & Et & Em).
  rewrite Ep, Et. change (host_pc (core h2)) with (host_pc (core h)).
  change (pc_to_addresses h2) with (pc_to_addresses h). rewrite (proj2 (Z.eqb_neq _ _) Hpc). fold seen.
  rewrite (proj2 (Nat.ltb_lt _ _) Hs).
  destruct (record_func_hash_spec cfg (selector (cl_input x))
    (set_pc_to_addresses (<[host_pc (core h) := seen]> (pc_to_addresses h)) h3)) as (m & ->).
  { cbn [set_pc_to_addresses abi_max_size]. by rewrite Em. }
  rewrite obind_Some. eexists. split; [reflexivity|]. done.
Qed.

End claims.

(** ** Selector tables *)

(** Every selector listed for a contract leads back to the contract. *)
Definition tables_agree {E} (h : VMHost E) : Prop :=
  ∀ a l hash, address_to_hash h !! a = Some l → hash ∈ l → a ∈ default ∅ (hash_to_address h !! hash).

Section tables_props.
Context {E : Type}.
Implicit Types h : VMHost E.

Lemma add_address_of_hash_spec m hash a k b :
  b ∈ default ∅ (add_address_of_hash m hash a !! k) ↔ b ∈ default ∅ (m !! k) ∨ (k = hash ∧ b = a).
Proof.
  unfold add_address_of_hash. destruct (decide (k = hash)) as [->|Hne].
  - destruct (m !! hash); rewrite lookup_insert_eq; simpl; set_solver.
  - destruct (m !! hash); rewrite lookup_insert_ne by done; set_solver.
Qed.

Lemma add_addresses_spec hashes a : ∀ m k b,
  b ∈ default ∅ (fold_left (λ m hash, add_address_of_hash m hash a) hashes m !! k) ↔
  b ∈ default ∅ (m !! k) ∨ (k ∈ hashes ∧ b = a).
Proof.
  induction hashes as [|x hashes IH]; intros m k b; cbn [fold_left]; [set_solver|].
  rewrite IH, add_address_of_hash_spec. set_solver.
Qed.

Lemma push_hash_spec m a hash b :
  push_hash m a hash !! b = if decide (b = a) then Some (default [] (m !! a) ++ [hash]) else m !! b.
Proof.
  unfold push_hash. case_decide as Hb; [subst b|].
  - destruct (m !! a); by rewrite lookup_insert_eq.
  - destruct (m !! a); by rewrite lookup_insert_ne.
Qed.

(** The selector tables stay in agreement: after [add_hashes] and [add_one_hashes] every
    selector listed for a contract leads back to that contract, no entry of the reverse
    table is lost, and exactly the given contract is added, under exactly the given
    selectors; [add_hashes] replaces the list of the contract and [add_one_hashes]
    appends to it. *)
Theorem selector_tables_agree h a hashes hash :
  tables_agree h →
  (let h' := add_hashes a hashes h in
   tables_agree h' ∧ address_to_hash h' = <[a := hashes]> (address_to_hash h) ∧
   ∀ k b, b ∈ default ∅ (hash_to_address h' !! k) ↔
          b ∈ default ∅ (hash_to_address h !! k) ∨ (k ∈ hashes ∧ b = a)) ∧
  (let h' := add_one_hashes a hash h in
   tables_agree h' ∧ address_to_hash h' !! a = Some (default [] (address_to_hash h !! a) ++ [hash]) ∧
   ∀ k b, b ∈ default ∅ (hash_to_address h' !! k) ↔
          b ∈ default ∅ (hash_to_address h !! k) ∨ (k = hash ∧ b = a)).
Proof.
  intros Ht. unfold add_hashes, add_one_hashes, tables_agree. cbn. split; split_and!.
  - intros b l k Hb Hk. apply add_addresses_spec. destruct (decide (b = a)) as [->|Hne].
    + rewrite lookup_insert_eq in Hb. simplify_eq. by right.
    + rewrite lookup_insert_ne in Hb by done. left. by eapply Ht.
  - done.
  - intros k b. apply add_addresses_spec.
  - intros b l k. rewrite push_hash_spec. intros Hb Hk. apply add_address_of_hash_spec.
    case_decide as Hba; [subst b|left; by eapply Ht].
    simplify_eq. apply elem_of_app in Hk as [Hk|Hk%list_elem_of_singleton]; [|by right].
    left. destruct (address_to_hash h !! a) as [l|] eqn:El; [|by apply not_elem_of_nil in Hk]. by eapply Ht.
  - rewrite push_hash_spec. by rewrite decide_True.
  - intros k b. apply add_address_of_hash_spec.
Qed.
End tables_props.

(** ** Examples *)

(** A small instruction set: stop, a store, a constant and a call without data. *)
Definition toy_eval (call_h : @call_handler unit Z) (create_h : @create_handler unit Z)
    (i : Interpreter) (h : VMHost unit) (s : Z) : option (Interpreter * VMHost unit * Z) :=
  let next pc r st := mkInterpreter pc r (it_memory i) st (return_data_buffer i) (return_range i) (is_static i) (contract i) in
  let pc := instruction_pointer i in
  let ctx := ct_context (contract i) in
  let op := opcode (view i) in
  if op =? 0x60 then
    Some (next (pc + 2) Continue
            (it_stack i ++ [default 0 (b2z <$> ct_bytecode (contract i) !! Z.to_nat (pc + 1))]), h, s)
  else if op =? 0x55 then
    match stack (view i) with
    | k :: v :: st => Some (next (pc + 1) Continue (reverse st), host_sstore (cc_address ctx) k v h, s)
    | _ => Some (next pc (Halt 0x92) [], h, s)
    end
  else if op =? 0xf1 then
    match stack (view i) with
    | _ :: a :: v :: _ :: _ :: _ :: _ :: st =>
        '(r, h, s) ← call_h (mkCallInputs a [] (mkCallContext a (cc_address ctx) a v SchemeCall)) h s;
        if decide (cr_result r = FatalExternalError)
        then Some (next (pc + 1) FatalExternalError (reverse st), h, s)
        else Some (next (pc + 1) Continue (reverse st ++ [1]), h, s)
    | _ => Some (next pc (Halt 0x92) [], h, s)
    end
  else Some (next pc Stop (it_stack i), h, s).

#[export] Instance toy_eval_laws : EvalLaws toy_eval.
Proof.
  split. intros P call_h create_h HP Hs Hl Hc Hcr i h s i' h' s'. unfold toy_eval.
  repeat case_match; try (by intros [= _ <- <-]; reflexivity).
  - intros [= _ <- <-]. apply Hs.
  - intros ([[r h1] s1] & E1%Hc & E2)%bind_Some. case_decide; by injection E2 as _ <- <-.
Qed.

Definition no_middleware : Middleware unit Z :=
  mkMiddleware _ _ (λ i h s, Some (i, h, s)) (λ c a h s, Some (c, h, s)).
Definition toy_config : Config unit Z :=
  mkConfig _ _ (λ c, c) (λ _, 0) (λ s, (s, s + 1)) None (λ _, no_middleware) (2 ^ 32 - 1) false.

#[export] Instance toy_config_laws : MiddlewareLaws toy_config.
Proof.
  split; [done|]. intros ty. split.
  - intros i h s i' h' s' [= _ <- _]. reflexivity.
  - intros c a h s c' h' s' [= _ <- _]. reflexivity.
Qed.

(** A host with two contracts: [7] stores, [8] calls [9]. *)
Definition toy_code_7 : list byte := [x60; x05; x60; x01; x55; x00].
Definition toy_code_8 : list byte :=
  [x60; x00; x60; x00; x60; x00; x60; x00; x60; x00; x60; x09; x60; x00; xf1; x00].
Definition toy_host : VMHost unit :=
  mkVMHost FuzzHost_new tt (<[7 := toy_code_7]> {[8 := toy_code_8]}) ∅ ∅
    {[13 := {[20; 21]}]} ∅ false [] [] 9 false 0 ∅
    (Some (mkCallContext 8 1 8 0 SchemeCall)) (replicate map_size 0) false 0 false.
Definition toy_interp (c : list byte) (a : Z) : Interpreter :=
  Interpreter_new (mkContract [] c (mkCallContext a 1 a 0 SchemeCall)).

Lemma execution_is_balanced_witness :
  ∃ i' h' s', run_inspect toy_config toy_eval 20 (toy_interp toy_code_8 8) toy_host 0 =
      Some (ControlLeak, i', h', s') ∧
    global_call_context h' = global_call_context toy_host.
Proof.
  destruct (run_inspect toy_config toy_eval 20 (toy_interp toy_code_8 8) toy_host 0)
    as [[[[r i'] h'] s']|] eqn:Er.
  - pose proof (execution_is_balanced toy_config toy_eval 20 _ _ _ _ _ _ _ Er) as (Hc & _).
    exists i', h', s'. split; [|exact Hc].
    assert (option_map (λ x, x.1.1.1) (run_inspect toy_config toy_eval 20 (toy_interp toy_code_8 8) toy_host 0) =
            Some ControlLeak) as Hr by (vm_compute; reflexivity).
    rewrite Er in Hr. injection Hr as ->. reflexivity.
  - exfalso.
    assert (option_map (λ x, x.1.1.1) (run_inspect toy_config toy_eval 20 (toy_interp toy_code_8 8) toy_host 0) =
            Some ControlLeak) as Hr by (vm_compute; reflexivity).
    rewrite Er in Hr. discriminate Hr.
Defined.

Lemma create_never_installs_witness :
  ∃ h' s', create toy_config (run_inspect toy_config toy_eval 20) (mkCreateInputs 1 0 toy_code_7) toy_host 50 =
      Some (mkCreateResult Stop (Some 50) [], h', s').
Proof.
  destruct (create toy_config (run_inspect toy_config toy_eval 20) (mkCreateInputs 1 0 toy_code_7) toy_host 50)
    as [[[r h'] s']|] eqn:Er.
  - pose proof (create_never_installs toy_config toy_eval 20 _ _ _ _ _ _ Er) as (_ & Ho & _).
    assert (option_map (λ x, (cre_result x.1.1, cre_address x.1.1))
              (create toy_config (run_inspect toy_config toy_eval 20) (mkCreateInputs 1 0 toy_code_7) toy_host 50) =
            Some (Stop, Some 50)) as Hr by (vm_compute; reflexivity).
    rewrite Er in Hr. exists h', s'. destruct r as [res addr out]. cbn in Hr, Ho. injection Hr as -> ->.
    rewrite Ho. reflexivity.
  - exfalso.
    assert (option_map (λ x, cre_result x.1.1)
              (create toy_config (run_inspect toy_config toy_eval 20) (mkCreateInputs 1 0 toy_code_7) toy_host 50) =
            Some Stop) as Hr by (vm_compute; reflexivity).
    rewrite Er in Hr. discriminate Hr.
Defined.

(** The host at a call instruction at 13, which has called 20 and 21 before. *)
Definition toy_call_host : VMHost unit :=
  set_core (default FuzzHost_new (step (λ c _, c) FuzzHost_new (mkInterp 0xf1 13 [0; 7; 0; 0; 0; 0; 0] 8))) toy_host.
Definition toy_call : CallInputs := mkCallInputs 7 [] (mkCallContext 7 8 7 0 SchemeCall).

Lemma toy_call_reaches : reaches_leak_check toy_config toy_call toy_call_host.
Proof.
  split; [vm_compute; reflexivity|]. split; [reflexivity|]. split; [vm_compute; discriminate|].
  split; [vm_compute; discriminate|]. split; [|apply length_replicate]. intros l Hl. vm_compute in Hl. discriminate Hl.
Qed.

Lemma selector_tables_agree_witness :
  tables_agree toy_host ∧
  (let h' := add_hashes 7 [[x01; x02; x03; x04]] toy_host in
   tables_agree h' ∧ address_to_hash h' = <[7 := [[x01; x02; x03; x04]]]> (address_to_hash toy_host) ∧
   ∀ k b, b ∈ default ∅ (hash_to_address h' !! k) ↔
          b ∈ default ∅ (hash_to_address toy_host !! k) ∨ (k ∈ [[x01; x02; x03; x04]] ∧ b = 7)) ∧
  (let h' := add_one_hashes 7 [x01; x02; x03; x04] toy_host in
   tables_agree h' ∧
   address_to_hash h' !! 7 = Some (default [] (address_to_hash toy_host !! 7) ++ [[x01; x02; x03; x04]]) ∧
   ∀ k b, b ∈ default ∅ (hash_to_address h' !! k) ↔
          b ∈ default ∅ (hash_to_address toy_host !! k) ∨ (k = [x01; x02; x03; x04] ∧ b = 7)).
Proof.
  assert (tables_agree toy_host) as Ht by (intros a l k Hl; cbn in Hl; rewrite lookup_empty in Hl; discriminate Hl).
  split; [exact Ht|]. apply (selector_tables_agree toy_host 7 [[x01; x02; x03; x04]] [x01; x02; x03; x04] Ht).
Defined.
