(* ===== verification/Bytecode.v ===== *)
(** * The bytecode analysis ([src/src/evm/bytecode_analyzer.rs])

    [find_constants] collects the operands of PUSH instructions for the constant pool of
    the mutators. *)
From S2P Require Import Prelude Types.
#[local] Open Scope Z_scope.

(** ** The analysis *)

(** The opcodes [0x60..=0x7f]. *)
Definition is_push (b : byte) : bool := (0x60 <=? b2z b) && (b2z b <=? 0x7f).

(** The [loop]: [idx] is the position; every round moves forward. *)
Fixpoint find_constants_loop (fuel : nat) (bytes : list byte) (idx : nat) (constants : gset (list byte))
  : gset (list byte) :=
  match fuel with
  | O => constants
  | S fuel =>
      match bytes !! idx with
      | None => constants
      | Some op =>
          if is_push op then
            let next := (idx + Z.to_nat (b2z op - 0x5e))%nat in
            if (length bytes <? next)%nat then constants
            else
              let should_skip := match bytes !! next with Some n => b2z n =? 0x57 | None => false end in
              let n := Z.to_nat (b2z op - 0x60 + 1) in
              let constants :=
                if negb should_skip && (2 <=? n)%nat
                then {[take n (drop (idx + 1) bytes)]} ∪ constants else constants in
              find_constants_loop fuel bytes next constants
          else find_constants_loop fuel bytes (idx + 1) constants
      end
  end.

(** [find_constants] *)
Definition find_constants (bytes : list byte) : gset (list byte) :=
  find_constants_loop (length bytes) bytes 0 ∅.

(** [add_analysis_result_to_state]: the metadata [ConstantPoolMetadata], when present; the
    set is iterated in some order. *)
Definition add_analysis_result_to_state (bytes : list byte) (pool : option (list (list byte)))
  : option (list (list byte)) :=
  let constants := elements (find_constants bytes) in
  match pool with
  | Some l => Some (fold_left (λ l c, if decide (c ∈ l) then l else l ++ [c]) constants l)
  | None => Some constants
  end.

(** ** Instructions *)

(** A decoded instruction. *)
Inductive instruction := Push (data : list byte) | Op (b : byte).
#[export] Instance instruction_eq_dec : EqDecision instruction.
Proof. solve_decision. Defined.

Definition instruction_ok (x : instruction) : Prop :=
  match x with
  | Push data => (1 ≤ length data ≤ 32)%nat
  | Op b => is_push b = false
  end.

Definition encode (x : instruction) : list byte :=
  match x with
  | Push data => z2b (0x5f + Z.of_nat (length data)) :: data
  | Op b => [b]
  end.

Definition assemble (l : list instruction) : list byte := concat (map encode l).

(** The position of the [k]-th instruction *)
Definition code_start (l : list instruction) (k : nat) : nat := length (assemble (take k l)).

(** A PUSH whose operand is cut off by the end of the code. *)
Definition truncated (tail : list byte) : Prop :=
  match tail with
  | [] => True
  | b :: data => is_push b = true ∧ (length data < Z.to_nat (b2z b - 0x5f))%nat
  end.

Definition is_jumpi (x : instruction) : bool :=
  match x with Op b => b2z b =? 0x57 | Push _ => false end.

(** The constants: the operands of at least two bytes that a JUMPI does not follow. *)
Fixpoint constants_of (l : list instruction) : gset (list byte) :=
  match l with
  | [] => ∅
  | Push data :: l' =>
      if (2 <=? length data)%nat && negb (match l' with y :: _ => is_jumpi y | [] => false end)
      then {[data]} ∪ constants_of l' else constants_of l'
  | Op _ :: l' => constants_of l'
  end.

(** ** The loop on assembled code *)

Lemma push_byte n : (1 ≤ n ≤ 32)%nat →
  b2z (z2b (0x5f + Z.of_nat n)) = 0x5f + Z.of_nat n ∧ is_push (z2b (0x5f + Z.of_nat n)) = true.
Proof.
  intros Hn. assert (b2z (z2b (0x5f + Z.of_nat n)) = 0x5f + Z.of_nat n) as E.
  { rewrite b2z_z2b. apply Z.mod_small. lia. }
  split; [done|]. unfold is_push. rewrite E. apply andb_true_intro. split; apply Z.leb_le; lia.
Qed.

Lemma assemble_cons x l : assemble (x :: l) = encode x ++ assemble l.
Proof. done. Qed.
Lemma assemble_app l k : assemble (l ++ k) = assemble l ++ assemble k.
Proof. unfold assemble. by rewrite map_app, concat_app. Qed.

Lemma code_start_S x l k : code_start (x :: l) (S k) = (length (encode x) + code_start l k)%nat.
Proof. unfold code_start. cbn [take]. by rewrite assemble_cons, length_app. Qed.

Lemma length_encode x : (1 ≤ length (encode x))%nat.
Proof. destruct x; simpl; lia. Qed.

(** The next byte after an instruction is a JUMPI exactly when the next instruction is. *)
Lemma next_is_jumpi l tail :
  Forall instruction_ok l → truncated tail →
  match (assemble l ++ tail) !! 0%nat with Some n => b2z n =? 0x57 | None => false end =
  match l with y :: _ => is_jumpi y | [] => false end.
Proof.
  intros Hl Ht. destruct l as [|[data|b] l].
  - destruct tail as [|b tail]; [done|]. destruct Ht as [Hb _]. simpl.
    unfold is_push in Hb. apply andb_prop in Hb as [Hb _]. apply Z.leb_le in Hb. apply Z.eqb_neq. lia.
  - apply Forall_cons in Hl as [Hd _]. unfold assemble. cbn [map concat encode is_jumpi app lookup list_lookup].
    destruct (push_byte (length data) Hd) as [-> _]. apply Z.eqb_neq. lia.
  - done.
Qed.

Lemma find_constants_loop_spec l tail : ∀ fuel pre acc,
  Forall instruction_ok l → truncated tail → (length (assemble l ++ tail) ≤ fuel)%nat →
  find_constants_loop fuel (pre ++ assemble l ++ tail) (length pre) acc = constants_of l ∪ acc.
Proof.
  induction l as [|x l IH]; intros fuel pre acc Hl Ht Hf.
  { change (assemble [] ++ tail) with tail in *. cbn [constants_of].
    destruct fuel as [|fuel]; [cbn [find_constants_loop]; set_solver|]. cbn [find_constants_loop].
    rewrite lookup_app_r, Nat.sub_diag by done. destruct tail as [|b data]; [simpl; set_solver|].
    destruct Ht as [Hb Hlt]. cbn [lookup list_lookup]. rewrite Hb.
    rewrite (proj2 (Nat.ltb_lt _ _)); [set_solver|]. rewrite length_app. cbn [length]. lia. }
  apply Forall_cons in Hl as [Hx Hl].
  change (assemble (x :: l)) with (encode x ++ assemble l) in *. rewrite <- app_assoc in *.
  rewrite length_app in Hf. pose proof (length_encode x).
  destruct fuel as [|fuel]; [lia|]. cbn [find_constants_loop].
  rewrite lookup_app_r, Nat.sub_diag by done.
  destruct x as [data|b]; cbn [encode app lookup list_lookup] in *.
  - destruct (push_byte (length data) Hx) as [Eb ->]. rewrite Eb. set (op := z2b _) in *.
    replace (Z.to_nat (95 + Z.of_nat (length data) - 94)) with (S (length data)) by lia.
    replace (Z.to_nat (95 + Z.of_nat (length data) - 96 + 1)) with (length data) by lia.
    rewrite (proj2 (Nat.ltb_ge _ _)) by (rewrite length_app; cbn [length]; rewrite length_app; lia).
    assert ((pre ++ op :: data ++ assemble l ++ tail) !! (length pre + S (length data))%nat =
            (assemble l ++ tail) !! 0%nat) as ->.
    { rewrite lookup_app_r by lia. replace (_ - _)%nat with (S (length data)) by lia. cbn [lookup list_lookup].
      rewrite (lookup_app_r data) by lia. by rewrite Nat.sub_diag. }
    rewrite next_is_jumpi by done.
    assert (take (length data) (drop (length pre + 1) (pre ++ op :: data ++ assemble l ++ tail)) = data) as ->.
    { rewrite drop_app_add. cbn [drop]. apply take_app_length. }
    replace (pre ++ op :: data ++ assemble l ++ tail) with ((pre ++ op :: data) ++ assemble l ++ tail)
      by (rewrite <- app_assoc; done).
    replace (length pre + S (length data))%nat with (length (pre ++ op :: data))
      by (rewrite length_app; done).
    rewrite IH by (try done; cbn [length] in Hf; lia). cbn [constants_of]. rewrite andb_comm.
    destruct (_ && _); set_solver.
  - rewrite Hx. replace (pre ++ b :: assemble l ++ tail) with ((pre ++ [b]) ++ assemble l ++ tail)
      by (rewrite <- app_assoc; done).
    replace (length pre + 1)%nat with (length (pre ++ [b])) by (rewrite length_app; done).
    cbn [constants_of]. apply IH; try done. cbn [length] in Hf. lia.
Qed.

(** Every byte string is assembled code with a cut-off PUSH at the end, at most. *)
Lemma disassemble n : ∀ bytes, (length bytes ≤ n)%nat →
  ∃ l tail, bytes = assemble l ++ tail ∧ Forall instruction_ok l ∧ truncated tail.
Proof.
  induction n as [|n IH]; intros [|b bytes] Hn; try (by exists [], []); [simpl in Hn; lia|].
  cbn [length] in Hn. destruct (is_push b) eqn:Hb.
  - pose proof Hb as Hb'. unfold is_push in Hb'. apply andb_prop in Hb' as [H1%Z.leb_le H2%Z.leb_le].
    set (k := Z.to_nat (b2z b - 0x5f)).
    destruct (decide (length bytes < k)%nat) as [Hlt|Hge].
    { exists [], (b :: bytes). split; [done|]. split; [constructor|]. done. }
    destruct (IH (drop k bytes)) as (l & tail & El & Hl & Ht); [rewrite length_drop; lia|].
    assert (length (take k bytes) = k) as Hk by (rewrite length_take; lia).
    exists (Push (take k bytes) :: l), tail. split; [|split; [|done]].
    + change (assemble (Push (take k bytes) :: l)) with (encode (Push (take k bytes)) ++ assemble l).
      cbn [encode]. rewrite Hk. replace (95 + Z.of_nat k) with (b2z b) by lia. rewrite z2b_b2z.
      cbn [app]. f_equal. rewrite <- app_assoc, <- El. by rewrite take_drop.
    + constructor; [|done]. unfold instruction_ok. rewrite Hk. lia.
  - destruct (IH bytes) as (l & tail & El & Hl & Ht); [lia|].
    exists (Op b :: l), tail. split; [|split; [by constructor|done]].
    change (assemble (Op b :: l)) with ([b] ++ assemble l). by rewrite El.
Qed.

(** The bytecode analysis finds exactly the constants: every bytecode decodes into
    instructions and at most one PUSH cut off by the end, and [find_constants] returns the
    operands of the complete PUSH instructions of two bytes or more that are not followed
    by a JUMPI, and nothing that merely looks like one inside an operand.  Adding them to
    the pool keeps its constants, adds exactly the new ones and repeats none. *)
Theorem find_constants_exact bytes pool :
  ∃ l tail, bytes = assemble l ++ tail ∧ Forall instruction_ok l ∧ truncated tail ∧
    find_constants bytes = constants_of l ∧
    ∃ pool', add_analysis_result_to_state bytes pool = Some pool' ∧
      (∀ c, c ∈ pool' ↔ c ∈ default [] pool ∨ c ∈ constants_of l) ∧
      (NoDup (default [] pool) → NoDup pool') ∧ default [] pool `prefix_of` pool'.
Proof.
  destruct (disassemble (length bytes) bytes) as (l & tail & El & Hl & Ht); [done|].
  exists l, tail. split; [done|]. split; [done|]. split; [done|].
  assert (find_constants bytes = constants_of l) as Hf.
  { unfold find_constants. rewrite El. rewrite (find_constants_loop_spec l tail _ [] ∅) by done. set_solver. }
  split; [done|]. unfold add_analysis_result_to_state. rewrite Hf. destruct pool as [pool|].
  2: { eexists. split; [done|]. simpl. split_and!; [set_solver|intros _; apply NoDup_elements|apply prefix_nil]. }
  eexists. split; [done|]. simpl.
  assert (∀ k p : list (list byte), let r := fold_left (λ l c, if decide (c ∈ l) then l else l ++ [c]) k p in
    (∀ c, c ∈ r ↔ c ∈ p ∨ c ∈ k) ∧ (NoDup p → NoDup r) ∧ p `prefix_of` r) as Hk.
  { induction k as [|x k IH]; intros p; cbn [fold_left]; [split_and!; [set_solver|done|done]|].
    case_decide as Hx.
    - destruct (IH p) as (H1 & H2 & H3). split_and!; [set_solver|done|done].
    - destruct (IH (p ++ [x])) as (H1 & H2 & H3). split_and!.
      + intros c. rewrite H1, elem_of_app. set_solver.
      + intros Hp. apply H2. apply NoDup_app. split; [done|]. split; [set_solver|apply NoDup_singleton].
      + etransitivity; [|exact H3]. by apply prefix_app_r. }
  destruct (Hk (elements (constants_of l)) pool) as (H1 & H2 & H3). split_and!; [|done|done].
  intros c. rewrite H1. set_solver.
Qed.
