(* ===== verification/SrcMap.v ===== *)
(** * Source maps ([src/src/evm/srcmap/parser.rs])

    The compiler gives a contract's source map as text: one part per instruction,
    separated by [;], each part the fields offset, length, file and jump separated by
    [:]; an empty field repeats the one of the instruction before.
    [uncompress_srcmap_single] undoes this compression and [decode_instructions] attaches
    the locations to the program counters. *)
From S2P Require Import Prelude Types Expr Abi AbiLayout AbiParse Bytecode.
#[local] Open Scope Z_scope.

(** ** The parser *)

(** [struct SourceMapLocation], with [SourceMapLocation::new]. *)
Record SourceMapLocation := mkLocation {
  sm_file : option str;
  sm_offset : Z;
  sm_length : Z
}.

(** [SourceMapLocation::default] *)
Definition SourceMapLocation_default : SourceMapLocation := mkLocation None 0 0.

(** [str::split(c)] *)
Fixpoint split_on (c : ascii) (s : str) : list str :=
  match s with
  | [] => [[]]
  | x :: s' =>
      if decide (x = c) then [] :: split_on c s'
      else match split_on c s' with
           | p :: ps => (x :: p) :: ps
           | [] => [[x]]
           end
  end.

(** [parts[k]] when [parts_len > k], and the empty string otherwise; a field is present
    when it is not empty. *)
Definition part_field (parts : list str) (k : nat) : str := default [] (parts !! k).
Definition has_field (parts : list str) (k : nat) : bool := negb (bool_decide (part_field parts k = [])).

(** The three fields that are kept: present ones are parsed ([unwrap] panics), the others
    are those of [results[counter - 1]]. *)
Definition file_of (files parts : list str) (results : list SourceMapLocation) : option (option str) :=
  if has_field parts 2 then
    idx ← parse_usize (part_field parts 2);
    Some (if idx <? Z.of_nat (length files) then files !! Z.to_nat idx else None)
  else p ← last results; Some (sm_file p).
Definition number_of (parts : list str) (k : nat) (results : list SourceMapLocation)
    (prev : SourceMapLocation → Z) : option Z :=
  if has_field parts k then parse_usize (part_field parts k)
  else p ← last results; Some (prev p).

(** The body of the loop; [counter] is the number of results so far. *)
Definition srcmap_step (files : list str) (results : list SourceMapLocation) (part : str)
  : option (list SourceMapLocation) :=
  let parts := split_on ":" part in
  let has_everything := has_field parts 0 && has_field parts 1 && has_field parts 2 && has_field parts 3 in
  if (length results =? 0)%nat && negb has_everything
  then Some (results ++ [SourceMapLocation_default])
  else
    f ← file_of files parts results;
    o ← number_of parts 0 results sm_offset;
    l ← number_of parts 1 results sm_length;
    Some (results ++ [mkLocation f o l]).

(** [uncompress_srcmap_single] *)
Definition uncompress_srcmap_single (map : str) (files : list str) : option (list SourceMapLocation) :=
  foldM (srcmap_step files) [] (split_on ";" map).

(** The [loop] of [decode_instructions]: [idx] is the position in the code and
    [srcmap_idx] the number of the instruction. *)
Fixpoint decode_loop (fuel : nat) (bytecode : list byte) (uncompressed : list SourceMapLocation)
    (idx srcmap_idx : nat) (results : gmap nat SourceMapLocation) : gmap nat SourceMapLocation :=
  match fuel with
  | O => results
  | S fuel =>
      match bytecode !! idx with
      | None => results
      | Some opcode =>
          let results := match uncompressed !! srcmap_idx with
                         | Some loc => <[idx := loc]> results
                         | None => results
                         end in
          let idx := if is_push opcode then (idx + Z.to_nat (b2z opcode - 0x5e))%nat else S idx in
          decode_loop fuel bytecode uncompressed idx (S srcmap_idx) results
      end
  end.

(** [decode_instructions] *)
Definition decode_instructions (bytecode : list byte) (map : str) (files : list str)
  : option (gmap nat SourceMapLocation) :=
  uncompressed ← uncompress_srcmap_single map files;
  Some (decode_loop (length bytecode) bytecode uncompressed 0 0 ∅).

(** ** The compression *)

(** What a part stands for. *)
Record srcmap_entry := mkEntry { en_offset : Z; en_length : Z; en_file : Z }.

Definition resolve (files : list str) (e : srcmap_entry) : SourceMapLocation :=
  mkLocation (if en_file e <? Z.of_nat (length files) then files !! Z.to_nat (en_file e) else None)
    (en_offset e) (en_length e).

(** A field is the number in decimal, or empty when it repeats the one before. *)
Inductive encodes_field (prev : option Z) (v : Z) : str → Prop :=
| encodes_number s : s ≠ [] → parse_usize s = Some v → encodes_field prev v s
| encodes_same : prev = Some v → encodes_field prev v [].

Definition no_separator (s : str) : Prop := ":"%char ∉ s ∧ ";"%char ∉ s.

(** The fields of one part: trailing empty fields may be missing, further fields are
    free; the first part of a map has its four fields. *)
Definition encodes_entry (prev : option srcmap_entry) (e : srcmap_entry) (fields : list str) : Prop :=
  fields ≠ [] ∧ Forall no_separator fields ∧
  encodes_field (en_offset <$> prev) (en_offset e) (part_field fields 0) ∧
  encodes_field (en_length <$> prev) (en_length e) (part_field fields 1) ∧
  encodes_field (en_file <$> prev) (en_file e) (part_field fields 2) ∧
  (prev = None → part_field fields 3 ≠ []).

Inductive encodes_map : option srcmap_entry → list srcmap_entry → list (list str) → Prop :=
| encodes_nil prev : encodes_map prev [] []
| encodes_cons prev e es fields parts :
    encodes_entry prev e fields → encodes_map (Some e) es parts →
    encodes_map prev (e :: es) (fields :: parts).

(** [join] *)
Fixpoint join (c : ascii) (l : list str) : str :=
  match l with
  | [] => []
  | [s] => s
  | s :: l' => s ++ c :: join c l'
  end.

Definition srcmap_text (parts : list (list str)) : str := join ";" (map (join ":") parts).

(** ** Splitting what was joined *)

Lemma split_on_app c s t : c ∉ s → split_on c (s ++ c :: t) = s :: split_on c t.
Proof.
  induction s as [|x s IH]; intros H; cbn [app split_on].
  - by rewrite decide_True.
  - apply not_elem_of_cons in H as [Hne H]. rewrite decide_False by done. by rewrite IH.
Qed.

Lemma split_on_whole c s : c ∉ s → split_on c s = [s].
Proof.
  induction s as [|x s IH]; intros H; cbn [split_on]; [done|].
  apply not_elem_of_cons in H as [Hne H]. rewrite decide_False by done. by rewrite IH.
Qed.

Lemma split_on_join c l : l ≠ [] → Forall (λ s, c ∉ s) l → split_on c (join c l) = l.
Proof.
  induction l as [|s [|s' l] IH]; intros Hne H; [done| |]; apply Forall_cons in H as [Hs H].
  - by apply split_on_whole.
  - cbn [join]. rewrite split_on_app by done. f_equal. by apply IH.
Qed.

Lemma not_in_join c d l : c ≠ d → Forall (λ s, c ∉ s) l → c ∉ join d l.
Proof.
  intros Hcd. induction l as [|s [|s' l] IH]; intros H; [apply not_elem_of_nil| |];
    apply Forall_cons in H as [Hs H]; [done|].
  change (join d (s :: s' :: l)) with (s ++ d :: join d (s' :: l)).
  rewrite elem_of_app, elem_of_cons. intros [?|[?|Hin]]; [done|done|]. by apply IH.
Qed.

Lemma split_part fields : fields ≠ [] → Forall no_separator fields → split_on ":" (join ":" fields) = fields.
Proof. intros Hne H. apply split_on_join; [done|]. eapply Forall_impl; [exact H|]. by intros s []. Qed.

Lemma encodes_map_parts prev es parts :
  encodes_map prev es parts → Forall (λ fields, fields ≠ [] ∧ Forall no_separator fields) parts.
Proof. induction 1 as [|prev e es fields parts (H1 & H2 & _) _ IH]; by constructor. Qed.

Lemma split_text parts :
  parts ≠ [] → Forall (λ fields, fields ≠ [] ∧ Forall no_separator fields) parts →
  split_on ";" (srcmap_text parts) = map (join ":") parts.
Proof.
  intros Hne H. apply split_on_join; [by destruct parts|]. apply Forall_map.
  eapply Forall_impl; [exact H|]. intros fields [_ Hf]. apply not_in_join; [done|].
  eapply Forall_impl; [exact Hf|]. by intros s [].
Qed.

(** ** Decoding *)

Lemma number_of_encodes parts k results prev v pv :
  encodes_field pv v (part_field parts k) → prev <$> last results = pv →
  number_of parts k results prev = Some v.
Proof.
  intros H Hp. unfold number_of, has_field. destruct H as [s Hne Hs|Hpv].
  - by rewrite bool_decide_eq_false_2.
  - rewrite bool_decide_eq_true_2 by done. simpl. rewrite Hpv in Hp.
    destruct (last results); [|done]. simpl in *. by injection Hp as ->.
Qed.

Lemma file_of_encodes files parts results (prev : option srcmap_entry) e :
  encodes_field (en_file <$> prev) (en_file e) (part_field parts 2) →
  last results = resolve files <$> prev →
  file_of files parts results = Some (sm_file (resolve files e)).
Proof.
  intros H Hp. unfold file_of, has_field. remember (part_field parts 2) as s eqn:Es.
  destruct H as [s Hne Hs|Hpv].
  - rewrite bool_decide_eq_false_2 by done. simpl. rewrite Hs. done.
  - rewrite bool_decide_eq_true_2 by done. simpl. rewrite Hp. destruct prev as [p|]; [|done].
    simpl in *. injection Hpv as ->. done.
Qed.

Lemma srcmap_step_encodes files results prev e fields :
  encodes_entry prev e fields → last results = resolve files <$> prev →
  srcmap_step files results (join ":" fields) = Some (results ++ [resolve files e]).
Proof.
  intros (Hne & Hsep & Ho & Hl & Hf & Hj) Hp. unfold srcmap_step. rewrite split_part by done.
  assert ((length results =? 0)%nat && negb (has_field fields 0 && has_field fields 1 &&
          has_field fields 2 && has_field fields 3) = false) as ->.
  { destruct prev as [p|].
    - destruct results; [done|]. done.
    - apply andb_false_iff. right. specialize (Hj eq_refl). unfold has_field.
      inversion Ho; [|done]; inversion Hl; [|done]; inversion Hf; [|done].
      by rewrite !bool_decide_eq_false_2. }
  rewrite (file_of_encodes files fields results prev e), obind_Some by done.
  rewrite (number_of_encodes _ _ _ _ _ _ Ho), obind_Some by (rewrite Hp; by destruct prev).
  rewrite (number_of_encodes _ _ _ _ _ _ Hl), obind_Some by (rewrite Hp; by destruct prev).
  done.
Qed.

Lemma uncompress_encodes files prev es parts : encodes_map prev es parts → ∀ results,
  last results = resolve files <$> prev →
  foldM (srcmap_step files) results (map (join ":") parts) = Some (results ++ map (resolve files) es).
Proof.
  induction 1 as [|prev e es fields parts He _ IH]; intros results Hp; cbn [foldM map].
  - by rewrite app_nil_r.
  - rewrite (srcmap_step_encodes files results prev e fields He Hp), obind_Some.
    rewrite IH by (by rewrite last_snoc). by rewrite <- app_assoc.
Qed.

(** ** Which maps are rejected *)

(** A part whose present fields are numbers. *)
Definition part_ok (part : str) : Prop :=
  ∀ k, (k < 3)%nat → has_field (split_on ":" part) k = true →
    is_Some (parse_usize (part_field (split_on ":" part) k)).

Definition part_complete (part : str) : bool :=
  let parts := split_on ":" part in
  has_field parts 0 && has_field parts 1 && has_field parts 2 && has_field parts 3.

Lemma number_of_total parts k results prev :
  (has_field parts k = false → results ≠ []) →
  is_Some (number_of parts k results prev) ↔
  (has_field parts k = true → is_Some (parse_usize (part_field parts k))).
Proof.
  intros Hr. unfold number_of. destruct (has_field parts k); [tauto|]. split; [done|]. intros _.
  destruct (last results) eqn:El; [simpl; by eexists|]. apply last_None in El. by destruct Hr.
Qed.

Lemma file_of_total files parts results :
  (has_field parts 2 = false → results ≠ []) →
  is_Some (file_of files parts results) ↔
  (has_field parts 2 = true → is_Some (parse_usize (part_field parts 2))).
Proof.
  intros Hr. unfold file_of. destruct (has_field parts 2).
  - destruct (parse_usize _) eqn:E; simpl; [split; intros; by eexists|]. split; [by intros []|].
    intros H. specialize (H eq_refl). by destruct H.
  - split; [done|]. intros _. destruct (last results) eqn:El; [simpl; by eexists|].
    apply last_None in El. by destruct Hr.
Qed.

(** One part adds one location, unless it panics. *)
Lemma srcmap_step_total files results part :
  is_Some (srcmap_step files results part) ↔
  (results ≠ [] ∨ part_complete part = true → part_ok part).
Proof.
  unfold srcmap_step. fold (part_complete part).
  destruct ((length results =? 0)%nat && negb (part_complete part)) eqn:E.
  { apply andb_prop in E as [E1%Nat.eqb_eq E2]. apply length_zero_iff_nil in E1. subst results.
    split; [|intros _; by eexists]. intros _ [?|H]; [done|]. by rewrite H in E2. }
  assert (results ≠ [] ∨ part_complete part = true) as Hor.
  { destruct results; [right|by left]. simpl in E. by destruct (part_complete part). }
  assert (∀ k, (k < 3)%nat → has_field (split_on ":" part) k = false → results ≠ []) as Hk.
  { intros k Hlt Hh. destruct Hor as [?|Hc]; [done|]. unfold part_complete in Hc.
    rewrite !andb_true_iff in Hc. destruct Hc as [[[H0 H1] H2] _].
    assert (k = 0 ∨ k = 1 ∨ k = 2)%nat as [->|[->| ->]] by lia; congruence. }
  pose proof (file_of_total files (split_on ":" part) results (Hk 2%nat ltac:(lia))) as Tf.
  pose proof (number_of_total (split_on ":" part) 0 results sm_offset (Hk 0%nat ltac:(lia))) as To.
  pose proof (number_of_total (split_on ":" part) 1 results sm_length (Hk 1%nat ltac:(lia))) as Tl.
  unfold part_ok. split.
  - intros [r Hr] _ k Hlt. apply bind_Some in Hr as (f & Ef & Hr). apply bind_Some in Hr as (o & Eo & Hr).
    apply bind_Some in Hr as (l & El & _).
    assert (k = 0 ∨ k = 1 ∨ k = 2)%nat as [->|[->| ->]] by lia; [apply To|apply Tl|apply Tf]; by eexists.
  - intros H. specialize (H Hor).
    destruct (proj2 Tf (H 2%nat ltac:(lia))) as [f ->], (proj2 To (H 0%nat ltac:(lia))) as [o ->],
      (proj2 Tl (H 1%nat ltac:(lia))) as [l ->]. by eexists.
Qed.

Lemma srcmap_step_grows files results part r :
  srcmap_step files results part = Some r → length r = S (length results).
Proof.
  unfold srcmap_step. destruct (_ && _); [intros [= <-]; rewrite length_app; simpl; lia|].
  intros (f & _ & H)%bind_Some. apply bind_Some in H as (o & _ & H). apply bind_Some in H as (l & _ & [= <-]).
  rewrite length_app; simpl; lia.
Qed.

Lemma srcmap_step_prefix files results part r :
  srcmap_step files results part = Some r → results `prefix_of` r.
Proof.
  unfold srcmap_step. destruct (_ && _); [intros [= <-]; by eexists|].
  intros (f & _ & H)%bind_Some. apply bind_Some in H as (o & _ & H).
  apply bind_Some in H as (l & _ & [= <-]). by eexists.
Qed.

Lemma foldM_srcmap_prefix files parts : ∀ results r,
  foldM (srcmap_step files) results parts = Some r → results `prefix_of` r.
Proof.
  induction parts as [|part parts IH]; intros results r; cbn [foldM]; [by intros [= <-]|].
  intros (r1 & E & H)%bind_Some. etransitivity; [by eapply srcmap_step_prefix|by apply IH].
Qed.

Lemma uncompress_fold files parts : ∀ results, results ≠ [] →
  (is_Some (foldM (srcmap_step files) results parts) ↔ Forall part_ok parts) ∧
  ∀ r, foldM (srcmap_step files) results parts = Some r → length r = (length results + length parts)%nat.
Proof.
  induction parts as [|part parts IH]; intros results Hne; cbn [foldM].
  { split; [split; [constructor|by eexists]|]. intros r [= <-]. simpl. lia. }
  pose proof (srcmap_step_total files results part) as Ht. rewrite Forall_cons.
  destruct (srcmap_step files results part) as [r1|] eqn:E.
  - cbn [mbind option_bind]. pose proof (srcmap_step_grows _ _ _ _ E) as Hl.
    destruct (IH r1) as [H1 H2]; [by intros ->|]. rewrite H1. split.
    + split; [|tauto]. intros H. split; [|done]. apply Ht; [by eexists|by left].
    + intros r Hr. rewrite (H2 r Hr), Hl. simpl. lia.
  - simpl. split; [|done]. split; [by intros []|]. intros [H _].
    destruct (proj2 Ht) as [? ?]; [|done]. done.
Qed.

(** [uncompress_srcmap_single] panics exactly on a map with a field that is not a
    number: it returns, with one location per part, iff in every part the offset, length
    and file fields that are present parse as [usize]; only a first part that lacks a
    field is not looked at, and yields the default location. *)
Theorem uncompress_total map files :
  ∃ part0 parts, split_on ";" map = part0 :: parts ∧
  (is_Some (uncompress_srcmap_single map files) ↔
    (part_complete part0 = true → part_ok part0) ∧ Forall part_ok parts) ∧
  (∀ r, uncompress_srcmap_single map files = Some r →
    length r = S (length parts) ∧
    (part_complete part0 = false → r !! 0%nat = Some SourceMapLocation_default)).
Proof.
  assert (∃ part0 parts, split_on ";" map = part0 :: parts) as (part0 & parts & Es).
  { destruct map as [|x map]; simpl; [by eexists _, _|]. case_decide; [by eexists _, _|].
    destruct (split_on _ map); by eexists _, _. }
  exists part0, parts. split; [done|]. unfold uncompress_srcmap_single. rewrite Es. cbn [foldM].
  pose proof (srcmap_step_total files [] part0) as Ht.
  destruct (srcmap_step files [] part0) as [r1|] eqn:E; cbn [mbind option_bind].
  - pose proof (srcmap_step_grows _ _ _ _ E) as Hl.
    destruct (uncompress_fold files parts r1) as [H1 H2]; [by intros ->|]. split.
    + rewrite H1. split; [|tauto]. intros H. split; [|done]. intros Hc. apply Ht; [by eexists|by right].
    + intros r Hr. split; [rewrite (H2 r Hr), Hl; done|]. intros Hc.
      unfold srcmap_step in E. fold (part_complete part0) in E. rewrite Hc in E. injection E as <-.
      clear -Hr. change ([] ++ [SourceMapLocation_default]) with [SourceMapLocation_default] in Hr.
      apply foldM_srcmap_prefix in Hr as [k ->]. done.
  - split; [|done]. split; [by intros []|]. intros [H _]. destruct (proj2 Ht) as [? ?]; [|done].
    intros [?|?]; [done|by apply H].
Qed.

(** C34. [uncompress_srcmap_single] inverts the compression of source maps: from the text
    of any list of locations, however the compressor chose between repeating a field and
    leaving it empty, and whatever it wrote in the fields that are not kept, it recovers
    one location per instruction with its offset, its length and the file its index names
    (none when the index is out of range). *)
Theorem uncompress_inverts_compression files es parts :
  es ≠ [] → encodes_map None es parts →
  uncompress_srcmap_single (srcmap_text parts) files = Some (map (resolve files) es).
Proof.
  intros Hne H. unfold uncompress_srcmap_single. rewrite split_text.
  - by rewrite (uncompress_encodes files None es parts H []).
  - by destruct H.
  - by eapply encodes_map_parts.
Qed.

Lemma uncompress_inverts_compression_witness :
  let files := [lit "lib.sol"; lit "test.sol"] in
  let es := [mkEntry 105 496 1; mkEntry 105 496 1; mkEntry 148 496 1; mkEntry 148 9 7] in
  let parts := [[lit "105"; lit "496"; lit "1"; lit "-"; lit "0"]; [[]]; [lit "148"];
                [[]; lit "9"; lit "7"; lit "i"]] in
  srcmap_text parts = lit "105:496:1:-:0;;148;:9:7:i" ∧
  uncompress_srcmap_single (srcmap_text parts) files = Some (map (resolve files) es).
Proof.
  intros files es parts. split; [reflexivity|]. apply uncompress_inverts_compression; [done|].
  assert (∀ s : str, bool_decide (":"%char ∉ s ∧ ";"%char ∉ s) = true → no_separator s) as Hs.
  { intros s H. by apply bool_decide_eq_true in H. }
  repeat (constructor; [split_and!; [done| |..]|]).
  all: try (repeat constructor; apply Hs; vm_compute; reflexivity).
  all: try (apply encodes_number; [done|reflexivity]).
  all: try (apply encodes_same; reflexivity).
  all: done.
Defined.

(** ** Program counters *)

Lemma decode_loop_done fuel code u idx k res :
  (length code ≤ idx)%nat → decode_loop fuel code u idx k res = res.
Proof. intros H. destruct fuel; [done|]. cbn [decode_loop]. by rewrite lookup_ge_None_2. Qed.

(** One round: the location is recorded and the loop is at the next instruction. *)
Lemma decode_loop_step fuel pre x rest u k res :
  instruction_ok x →
  decode_loop (S fuel) (pre ++ encode x ++ rest) u (length pre) k res =
  decode_loop fuel (pre ++ encode x ++ rest) u (length (pre ++ encode x)) (S k)
    (match u !! k with Some loc => <[length pre := loc]> res | None => res end).
Proof.
  intros Hx. cbn [decode_loop]. rewrite lookup_app_r, Nat.sub_diag by done.
  destruct x as [data|b]; cbn [encode app lookup list_lookup]; rewrite length_app; cbn [length].
  - destruct (push_byte (length data) Hx) as [Eb ->]. rewrite Eb. f_equal. lia.
  - rewrite Hx. f_equal. lia.
Qed.

Lemma decode_loop_tail fuel pre tail u k res :
  truncated tail → (length tail ≤ fuel)%nat →
  decode_loop fuel (pre ++ tail) u (length pre) k res =
  match tail, u !! k with _ :: _, Some loc => <[length pre := loc]> res | _, _ => res end.
Proof.
  intros Ht Hf. destruct tail as [|b data].
  { apply decode_loop_done. rewrite length_app. simpl. lia. }
  destruct fuel as [|fuel]; [simpl in Hf; lia|]. cbn [decode_loop].
  rewrite lookup_app_r, Nat.sub_diag by done. cbn [lookup list_lookup]. destruct Ht as [-> Hlt].
  apply decode_loop_done. rewrite length_app. cbn [length]. lia.
Qed.

Lemma decode_loop_spec l tail u : ∀ fuel pre k res pc loc,
  Forall instruction_ok l → truncated tail → (length (assemble l ++ tail) ≤ fuel)%nat →
  (∀ pc, (length pre ≤ pc)%nat → res !! pc = None) →
  decode_loop fuel (pre ++ assemble l ++ tail) u (length pre) k res !! pc = Some loc ↔
  res !! pc = Some loc ∨
  ∃ j, (j < length l ∨ j = length l ∧ tail ≠ [])%nat ∧
       pc = (length pre + code_start l j)%nat ∧ u !! (k + j)%nat = Some loc.
Proof.
  induction l as [|x l IH]; intros fuel pre k res pc loc Hl Ht Hf Hres.
  { change (assemble [] ++ tail) with tail in *. rewrite decode_loop_tail by done.
    cbn [length]. split.
    - destruct tail as [|b tail]; [by left|]. destruct (u !! k) as [loc'|] eqn:Eu; [|by left].
      intros [[<- <-]|[_ H]]%lookup_insert_Some; [|by left]. right. exists 0%nat.
      rewrite !Nat.add_0_r. by split; [right|].
    - intros [H|(j & [?|[-> Hne]] & -> & Hu)]; [|lia|].
      + destruct tail; [done|]. destruct (u !! k); [|done]. rewrite lookup_insert_ne; [done|].
        intros <-. rewrite Hres in H; [done|lia].
      + unfold code_start in *. cbn [take assemble map concat length] in *. rewrite !Nat.add_0_r in *.
        destruct tail; [done|]. rewrite Hu. by rewrite lookup_insert_eq. }
  apply Forall_cons in Hl as [Hx Hl]. rewrite assemble_cons, <- app_assoc in *.
  rewrite length_app in Hf. pose proof (length_encode x).
  destruct fuel as [|fuel]; [lia|]. rewrite decode_loop_step by done.
  rewrite app_assoc. set (res' := match u !! k with Some _ => _ | None => _ end).
  assert (∀ pc, res' !! pc = Some loc ↔ res !! pc = Some loc ∨ pc = length pre ∧ u !! k = Some loc) as Hr.
  { intros p. unfold res'. destruct (u !! k) as [loc'|] eqn:Eu; [|naive_solver].
    destruct (decide (p = length pre)) as [->|Hne].
    - rewrite lookup_insert_eq, (Hres (length pre)) by lia. naive_solver.
    - rewrite lookup_insert_ne by done. naive_solver. }
  rewrite IH; [|done|done|lia|].
  - rewrite Hr. rewrite length_app. split.
    + intros [[H1|[-> H1]]|(j & Hj & -> & Hu)]; [by left| |]; right.
      * exists 0%nat. rewrite Nat.add_0_r. split; [left; simpl; lia|]. unfold code_start. simpl. by rewrite Nat.add_0_r.
      * exists (S j). split; [destruct Hj as [?|[-> ?]]; [left; simpl; lia|by right]|]. unfold code_start. cbn [take]. rewrite assemble_cons, length_app.
        rewrite Nat.add_succ_r. rewrite Nat.add_assoc. done.
    + intros [H1|(j & Hj & -> & Hu)]; [by left; left|]. destruct j as [|j].
      * left. right. unfold code_start. simpl. rewrite Nat.add_0_r in *. done.
      * right. exists j. cbn [length] in Hj.
        split; [destruct Hj as [?|[? ?]]; [left; lia|right; split; [lia|done]]|]. unfold code_start. cbn [take].
        rewrite assemble_cons, length_app. rewrite Nat.add_succ_r in Hu. rewrite Nat.add_assoc. done.
  - intros p Hp. rewrite length_app in Hp. unfold res'. destruct (u !! k).
    + rewrite lookup_insert_ne by lia. apply Hres. lia.
    + apply Hres. lia.
Qed.

(** [decode_instructions] attaches the locations to the program counters of the
    instructions: the code decodes into instructions, with at most one cut-off PUSH at its
    end, and a program counter is mapped to a location exactly when it is the start of the
    [j]-th of them and the map has a [j]-th location; bytes inside operands are never
    mapped. *)
Theorem decode_instructions_exact bytecode map files u :
  uncompress_srcmap_single map files = Some u →
  ∃ l tail res, bytecode = assemble l ++ tail ∧ Forall instruction_ok l ∧ truncated tail ∧
    decode_instructions bytecode map files = Some res ∧
    ∀ pc loc, res !! pc = Some loc ↔
      ∃ j, (j < length l ∨ j = length l ∧ tail ≠ [])%nat ∧
           pc = length (assemble (take j l)) ∧ u !! j = Some loc.
Proof.
  intros Hu. destruct (disassemble (length bytecode) bytecode) as (l & tail & El & Hl & Ht); [done|].
  exists l, tail. unfold decode_instructions. rewrite Hu, obind_Some. eexists.
  split; [done|]. split; [done|]. split; [done|]. split; [done|]. intros pc loc. rewrite El.
  rewrite (decode_loop_spec l tail u _ [] 0 ∅ pc loc) by (try done; lia).
  rewrite lookup_empty. unfold code_start. cbn [length Nat.add]. naive_solver.
Qed.

Lemma decode_instructions_exact_witness :
  let files := [lit "a.sol"] in
  let code := [z2b 0x60; z2b 0x80; z2b 0x52; z2b 0x61; z2b 1] in
  let u := [mkLocation (Some (lit "a.sol")) 5 9; mkLocation (Some (lit "a.sol")) 7 9;
            mkLocation (Some (lit "a.sol")) 7 9] in
  ∃ l tail res, code = assemble l ++ tail ∧ Forall instruction_ok l ∧ truncated tail ∧
    decode_instructions code (lit "5:9:0:-;7;") files = Some res ∧
    ∀ pc loc, res !! pc = Some loc ↔
      ∃ j, (j < length l ∨ j = length l ∧ tail ≠ [])%nat ∧
           pc = length (assemble (take j l)) ∧ u !! j = Some loc.
Proof. intros files code u. apply decode_instructions_exact. vm_compute. reflexivity. Defined.
