(* ===== verification/Tracer.v ===== *)
(** * Transactions and traces ([src/src/tracer.rs]), as data and text

    A VM state remembers the transactions that built it and the index of the state they
    started from.  This file has the records, the text of argument values
    ([src/src/evm/abi.rs]) and the functions on strings that the tracer and the replay use.
    Formatting of hashes and words is done by crates ([hex], [ruint], [fixed-hash]): the
    class [Formats]. *)
From S2P Require Import Prelude Types Expr Abi AbiLayout AbiParse SrcMap.
#[local] Open Scope Z_scope.

(** A string literal *)
Definition lit (s : string) : str := list_ascii_of_string s.
Arguments lit _ : simpl never.

(** ** Formatting *)

Class Formats := {
  hex_encode : list byte → str;               (** [hex::encode] *)
  hex_decode : str → option (list byte);      (** [hex::decode] *)
  addr_debug : EVMAddress → str;              (** [{:?}] of an address *)
  addr_from_str : str → option EVMAddress;
  u256_display : EVMU256 → str;               (** [{}] *)
  u256_from_dec : str → option EVMU256;       (** [from_str_radix(_, 10)] *)
  u256_from_str : str → option EVMU256;
  u256_debug : EVMU256 → str;                 (** [{:?}] *)
  u512_debug : EVMU512 → str;
  u512_display : EVMU512 → str
}.

(** [{:02x}] *)
Definition hex_digit (d : Z) : ascii :=
  ascii_of_N (Z.to_N (if d <? 10 then 48 + d else 87 + d)).
Definition hex_byte (b : byte) : str := [hex_digit (b2z b / 16); hex_digit (b2z b mod 16)].
(** [vec_to_hex] *)
Definition vec_to_hex (v : list byte) : str := lit "0x" ++ concat (map hex_byte v).

(** [join(",")] *)
Fixpoint join_comma (l : list str) : str :=
  match l with
  | [] => []
  | [x] => x
  | x :: l => x ++ lit "," ++ join_comma l
  end.

(** [to_string] of the argument values *)
Fixpoint abi_to_string (b : ABI) : str :=
  match b with
  | AEmpty => []
  | A256 data _ _ _ | ADynamic data _ => vec_to_hex data
  | AArray data _ =>
      lit "(" ++ join_comma (map (λ x, match x with mkBoxedABI b _ => abi_to_string b end) data) ++ lit ")"
  | AUnknown concrete _ => match concrete with mkBoxedABI b _ => abi_to_string b end
  end.

(** ** Strings *)

(** [contains] *)
Fixpoint starts_with (p s : str) : bool :=
  match p, s with
  | [], _ => true
  | x :: p, y :: s => bool_decide (x = y) && starts_with p s
  | _, [] => false
  end.
Fixpoint contains (p s : str) : bool :=
  starts_with p s || match s with [] => false | _ :: s => contains p s end.

(** The parts before and after the first occurrence of [p] *)
Fixpoint split_at_str (p s : str) : option (str * str) :=
  if starts_with p s then Some ([], drop (length p) s)
  else match s with
       | [] => None
       | x :: s => '(a, b) ← split_at_str p s; Some (x :: a, b)
       end.

(** [split(p).take(2).last()] *)
Definition second_part (p s : str) : str :=
  match split_at_str p s with
  | None => s
  | Some (_, rest) => match split_at_str p rest with Some (a, _) => a | None => rest end
  end.

(** [{}] of a number of at most 64 bits, and of a [bool] *)
Definition show_u64 (n : Z) : str := decimal 20 n.
Definition show_bool (b : bool) : str := if b then lit "true" else lit "false".
(** [parse::<bool>] *)
Definition parse_bool (s : str) : option bool :=
  if decide (s = lit "true") then Some true else if decide (s = lit "false") then Some false else None.

(** ** Transactions and traces *)

(** [struct BasicTxn] *)
Record BasicTxn := mkTxn {
  bt_caller : EVMAddress;
  bt_contract : EVMAddress;
  bt_data : option str;
  bt_data_abi : option BoxedABI;
  bt_value : option EVMU256;
  bt_flashloan : str;
  bt_direct_data : list byte;
  bt_layer : nat;
  bt_additional_info : option (list Z)
}.

(** [struct TxnTrace] *)
Record TxnTrace := mkTrace { transactions : list BasicTxn; from_idx : option Z }.
(** [TxnTrace::new] and [add_txn] *)
Definition TxnTrace_new : TxnTrace := mkTrace [] None.
Definition add_txn (t : TxnTrace) (txn : BasicTxn) : TxnTrace := mkTrace (transactions t ++ [txn]) (from_idx t).

Section text.
Context `{Formats} (function_sig : sel4 → option str).

(** [BoxedABI::to_string]; [function_sig] is the table [FUNCTION_SIG]. *)
Definition boxed_to_string (x : BoxedABI) : str :=
  if decide (boxed_function x = sel_zero)
  then lit "Stepping with return: " ++ hex_encode (map byte_of_ascii (abi_to_string (boxed_b x)))
  else default (hex_encode (sel_bytes (boxed_function x))) (function_sig (boxed_function x)) ++ abi_to_string (boxed_b x).

(** The fields a line of the replay file has for a transaction *)
Definition liq_percent (data : option str) : Z :=
  match data with
  | None => 0
  | Some data => default 0 (parse_usize (second_part (lit "liq percent: ") data))
  end.
Definition data_contains (p : string) (t : BasicTxn) : bool :=
  match bt_data t with Some d => contains (lit p) d | None => false end.
(** [additional_info.unwrap_or(&vec![0])[0]]: indexing panics on an empty vector *)
Definition reentrancy_info (t : BasicTxn) : option Z := default [0] (bt_additional_info t) !! 0%nat.

Definition txn_fields (t : BasicTxn) : option (list str) :=
  let liq := show_u64 (liq_percent (bt_data t)) in
  let value := u256_display (default 0 (bt_value t)) in
  match bt_data_abi t with
  | None =>
      if data_contains "Borrow" t then
        info ← bt_additional_info t;
        Some [lit "borrow"; addr_debug (bt_caller t); addr_debug (bt_contract t); hex_encode (map z2b info); value; liq; lit "0"]
      else if data_contains "ABI" t then
        r ← reentrancy_info t;
        Some [lit "abi"; addr_debug (bt_caller t); addr_debug (bt_contract t); lit "00"; value; liq; lit "0"; lit "1"; show_u64 r]
      else None
  | Some abi =>
      data ← boxed_get_bytes abi;
      r ← reentrancy_info t;
      Some [lit "abi"; addr_debug (bt_caller t); addr_debug (bt_contract t); hex_encode data; value; liq; lit "0"; lit "1";
        show_u64 r; show_bool (data_contains "Stepping with return" t)]
  end.
(** Each field is followed by a space. *)
Definition txn_line (t : BasicTxn) : option str :=
  fields ← txn_fields t; Some (concat (map (λ f, f ++ lit " ") fields) ++ ["010"%char]).

(** ** [to_string] and [to_file_str] *)

(** Both follow [from_idx] through the corpus.  A panic or a chain longer than the fuel is
    [None]; [get idx] is the trace of the state at [idx]. *)
Context (get : Z → option TxnTrace).

Fixpoint to_file_str (fuel : nat) (t : TxnTrace) : option str :=
  match from_idx t with
  | None => Some []
  | Some idx =>
      match fuel, get idx with
      | O, _ => None
      | S fuel, None => Some (lit "Corpus returning error" ++ ["010"%char])
      | S fuel, Some t' =>
          s ← to_file_str fuel t';
          lines ← mapM_opt txn_line (transactions t);
          Some (s ++ concat lines)
      end
  end.

(** [json] is [serde_json::to_string]. *)
Context (json : BasicTxn → str).

Definition txn_text (t : BasicTxn) : str :=
  concat (replicate (bt_layer t) (lit " == ")) ++ json t ++ ["010"%char] ++ ["010"%char].

Fixpoint trace_to_string (fuel : nat) (t : TxnTrace) : option str :=
  match from_idx t with
  | None => Some (lit "Begin" ++ ["010"%char])
  | Some idx =>
      match fuel, get idx with
      | O, _ => None
      | S fuel, None => Some (lit "Corpus returning error" ++ ["010"%char])
      | S fuel, Some t' => s ← trace_to_string fuel t'; Some (s ++ concat (map txn_text (transactions t)))
      end
  end.
End text.
