(* ===== verification/I256.v ===== *)
(** * The word operations of the interpreter
    ([src/externals/revm/crates/interpreter/src/instructions/]{[i256.rs], [arithmetic.rs], [bitwise.rs]})

    The function each arithmetic, comparison and bit instruction computes on 256-bit
    words, with the sign handling of [i256.rs], and what it means on signed numbers.  An
    operation that may panic returns an option. *)
From S2P Require Import Prelude Types.
#[local] Open Scope Z_scope.

(** ** Signs ([i256.rs]) *)

(** [enum Sign] *)
Inductive Sign := Plus | Minus | SZero.
#[export] Instance Sign_eq_dec : EqDecision Sign.
Proof. solve_decision. Defined.

Definition MIN_NEGATIVE_VALUE : EVMU256 := 2 ^ 255.

(** [two_compl]: [wrapping_neg] *)
Definition two_compl (op : EVMU256) : EVMU256 := (- op) mod U256_MOD.

(** [i256_sign::<DO_TWO_COMPL>]: the sign and the updated value. *)
Definition i256_sign (do_two_compl : bool) (v : EVMU256) : Sign * EVMU256 :=
  if negb (Z.testbit v 255) then (if v =? 0 then SZero else Plus, v)
  else (Minus, if do_two_compl then two_compl v else v).

(** [u256_remove_sign]: the highest limb loses its highest bit. *)
Definition u256_remove_sign (v : EVMU256) : EVMU256 := Z.land v (2 ^ 255 - 1).

(** [i256_cmp] *)
Definition i256_cmp (first second : EVMU256) : comparison :=
  match fst (i256_sign false first), fst (i256_sign false second) with
  | SZero, SZero => Eq
  | SZero, Plus => Lt
  | SZero, Minus => Gt
  | Minus, SZero => Lt
  | Minus, Plus => Lt
  | Minus, Minus => first ?= second
  | Plus, Minus => Gt
  | Plus, SZero => Gt
  | Plus, Plus => first ?= second
  end.

(** [i256_div] *)
Definition i256_div (first second : EVMU256) : option EVMU256 :=
  let '(second_sign, second) := i256_sign true second in
  if decide (second_sign = SZero) then Some 0
  else
    let '(first_sign, first) := i256_sign true first in
    if bool_decide (first_sign = Minus) && (first =? MIN_NEGATIVE_VALUE) && (second =? 1)
    then Some (two_compl MIN_NEGATIVE_VALUE)
    else
      d ← div256 first second;
      let d := u256_remove_sign d in
      if d =? 0 then Some 0
      else Some match first_sign, second_sign with
                | SZero, Plus | Plus, SZero | SZero, SZero | Plus, Plus | Minus, Minus => d
                | SZero, Minus | Plus, Minus | Minus, SZero | Minus, Plus => two_compl d
                end.

(** [i256_mod] *)
Definition i256_mod (first second : EVMU256) : option EVMU256 :=
  let '(first_sign, first) := i256_sign true first in
  if decide (first_sign = SZero) then Some 0
  else
    let '(_, second) := i256_sign true second in
    r ← rem256 first second;
    let r := u256_remove_sign r in
    if r =? 0 then Some 0
    else Some (if decide (first_sign = Minus) then two_compl r else r).

(** ** Arithmetic ([arithmetic.rs]) *)

Definition op_add (a b : EVMU256) : EVMU256 := add256 a b.
Definition op_mul (a b : EVMU256) : EVMU256 := mul256 a b.
Definition op_sub (a b : EVMU256) : EVMU256 := sub256 a b.
(** [checked_div] and [checked_rem] with [unwrap_or_default] *)
Definition op_div (a b : EVMU256) : EVMU256 := default 0 (div256 a b).
Definition op_rem (a b : EVMU256) : EVMU256 := default 0 (rem256 a b).
Definition op_sdiv (a b : EVMU256) : option EVMU256 := i256_div a b.
Definition op_smod (a b : EVMU256) : option EVMU256 := if b =? 0 then Some b else i256_mod a b.
(** ruint's [add_mod] and [mul_mod] do not overflow, and are zero for modulus zero. *)
Definition op_addmod (a b m : EVMU256) : EVMU256 := if m =? 0 then 0 else (a + b) mod m.
Definition op_mulmod (a b m : EVMU256) : EVMU256 := if m =? 0 then 0 else (a * b) mod m.

(** ruint's [pow] wraps: square and multiply. *)
Fixpoint pow_pos (a : EVMU256) (p : positive) : EVMU256 :=
  match p with
  | xH => a mod U256_MOD
  | xO p => let r := pow_pos a p in mul256 r r
  | xI p => let r := pow_pos a p in mul256 a (mul256 r r)
  end.
Definition op_exp (a b : EVMU256) : EVMU256 := match b with Zpos p => pow_pos a p | _ => 1 end.

(** [signextend] *)
Definition op_signextend (x y : EVMU256) : EVMU256 :=
  if x <? 32 then
    let bit_index := 8 * as_u64 x + 7 in
    let mask := sub256 (Z.shiftl 1 bit_index) 1 in
    if Z.testbit y bit_index then Z.lor y (U256_MAX - mask) else Z.land y mask
  else y.

(** ** Comparisons and bits ([bitwise.rs]) *)

Definition of_bool (b : bool) : EVMU256 := if b then 1 else 0.
Definition op_lt (a b : EVMU256) : EVMU256 := of_bool (a <? b).
Definition op_gt (a b : EVMU256) : EVMU256 := of_bool (b <? a).
Definition op_slt (a b : EVMU256) : EVMU256 := of_bool (bool_decide (i256_cmp a b = Lt)).
Definition op_sgt (a b : EVMU256) : EVMU256 := of_bool (bool_decide (i256_cmp a b = Gt)).
Definition op_eq (a b : EVMU256) : EVMU256 := of_bool (a =? b).
Definition op_iszero (a : EVMU256) : EVMU256 := of_bool (a =? 0).
Definition op_and (a b : EVMU256) : EVMU256 := Z.land a b.
Definition op_or (a b : EVMU256) : EVMU256 := Z.lor a b.
Definition op_xor (a b : EVMU256) : EVMU256 := Z.lxor a b.
Definition op_not (a : EVMU256) : EVMU256 := U256_MAX - a.

(** [v.as_limbs()[i]] *)
Definition limb (v : EVMU256) (i : Z) : Z := (v / 2 ^ (64 * i)) mod 2 ^ 64.
(** [as_u64_saturated!] and [as_usize_saturated!] *)
Definition as_usize_saturated (v : EVMU256) : Z :=
  if negb (limb v 1 =? 0) || negb (limb v 2 =? 0) || negb (limb v 3 =? 0) then usize_max else limb v 0.

(** ruint's [<<] and [>>] *)
Definition shl256 (v : EVMU256) (s : Z) : EVMU256 := if s <? 256 then Z.shiftl v s mod U256_MOD else 0.
Definition shr256 (v : EVMU256) (s : Z) : EVMU256 := if s <? 256 then Z.shiftr v s else 0.

Definition op_byte (a b : EVMU256) : EVMU256 :=
  let o1 := as_usize_saturated a in
  if o1 <? 32 then shr256 (shl256 b (8 * o1)) (8 * 31) else 0.
Definition op_shl (a b : EVMU256) : EVMU256 := shl256 b (as_usize_saturated a).
Definition op_shr (a b : EVMU256) : EVMU256 := shr256 b (as_usize_saturated a).

(** [sar]: [value] is the value after the sign was taken off. *)
Definition op_sar (a b : EVMU256) : EVMU256 :=
  let '(value_sign, value) := i256_sign true b in
  if (value =? 0) || (256 <=? a) then
    match value_sign with Plus | SZero => 0 | Minus => two_compl 1 end
  else
    match value_sign with
    | Plus | SZero => shr256 value a
    | Minus => two_compl (add256 (shr256 (sub256 value 1) a) 1)
    end.

(** ** Signed numbers *)

(** The number a word stands for in two's complement, and back. *)
Definition to_signed (v : EVMU256) : Z := if v <? 2 ^ 255 then v else v - U256_MOD.
Definition of_signed (z : Z) : EVMU256 := z mod U256_MOD.
(** The signed number of the low [w] bits. *)
Definition low_signed (w v : Z) : Z :=
  let r := v mod 2 ^ w in if r <? 2 ^ (w - 1) then r else r - 2 ^ w.

Lemma U256_MOD_half : U256_MOD = 2 * 2 ^ 255.
Proof. reflexivity. Qed.

Lemma to_signed_range v : is_u256 v → - 2 ^ 255 ≤ to_signed v < 2 ^ 255.
Proof.
  unfold is_u256, to_signed. rewrite U256_MOD_half. intros H. destruct (Z.ltb_spec v (2 ^ 255)); lia.
Qed.

Lemma of_to_signed v : is_u256 v → of_signed (to_signed v) = v.
Proof.
  unfold is_u256, of_signed, to_signed. intros H. destruct (v <? 2 ^ 255).
  - by apply Z.mod_small.
  - symmetry. apply (Z.mod_unique_pos _ _ (-1)); [done|lia].
Qed.

Lemma to_of_signed z : - 2 ^ 255 ≤ z < 2 ^ 255 → to_signed (of_signed z) = z.
Proof.
  intros H. pose proof U256_MOD_half. unfold of_signed, to_signed. destruct (Z.leb_spec 0 z).
  - rewrite Z.mod_small by lia. destruct (Z.ltb_spec z (2 ^ 255)); lia.
  - assert (z mod U256_MOD = z + U256_MOD) as ->.
    { symmetry. apply (Z.mod_unique_pos _ _ (-1)); lia. }
    destruct (Z.ltb_spec (z + U256_MOD) (2 ^ 255)); lia.
Qed.

Lemma testbit_255 v : is_u256 v → Z.testbit v 255 = negb (v <? 2 ^ 255).
Proof.
  unfold is_u256. rewrite U256_MOD_half. intros H. rewrite Z.testbit_eqb by done.
  destruct (Z.ltb_spec v (2 ^ 255)).
  - rewrite Z.div_small by lia. done.
  - assert (v / 2 ^ 255 = 1) as ->; [|done]. symmetry. apply (Z.div_unique_pos _ _ _ (v - 2 ^ 255)); lia.
Qed.

Lemma two_compl_pos v : 0 < v < U256_MOD → two_compl v = U256_MOD - v.
Proof. intros H. unfold two_compl. symmetry. apply (Z.mod_unique_pos _ _ (-1)); lia. Qed.

(** The three cases of [i256_sign]: the absolute value and the sign. *)
Lemma i256_sign_cases v : is_u256 v →
  (v = 0 ∧ to_signed v = 0 ∧ ∀ b, i256_sign b v = (SZero, 0)) ∨
  (0 < v < 2 ^ 255 ∧ to_signed v = v ∧ ∀ b, i256_sign b v = (Plus, v)) ∨
  (2 ^ 255 ≤ v ∧ to_signed v = v - U256_MOD ∧ 0 < U256_MOD - v ≤ 2 ^ 255 ∧
   ∀ b, i256_sign b v = (Minus, if b : bool then U256_MOD - v else v)).
Proof.
  intros H. pose proof (testbit_255 v H) as Hb. unfold i256_sign. rewrite Hb.
  unfold is_u256 in H. pose proof U256_MOD_half. unfold to_signed.
  destruct (Z.ltb_spec v (2 ^ 255)) as [Hl|Hl]; cbn [negb].
  - destruct (Z.eqb_spec v 0) as [->|Hn]; [left; done|right; left]. split; [lia|done].
  - right. right. split_and!; [done|done|lia|lia|]. intros b. rewrite two_compl_pos by lia. done.
Qed.

Lemma u256_remove_sign_small d : 0 ≤ d < 2 ^ 255 → u256_remove_sign d = d.
Proof.
  intros H. unfold u256_remove_sign. change (2 ^ 255 - 1) with (Z.ones 255).
  rewrite Z.land_ones by done. by apply Z.mod_small.
Qed.

Lemma of_signed_neg d : 0 < d < U256_MOD → of_signed (- d) = two_compl d.
Proof. intros H. rewrite two_compl_pos by done. unfold of_signed. symmetry. apply (Z.mod_unique_pos _ _ (-1)); lia. Qed.

Lemma of_signed_pos d : 0 ≤ d < U256_MOD → of_signed d = d.
Proof. apply Z.mod_small. Qed.

(** [a / b] on absolute values stays in range but for the one overflowing case. *)
Lemma abs_div_range a b : 0 ≤ a ≤ 2 ^ 255 → 0 < b → a ≠ 2 ^ 255 ∨ b ≠ 1 → 0 ≤ a / b < 2 ^ 255.
Proof.
  intros Ha Hb Hab. split; [apply Z.div_pos; lia|].
  apply Z.div_lt_upper_bound; [done|]. destruct (decide (b = 1)) as [->|]; [lia|].
  assert (2 * 2 ^ 255 ≤ b * 2 ^ 255) by (apply Z.mul_le_mono_nonneg_r; lia). lia.
Qed.

Lemma i256_cmp_spec a b : is_u256 a → is_u256 b → i256_cmp a b = (to_signed a ?= to_signed b).
Proof.
  intros Ha Hb. unfold i256_cmp. pose proof U256_MOD_half.
  destruct (i256_sign_cases a Ha) as [(-> & Ea & Sa)|[(? & Ea & Sa)|(? & Ea & ? & Sa)]];
  destruct (i256_sign_cases b Hb) as [(-> & Eb & Sb)|[(? & Eb & Sb)|(? & Eb & ? & Sb)]];
  rewrite ?Sa, ?Sb, ?Ea, ?Eb; cbn [fst]; symmetry; try (apply Z.compare_lt_iff; lia); try (apply Z.compare_gt_iff; lia);
    try done.
  rewrite (Z.compare_sub a), (Z.compare_sub (a - _)). f_equal. lia.
Qed.

Lemma i256_div_spec a b : is_u256 a → is_u256 b →
  i256_div a b = Some (if b =? 0 then 0 else of_signed (Z.quot (to_signed a) (to_signed b))).
Proof.
  intros Ha Hb. unfold i256_div. pose proof U256_MOD_half.
  destruct (i256_sign_cases b Hb) as [(-> & Eb & Sb)|Hb']; [by rewrite Sb|].
  assert (∃ sb nb, i256_sign true b = (sb, nb) ∧ 0 < nb ≤ 2 ^ 255 ∧
    (sb = Plus ∧ to_signed b = nb ∨ sb = Minus ∧ to_signed b = - nb)) as (sb & nb & -> & Hnb & Sb).
  { destruct Hb' as [(? & Eb & Sb)|(? & Eb & ? & Sb)]; rewrite Sb; eexists _, _; (split; [done|]).
    - split; [lia|]. by left.
    - split; [lia|]. right. split; [done|lia]. }
  assert (b ≠ 0) as Hb0 by lia. rewrite (proj2 (Z.eqb_neq b 0) Hb0).
  rewrite decide_False by (by destruct Sb as [[-> _]|[-> _]]).
  assert (∃ sa na, i256_sign true a = (sa, na) ∧ 0 ≤ na ≤ 2 ^ 255 ∧
    (sa = SZero ∧ na = 0 ∧ to_signed a = 0 ∨ sa = Plus ∧ na < 2 ^ 255 ∧ to_signed a = na ∨
     sa = Minus ∧ to_signed a = - na)) as (sa & na & -> & Hna & Sa).
  { destruct (i256_sign_cases a Ha) as [(-> & Ea & Sa)|[(? & Ea & Sa)|(? & Ea & ? & Sa)]]; rewrite Sa;
      eexists _, _; (split; [done|]).
    - split; [lia|]. by left.
    - split; [lia|]. right; left. split; [done|]. lia.
    - split; [lia|]. right; right. split; [done|lia]. }
  destruct (bool_decide (sa = Minus) && (na =? MIN_NEGATIVE_VALUE) && (nb =? 1)) eqn:Eov.
  { rewrite !andb_true_iff, bool_decide_eq_true, !Z.eqb_eq in Eov. destruct Eov as [[-> ->] ->].
    destruct Sa as [(? & _)|[(? & _)|[_ ->]]]; try done. by destruct Sb as [[_ ->]|[_ ->]]. }
  assert (0 ≤ na / nb < 2 ^ 255) as Hd.
  { destruct (decide (na = 2 ^ 255 ∧ nb = 1)) as [[-> ->]|Hne]; [|apply abs_div_range; lia].
    exfalso. destruct Sa as [(_ & ? & _)|[(_ & ? & _)|[-> _]]]; [lia|lia|]. done. }
  unfold div256. rewrite decide_False by lia. rewrite obind_Some, u256_remove_sign_small by done.
  assert (Z.quot na nb = na / nb) as Hq by (apply Z.quot_div_nonneg; lia).
  assert (0 ≤ na / nb < U256_MOD) as Hd' by lia. destruct (Z.eqb_spec (na / nb) 0) as [H0|H0].
  { f_equal. destruct Sa as [(_ & _ & ->)|[(_ & _ & ->)|[_ ->]]], Sb as [[_ ->]|[_ ->]];
      rewrite ?Z.quot_opp_l, ?Z.quot_opp_r, ?Z.quot_0_l, ?Hq, ?H0 by lia; done. }
  assert (two_compl (na / nb) = of_signed (- (na / nb))) as Hneg by (rewrite of_signed_neg; [done|lia]).
  f_equal. destruct Sa as [(-> & -> & _)|[(-> & _ & ->)|[-> ->]]], Sb as [[-> ->]|[-> ->]];
    rewrite ?Z.quot_opp_l, ?Z.quot_opp_r, ?Hq, ?Z.opp_involutive, ?Hneg, ?of_signed_pos by lia;
    try done; by rewrite Z.div_0_l in H0 by lia.
Qed.

Lemma i256_mod_spec a b : is_u256 a → is_u256 b → b ≠ 0 →
  i256_mod a b = Some (of_signed (Z.rem (to_signed a) (to_signed b))).
Proof.
  intros Ha Hb Hb0. unfold i256_mod. pose proof U256_MOD_half.
  assert (∃ sb nb, i256_sign true b = (sb, nb) ∧ 0 < nb ≤ 2 ^ 255 ∧
    (to_signed b = nb ∨ to_signed b = - nb)) as (sb & nb & Esb & Hnb & Sb).
  { destruct (i256_sign_cases b Hb) as [(-> & Eb & Sb)|[(? & Eb & Sb)|(? & Eb & ? & Sb)]]; [done|..];
      rewrite Sb; eexists _, _; (split; [done|]); lia. }
  assert (∀ na, 0 ≤ na → Z.rem na (to_signed b) = na mod nb) as Hr.
  { intros na Hn. destruct Sb as [-> | ->]; rewrite ?Z.rem_opp_r by lia; apply Z.rem_mod_nonneg; lia. }
  assert (∀ na, 0 ≤ na → 0 ≤ na mod nb < 2 ^ 255) as Hm.
  { intros na Hn. pose proof (Z.mod_pos_bound na nb). lia. }
  assert (∀ na, rem256 na nb = Some (na mod nb)) as Hrem.
  { intros na. unfold rem256. by rewrite decide_False by lia. }
  rewrite Esb. clear Esb.
  destruct (i256_sign_cases a Ha) as [(-> & Ea & Sa)|[(? & Ea & Sa)|(? & Ea & ? & Sa)]]; rewrite Sa, Ea.
  - rewrite Z.rem_0_l by lia. done.
  - rewrite decide_False, Hrem, obind_Some, u256_remove_sign_small, (Hr a) by (done || lia || (apply Hm; lia)).
    specialize (Hm a). destruct (Z.eqb_spec (a mod nb) 0) as [->|?]; [done|].
    rewrite decide_False, of_signed_pos by (done || lia). done.
  - rewrite decide_False, Hrem, obind_Some, u256_remove_sign_small by (done || (apply Hm; lia)).
    replace (a - U256_MOD) with (- (U256_MOD - a)) by lia. rewrite Z.rem_opp_l' by lia. rewrite Hr by lia.
    specialize (Hm (U256_MOD - a)). destruct (Z.eqb_spec ((U256_MOD - a) mod nb) 0) as [->|?]; [done|].
    rewrite decide_True, of_signed_neg by (done || lia). done.
Qed.

(** ** Shifts, bytes and powers *)

Lemma limbs_zero v : is_u256 v → 2 ^ 64 ≤ v → limb v 1 ≠ 0 ∨ limb v 2 ≠ 0 ∨ limb v 3 ≠ 0.
Proof.
  unfold is_u256, limb. change U256_MOD with (2 ^ 64 * (2 ^ 64 * (2 ^ 64 * 2 ^ 64))).
  change (2 ^ (64 * 1)) with (2 ^ 64). change (2 ^ (64 * 2)) with (2 ^ 64 * 2 ^ 64).
  change (2 ^ (64 * 3)) with (2 ^ 64 * (2 ^ 64 * 2 ^ 64)).
  rewrite <- !Z.div_div by done. intros H Hv.
  pose proof (Z.div_mod v (2 ^ 64)). pose proof (Z.div_mod (v / 2 ^ 64) (2 ^ 64)).
  pose proof (Z.div_mod (v / 2 ^ 64 / 2 ^ 64) (2 ^ 64)).
  assert (v / 2 ^ 64 / 2 ^ 64 / 2 ^ 64 < 2 ^ 64).
  { rewrite !Z.div_div by done. apply Z.div_lt_upper_bound; lia. }
  assert (0 ≤ v / 2 ^ 64 / 2 ^ 64 / 2 ^ 64) by (repeat apply Z.div_pos; lia).
  assert (1 ≤ v / 2 ^ 64) by (apply Z.div_le_lower_bound; lia).
  rewrite (Z.mod_small (v / 2 ^ 64 / 2 ^ 64 / 2 ^ 64)) by lia. lia.
Qed.

Lemma as_usize_saturated_small v : 0 ≤ v < 2 ^ 64 → as_usize_saturated v = v.
Proof.
  intros H. unfold as_usize_saturated, limb.
  rewrite (Z.div_small v (2 ^ (64 * 1))), (Z.div_small v (2 ^ (64 * 2))), (Z.div_small v (2 ^ (64 * 3))) by lia.
  change (2 ^ (64 * 0)) with 1. rewrite Z.div_1_r, (Z.mod_small v) by done. done.
Qed.

Lemma as_usize_saturated_spec v : is_u256 v → as_usize_saturated v = Z.min v usize_max.
Proof.
  intros H. destruct (Z.ltb_spec v (2 ^ 64)) as [Hl|Hl].
  - unfold is_u256 in H. rewrite as_usize_saturated_small by lia. unfold usize_max, USIZE. lia.
  - destruct (limbs_zero v H Hl) as [E|[E|E]]; apply Z.eqb_neq in E; unfold as_usize_saturated; rewrite E;
      cbn [negb]; rewrite ?orb_true_r; cbn [orb]; unfold usize_max, USIZE; lia.
Qed.

Lemma pow_ge_mod s : 256 ≤ s → U256_MOD ≤ 2 ^ s.
Proof. intros H. unfold U256_MOD. by apply Z.pow_le_mono_r. Qed.

Lemma op_shl_spec a b : is_u256 a → is_u256 b → op_shl a b = (b * 2 ^ a) mod U256_MOD.
Proof.
  intros Ha Hb. unfold op_shl, shl256. rewrite as_usize_saturated_spec by done.
  assert (2 ^ 8 < usize_max) by done. unfold is_u256 in *.
  destruct (Z.ltb_spec (Z.min a usize_max) 256) as [Hs|Hs].
  - rewrite Z.min_l by lia. by rewrite Z.shiftl_mul_pow2 by lia.
  - replace a with (256 + (a - 256)) by lia. rewrite Z.pow_add_r by lia.
    rewrite Z.mul_assoc, (Z.mul_comm b), <- Z.mul_assoc, Z.mul_comm. unfold U256_MOD. by rewrite Z.mod_mul.
Qed.

Lemma op_shr_spec a b : is_u256 a → is_u256 b → op_shr a b = b / 2 ^ a.
Proof.
  intros Ha Hb. unfold op_shr, shr256. rewrite as_usize_saturated_spec by done.
  assert (2 ^ 8 < usize_max) by done. unfold is_u256 in *.
  destruct (Z.ltb_spec (Z.min a usize_max) 256) as [Hs|Hs].
  - rewrite Z.min_l by lia. by rewrite Z.shiftr_div_pow2 by lia.
  - rewrite Z.div_small; [done|]. pose proof (pow_ge_mod a). lia.
Qed.

Lemma op_sar_spec a b : is_u256 a → is_u256 b → op_sar a b = of_signed (to_signed b / 2 ^ a).
Proof.
  intros Ha Hb. unfold op_sar. pose proof U256_MOD_half. unfold is_u256 in Ha.
  assert (0 < 2 ^ a) by (apply Z.pow_pos_nonneg; lia).
  destruct (i256_sign_cases b Hb) as [(-> & Eb & Sb)|[(? & Eb & Sb)|(? & Eb & ? & Sb)]]; rewrite Sb, Eb.
  - by rewrite Z.div_0_l by lia.
  - rewrite (proj2 (Z.eqb_neq b 0)) by lia. cbn [orb]. destruct (Z.leb_spec 256 a) as [Hs|Hs].
    + rewrite Z.div_small; [done|]. pose proof (pow_ge_mod a Hs). lia.
    + unfold shr256. rewrite (proj2 (Z.ltb_lt a 256)) by lia. rewrite Z.shiftr_div_pow2 by lia.
      rewrite of_signed_pos; [done|]. split; [apply Z.div_pos; lia|].
      apply Z.div_lt_upper_bound; [done|]. nia.
  - rewrite (proj2 (Z.eqb_neq (U256_MOD - b) 0)) by lia. cbn [orb]. destruct (Z.leb_spec 256 a) as [Hs|Hs].
    + pose proof (pow_ge_mod a Hs). rewrite <- (Z.div_unique_pos (b - U256_MOD) (2 ^ a) (-1) (2 ^ a + b - U256_MOD)) by lia.
      done.
    + unfold shr256. rewrite (proj2 (Z.ltb_lt a 256)) by lia. rewrite sub256_small by lia.
      rewrite Z.shiftr_div_pow2 by lia. set (q := (U256_MOD - b - 1) / 2 ^ a).
      assert (0 ≤ q < 2 ^ 255) as Hq.
      { split; [apply Z.div_pos; lia|]. apply Z.div_lt_upper_bound; [done|]. nia. }
      rewrite add256_small, <- of_signed_neg by lia. f_equal.
      pose proof (Z.div_mod (U256_MOD - b - 1) (2 ^ a) ltac:(lia)).
      pose proof (Z.mod_pos_bound (U256_MOD - b - 1) (2 ^ a) ltac:(lia)). fold q in H3.
      apply (Z.div_unique_pos _ _ _ (2 ^ a - 1 - (U256_MOD - b - 1) mod 2 ^ a)); nia.
Qed.

Lemma op_exp_spec a b : 0 ≤ b → op_exp a b = a ^ b mod U256_MOD.
Proof.
  assert (∀ p, pow_pos a p = a ^ Zpos p mod U256_MOD) as Hp.
  { induction p as [p IH|p IH|]; cbn [pow_pos]; rewrite ?IH; unfold mul256.
    - rewrite Pos2Z.inj_xI, Z.pow_add_r, Z.pow_1_r, Z.pow_twice_r by lia.
      rewrite <- Z.mul_mod by done. rewrite Z.mul_mod_idemp_r by done. by rewrite (Z.mul_comm a).
    - rewrite Pos2Z.inj_xO, Z.pow_twice_r. by rewrite <- Z.mul_mod by done.
    - by rewrite Z.pow_1_r. }
  intros Hb. destruct b as [|p|p]; [done|by apply Hp|lia].
Qed.

Lemma op_byte_spec a b : is_u256 a → is_u256 b →
  op_byte a b = if a <? 32 then (b / 256 ^ (31 - a)) mod 256 else 0.
Proof.
  intros Ha Hb. unfold op_byte. rewrite as_usize_saturated_spec by done.
  assert (2 ^ 8 < usize_max) by done. unfold is_u256 in *. destruct (Z.ltb_spec a 32) as [Hs|Hs].
  2: { by rewrite (proj2 (Z.ltb_ge (Z.min a usize_max) 32)) by lia. }
  rewrite Z.min_l by lia. rewrite (proj2 (Z.ltb_lt a 32)) by done. unfold shr256, shl256.
  change (8 * 31 <? 256) with true. cbv iota. rewrite (proj2 (Z.ltb_lt (8 * a) 256)) by lia.
  rewrite Z.shiftl_mul_pow2, Z.shiftr_div_pow2 by lia. change (2 ^ (8 * 31)) with (256 ^ 31).
  rewrite (Z.pow_mul_r 2 8 a) by lia. change (2 ^ 8) with 256.
  replace U256_MOD with (256 ^ a * 256 ^ (32 - a)) by (rewrite <- Z.pow_add_r by lia; by replace (a + (32 - a)) with 32 by lia).
  replace (256 ^ 31) with (256 ^ a * 256 ^ (31 - a)) by (rewrite <- Z.pow_add_r by lia; by replace (a + (31 - a)) with 31 by lia).
  assert (0 < 256 ^ a) by (apply Z.pow_pos_nonneg; lia).
  assert (0 < 256 ^ (31 - a)) by (apply Z.pow_pos_nonneg; lia).
  replace (32 - a) with (31 - a + 1) by lia. rewrite Z.pow_add_r, Z.pow_1_r by lia.
  rewrite (Z.mul_comm b), Z.mul_mod_distr_l by nia. rewrite Z.div_mul_cancel_l by lia.
  rewrite (Z.rem_mul_r b (256 ^ (31 - a)) 256) by lia.
  rewrite Z.add_comm, Z.mul_comm, Z.div_add_l by lia.
  rewrite (Z.div_small (b mod _)) by (apply Z.mod_pos_bound; lia). lia.
Qed.

Lemma u256_mask v : is_u256 v ↔ Z.land v (Z.ones 256) = v.
Proof.
  rewrite Z.land_ones by done. unfold is_u256. change (2 ^ 256) with U256_MOD. split.
  - apply Z.mod_small.
  - intros <-. by apply Z.mod_pos_bound.
Qed.

Lemma op_and_range a b : is_u256 a → is_u256 b → is_u256 (Z.land a b).
Proof. rewrite !u256_mask. intros _ H. by rewrite <- Z.land_assoc, H. Qed.
Lemma op_or_range a b : is_u256 a → is_u256 b → is_u256 (Z.lor a b).
Proof. rewrite !u256_mask. intros Ha Hb. by rewrite Z.land_lor_distr_l, Ha, Hb. Qed.
Lemma op_xor_range a b : is_u256 a → is_u256 b → is_u256 (Z.lxor a b).
Proof.
  rewrite !u256_mask. intros Ha Hb. apply Z.bits_inj'. intros i Hi. rewrite Z.land_spec, !Z.lxor_spec.
  rewrite <- Ha, <- Hb, !Z.land_spec. by destruct (Z.testbit a i), (Z.testbit b i), (Z.testbit (Z.ones 256) i).
Qed.

Lemma land_ones_mod y s : 0 ≤ s → Z.land y (2 ^ s - 1) = y mod 2 ^ s.
Proof. intros H. rewrite <- Z.land_ones by done. by rewrite Z.ones_equiv, Z.sub_1_r. Qed.

(** Setting every bit from [s] up. *)
Lemma lor_high y s : is_u256 y → 0 ≤ s ≤ 256 → Z.lor y (U256_MOD - 2 ^ s) = U256_MOD - 2 ^ s + y mod 2 ^ s.
Proof.
  intros Hy Hs. apply u256_mask in Hy.
  assert (U256_MOD - 2 ^ s = Z.shiftl (Z.ones (256 - s)) s) as ->.
  { rewrite Z.shiftl_mul_pow2, Z.ones_equiv by lia. unfold U256_MOD.
    replace 256 with (256 - s + s) at 1 by lia. rewrite Z.pow_add_r by lia. lia. }
  rewrite <- Z.land_ones by lia. rewrite Z.add_comm.
  assert (Z.land (Z.land y (Z.ones s)) (Z.shiftl (Z.ones (256 - s)) s) = 0) as Hd.
  { apply Z.bits_inj'. intros i Hi. rewrite !Z.land_spec, Z.shiftl_spec, !Z.testbit_ones, Z.testbit_0_l by lia.
    destruct (Z.ltb_spec i s), (Z.leb_spec 0 (i - s)); try lia; rewrite ?andb_false_r; done. }
  rewrite Z.add_nocarry_lxor, Z.lxor_lor by done. apply Z.bits_inj'. intros i Hi.
  rewrite <- Hy at 1. rewrite !Z.lor_spec, !Z.land_spec, !Z.shiftl_spec, !Z.testbit_ones by lia.
  destruct (Z.testbit y i); [|done].
  destruct (Z.leb_spec 0 i), (Z.ltb_spec i 256), (Z.ltb_spec i s), (Z.leb_spec 0 (i - s)), (Z.ltb_spec (i - s) (256 - s));
    try lia; done.
Qed.

Lemma mod_next_bit y s : 0 ≤ s → y mod 2 ^ (s + 1) = y mod 2 ^ s + 2 ^ s * Z.b2z (Z.testbit y s).
Proof.
  intros Hs. rewrite Z.pow_add_r, Z.pow_1_r by lia. rewrite Z.rem_mul_r by lia.
  f_equal. f_equal. by rewrite Z.testbit_spec' by lia.
Qed.

Lemma op_signextend_spec x y : is_u256 x → is_u256 y →
  op_signextend x y = if x <? 32 then of_signed (low_signed (8 * (x + 1)) y) else y.
Proof.
  intros Hx Hy. unfold op_signextend, is_u256 in *. destruct (Z.ltb_spec x 32) as [Hs|Hs]; [|done].
  unfold as_u64. rewrite (Z.mod_small x) by lia. set (s := 8 * x + 7). assert (7 ≤ s ≤ 255) as Hr by lia.
  replace (8 * (x + 1)) with (s + 1) by lia. rewrite Z.shiftl_mul_pow2, Z.mul_1_l by lia.
  assert (0 < 2 ^ s ≤ 2 ^ 255) by (split; [apply Z.pow_pos_nonneg; lia|apply Z.pow_le_mono_r; lia]).
  pose proof U256_MOD_half. rewrite sub256_small by lia.
  pose proof (Z.mod_pos_bound y (2 ^ s) ltac:(lia)).
  unfold low_signed. rewrite mod_next_bit by lia. replace (s + 1 - 1) with s by lia.
  rewrite Z.pow_add_r, Z.pow_1_r by lia. destruct (Z.testbit y s); cbn [Z.b2z].
  - replace (U256_MAX - (2 ^ s - 1)) with (U256_MOD - 2 ^ s) by (unfold U256_MAX; lia).
    rewrite lor_high by (done || lia). rewrite (proj2 (Z.ltb_ge _ (2 ^ s))) by lia.
    unfold of_signed. apply (Z.mod_unique_pos _ _ (-1)); lia.
  - rewrite land_ones_mod by lia. rewrite (proj2 (Z.ltb_lt _ (2 ^ s))) by lia.
    rewrite of_signed_pos by lia. lia.
Qed.

Lemma op_smod_spec a b : is_u256 a → is_u256 b →
  op_smod a b = Some (if b =? 0 then 0 else of_signed (Z.rem (to_signed a) (to_signed b))).
Proof.
  intros Ha Hb. unfold op_smod. destruct (Z.eqb_spec b 0) as [->|Hn]; [done|]. by apply i256_mod_spec.
Qed.

(** ** Ranges *)

Lemma of_signed_range z : is_u256 (of_signed z).
Proof. unfold is_u256, of_signed. by apply Z.mod_pos_bound. Qed.
Lemma of_bool_range b : is_u256 (of_bool b).
Proof. unfold is_u256, of_bool. by destruct b. Qed.
Lemma is_u256_0 : is_u256 0.
Proof. done. Qed.
Lemma op_div_range a b : is_u256 a → is_u256 b → is_u256 (op_div a b).
Proof.
  unfold op_div, div256, is_u256. intros Ha Hb. case_decide; [done|]. simpl.
  split; [apply Z.div_pos; lia|]. apply Z.div_lt_upper_bound; nia.
Qed.
Lemma op_rem_range a b : is_u256 a → is_u256 b → is_u256 (op_rem a b).
Proof.
  unfold op_rem, rem256, is_u256. intros Ha Hb. case_decide; [done|]. simpl.
  pose proof (Z.mod_pos_bound a b). lia.
Qed.
Lemma op_addmod_range a b m : is_u256 m → is_u256 (op_addmod a b m).
Proof.
  unfold op_addmod, is_u256. intros H. destruct (Z.eqb_spec m 0); [done|].
  pose proof (Z.mod_pos_bound (a + b) m). lia.
Qed.
Lemma op_mulmod_range a b m : is_u256 m → is_u256 (op_mulmod a b m).
Proof.
  unfold op_mulmod, is_u256. intros H. destruct (Z.eqb_spec m 0); [done|].
  pose proof (Z.mod_pos_bound (a * b) m). lia.
Qed.
Lemma op_exp_range a b : is_u256 b → is_u256 (op_exp a b).
Proof. intros [H _]. rewrite op_exp_spec by done. by apply Z.mod_pos_bound. Qed.
Lemma op_not_range a : is_u256 a → is_u256 (op_not a).
Proof. unfold is_u256, op_not, U256_MAX. lia. Qed.
Lemma op_signextend_range a b : is_u256 a → is_u256 b → is_u256 (op_signextend a b).
Proof. intros Ha Hb. rewrite op_signextend_spec by done. destruct (a <? 32); [apply of_signed_range|done]. Qed.
Lemma op_byte_range a b : is_u256 a → is_u256 b → is_u256 (op_byte a b).
Proof.
  intros Ha Hb. rewrite op_byte_spec by done. destruct (a <? 32); [|done].
  pose proof (Z.mod_pos_bound (b / 256 ^ (31 - a)) 256). unfold is_u256, U256_MOD. lia.
Qed.
Lemma op_shl_range a b : is_u256 a → is_u256 b → is_u256 (op_shl a b).
Proof. intros Ha Hb. rewrite op_shl_spec by done. by apply Z.mod_pos_bound. Qed.
Lemma op_shr_range a b : is_u256 a → is_u256 b → is_u256 (op_shr a b).
Proof.
  intros Ha Hb. rewrite op_shr_spec by done. unfold is_u256 in *.
  assert (0 < 2 ^ a) by (apply Z.pow_pos_nonneg; lia).
  split; [apply Z.div_pos; lia|]. apply Z.div_lt_upper_bound; nia.
Qed.
Lemma op_sar_range a b : is_u256 a → is_u256 b → is_u256 (op_sar a b).
Proof. intros Ha Hb. rewrite op_sar_spec by done. apply of_signed_range. Qed.
Lemma op_sdiv_range a b r : is_u256 a → is_u256 b → op_sdiv a b = Some r → is_u256 r.
Proof.
  intros Ha Hb. unfold op_sdiv. rewrite i256_div_spec by done. intros [= <-].
  destruct (b =? 0); [done|apply of_signed_range].
Qed.
Lemma op_smod_range a b r : is_u256 a → is_u256 b → op_smod a b = Some r → is_u256 r.
Proof.
  intros Ha Hb. rewrite op_smod_spec by done. intros [= <-]. destruct (b =? 0); [done|apply of_signed_range].
Qed.

Create HintDb word.
#[export] Hint Resolve of_signed_range of_bool_range is_u256_0 add256_range sub256_range mul256_range
  op_div_range op_rem_range op_addmod_range op_mulmod_range op_exp_range op_not_range op_signextend_range
  op_byte_range op_shl_range op_shr_range op_sar_range op_and_range op_or_range op_xor_range : word.

(** C10. The word operations of the interpreter compute on two's complement numbers what
    the EVM prescribes, for all 256-bit operands: SDIV truncates and is zero for divisor
    zero, with the overflow of the least number wrapping; SMOD has the sign of the
    dividend; SLT and SGT compare signed; SAR is the floor of the division by the power
    of two, SHL and SHR multiply and divide by it, for every shift up to [2^256 - 1];
    SIGNEXTEND reads the low bytes as a signed number; BYTE counts from the most
    significant byte; EXP is the power modulo [2^256]. *)
Theorem word_operations_exact a b :
  is_u256 a → is_u256 b →
  op_sdiv a b = Some (if b =? 0 then 0 else of_signed (Z.quot (to_signed a) (to_signed b))) ∧
  op_smod a b = Some (if b =? 0 then 0 else of_signed (Z.rem (to_signed a) (to_signed b))) ∧
  op_slt a b = of_bool (to_signed a <? to_signed b) ∧
  op_sgt a b = of_bool (to_signed b <? to_signed a) ∧
  op_sar a b = of_signed (to_signed b / 2 ^ a) ∧
  op_shl a b = (b * 2 ^ a) mod U256_MOD ∧
  op_shr a b = b / 2 ^ a ∧
  op_signextend a b = (if a <? 32 then of_signed (low_signed (8 * (a + 1)) b) else b) ∧
  op_byte a b = (if a <? 32 then (b / 256 ^ (31 - a)) mod 256 else 0) ∧
  op_exp a b = a ^ b mod U256_MOD.
Proof.
  intros Ha Hb. split_and!; auto using i256_div_spec, op_smod_spec, op_sar_spec, op_shl_spec, op_shr_spec,
    op_signextend_spec, op_byte_spec.
  - unfold op_slt. rewrite i256_cmp_spec by done. f_equal. unfold Z.ltb.
    by destruct (to_signed a ?= to_signed b).
  - unfold op_sgt. rewrite i256_cmp_spec by done. f_equal. unfold Z.ltb. rewrite (Z.compare_antisym (to_signed a)).
    by destruct (to_signed a ?= to_signed b).
  - apply op_exp_spec. apply Hb.
Qed.

Lemma word_operations_exact_witness :
  is_u256 (U256_MOD - 7) ∧ op_sdiv (U256_MOD - 7) 2 = Some (U256_MOD - 3) ∧
  op_sdiv (U256_MOD - 7) 2 =
    Some (if 2 =? 0 then 0 else of_signed (Z.quot (to_signed (U256_MOD - 7)) (to_signed 2))).
Proof.
  assert (is_u256 (U256_MOD - 7)) as H by done.
  assert (is_u256 2) as H2 by done.
  split; [exact H|]. split; [vm_compute; reflexivity|].
  exact (proj1 (word_operations_exact (U256_MOD - 7) 2 H H2)).
Defined.
