(* ===== verification/Revm.v ===== *)
(** * The instructions of the interpreter
    ([src/externals/revm/crates/interpreter/src/instructions/], [interpreter/stack.rs],
    [interpreter/memory.rs], [interpreter/analysis.rs])

    One definition per instruction of the vendored revm, with its early returns, and the
    dispatch on the opcode.  mau compiles revm with [no_gas_measuring], so the [gas!]
    macros do nothing, and runs the specification [LatestSpec], so the [check!] macros
    pass.  The hash function is a parameter. *)
From S2P Require Import Prelude Types I256 Evm Host HostCall.
#[local] Open Scope Z_scope.

(** ** Result codes *)

Definition CallTooDeep : InstructionResult := Halt 0x21.
Definition OutOfFund : InstructionResult := Halt 0x22.
Definition MemoryOOG : InstructionResult := Halt 0x51.
Definition InvalidOperandOOG : InstructionResult := Halt 0x54.
Definition OpcodeNotFound : InstructionResult := Halt 0x55.
Definition CallNotAllowedInsideStatic : InstructionResult := Halt 0x56.
Definition StateChangeDuringStaticCall : InstructionResult := Halt 0x57.
Definition InvalidFEOpcode : InstructionResult := Halt 0x58.
Definition InvalidJump : InstructionResult := Halt 0x59.
Definition StackUnderflow : InstructionResult := Halt 0x5b.
Definition StackOverflow : InstructionResult := Halt 0x5c.
Definition OutOfOffset : InstructionResult := Halt 0x5d.
Definition CreateInitcodeSizeLimit : InstructionResult := Halt 0x64.

(** [return_ok!] and [return_revert!] *)
Definition return_ok (r : InstructionResult) : bool :=
  match r with Continue | Stop | Return | SelfDestruct => true | _ => false end.
Definition return_revert (r : InstructionResult) : bool :=
  bool_decide (r = Revert ∨ r = CallTooDeep ∨ r = OutOfFund).

(** ** Code *)

(** A [BytecodeLocked] is given by its original bytes: [to_checked] pads them with 33
    zeros and [analyze] computes the jump table of the padded code. *)
Definition padded (code : list byte) : list byte := code ++ replicate 33 x00.

(** The loop of [analyze]: whether the bit of position [pos] is set. *)
Fixpoint analyze_loop (fuel : nat) (code : list byte) (iterator : nat) (jumps : gset nat) : gset nat :=
  match fuel with
  | O => jumps
  | S fuel =>
      match code !! iterator with
      | None => jumps
      | Some opcode =>
          if decide (b2z opcode = 0x5b) then analyze_loop fuel code (S iterator) ({[iterator]} ∪ jumps)
          else
            let push_offset := u8z (b2z opcode - 0x60) in
            if push_offset <? 32
            then analyze_loop fuel code (iterator + Z.to_nat (push_offset + 2))%nat jumps
            else analyze_loop fuel code (S iterator) jumps
      end
  end.
(** [analyze]: the set bits of the jump table *)
Definition analyze (code : list byte) : gset nat := analyze_loop (length code) code 0 ∅.

(** [Contract::is_valid_jump] ([JumpMap::is_valid]) *)
Definition is_valid_jump (c : Contract) (position : Z) : bool :=
  bool_decide (Z.to_nat position ∈ analyze (padded (ct_bytecode c))).

(** [len()], a [usize] *)
Definition vec_len {A} (l : list A) : Z := u64 (Z.of_nat (length l)).

(** ** Updates of the interpreter *)

Definition set_ip (p : Z) (i : Interpreter) : Interpreter :=
  mkInterpreter p (instruction_result i) (it_memory i) (it_stack i) (return_data_buffer i) (return_range i)
    (is_static i) (contract i).
Definition set_result (r : InstructionResult) (i : Interpreter) : Interpreter :=
  mkInterpreter (instruction_pointer i) r (it_memory i) (it_stack i) (return_data_buffer i) (return_range i)
    (is_static i) (contract i).
Definition set_memory (m : list byte) (i : Interpreter) : Interpreter :=
  mkInterpreter (instruction_pointer i) (instruction_result i) m (it_stack i) (return_data_buffer i)
    (return_range i) (is_static i) (contract i).
Definition set_stack (l : list EVMU256) (i : Interpreter) : Interpreter :=
  mkInterpreter (instruction_pointer i) (instruction_result i) (it_memory i) l (return_data_buffer i)
    (return_range i) (is_static i) (contract i).
Definition set_return_data (b : list byte) (i : Interpreter) : Interpreter :=
  mkInterpreter (instruction_pointer i) (instruction_result i) (it_memory i) (it_stack i) b (return_range i)
    (is_static i) (contract i).
Definition set_return_range (r : Z * Z) (i : Interpreter) : Interpreter :=
  mkInterpreter (instruction_pointer i) (instruction_result i) (it_memory i) (it_stack i)
    (return_data_buffer i) r (is_static i) (contract i).

(** ** Memory ([interpreter/memory.rs]) *)

(** [next_multiple_of_32] *)
Definition next_multiple_of_32 (x : Z) : option Z :=
  let r := Z.land (u64 (usize_max - Z.land x 31 + 1)) 31 in
  if x + r <? USIZE then Some (x + r) else None.

(** [get_slice], [set_byte], [set_u256] and [set_data] check their bounds. *)
Definition memory_get_slice (m : list byte) (offset size : Z) : option (list byte) :=
  slice m offset (offset + size).
Definition memory_set_byte (m : list byte) (index : Z) (b : byte) : option (list byte) :=
  if Z.of_nat (length m) <=? index then None else Some (<[Z.to_nat index := b]> m).
Definition memory_set_u256 (m : list byte) (index : Z) (v : EVMU256) : option (list byte) :=
  copy_at m (Z.to_nat index) (to_be_bytes v).
Definition memory_set_data (m : list byte) (memory_offset data_offset len : Z) (data : list byte)
  : option (list byte) :=
  if Z.of_nat (length data) <=? data_offset then
    copy_at m (Z.to_nat memory_offset) (replicate (Z.to_nat len) x00)
  else
    let data_end := Z.min (data_offset + len) (Z.of_nat (length data)) in
    let memory_data_end := memory_offset + (data_end - data_offset) in
    src ← slice data data_offset data_end;
    m ← copy_at m (Z.to_nat memory_offset) src;
    copy_at m (Z.to_nat memory_data_end) (replicate (Z.to_nat (memory_offset + len - memory_data_end)) x00).

(** [Vec::resize] panics over [isize::MAX]. *)
Definition isize_max : Z := 2 ^ 63 - 1.

(** ** The instruction monad

    An instruction goes on, returns early with its result set, panics, or reads out of
    bounds in an [unsafe] block, which is undefined behaviour. *)
Inductive outcome_of (W A : Type) := Next (a : A) (w : W) | Returned (w : W) | Panicked | Undefined.
Arguments Next {W A}.
Arguments Returned {W A}.
Arguments Panicked {W A}.
Arguments Undefined {W A}.
Definition Instr (W A : Type) : Type := W → outcome_of W A.

#[export] Instance Instr_ret W : MRet (Instr W) := λ A a w, Next a w.
#[export] Instance Instr_bind W : MBind (Instr W) := λ A B f m w,
  match m w with
  | Next a w => f a w
  | Returned w => Returned w
  | Panicked => Panicked
  | Undefined => Undefined
  end.

(** ** Reading the environment *)

(** The fields of revm's [Env] that instructions read. *)
Class EnvReads (E : Type) := {
  env_chain_id : E → EVMU256;
  env_coinbase : E → EVMAddress;
  env_timestamp : E → EVMU256;
  env_number : E → EVMU256;
  env_prevrandao : E → option Z;
  env_gas_limit : E → EVMU256;
  env_basefee : E → EVMU256;
  env_gas_price : E → EVMU256;
  env_gas_priority_fee : E → option EVMU256;
  env_tx_caller : E → EVMAddress
}.

(** [Env::effective_gas_price] *)
Definition effective_gas_price {E} `{EnvReads E} (e : E) : EVMU256 :=
  match env_gas_priority_fee e with
  | None => env_gas_price e
  | Some fee => Z.min (env_gas_price e) (add256 (env_basefee e) fee)
  end.

(** ** What mau's host answers ([src/src/evm/host.rs]) *)

(** [load_account], [block_hash], [balance] and [code_hash]: the same for every account.
    [selfdestruct] has no effect. *)
Definition load_account (address : EVMAddress) : option (bool * bool) := Some (true, true).
Definition host_block_hash (number : EVMU256) : option Z := Some 0.
Definition host_balance (address : EVMAddress) : option (EVMU256 * bool) := Some (U256_MAX, true).
Definition host_code_hash (address : EVMAddress) : option (Z * bool) := Some (0, true).

(** A [BytecodeLocked]: analysed code, or [BytecodeLocked::default()], one STOP whose
    original length is zero. *)
Inductive BytecodeLocked := Analysed (bytes : list byte) | DefaultCode.
Definition original (c : BytecodeLocked) : list byte := match c with Analysed b => b | DefaultCode => [] end.
Definition locked_bytes (c : BytecodeLocked) : list byte :=
  match c with Analysed b => padded b | DefaultCode => [x00] end.
(** [FuzzHost::code] *)
Definition host_code {E} (h : VMHost E) (address : EVMAddress) : option (BytecodeLocked * bool) :=
  match code h !! address with Some c => Some (Analysed c, true) | None => Some (DefaultCode, true) end.

Definition KECCAK_EMPTY : Z := 0xc5d2460186f7233c927e7db2dcc703c0e500b653ca82273b7bfad8045d85a470.
Definition STACK_LIMIT : nat := 1024.
Definition MAX_INITCODE_SIZE : Z := 2 * 0x6000.
(** The gas limit every interpreter is created with; nothing is ever charged. *)
Definition GAS_LIMIT : Z := 10000000000.

Section instructions.
Context {E S : Type} `{EnvReads E} (keccak256 : list byte → Z) (panic_on_bug : bool).
Context (call_h : @call_handler E S) (create_h : @create_handler E S).

Definition world : Type := Interpreter * VMHost E * S.
Abbreviation I := (Instr world).

(** ** Macros *)

Definition get_interp : I Interpreter := λ w, Next w.1.1 w.
Definition get_host : I (VMHost E) := λ w, Next w.1.2 w.
Definition update (f : Interpreter → Interpreter) : I unit := λ '(i, h, s), Next tt (f i, h, s).
Definition update_host (f : VMHost E → option (VMHost E)) : I unit := λ '(i, h, s),
  match f h with Some h => Next tt (i, h, s) | None => Panicked end.
(** [instruction_result = r; return] *)
Definition fail {A} (r : InstructionResult) : I A := λ '(i, h, s), Returned (set_result r i, h, s).
(** the result of an operation that may panic *)
Definition unwrap {A} (o : option A) : I A := λ w,
  match o with Some a => Next a w | None => Panicked end.

(** an unchecked read *)
Definition unchecked {A} (o : option A) : I A := λ w,
  match o with Some a => Next a w | None => Undefined end.

Definition check_staticcall : I unit :=
  i ← get_interp; if is_static i then fail StateChangeDuringStaticCall else mret tt.

(** [pop!] with one to four names ([pop_unsafe], [pop2_unsafe], ...): the top is last. *)
Definition pop1 : I EVMU256 :=
  i ← get_interp;
  match reverse (it_stack i) with
  | a :: l => update (set_stack (reverse l));; mret a
  | _ => fail StackUnderflow
  end.
Definition pop2 : I (EVMU256 * EVMU256) :=
  i ← get_interp;
  match reverse (it_stack i) with
  | a :: b :: l => update (set_stack (reverse l));; mret (a, b)
  | _ => fail StackUnderflow
  end.
Definition pop3 : I (EVMU256 * EVMU256 * EVMU256) :=
  i ← get_interp;
  match reverse (it_stack i) with
  | a :: b :: c :: l => update (set_stack (reverse l));; mret (a, b, c)
  | _ => fail StackUnderflow
  end.
Definition pop4 : I (EVMU256 * EVMU256 * EVMU256 * EVMU256) :=
  i ← get_interp;
  match reverse (it_stack i) with
  | a :: b :: c :: d :: l => update (set_stack (reverse l));; mret (a, b, c, d)
  | _ => fail StackUnderflow
  end.
(** [*top = v], after [pop_top!] took the operands: the place of the last one is reused. *)
Definition write_top (v : EVMU256) : I unit := update (λ i, set_stack (it_stack i ++ [v]) i).

(** [pop_address!] *)
Definition word_to_address (v : EVMU256) : EVMAddress := be2z (drop 12 (to_be_bytes v)).
Definition pop_address : I EVMAddress := v ← pop1; mret (word_to_address v).

(** [push!] and [push_b256!] ([Stack::push]) *)
Definition push (v : EVMU256) : I unit :=
  i ← get_interp;
  if (STACK_LIMIT <? length (it_stack i) + 1)%nat then fail StackOverflow else write_top v.

(** [as_usize_or_fail!] *)
Definition as_usize_or_fail (v : EVMU256) (reason : InstructionResult) : I Z :=
  if negb (limb v 1 =? 0) || negb (limb v 2 =? 0) || negb (limb v 3 =? 0) then fail reason
  else mret (limb v 0).

(** [memory_resize!] *)
Definition resize_to (offset len : Z) : I unit :=
  match next_multiple_of_32 (Z.min (offset + len) usize_max) with
  | Some new_size =>
      i ← get_interp;
      if Z.of_nat (length (it_memory i)) <? new_size then
        if new_size <=? isize_max then update (set_memory (memory_resize (it_memory i) new_size))
        else unwrap None
      else mret tt
  | None => fail MemoryOOG
  end.

(** Operands and result of an operation on words *)
Definition unary (f : EVMU256 → EVMU256) : I unit := a ← pop1; write_top (f a).
Definition binary (f : EVMU256 → EVMU256 → EVMU256) : I unit := '(a, b) ← pop2; write_top (f a b).
Definition binary_opt (f : EVMU256 → EVMU256 → option EVMU256) : I unit :=
  '(a, b) ← pop2; r ← unwrap (f a b); write_top r.
Definition ternary (f : EVMU256 → EVMU256 → EVMU256 → EVMU256) : I unit :=
  '(a, b, c) ← pop3; write_top (f a b c).

(** ** Stack ([stack.rs]) *)

Definition instr_pop : I unit :=
  i ← get_interp;
  match it_stack i with
  | [] => update (set_result StackUnderflow)
  | l => update (set_stack (removelast l))
  end.
Definition instr_push0 : I unit := push 0.
(** [push::<N>]: [push_slice] reads [N] bytes of the padded code. *)
Definition instr_push (n : nat) : I unit :=
  i ← get_interp;
  if (STACK_LIMIT <? length (it_stack i) + 1)%nat then update (set_result StackOverflow)
  else
    bytes ← unchecked (slice (padded (ct_bytecode (contract i))) (instruction_pointer i)
                      (instruction_pointer i + Z.of_nat n));
    update (λ i, set_stack (it_stack i ++ [be2z bytes]) i);;
    update (λ i, set_ip (instruction_pointer i + Z.of_nat n) i).
Definition instr_dup (n : nat) : I unit :=
  i ← get_interp;
  let len := length (it_stack i) in
  if (len <? n)%nat then update (set_result StackUnderflow)
  else if (STACK_LIMIT <? len + 1)%nat then update (set_result StackOverflow)
  else v ← unchecked (it_stack i !! (len - n)%nat); update (set_stack (it_stack i ++ [v])).
Definition instr_swap (n : nat) : I unit :=
  i ← get_interp;
  let len := length (it_stack i) in
  if (len <=? n)%nat then update (set_result StackUnderflow)
  else
    a ← unchecked (it_stack i !! (len - 1)%nat);
    b ← unchecked (it_stack i !! (len - 1 - n)%nat);
    update (set_stack (<[(len - 1)%nat := b]> (<[(len - 1 - n)%nat := a]> (it_stack i)))).

(** ** Control ([control.rs]) *)

Definition goto (dest : EVMU256) : I unit :=
  dest ← as_usize_or_fail dest InvalidJump;
  i ← get_interp;
  if is_valid_jump (contract i) dest then update (set_ip dest) else update (set_result InvalidJump).
Definition instr_jump : I unit := dest ← pop1; goto dest.
Definition instr_jumpi : I unit :=
  '(dest, value) ← pop2; if value =? 0 then mret tt else goto dest.
Definition instr_jumpdest : I unit := mret tt.
Definition instr_pc : I unit := i ← get_interp; push (u64 (instruction_pointer i - 1)).
(** [ret] and [revert] *)
Definition instr_return (r : InstructionResult) : I unit :=
  '(start, len) ← pop2;
  len ← as_usize_or_fail len InvalidOperandOOG;
  (if len =? 0 then update (set_return_range (usize_max, usize_max))
   else
     offset ← as_usize_or_fail start InvalidOperandOOG;
     resize_to offset len;;
     update (set_return_range (offset, offset + len)));;
  update (set_result r).

(** ** Memory ([instructions/memory.rs]) *)

Definition update_memory (f : list byte → option (list byte)) : I unit :=
  i ← get_interp; m ← unwrap (f (it_memory i)); update (set_memory m).

Definition instr_mload : I unit :=
  index ← pop1;
  index ← as_usize_or_fail index InvalidOperandOOG;
  resize_to index 32;;
  i ← get_interp;
  bytes ← unwrap (memory_get_slice (it_memory i) index 32);
  push (be2z bytes).
Definition instr_mstore : I unit :=
  '(index, value) ← pop2;
  index ← as_usize_or_fail index InvalidOperandOOG;
  resize_to index 32;;
  update_memory (λ m, memory_set_u256 m index value).
Definition instr_mstore8 : I unit :=
  '(index, value) ← pop2;
  index ← as_usize_or_fail index InvalidOperandOOG;
  resize_to index 1;;
  update_memory (λ m, memory_set_byte m index (z2b value)).
Definition instr_msize : I unit := i ← get_interp; push (vec_len (it_memory i)).

(** ** The environment ([host_env.rs]) *)

Definition push_env (f : E → EVMU256) : I unit := h ← get_host; push (f (env h)).
Definition instr_chainid : I unit := push_env env_chain_id.
Definition instr_coinbase : I unit := push_env env_coinbase.
Definition instr_timestamp : I unit := push_env env_timestamp.
Definition instr_number : I unit := push_env env_number.
Definition instr_difficulty : I unit :=
  h ← get_host; v ← unwrap (env_prevrandao (env h)); push v.
Definition instr_gaslimit : I unit := push_env env_gas_limit.
Definition instr_gasprice : I unit := push_env effective_gas_price.
Definition instr_basefee : I unit := push_env env_basefee.
Definition instr_origin : I unit := push_env env_tx_caller.

(** ** The contract and its data ([system.rs]) *)

Definition instr_sha3 : I unit :=
  '(from, len) ← pop2;
  len ← as_usize_or_fail len InvalidOperandOOG;
  hash ← (if len =? 0 then mret KECCAK_EMPTY
          else
            from ← as_usize_or_fail from InvalidOperandOOG;
            resize_to from len;;
            i ← get_interp;
            bytes ← unwrap (memory_get_slice (it_memory i) from len);
            mret (keccak256 bytes));
  push hash.

Definition push_interp (f : Interpreter → EVMU256) : I unit := i ← get_interp; push (f i).
Definition instr_address : I unit := push_interp (λ i, cc_address (ct_context (contract i))).
Definition instr_caller : I unit := push_interp (λ i, cc_caller (ct_context (contract i))).
Definition instr_callvalue : I unit := push_interp (λ i, cc_apparent_value (ct_context (contract i))).
Definition instr_codesize : I unit := push_interp (λ i, vec_len (ct_bytecode (contract i))).
Definition instr_calldatasize : I unit := push_interp (λ i, vec_len (ct_input (contract i))).
Definition instr_returndatasize : I unit := push_interp (λ i, vec_len (return_data_buffer i)).
Definition instr_gas : I unit := push GAS_LIMIT.

(** [codecopy] and [calldatacopy] *)
Definition copy_data (data : Interpreter → list byte) : I unit :=
  '(memory_offset, data_offset, len) ← pop3;
  len ← as_usize_or_fail len InvalidOperandOOG;
  if len =? 0 then mret tt
  else
    memory_offset ← as_usize_or_fail memory_offset InvalidOperandOOG;
    let data_offset := as_usize_saturated data_offset in
    resize_to memory_offset len;;
    i ← get_interp;
    update_memory (λ m, memory_set_data m memory_offset data_offset len (data i)).
Definition instr_codecopy : I unit := copy_data (λ i, ct_bytecode (contract i)).
Definition instr_calldatacopy : I unit := copy_data (λ i, ct_input (contract i)).

(** The 32 bytes of the call data at an index, padded with zeros *)
Definition calldata_word (input : list byte) (index : Z) : list byte :=
  if index <? Z.of_nat (length input) then
    let have_bytes := Z.to_nat (Z.min (Z.of_nat (length input) - index) 32) in
    take have_bytes (drop (Z.to_nat index) input) ++ replicate (32 - have_bytes) x00
  else replicate 32 x00.
Definition instr_calldataload : I unit :=
  index ← pop1;
  let index := as_usize_saturated index in
  i ← get_interp;
  push (be2z (calldata_word (ct_input (contract i)) index)).

Definition instr_returndatacopy : I unit :=
  '(memory_offset, offset, len) ← pop3;
  len ← as_usize_or_fail len InvalidOperandOOG;
  let data_offset := as_usize_saturated offset in
  let data_end := data_offset + len in
  i ← get_interp;
  if (USIZE <=? data_end) || (Z.of_nat (length (return_data_buffer i)) <? data_end) then fail OutOfOffset
  else if len =? 0 then mret tt
  else
    memory_offset ← as_usize_or_fail memory_offset InvalidOperandOOG;
    resize_to memory_offset len;;
    bytes ← unwrap (slice (return_data_buffer i) data_offset data_end);
    update_memory (λ m, memory_set m memory_offset bytes).

(** ** The host ([instructions/host.rs]) *)

(** [ret.is_none()]: the host failed *)
Definition or_fatal {A} (o : option A) : I A :=
  match o with Some a => mret a | None => fail FatalExternalError end.

Definition instr_balance : I unit :=
  address ← pop_address; '(balance, _) ← or_fatal (host_balance address); push balance.
Definition instr_selfbalance : I unit :=
  i ← get_interp; '(balance, _) ← or_fatal (host_balance (cc_address (ct_context (contract i)))); push balance.
Definition instr_extcodesize : I unit :=
  address ← pop_address;
  h ← get_host;
  '(c, _) ← or_fatal (host_code h address);
  push (vec_len (original c)).
Definition instr_extcodehash : I unit :=
  address ← pop_address; '(code_hash, _) ← or_fatal (host_code_hash address); push code_hash.
Definition instr_extcodecopy : I unit :=
  address ← pop_address;
  '(memory_offset, code_offset, len) ← pop3;
  h ← get_host;
  '(c, _) ← or_fatal (host_code h address);
  len ← as_usize_or_fail len InvalidOperandOOG;
  if len =? 0 then mret tt
  else
    memory_offset ← as_usize_or_fail memory_offset InvalidOperandOOG;
    let code_offset := Z.min (as_usize_saturated code_offset) (Z.of_nat (length (original c))) in
    resize_to memory_offset len;;
    update_memory (λ m, memory_set_data m memory_offset code_offset len (locked_bytes c)).
Definition instr_blockhash : I unit :=
  number ← pop1;
  h ← get_host;
  if number <=? env_number (env h) then
    let diff := as_usize_saturated (env_number (env h) - number) in
    if (diff <=? 256) && negb (diff =? 0) then
      hash ← or_fatal (host_block_hash number); write_top hash
    else write_top 0
  else write_top 0.

Definition instr_sload : I unit :=
  index ← pop1;
  i ← get_interp; h ← get_host;
  '(value, _) ← or_fatal (Some (sload (core h) (cc_address (ct_context (contract i))) index, true));
  push value.
Definition instr_sstore : I unit :=
  check_staticcall;;
  '(index, value) ← pop2;
  i ← get_interp;
  update_host (λ h, Some (host_sstore (cc_address (ct_context (contract i))) index value h)).

(** The [n] topics, the top first *)
Fixpoint pop_topics (n : nat) : I (list EVMU256) :=
  match n with
  | O => mret []
  | Datatypes.S n => v ← pop1; l ← pop_topics n; mret (v :: l)
  end.
Definition instr_log (n : nat) : I unit :=
  check_staticcall;;
  '(offset, len) ← pop2;
  len ← as_usize_or_fail len InvalidOperandOOG;
  (if len =? 0 then mret tt
   else
     offset ← as_usize_or_fail offset InvalidOperandOOG;
     resize_to offset len;;
     i ← get_interp;
     unwrap (memory_get_slice (it_memory i) offset len);; mret tt);;
  i ← get_interp;
  if (length (it_stack i) <? n)%nat then fail StackUnderflow
  else topics ← pop_topics n; update_host (log panic_on_bug topics).

Definition instr_selfdestruct : I unit :=
  check_staticcall;; pop_address;; update (set_result SelfDestruct).

(** A call of a handler of the host, which panics or runs *)
Definition host_create (x : CreateInputs) : I CreateResult := λ '(i, h, s),
  match create_h x h s with Some (r, h, s) => Next r (i, h, s) | None => Panicked end.
Definition host_call (x : CallInputs) : I CallResult := λ '(i, h, s),
  match call_h x h s with Some (r, h, s) => Next r (i, h, s) | None => Panicked end.

(** The bytes of the memory at an offset; nothing is read for length zero. *)
Definition read_memory (offset len : Z) : I (list byte) :=
  if len =? 0 then mret []
  else
    resize_to offset len;;
    i ← get_interp;
    unwrap (memory_get_slice (it_memory i) offset len).

(** [create::<IS_CREATE2>] *)
Definition instr_create (is_create2 : bool) : I unit :=
  check_staticcall;;
  update (set_return_data []);;
  '(value, code_offset, len) ← pop3;
  len ← as_usize_or_fail len InvalidOperandOOG;
  c ← (if len =? 0 then mret []
       else
         code_offset ← as_usize_or_fail code_offset InvalidOperandOOG;
         if MAX_INITCODE_SIZE <? len then fail CreateInitcodeSizeLimit
         else read_memory code_offset len);
  (if is_create2 then pop1;; mret tt else mret tt);;
  i ← get_interp;
  r ← host_create (mkCreateInputs (cc_address (ct_context (contract i))) value c);
  update (set_return_data (if return_revert (cre_result r) then cre_output r else []));;
  if return_ok (cre_result r) then push (default 0 (cre_address r))
  else if return_revert (cre_result r) then push 0
  else if decide (cre_result r = FatalExternalError) then update (set_result FatalExternalError)
  else push 0.

(** The call context of a call by [scheme] *)
Definition call_context (scheme : CallScheme) (i : Interpreter) (to : EVMAddress) (value : EVMU256) : CallContext :=
  let c := ct_context (contract i) in
  match scheme with
  | SchemeCall | SchemeStaticCall => mkCallContext to (cc_address c) to value scheme
  | SchemeCallCode => mkCallContext (cc_address c) (cc_address c) to value scheme
  | SchemeDelegateCall => mkCallContext (cc_address c) (cc_caller c) to (cc_apparent_value c) scheme
  end.

(** [call_inner] *)
Definition instr_call (scheme : CallScheme) : I unit :=
  update (set_return_data []);;
  pop1;;
  to ← pop_address;
  value ← match scheme with
          | SchemeCallCode => pop1
          | SchemeCall =>
              value ← pop1;
              i ← get_interp;
              if is_static i && negb (value =? 0) then fail CallNotAllowedInsideStatic else mret value
          | SchemeDelegateCall | SchemeStaticCall => mret 0
          end;
  '(in_offset, in_len, out_offset, out_len) ← pop4;
  in_len ← as_usize_or_fail in_len InvalidOperandOOG;
  input ← (if in_len =? 0 then mret []
           else in_offset ← as_usize_or_fail in_offset InvalidOperandOOG; read_memory in_offset in_len);
  out_len ← as_usize_or_fail out_len InvalidOperandOOG;
  out_offset ← (if out_len =? 0 then mret usize_max
                else
                  out_offset ← as_usize_or_fail out_offset InvalidOperandOOG;
                  resize_to out_offset out_len;; mret out_offset);
  i ← get_interp;
  or_fatal (load_account to);;
  r ← host_call (mkCallInputs to input (call_context scheme i to value));
  update (set_return_data (cr_output r));;
  let target_len := Z.min out_len (Z.of_nat (length (cr_output r))) in
  let target := take (Z.to_nat target_len) (cr_output r) in
  if return_ok (cr_result r) then update_memory (λ m, memory_set m out_offset target);; push 1
  else if return_revert (cr_result r) then update_memory (λ m, memory_set m out_offset target);; push 0
  else if decide (cr_result r = FatalExternalError) then update (set_result FatalExternalError)
  else push 0.

(** [eval]: the instruction of an opcode.  PUSH, DUP, SWAP and LOG are generic in their
    number, which is the distance to the first of them. *)
Definition instr_eval (opcode : byte) : I unit :=
  match opcode with
  | x00 => update (set_result Stop)
  | x01 => binary op_add
  | x02 => binary op_mul
  | x03 => binary op_sub
  | x04 => binary op_div
  | x05 => binary_opt op_sdiv
  | x06 => binary op_rem
  | x07 => binary_opt op_smod
  | x08 => ternary op_addmod
  | x09 => ternary op_mulmod
  | x0a => binary op_exp
  | x0b => binary op_signextend
  | x10 => binary op_lt
  | x11 => binary op_gt
  | x12 => binary op_slt
  | x13 => binary op_sgt
  | x14 => binary op_eq
  | x15 => unary op_iszero
  | x16 => binary op_and
  | x17 => binary op_or
  | x18 => binary op_xor
  | x19 => unary op_not
  | x1a => binary op_byte
  | x1b => binary op_shl
  | x1c => binary op_shr
  | x1d => binary op_sar
  | x20 => instr_sha3
  | x30 => instr_address
  | x31 => instr_balance
  | x32 => instr_origin
  | x33 => instr_caller
  | x34 => instr_callvalue
  | x35 => instr_calldataload
  | x36 => instr_calldatasize
  | x37 => instr_calldatacopy
  | x38 => instr_codesize
  | x39 => instr_codecopy
  | x3a => instr_gasprice
  | x3b => instr_extcodesize
  | x3c => instr_extcodecopy
  | x3d => instr_returndatasize
  | x3e => instr_returndatacopy
  | x3f => instr_extcodehash
  | x40 => instr_blockhash
  | x41 => instr_coinbase
  | x42 => instr_timestamp
  | x43 => instr_number
  | x44 => instr_difficulty
  | x45 => instr_gaslimit
  | x46 => instr_chainid
  | x47 => instr_selfbalance
  | x48 => instr_basefee
  | x50 => instr_pop
  | x51 => instr_mload
  | x52 => instr_mstore
  | x53 => instr_mstore8
  | x54 => instr_sload
  | x55 => instr_sstore
  | x56 => instr_jump
  | x57 => instr_jumpi
  | x58 => instr_pc
  | x59 => instr_msize
  | x5a => instr_gas
  | x5b => instr_jumpdest
  | x5f => instr_push0
  | x60 | x61 | x62 | x63 | x64 | x65 | x66 | x67 | x68 | x69 | x6a | x6b | x6c | x6d | x6e | x6f
  | x70 | x71 | x72 | x73 | x74 | x75 | x76 | x77 | x78 | x79 | x7a | x7b | x7c | x7d | x7e | x7f =>
      instr_push (Z.to_nat (b2z opcode - 0x60 + 1))
  | x80 | x81 | x82 | x83 | x84 | x85 | x86 | x87 | x88 | x89 | x8a | x8b | x8c | x8d | x8e | x8f =>
      instr_dup (Z.to_nat (b2z opcode - 0x80 + 1))
  | x90 | x91 | x92 | x93 | x94 | x95 | x96 | x97 | x98 | x99 | x9a | x9b | x9c | x9d | x9e | x9f =>
      instr_swap (Z.to_nat (b2z opcode - 0x90 + 1))
  | xa0 | xa1 | xa2 | xa3 | xa4 => instr_log (Z.to_nat (b2z opcode - 0xa0))
  | xf0 => instr_create false
  | xf1 => instr_call SchemeCall
  | xf2 => instr_call SchemeCallCode
  | xf3 => instr_return Return
  | xf4 => instr_call SchemeDelegateCall
  | xf5 => instr_create true
  | xfa => instr_call SchemeStaticCall
  | xfd => instr_return Revert
  | xfe => update (set_result InvalidFEOpcode)
  | xff => instr_selfdestruct
  | _ => update (set_result OpcodeNotFound)
  end.

(** The byte at the instruction pointer, an unchecked read *)
Definition fetch (i : Interpreter) : option byte :=
  padded (ct_bytecode (contract i)) !! Z.to_nat (instruction_pointer i).

(** [Interpreter::step] *)
Definition instr_step : I unit :=
  i ← get_interp;
  opcode ← unchecked (fetch i);
  update (λ i, set_ip (instruction_pointer i + 1) i);;
  instr_eval opcode.

(** One round of the loop, as the host sees it *)
Definition interp_step (i : Interpreter) (h : VMHost E) (s : S) : option (Interpreter * VMHost E * S) :=
  match instr_step (i, h, s) with
  | Next _ w | Returned w => Some w
  | Panicked | Undefined => None
  end.
End instructions.
