(* ===== verification/RevmProps.v ===== *)
(** * Properties of the instructions

    The instructions of revm discharge the interface [EvalLaws] of the host's theorems;
    they keep the types of the machine (256-bit words, at most 1024 of them on the stack,
    memory in whole words) and never read out of bounds; the jump table holds exactly the
    JUMPDEST instructions. *)
From S2P Require Import Prelude Types I256 Evm Host HostProps HostCall HostCallProps Bytecode Revm.
#[local] Open Scope Z_scope.

(** ** The interface of the host *)

(** Unfold the definition of an instruction. *)
Ltac unfold_instr :=
  unfold instr_pop, instr_push0, instr_push, instr_dup, instr_swap, instr_jump, instr_jumpi,
    instr_jumpdest, instr_pc, instr_return, instr_mload, instr_mstore, instr_mstore8, instr_msize,
    instr_chainid, instr_coinbase, instr_timestamp, instr_number, instr_difficulty, instr_gaslimit,
    instr_gasprice, instr_basefee, instr_origin, instr_sha3, instr_address, instr_caller,
    instr_callvalue, instr_codesize, instr_calldatasize, instr_returndatasize, instr_gas,
    instr_codecopy, instr_calldatacopy, instr_calldataload, instr_returndatacopy, instr_balance,
    instr_selfbalance, instr_extcodesize, instr_extcodehash, instr_extcodecopy, instr_blockhash,
    instr_sload, instr_sstore, instr_log, instr_selfdestruct, instr_create, instr_call, unary,
    binary, binary_opt, ternary, write_top, push_env, push_interp, copy_data, update_memory, goto,
    check_staticcall, pop_address, read_memory.


Section keeps.
Context {E S : Type} `{EnvReads E} (keccak256 : list byte → Z) (panic_on_bug : bool).
Context (call_h : @call_handler E S) (create_h : @create_handler E S).
Context (P : VMHost E * S → VMHost E * S → Prop) `{!PreOrder P}.

(** The hosts and states before and after are related. *)
Definition keeps {A} (m : Instr (@world E S) A) : Prop := ∀ w,
  match m w with
  | Next _ w' | Returned w' => P (w.1.2, w.2) (w'.1.2, w'.2)
  | Panicked | Undefined => True
  end.

Lemma keeps_ret {A} (a : A) : keeps (mret a).
Proof. intros w. simpl. reflexivity. Qed.

Lemma keeps_bind {A B} (m : Instr _ A) (f : A → Instr _ B) :
  keeps m → (∀ a, keeps (f a)) → keeps (m ≫= f).
Proof.
  intros Hm Hf w. specialize (Hm w). unfold mbind, Instr_bind.
  destruct (m w) as [a w1|w1| |]; [|done..]. specialize (Hf a w1).
  destruct (f a w1); try done; by etransitivity.
Qed.

Lemma keeps_get_interp : keeps get_interp.
Proof. intros w. simpl. reflexivity. Qed.
Lemma keeps_get_host : keeps get_host.
Proof. intros w. simpl. reflexivity. Qed.
Lemma keeps_update f : keeps (update f).
Proof. intros [[i h] s]. simpl. reflexivity. Qed.
Lemma keeps_fail {A} r : keeps (fail (A := A) r).
Proof. intros [[i h] s]. simpl. reflexivity. Qed.
Lemma keeps_unwrap {A} (o : option A) : keeps (unwrap o).
Proof. intros w. destruct o; simpl; [reflexivity|done]. Qed.
Lemma keeps_unchecked {A} (o : option A) : keeps (unchecked o).
Proof. intros w. destruct o; simpl; [reflexivity|done]. Qed.
Lemma keeps_update_host f : (∀ h h' s, f h = Some h' → P (h, s) (h', s)) → keeps (update_host f).
Proof. intros Hf [[i h] s]. simpl. destruct (f h) eqn:Eq; [by apply Hf|done]. Qed.

Context (P_sstore : ∀ a k v h s, P (h, s) (host_sstore a k v h, s)).
Context (P_log : ∀ b topics h h' s, log b topics h = Some h' → P (h, s) (h', s)).
Context (P_call : ∀ x h s r h' s', call_h x h s = Some (r, h', s') → P (h, s) (h', s')).
Context (P_create : ∀ x h s r h' s', create_h x h s = Some (r, h', s') → P (h, s) (h', s')).

Lemma keeps_host_call x : keeps (host_call call_h x).
Proof. intros [[i h] s]. simpl. destruct (call_h x h s) as [[[r h'] s']|] eqn:Eq; [by eapply P_call|done]. Qed.
Lemma keeps_host_create x : keeps (host_create create_h x).
Proof. intros [[i h] s]. simpl. destruct (create_h x h s) as [[[r h'] s']|] eqn:Eq; [by eapply P_create|done]. Qed.

Ltac keeps_solve :=
  repeat first
    [ apply keeps_ret | apply keeps_get_interp | apply keeps_get_host | apply keeps_update
    | apply keeps_fail | apply keeps_unwrap | apply keeps_unchecked
    | apply keeps_host_call | apply keeps_host_create
    | apply keeps_update_host; intros ? ? ? Hu; first [injection Hu as <-; apply P_sstore | by eapply P_log]
    | apply keeps_bind; [|intros ?]
    | match goal with |- keeps (match ?x with _ => _ end) => destruct x end ].

Lemma keeps_pop1 : keeps pop1.
Proof. unfold pop1. keeps_solve. Qed.
Lemma keeps_pop2 : keeps pop2.
Proof. unfold pop2. keeps_solve. Qed.
Lemma keeps_pop3 : keeps pop3.
Proof. unfold pop3. keeps_solve. Qed.
Lemma keeps_pop4 : keeps pop4.
Proof. unfold pop4. keeps_solve. Qed.
Lemma keeps_push v : keeps (push v).
Proof. unfold push, write_top. keeps_solve. Qed.
Lemma keeps_as_usize v r : keeps (as_usize_or_fail v r).
Proof. unfold as_usize_or_fail. keeps_solve. Qed.
Lemma keeps_resize a b : keeps (resize_to a b).
Proof. unfold resize_to. keeps_solve. Qed.
Lemma keeps_or_fatal {A} (o : option A) : keeps (or_fatal o).
Proof. unfold or_fatal. keeps_solve. Qed.
Lemma keeps_topics n : keeps (pop_topics n).
Proof.
  induction n as [|n IH]; cbn [pop_topics]; [apply keeps_ret|].
  apply keeps_bind; [apply keeps_pop1|intros v]. apply keeps_bind; [exact IH|intros l]. apply keeps_ret.
Qed.

Ltac keeps_auto :=
  repeat first
    [ apply keeps_pop1 | apply keeps_pop2 | apply keeps_pop3 | apply keeps_pop4 | apply keeps_push
    | apply keeps_as_usize | apply keeps_resize | apply keeps_or_fatal | apply keeps_topics | progress keeps_solve ].

Lemma keeps_instr_eval opcode :
  keeps (instr_eval keccak256 panic_on_bug call_h create_h opcode).
Proof.
  destruct opcode; cbn [instr_eval]; unfold_instr; keeps_auto.
Qed.
End keeps.

Section laws.
Context {E S : Type} `{EnvReads E} (keccak256 : list byte → Z) (panic_on_bug : bool).

(** One step of the interpreter, given the handlers of the host *)
Definition revm_eval (call_h : @call_handler E S) (create_h : @create_handler E S) :=
  interp_step keccak256 panic_on_bug call_h create_h.

#[export] Instance revm_eval_laws : EvalLaws revm_eval.
Proof.
  split. intros P call_h create_h HP Hs Hl Hc Hr i h s i' h' s'. unfold revm_eval, interp_step.
  assert (keeps P (instr_step keccak256 panic_on_bug call_h create_h)) as Hk.
  { apply keeps_bind; [done|apply keeps_get_interp; done|intros j].
    apply keeps_bind; [done|apply keeps_unchecked; done|intros op].
    apply keeps_bind; [done|apply keeps_update; done|intros _]. by apply keeps_instr_eval. }
  specialize (Hk (i, h, s)).
  destruct (instr_step _ _ _ _ _) as [u [[i1 h1] s1]|[[i1 h1] s1]| |]; try done; intros [= <- <- <-]; exact Hk.
Qed.
End laws.

(** ** Well-formed machines *)

Section safety.
Context {E S : Type} `{EnvReads E} (keccak256 : list byte → Z) (panic_on_bug : bool).

Definition ctx_ok (c : CallContext) : Prop :=
  is_address (cc_address c) ∧ is_address (cc_caller c) ∧ is_u256 (cc_apparent_value c).

(** The range of the return value lies in the memory. *)
Definition range_ok (r : Z * Z) (m : list byte) : Prop :=
  r.1 = usize_max ∨ 0 ≤ r.1 ≤ r.2 ∧ r.2 ≤ Z.of_nat (length m).

(** The stack holds at most 1024 words, the memory is a whole number of words. *)
Record interp_ok (i : Interpreter) : Prop := mkInterpOk {
  io_words : Forall is_u256 (it_stack i);
  io_limit : (length (it_stack i) ≤ STACK_LIMIT)%nat;
  io_memory : (32 | Z.of_nat (length (it_memory i)));
  io_range : range_ok (return_range i) (it_memory i);
  io_context : ctx_ok (ct_context (contract i))
}.

(** The instruction pointer is at most [k] past the end of the code. *)
Definition ip_within (k : Z) (i : Interpreter) : Prop :=
  0 ≤ instruction_pointer i ≤ Z.of_nat (length (ct_bytecode (contract i))) + k.

(** The environment and the storage hold words. *)
Definition env_ok (e : E) : Prop :=
  is_u256 (env_chain_id e) ∧ is_address (env_coinbase e) ∧ is_u256 (env_timestamp e) ∧ is_u256 (env_number e) ∧
  (∀ v, env_prevrandao e = Some v → is_u256 v) ∧ is_u256 (env_gas_limit e) ∧ is_u256 (env_basefee e) ∧
  is_u256 (env_gas_price e) ∧ is_address (env_tx_caller e).
Definition words_ok (m : gmap Z (gmap Z Z)) : Prop :=
  ∀ a account k v, m !! a = Some account → account !! k = Some v → is_u256 v.
Definition host_ok (h : VMHost E) : Prop :=
  env_ok (env h) ∧ words_ok (es_state (evmstate (core h))) ∧ is_u256 (next_slot (core h)).

(** What the handlers must do. *)
Class HandlersOk (call_h : @call_handler E S) (create_h : @create_handler E S) : Prop := {
  call_host_ok x h s r h' s' :
    ctx_ok (cl_context x) → host_ok h → call_h x h s = Some (r, h', s') → host_ok h';
  create_host_ok x h s r h' s' :
    is_address (ci_caller x) → is_u256 (ci_value x) → host_ok h → create_h x h s = Some (r, h', s') →
    host_ok h' ∧ is_address (default 0 (cre_address r))
}.

Context (keccak_range : ∀ l, is_u256 (keccak256 l)).
Context (call_h : @call_handler E S) (create_h : @create_handler E S) `{!HandlersOk call_h create_h}.

(** A piece of an instruction starts with the pointer at most [k] past the code; it keeps
    the machine well-formed, leaves the pointer at most [k'] past the code, yields a value
    in [Q], and is never undefined. *)
Definition safe {A} (k k' : Z) (m : Instr (@world E S) A) (Q : A → Prop) : Prop :=
  ∀ i h s, interp_ok i → host_ok h → ip_within k i →
  match m (i, h, s) with
  | Next a (i', h', s') => interp_ok i' ∧ host_ok h' ∧ ip_within k' i' ∧ Q a
  | Returned (i', h', s') => interp_ok i' ∧ host_ok h' ∧ instruction_result i' ≠ Continue
  | Panicked => True
  | Undefined => False
  end.

Lemma safe_ret {A} k (a : A) (Q : A → Prop) : Q a → safe k k (mret a) Q.
Proof. intros HQ i h s Hi Hh Hp. done. Qed.

Lemma safe_bind {A B} k1 k2 k3 (m : Instr _ A) (f : A → Instr _ B) (Q : A → Prop) (R : B → Prop) :
  safe k1 k2 m Q → (∀ a, Q a → safe k2 k3 (f a) R) → safe k1 k3 (m ≫= f) R.
Proof.
  intros Hm Hf i h s Hi Hh Hp. specialize (Hm i h s Hi Hh Hp). unfold mbind, Instr_bind.
  destruct (m (i, h, s)) as [a [[i1 h1] s1]|[[i1 h1] s1]| |]; [|done..].
  destruct Hm as (Hi1 & Hh1 & Hp1 & HQ). exact (Hf a HQ i1 h1 s1 Hi1 Hh1 Hp1).
Qed.

Lemma safe_weaken {A} k k1 k2 (m : Instr _ A) (Q R : A → Prop) :
  safe k k1 m Q → k1 ≤ k2 → (∀ a, Q a → R a) → safe k k2 m R.
Proof.
  intros Hm Hk HR i h s Hi Hh Hp. specialize (Hm i h s Hi Hh Hp).
  destruct (m (i, h, s)) as [a [[i1 h1] s1]|[[i1 h1] s1]| |]; [|done..].
  destruct Hm as (Hi1 & Hh1 & Hp1 & HQ). split; [done|]. split; [done|].
  split; [unfold ip_within in *; lia|by apply HR].
Qed.

Lemma safe_get_interp k : safe k k get_interp interp_ok.
Proof. intros i h s Hi Hh Hp. done. Qed.
Lemma safe_get_host k : safe k k get_host host_ok.
Proof. intros i h s Hi Hh Hp. done. Qed.
Lemma safe_fail {A} k k' r (Q : A → Prop) : r ≠ Continue → safe k k' (fail r) Q.
Proof. intros Hr i h s [] Hh Hp. done. Qed.
Lemma safe_unwrap {A} k (o : option A) (Q : A → Prop) : (∀ a, o = Some a → Q a) → safe k k (unwrap o) Q.
Proof. intros HQ i h s Hi Hh Hp. destruct o as [a|]; simpl; [|done]. auto. Qed.
Lemma safe_update k f :
  (∀ i, interp_ok i → interp_ok (f i) ∧ instruction_pointer (f i) = instruction_pointer i ∧
        contract (f i) = contract i) → safe k k (update f) (λ _, True).
Proof.
  intros Hf i h s Hi Hh Hp. simpl. destruct (Hf i Hi) as (H1 & H2 & H3). split; [done|]. split; [done|].
  split; [|done]. unfold ip_within in *. by rewrite H2, H3.
Qed.

(** ** The macros *)

(** Taking words off the stack *)
Lemma pop_ok i (x l : list EVMU256) :
  interp_ok i → reverse (it_stack i) = x ++ l →
  Forall is_u256 x ∧ interp_ok (set_stack (reverse l) i).
Proof.
  intros [Hw Hl Hm Hr Hc] Eq. assert (it_stack i = reverse l ++ reverse x) as Es.
  { rewrite <- reverse_app, <- Eq. by rewrite reverse_involutive. }
  rewrite Es in Hw, Hl. apply Forall_app in Hw as [H1 H2]. rewrite length_app in Hl.
  split; [by rewrite Forall_reverse in H2|]. split; try done; simpl. lia.
Qed.

Lemma push_ok i v :
  interp_ok i → is_u256 v → (length (it_stack i) < STACK_LIMIT)%nat → interp_ok (set_stack (it_stack i ++ [v]) i).
Proof.
  intros [Hw Hl Hm Hr Hc] Hv Hlt. split; try done; simpl.
  - apply Forall_app. split; [done|]. by constructor.
  - rewrite length_app. simpl. lia.
Qed.

Lemma safe_pop1 k : safe k k pop1 is_u256.
Proof.
  intros i h s Hi Hh Hp. unfold pop1, mbind, Instr_bind, get_interp. simpl.
  destruct (reverse (it_stack i)) as [|a l] eqn:Eq; [by destruct Hi|].
  apply (pop_ok i [a]) in Eq as [Ha Hok]; [|done]. apply Forall_cons in Ha as [Ha _].
  exact (conj Hok (conj Hh (conj Hp Ha))).
Qed.
Lemma safe_pop2 k : safe k k pop2 (λ '(a, b), is_u256 a ∧ is_u256 b).
Proof.
  intros i h s Hi Hh Hp. unfold pop2, mbind, Instr_bind, get_interp. simpl.
  destruct (reverse (it_stack i)) as [|a [|b l]] eqn:Eq; [by destruct Hi..|].
  apply (pop_ok i [a; b]) in Eq as [Ha Hok]; [|done]. rewrite !Forall_cons in Ha.
  refine (conj Hok (conj Hh (conj Hp _))). tauto.
Qed.
Lemma safe_pop3 k : safe k k pop3 (λ '(a, b, c), is_u256 a ∧ is_u256 b ∧ is_u256 c).
Proof.
  intros i h s Hi Hh Hp. unfold pop3, mbind, Instr_bind, get_interp. simpl.
  destruct (reverse (it_stack i)) as [|a [|b [|c l]]] eqn:Eq; [by destruct Hi..|].
  apply (pop_ok i [a; b; c]) in Eq as [Ha Hok]; [|done]. rewrite !Forall_cons in Ha.
  refine (conj Hok (conj Hh (conj Hp _))). tauto.
Qed.
Lemma safe_pop4 k : safe k k pop4 (λ '(a, b, c, d), is_u256 a ∧ is_u256 b ∧ is_u256 c ∧ is_u256 d).
Proof.
  intros i h s Hi Hh Hp. unfold pop4, mbind, Instr_bind, get_interp. simpl.
  destruct (reverse (it_stack i)) as [|a [|b [|c [|d l]]]] eqn:Eq; [by destruct Hi..|].
  apply (pop_ok i [a; b; c; d]) in Eq as [Ha Hok]; [|done]. rewrite !Forall_cons in Ha.
  refine (conj Hok (conj Hh (conj Hp _))). tauto.
Qed.

(** The operand is replaced in place: the stack is not full then. *)
Lemma safe_write i h k v n :
  interp_ok (set_stack n i) → host_ok h → ip_within k i → is_u256 v → (length n < STACK_LIMIT)%nat →
  let i' := set_stack (n ++ [v]) i in interp_ok i' ∧ host_ok h ∧ ip_within k i' ∧ True.
Proof.
  intros Hi Hh Hp Hv Hl. split; [|done]. exact (push_ok (set_stack n i) v Hi Hv Hl).
Qed.

Lemma reverse_length_lt (l x r : list EVMU256) :
  reverse l = x ++ r → x ≠ [] → (length l ≤ STACK_LIMIT)%nat → (length (reverse r) < STACK_LIMIT)%nat.
Proof.
  intros Eq Hx Hl. apply (f_equal length) in Eq. rewrite length_reverse, length_app in Eq. rewrite length_reverse.
  destruct x; [done|]. simpl in Eq. lia.
Qed.

Lemma safe_unary k f : (∀ a, is_u256 a → is_u256 (f a)) → safe k k (unary f) (λ _, True).
Proof.
  intros Hf i h s Hi Hh Hp. unfold unary, pop1, mbind, Instr_bind, get_interp. simpl.
  destruct (reverse (it_stack i)) as [|a l] eqn:Eq; [by destruct Hi|].
  destruct (pop_ok i [a] l Hi Eq) as [Ha Hok]. apply Forall_cons in Ha as [Ha _].
  apply (safe_write i); auto. by apply (reverse_length_lt (it_stack i) [a]), Hi.
Qed.

Lemma safe_binary_opt k f :
  (∀ a b r, is_u256 a → is_u256 b → f a b = Some r → is_u256 r) → safe k k (binary_opt f) (λ _, True).
Proof.
  intros Hf i h s Hi Hh Hp. unfold binary_opt, pop2, mbind, Instr_bind, get_interp. simpl.
  destruct (reverse (it_stack i)) as [|a [|b l]] eqn:Eq; [by destruct Hi..|].
  destruct (pop_ok i [a; b] l Hi Eq) as [Ha Hok]. rewrite !Forall_cons in Ha. destruct Ha as (Ha & Hb & _).
  unfold unwrap. simpl. destruct (f a b) as [r|] eqn:Ef; [|done].
  apply (safe_write i); eauto. by apply (reverse_length_lt (it_stack i) [a; b]), Hi.
Qed.

Lemma safe_binary k f : (∀ a b, is_u256 a → is_u256 b → is_u256 (f a b)) → safe k k (binary f) (λ _, True).
Proof.
  intros Hf. apply (safe_binary_opt k (λ a b, Some (f a b))). intros a b r Ha Hb [= <-]. auto.
Qed.

Lemma safe_ternary k f :
  (∀ a b c, is_u256 a → is_u256 b → is_u256 c → is_u256 (f a b c)) → safe k k (ternary f) (λ _, True).
Proof.
  intros Hf i h s Hi Hh Hp. unfold ternary, pop3, mbind, Instr_bind, get_interp. simpl.
  destruct (reverse (it_stack i)) as [|a [|b [|c l]]] eqn:Eq; [by destruct Hi..|].
  destruct (pop_ok i [a; b; c] l Hi Eq) as [Ha Hok]. rewrite !Forall_cons in Ha. destruct Ha as (Ha & Hb & Hc & _).
  apply (safe_write i); auto. by apply (reverse_length_lt (it_stack i) [a; b; c]), Hi.
Qed.

Lemma safe_push k v : is_u256 v → safe k k (push v) (λ _, True).
Proof.
  intros Hv i h s Hi Hh Hp. unfold push, mbind, Instr_bind, get_interp. simpl.
  destruct (Nat.ltb_spec STACK_LIMIT (length (it_stack i) + 1)) as [Hl|Hl]; [by destruct Hi|].
  split; [|done]. apply push_ok; [done|done|]. lia.
Qed.

Lemma limb_range v n : 0 ≤ limb v n < 2 ^ 64.
Proof. by apply Z.mod_pos_bound. Qed.

Lemma safe_as_usize k v r : r ≠ Continue → safe k k (as_usize_or_fail v r) (λ z, 0 ≤ z < USIZE).
Proof.
  intros Hr. unfold as_usize_or_fail. destruct (_ || _); [by apply safe_fail|]. apply safe_ret, limb_range.
Qed.

(** [next_multiple_of_32] rounds up. *)
Lemma next_multiple_of_32_spec x n :
  0 ≤ x < USIZE → next_multiple_of_32 x = Some n → (32 | n) ∧ x ≤ n < x + 32 ∧ n < USIZE.
Proof.
  unfold next_multiple_of_32. intros Hx. change 31 with (Z.ones 5). rewrite !Z.land_ones by done.
  change (2 ^ 5) with 32. pose proof (Z.mod_pos_bound x 32 ltac:(done)) as Hm.
  set (r := u64 _ mod 32). assert (r = (- x) mod 32) as Hr.
  { unfold r, u64, wrap. change (2 ^ 64) with (32 * 2 ^ 59). rewrite Z.rem_mul_r, Z.mul_comm, Z.mod_add by done.
    rewrite Z.mod_mod by done. unfold usize_max, USIZE.
    replace (2 ^ 64 - 1 - x mod 32 + 1) with (- (x mod 32) + 2 ^ 59 * 32) by lia.
    rewrite Z.mod_add by done. rewrite <- (Z.sub_0_l (x mod 32)), Zminus_mod_idemp_r. done. }
  pose proof (Z.mod_pos_bound (- x) 32 ltac:(done)). destruct (Z.ltb_spec (x + r) USIZE); [|done].
  intros [= <-]. split; [|lia]. apply Z.mod_divide; [done|]. rewrite Hr, Z.add_mod_idemp_r by done.
  by rewrite Z.add_opp_diag_r.
Qed.

Lemma memory_resize_length m n : 0 ≤ n → length (memory_resize m n) = Z.to_nat n.
Proof. intros Hn. unfold memory_resize. rewrite length_app, length_take, length_replicate. lia. Qed.

Lemma range_ok_grow r m m' : (length m ≤ length m')%nat → range_ok r m → range_ok r m'.
Proof. unfold range_ok. lia. Qed.

Lemma set_memory_ok i m :
  interp_ok i → (32 | Z.of_nat (length m)) → (length (it_memory i) ≤ length m)%nat → interp_ok (set_memory m i).
Proof. intros [Hw Hl Hm Hr Hc] Hd Hg. split; try done. simpl. by eapply range_ok_grow. Qed.

Lemma safe_resize k offset len : 0 ≤ offset → 0 ≤ len → safe k k (resize_to offset len) (λ _, True).
Proof.
  intros Ho Hl i h s Hi Hh Hp. unfold resize_to.
  destruct (next_multiple_of_32 _) as [n|] eqn:En; [|by destruct Hi].
  assert (0 < usize_max < USIZE) by done.
  apply next_multiple_of_32_spec in En as (Hd & Hb & _); [|lia].
  unfold mbind, Instr_bind, get_interp. simpl.
  destruct (Z.ltb_spec (Z.of_nat (length (it_memory i))) n) as [Hlt|Hge]; [|done].
  destruct (n <=? isize_max); [|done]. split; [|done].
  apply set_memory_ok; [done| |]; rewrite memory_resize_length by lia; [by rewrite Z2Nat.id by lia|lia].
Qed.

Lemma safe_update_memory k f :
  (∀ m m', f m = Some m' → length m' = length m) → safe k k (update_memory f) (λ _, True).
Proof.
  intros Hf i h s Hi Hh Hp. unfold update_memory, mbind, Instr_bind, get_interp, unwrap. simpl.
  destruct (f (it_memory i)) as [m|] eqn:Ef; [|done]. split; [|done]. apply Hf in Ef.
  apply set_memory_ok; [done| |]; rewrite Ef; [apply Hi|done].
Qed.

(** ** Instructions with their own argument *)

Lemma memory_set_u256_length m i v m' : memory_set_u256 m i v = Some m' → length m' = length m.
Proof. apply copy_at_length. Qed.
Lemma memory_set_byte_length m i b m' : memory_set_byte m i b = Some m' → length m' = length m.
Proof. unfold memory_set_byte. destruct (_ <=? _); [done|]. intros [= <-]. apply length_insert. Qed.
Lemma memory_set_length m i b m' : memory_set m i b = Some m' → length m' = length m.
Proof. unfold memory_set. case_decide; [by intros [= <-]|]. case_decide; [apply copy_at_length|done]. Qed.
Lemma memory_set_data_length m a b c d m' : memory_set_data m a b c d = Some m' → length m' = length m.
Proof.
  unfold memory_set_data. destruct (_ <=? _); [apply copy_at_length|].
  intros (src & _ & E1)%bind_Some. apply bind_Some in E1 as (m1 & E1%copy_at_length & E2%copy_at_length). congruence.
Qed.

Lemma set_result_ok r i : interp_ok i → interp_ok (set_result r i).
Proof. by intros []. Qed.
Lemma set_return_data_ok b i : interp_ok i → interp_ok (set_return_data b i).
Proof. by intros []. Qed.

Lemma safe_instr_pop k : safe k k instr_pop (λ _, True).
Proof.
  intros i h s Hi Hh Hp. unfold instr_pop, mbind, Instr_bind, get_interp. simpl.
  destruct (it_stack i) as [|x l] eqn:Eq; (split; [|done]); [by apply set_result_ok|].
  destruct Hi as [Hw Hl Hm Hr Hc]. rewrite Eq in Hw, Hl.
  assert (x :: l = removelast (x :: l) ++ [List.last (x :: l) 0]) as El by (by apply app_removelast_last).
  rewrite El in Hw, Hl. apply Forall_app in Hw as [Hw _]. rewrite length_app in Hl.
  assert (length (removelast (x :: l)) ≤ STACK_LIMIT)%nat as Hl' by lia. by split.
Qed.

Lemma safe_instr_push n : (n ≤ 32)%nat → safe 0 32 (instr_push n) (λ _, True).
Proof.
  intros Hn i h s Hi Hh Hp. unfold instr_push, mbind, Instr_bind, get_interp. simpl. unfold ip_within in Hp.
  destruct (Nat.ltb_spec STACK_LIMIT (length (it_stack i) + 1)) as [Hl|Hl].
  { split; [by apply set_result_ok|]. split; [done|]. split; [|done]. unfold ip_within. simpl. lia. }
  unfold unchecked. destruct (slice _ _ _) as [bytes|] eqn:Es.
  - assert (length bytes = n) as Hlen.
    { unfold slice in Es. case_decide as Hd; [|done]. injection Es as <-. rewrite length_take, length_drop. lia. }
    assert (is_u256 (be2z bytes)) as Hb.
    { pose proof (be2z_range bytes) as Hr. rewrite Hlen in Hr. unfold is_u256, U256_MOD. split; [lia|].
      assert (256 ^ Z.of_nat n ≤ 256 ^ 32) by (apply Z.pow_le_mono_r; lia).
      change (2 ^ 256) with (256 ^ 32). lia. }
    simpl. split; [|split; [done|split; [|done]]].
    + destruct (push_ok i (be2z bytes) Hi Hb) as [H1 H2 H3 H4 H5]; [lia|]. by split.
    + unfold ip_within. simpl. lia.
  - simpl. unfold slice in Es. case_decide as Hd; [done|]. apply Hd. unfold padded.
    rewrite length_app, length_replicate. lia.
Qed.

Lemma safe_instr_dup k n : (1 ≤ n)%nat → safe k k (instr_dup n) (λ _, True).
Proof.
  intros Hn i h s Hi Hh Hp. unfold instr_dup, mbind, Instr_bind, get_interp. simpl.
  destruct (Nat.ltb_spec (length (it_stack i)) n); [by split; [apply set_result_ok|]|].
  destruct (Nat.ltb_spec STACK_LIMIT (length (it_stack i) + 1)); [by split; [apply set_result_ok|]|].
  unfold unchecked. destruct (lookup_lt_is_Some_2 (it_stack i) (length (it_stack i) - n)) as [v Ev]; [lia|].
  rewrite Ev. simpl. split; [|done]. apply push_ok; [done| |lia].
  destruct Hi as [Hw _ _ _ _]. rewrite Forall_forall in Hw. apply Hw. by eapply list_elem_of_lookup_2.
Qed.

Lemma safe_instr_swap k n : safe k k (instr_swap n) (λ _, True).
Proof.
  intros i h s Hi Hh Hp. unfold instr_swap, mbind, Instr_bind, get_interp. simpl.
  destruct (Nat.leb_spec (length (it_stack i)) n); [by split; [apply set_result_ok|]|].
  unfold unchecked. destruct (lookup_lt_is_Some_2 (it_stack i) (length (it_stack i) - 1)) as [a Ea]; [lia|].
  destruct (lookup_lt_is_Some_2 (it_stack i) (length (it_stack i) - 1 - n)) as [b Eb]; [lia|].
  rewrite Ea. simpl. rewrite Eb. simpl. split; [|done].
  destruct Hi as [Hw Hl Hm Hr Hc]. pose proof (proj1 (Forall_forall _ _) Hw) as Hin.
  split; try done; simpl.
  - apply Forall_insert; [apply Forall_insert; [done|]|]; apply Hin; by eapply list_elem_of_lookup_2.
  - by rewrite !length_insert.
Qed.

Lemma analyze_loop_range fuel : ∀ code i jumps,
  (∀ j, j ∈ jumps → (j < length code)%nat) → ∀ j, j ∈ analyze_loop fuel code i jumps → (j < length code)%nat.
Proof.
  induction fuel as [|fuel IH]; intros code i jumps Hj j; cbn [analyze_loop]; [by apply Hj|].
  destruct (code !! i) as [op|] eqn:Ei; [|by apply Hj]. apply lookup_lt_Some in Ei.
  destruct (decide (b2z op = 0x5b)).
  - apply IH. intros j'. rewrite elem_of_union, elem_of_singleton. intros [->|Hj']; [done|by apply Hj].
  - destruct (_ <? _); by apply IH.
Qed.

Lemma valid_jump_range c dest :
  0 ≤ dest → is_valid_jump c dest = true → dest ≤ Z.of_nat (length (ct_bytecode c)) + 32.
Proof.
  intros Hd. unfold is_valid_jump, analyze. rewrite bool_decide_eq_true. intros Hj.
  apply analyze_loop_range in Hj; [|set_solver]. unfold padded in Hj. rewrite length_app, length_replicate in Hj. lia.
Qed.

Lemma safe_goto k dest : k ≤ 32 → safe k 32 (goto dest) (λ _, True).
Proof.
  intros Hk. unfold goto. eapply safe_bind; [by apply (safe_as_usize k)|intros d Hd; cbv beta in Hd].
  intros i h s Hi Hh Hp. unfold mbind, Instr_bind, get_interp. simpl.
  destruct (is_valid_jump (contract i) d) eqn:Ev; simpl.
  - split; [by destruct Hi|]. split; [done|]. split; [|done]. 
    pose proof (valid_jump_range _ _ (proj1 Hd) Ev). unfold ip_within. simpl. lia.
  - split; [by apply set_result_ok|]. split; [done|]. split; [|done]. unfold ip_within in *. simpl. lia.
Qed.

(** After [memory_resize!] the memory holds the range. *)
Lemma resize_covers offset len (w w' : @world E S) u :
  0 ≤ offset → 0 ≤ len → resize_to offset len w = Next u w' →
  offset + len ≤ Z.of_nat (length (it_memory w'.1.1)).
Proof.
  intros Ho Hl. unfold resize_to. destruct (next_multiple_of_32 _) as [n|] eqn:En; [|by destruct w as [[]]].
  assert (usize_max = USIZE - 1) by done. assert (0 < USIZE) by done.
  assert (0 ≤ Z.min (offset + len) usize_max < USIZE) as Hmin by lia.
  pose proof (next_multiple_of_32_spec _ _ Hmin En) as (Hd & Hb & Hu).
  assert (offset + len < USIZE) as Hlt.
  { destruct (decide (offset + len < USIZE)); [done|]. rewrite Z.min_r in En by lia. vm_compute in En. done. }
  rewrite Z.min_l in Hb by lia. destruct w as [[i h] s]. unfold mbind, Instr_bind, get_interp. simpl.
  destruct (Z.ltb_spec (Z.of_nat (length (it_memory i))) n).
  - destruct (n <=? isize_max); [|done]. intros [= _ <-]. cbn [fst set_memory it_memory].
    rewrite memory_resize_length by lia. lia.
  - intros [= _ <-]. simpl. lia.
Qed.

Lemma safe_instr_return k r : safe k k (instr_return r) (λ _, True).
Proof.
  unfold instr_return. eapply safe_bind; [apply safe_pop2|intros [start len] _].
  eapply safe_bind; [by apply safe_as_usize|intros l Hl; cbv beta in Hl].
  eapply safe_bind; [|intros _ _; apply safe_update; intros i Hi; by split; [apply set_result_ok|]].
  destruct (l =? 0).
  { apply safe_update. intros i []. split; [|done]. split; try done. by left. }
  eapply safe_bind; [by apply safe_as_usize|intros o Ho; cbv beta in Ho].
  intros i h s Hi Hh Hp. pose proof (safe_resize k o l ltac:(lia) ltac:(lia) i h s Hi Hh Hp) as Hs.
  pose proof (resize_covers o l (i, h, s)) as Hcov. unfold mbind, Instr_bind.
  destruct (resize_to o l (i, h, s)) as [u [[i1 h1] s1]|[[i1 h1] s1]| |]; [|done..].
  destruct Hs as (Hi1 & Hh1 & Hp1 & _). specialize (Hcov _ _ ltac:(lia) ltac:(lia) eq_refl). simpl in *.
  split; [|done]. destruct Hi1. split; try done. right. simpl. lia.
Qed.

Lemma word_to_address_range v : is_address (word_to_address v).
Proof.
  unfold word_to_address, to_be_bytes, is_address. change 32%nat with (12 + 20)%nat. rewrite drop_z2be.
  rewrite be2z_z2be. by apply Z.mod_pos_bound.
Qed.
Lemma address_u256 a : is_address a → is_u256 a.
Proof. unfold is_address, is_u256, U256_MOD. lia. Qed.
Lemma vec_len_u256 {A} (l : list A) : is_u256 (vec_len l).
Proof. unfold vec_len, u64, is_u256, U256_MOD. pose proof (wrap_range 64 (Z.of_nat (length l))). lia. Qed.

(** ** Composite instructions *)

Lemma safe_true {A} k (m : Instr _ A) Q : safe k k m Q → safe k k m (λ _, True).
Proof. intros Hm. eapply safe_weaken; [exact Hm|lia|done]. Qed.

Lemma safe_pop_address k : safe k k pop_address is_address.
Proof.
  unfold pop_address. eapply safe_bind; [apply safe_pop1|intros v _]. apply safe_ret, word_to_address_range.
Qed.

Lemma safe_check_static k : safe k k check_staticcall (λ _, True).
Proof.
  unfold check_staticcall. eapply safe_bind; [apply safe_get_interp|intros i _].
  destruct (is_static i); [by apply safe_fail|by apply safe_ret].
Qed.

Lemma safe_or_fatal {A} k (o : option A) (Q : A → Prop) : (∀ a, o = Some a → Q a) → safe k k (or_fatal o) Q.
Proof. intros HQ. destruct o as [a|]; [by apply safe_ret, HQ|by apply safe_fail]. Qed.

Lemma safe_push_interp k f : (∀ i, interp_ok i → is_u256 (f i)) → safe k k (push_interp f) (λ _, True).
Proof. intros Hf. eapply safe_bind; [apply safe_get_interp|intros i Hi]. by apply safe_push, Hf. Qed.

Lemma safe_push_env k f : (∀ e, env_ok e → is_u256 (f e)) → safe k k (push_env f) (λ _, True).
Proof. intros Hf. eapply safe_bind; [apply safe_get_host|intros h (He & _)]. by apply safe_push, Hf. Qed.

Lemma safe_read_memory k o l : 0 ≤ o → 0 ≤ l → safe k k (read_memory o l) (λ _, True).
Proof.
  intros Ho Hl. unfold read_memory. destruct (l =? 0); [by apply safe_ret|].
  eapply safe_bind; [by apply safe_resize|intros _ _]. eapply safe_bind; [apply safe_get_interp|intros i _].
  by apply safe_unwrap.
Qed.

Lemma be2z_u256 l : length l = 32%nat → is_u256 (be2z l).
Proof.
  intros Hl. pose proof (be2z_range l) as Hr. rewrite Hl in Hr. unfold is_u256, U256_MOD.
  change (2 ^ 256) with (256 ^ Z.of_nat 32). lia.
Qed.

Lemma slice_length {A} (l r : list A) i j : slice l i j = Some r → length r = Z.to_nat (j - i).
Proof. unfold slice. case_decide; [|done]. intros [= <-]. rewrite length_take, length_drop. lia. Qed.

(** Take the next operation of an instruction. *)
Ltac step H := eapply safe_bind; [by apply H|intros ? ?; cbv beta in *].
Ltac operand := step safe_as_usize.

Lemma safe_instr_mload k : safe k k instr_mload (λ _, True).
Proof.
  unfold instr_mload. step safe_pop1. operand. eapply safe_bind; [apply safe_resize; lia|intros _ _].
  step safe_get_interp. eapply safe_bind; [apply (safe_unwrap _ _ (λ l, length l = 32%nat))|].
  - intros l Hl%slice_length. rewrite Hl. lia.
  - intros l Hl. by apply safe_push, be2z_u256.
Qed.

Lemma safe_instr_mstore k : safe k k instr_mstore (λ _, True).
Proof.
  unfold instr_mstore. eapply safe_bind; [apply safe_pop2|intros [index value] _]. operand.
  eapply safe_bind; [apply safe_resize; lia|intros _ _]. apply safe_update_memory. intros m m'. apply memory_set_u256_length.
Qed.

Lemma safe_instr_mstore8 k : safe k k instr_mstore8 (λ _, True).
Proof.
  unfold instr_mstore8. eapply safe_bind; [apply safe_pop2|intros [index value] _]. operand.
  eapply safe_bind; [apply safe_resize; lia|intros _ _]. apply safe_update_memory. intros m m'. apply memory_set_byte_length.
Qed.

Lemma safe_instr_sha3 k : safe k k (instr_sha3 keccak256) (λ _, True).
Proof.
  unfold instr_sha3. eapply safe_bind; [apply safe_pop2|intros [from len] _]. operand.
  eapply safe_bind; [|intros v Hv; by apply safe_push, Hv].
  destruct (a =? 0); [by apply safe_ret|]. operand. eapply safe_bind; [apply safe_resize; lia|intros _ _].
  step safe_get_interp. eapply safe_bind; [by apply (safe_unwrap _ _ (λ _, True))|intros b _]. by apply safe_ret.
Qed.

Lemma safe_copy_data k data : safe k k (copy_data data) (λ _, True).
Proof.
  unfold copy_data. eapply safe_bind; [apply safe_pop3|intros [[mo d] len] _]. operand.
  destruct (a =? 0); [by apply safe_ret|]. operand. eapply safe_bind; [apply safe_resize; lia|intros _ _].
  step safe_get_interp. apply safe_update_memory. intros m m'. apply memory_set_data_length.
Qed.

Lemma as_usize_saturated_nonneg v : 0 ≤ as_usize_saturated v.
Proof. unfold as_usize_saturated. destruct (_ || _); [done|apply limb_range]. Qed.

Lemma calldata_word_length input i : 0 ≤ i → length (calldata_word input i) = 32%nat.
Proof.
  intros Hi. unfold calldata_word. destruct (Z.ltb_spec i (Z.of_nat (length input))); [|done].
  rewrite length_app, length_take, length_drop, length_replicate. lia.
Qed.

Lemma safe_instr_calldataload k : safe k k instr_calldataload (λ _, True).
Proof.
  unfold instr_calldataload. step safe_pop1. step safe_get_interp. by apply safe_push, be2z_u256, calldata_word_length, as_usize_saturated_nonneg.
Qed.

Lemma safe_instr_returndatacopy k : safe k k instr_returndatacopy (λ _, True).
Proof.
  unfold instr_returndatacopy. eapply safe_bind; [apply safe_pop3|intros [[mo o] len] _]. operand.
  step safe_get_interp. destruct (_ || _); [by apply safe_fail|]. destruct (a =? 0); [by apply safe_ret|].
  operand. eapply safe_bind; [apply safe_resize; lia|intros _ _].
  eapply safe_bind; [by apply (safe_unwrap _ _ (λ _, True))|intros b _].
  apply safe_update_memory. intros m m'. apply memory_set_length.
Qed.

Lemma safe_instr_extcodecopy k : safe k k instr_extcodecopy (λ _, True).
Proof.
  unfold instr_extcodecopy. step safe_pop_address. eapply safe_bind; [apply safe_pop3|intros [[mo o] len] _].
  step safe_get_host. eapply safe_bind; [by apply (safe_or_fatal _ _ (λ _, True))|intros [c b] _]. operand.
  destruct (_ =? 0); [by apply safe_ret|]. operand. eapply safe_bind; [apply safe_resize; lia|intros _ _].
  apply safe_update_memory. intros m m'. apply memory_set_data_length.
Qed.

Lemma safe_instr_blockhash k : safe k k instr_blockhash (λ _, True).
Proof.
  intros i h s Hi Hh Hp. unfold instr_blockhash, pop1, mbind, Instr_bind, get_interp, get_host, or_fatal. simpl.
  destruct (reverse (it_stack i)) as [|a l] eqn:Eq; [by destruct Hi|]. simpl.
  destruct (pop_ok i [a] l Hi Eq) as [_ Hok].
  assert (length (reverse l) < STACK_LIMIT)%nat as Hl by (apply (reverse_length_lt (it_stack i) [a]); [done|done|apply Hi]).
  destruct (a <=? _); [destruct (_ && _)|]; by apply (safe_write i).
Qed.

Lemma sload_range h a k : host_ok h → is_u256 (sload (core h) a k).
Proof.
  intros (_ & Hw & Hn). unfold sload. destruct (_ !! a) as [account|] eqn:Ea; simpl; [|done].
  destruct (account !! k) as [v|] eqn:Ek; simpl; [by eapply Hw|done].
Qed.

Lemma safe_instr_sload k : safe k k instr_sload (λ _, True).
Proof.
  unfold instr_sload. step safe_pop1. step safe_get_interp. step safe_get_host.
  eapply (safe_bind _ _ _ _ _ (λ v, is_u256 v.1)); [|intros [v b] Hv; apply safe_push, Hv].
  apply safe_or_fatal. intros v [= <-]. by apply sload_range.
Qed.

Lemma sstore_host_ok h a k v : host_ok h → is_u256 v → host_ok (host_sstore a k v h).
Proof.
  intros (He & Hw & Hn) Hv. split; [done|]. split; [|done]. unfold host_sstore, sstore, set_core, set_evmstate.
  cbn [core evmstate]. unfold evmstate_insert. intros a' account k' v' Hl Hk.
  destruct (es_state (evmstate (core h)) !! a) as [acc|] eqn:Ea; cbn [es_state] in Hl;
    apply lookup_insert_Some in Hl as [[-> <-]|[Hne Hl]];
    try (by eapply Hw).
  - apply lookup_insert_Some in Hk as [[-> <-]|[Hnk Hk]]; [done|by eapply Hw].
  - by apply lookup_singleton_Some in Hk as [-> <-].
Qed.

Lemma safe_update_host k f :
  (∀ h h', host_ok h → f h = Some h' → host_ok h') → safe k k (update_host f) (λ _, True).
Proof. intros Hf i h s Hi Hh Hp. simpl. destruct (f h) as [h'|] eqn:Ef; [|done]. by apply Hf in Ef. Qed.

Lemma safe_instr_sstore k : safe k k instr_sstore (λ _, True).
Proof.
  unfold instr_sstore. step safe_check_static. eapply safe_bind; [apply safe_pop2|intros [index value] [_ Hv]].
  step safe_get_interp. apply safe_update_host. intros h h' Hh [= <-]. by apply sstore_host_ok.
Qed.

Lemma log_host_ok b l h h' : host_ok h → log b l h = Some h' → host_ok h'.
Proof. unfold log. intros Hh. destruct (_ && _); [destruct b; [done|]|]; by intros [= <-]. Qed.

Lemma safe_topics k n : safe k k (pop_topics n) (λ _, True).
Proof.
  induction n as [|n IH]; cbn [pop_topics]; [by apply safe_ret|]. step safe_pop1.
  eapply safe_bind; [exact IH|intros l _]. by apply safe_ret.
Qed.

Lemma safe_instr_log k n : safe k k (instr_log panic_on_bug n) (λ _, True).
Proof.
  unfold instr_log. step safe_check_static. eapply safe_bind; [apply safe_pop2|intros [o len] _]. operand.
  eapply safe_bind; [|intros _ _; step safe_get_interp].
  - destruct (_ =? 0); [by apply (safe_ret _ _ (λ _, True))|]. operand.
    eapply safe_bind; [apply safe_resize; lia|intros _ _]. step safe_get_interp.
    eapply safe_bind; [by apply (safe_unwrap _ _ (λ _, True))|intros b _]. by apply safe_ret.
  - destruct (_ <? _)%nat; [by apply safe_fail|]. step safe_topics. apply safe_update_host.
    intros h h'. apply log_host_ok.
Qed.

Lemma safe_host_call k x : ctx_ok (cl_context x) → safe k k (host_call call_h x) (λ _, True).
Proof.
  intros Hx i h s Hi Hh Hp. unfold host_call. destruct (call_h x h s) as [[[r h'] s']|] eqn:Ec; [|done].
  apply call_host_ok in Ec; done.
Qed.

Lemma safe_host_create k x :
  is_address (ci_caller x) → is_u256 (ci_value x) →
  safe k k (host_create create_h x) (λ r, is_address (default 0 (cre_address r))).
Proof.
  intros H1 H2 i h s Hi Hh Hp. unfold host_create. destruct (create_h x h s) as [[[r h'] s']|] eqn:Ec; [|done].
  apply create_host_ok in Ec as [Hh' Ha]; done.
Qed.

Lemma safe_set_return_data k b : safe k k (update (set_return_data b)) (λ _, True).
Proof. apply safe_update. intros i Hi. by split; [apply set_return_data_ok|]. Qed.
Lemma safe_set_result k r : safe k k (update (set_result r)) (λ _, True).
Proof. apply safe_update. intros i Hi. by split; [apply set_result_ok|]. Qed.

Lemma safe_instr_create k b : safe k k (instr_create create_h b) (λ _, True).
Proof.
  unfold instr_create. step safe_check_static. step safe_set_return_data.
  eapply safe_bind; [apply safe_pop3|intros [[value o] len] (Hv & _ & _)]. operand.
  eapply (safe_bind _ _ _ _ _ (λ _, True)).
  { destruct (_ =? 0); [by apply safe_ret|]. operand. destruct (_ <? _); [by apply safe_fail|].
    apply safe_read_memory; lia. }
  intros c _. eapply (safe_bind _ _ _ _ _ (λ _, True)).
  { destruct b; [|by apply safe_ret]. step safe_pop1. by apply safe_ret. }
  intros _ _. eapply safe_bind; [apply safe_get_interp|intros i Hi].
  eapply safe_bind; [apply safe_host_create; simpl; [apply Hi|done]|intros r Hr; cbv beta in Hr].
  step safe_set_return_data. destruct (return_ok _); [by apply safe_push, address_u256|].
  destruct (return_revert _); [by apply safe_push|]. case_decide; [apply safe_set_result|by apply safe_push].
Qed.

Lemma call_context_ok scheme i to value :
  interp_ok i → is_address to → is_u256 value → ctx_ok (call_context scheme i to value).
Proof. intros Hi Ht Hv. destruct (io_context i Hi) as (H1 & H2 & H3). by destruct scheme. Qed.

Lemma safe_instr_call k scheme : safe k k (instr_call call_h scheme) (λ _, True).
Proof.
  unfold instr_call. step safe_set_return_data. step safe_pop1.
  eapply safe_bind; [apply safe_pop_address|intros to Hto]. eapply (safe_bind _ _ _ _ _ is_u256).
  { destruct scheme; [|apply safe_pop1|by apply safe_ret|by apply safe_ret].
    eapply safe_bind; [apply safe_pop1|intros v Hv]. step safe_get_interp.
    destruct (_ && _); [by apply safe_fail|by apply safe_ret]. }
  intros value Hv. eapply safe_bind; [apply safe_pop4|intros [[[io il] oo] ol] _]. operand.
  eapply (safe_bind _ _ _ _ _ (λ _, True)).
  { destruct (_ =? 0); [by apply safe_ret|]. operand. apply safe_read_memory; lia. }
  intros input _. operand. eapply (safe_bind _ _ _ _ _ (λ _, True)).
  { destruct (_ =? 0); [by apply safe_ret|]. operand. eapply safe_bind; [apply safe_resize; lia|intros _ _].
    by apply safe_ret. }
  intros out _. eapply safe_bind; [apply safe_get_interp|intros i Hi].
  eapply safe_bind; [by apply (safe_or_fatal _ _ (λ _, True))|intros _ _].
  eapply safe_bind; [apply safe_host_call; simpl; by apply call_context_ok|intros r _]. step safe_set_return_data.
  assert (∀ v t, is_u256 v → safe k k (update_memory (λ m, memory_set m out t);; push v) (λ _, True)) as Hset.
  { intros v t Hu. eapply safe_bind; [apply safe_update_memory; intros m m'; apply memory_set_length|intros _ _].
    by apply safe_push. }
  destruct (return_ok _); [by apply Hset|]. destruct (return_revert _); [by apply Hset|].
  case_decide; [apply safe_set_result|by apply safe_push].
Qed.

Lemma effective_gas_price_range e : env_ok e → is_u256 (effective_gas_price e).
Proof.
  intros (_ & _ & _ & _ & _ & _ & Hb & Hg & _). unfold effective_gas_price. destruct (env_gas_priority_fee e) as [f|]; [|done].
  pose proof (add256_range (env_basefee e) f). unfold is_u256 in *. lia.
Qed.

Lemma safe_instr_balance k : safe k k instr_balance (λ _, True).
Proof.
  unfold instr_balance. step safe_pop_address.
  eapply (safe_bind _ _ _ _ _ (λ v, is_u256 v.1)); [|intros [v b] Hv; apply safe_push, Hv].
  apply safe_or_fatal. by intros v [= <-].
Qed.
Lemma safe_instr_selfbalance k : safe k k instr_selfbalance (λ _, True).
Proof.
  unfold instr_selfbalance. step safe_get_interp.
  eapply (safe_bind _ _ _ _ _ (λ v, is_u256 v.1)); [|intros [v b] Hv; apply safe_push, Hv].
  apply safe_or_fatal. by intros v [= <-].
Qed.
Lemma safe_instr_extcodehash k : safe k k instr_extcodehash (λ _, True).
Proof.
  unfold instr_extcodehash. step safe_pop_address.
  eapply (safe_bind _ _ _ _ _ (λ v, is_u256 v.1)); [|intros [v b] Hv; apply safe_push, Hv].
  apply safe_or_fatal. by intros v [= <-].
Qed.
Lemma safe_instr_extcodesize k : safe k k instr_extcodesize (λ _, True).
Proof.
  unfold instr_extcodesize. step safe_pop_address. step safe_get_host.
  eapply safe_bind; [by apply (safe_or_fatal _ _ (λ _, True))|intros [c b] _]. apply safe_push, vec_len_u256.
Qed.
Lemma safe_instr_difficulty k : safe k k instr_difficulty (λ _, True).
Proof.
  unfold instr_difficulty. eapply safe_bind; [apply safe_get_host|intros h (He & _)].
  eapply (safe_bind _ _ _ _ _ is_u256); [|intros v Hv; by apply safe_push]. apply safe_unwrap. intros v Hv. by apply He.
Qed.
Lemma safe_instr_jump : safe 0 32 instr_jump (λ _, True).
Proof. unfold instr_jump. step safe_pop1. by apply safe_goto. Qed.
Lemma safe_instr_jumpi : safe 0 32 instr_jumpi (λ _, True).
Proof.
  unfold instr_jumpi. eapply safe_bind; [apply safe_pop2|intros [d v] _]. destruct (v =? 0); [|by apply safe_goto].
  by eapply (safe_weaken 0 0 32 _ (λ _, True)); [apply safe_ret|..].
Qed.
Lemma safe_instr_pc k : safe k k instr_pc (λ _, True).
Proof.
  unfold instr_pc. step safe_get_interp. apply safe_push. unfold u64, is_u256, U256_MOD.
  pose proof (wrap_range 64 (instruction_pointer a - 1)). lia.
Qed.
Lemma safe_instr_msize k : safe k k instr_msize (λ _, True).
Proof. unfold instr_msize. step safe_get_interp. apply safe_push, vec_len_u256. Qed.
Lemma safe_instr_selfdestruct k : safe k k instr_selfdestruct (λ _, True).
Proof. unfold instr_selfdestruct. step safe_check_static. step safe_pop_address. apply safe_set_result. Qed.

(** Every instruction but STOP *)
Lemma safe_instr_eval opcode :
  safe 0 32 (instr_eval keccak256 panic_on_bug call_h create_h opcode) (λ _, True).
Proof.
  assert (∀ m : Instr (@world E S) unit, safe 0 0 m (λ _, True) → safe 0 32 m (λ _, True)) as Hw.
  { intros m Hm. by eapply safe_weaken. }
  assert (∀ r, safe 0 32 (update (E := E) (S := S) (set_result r)) (λ _, True)) as Hres
    by (intros r; apply Hw, safe_set_result).
  assert (∀ f, (∀ e, env_ok e → is_u256 (f e)) → safe 0 32 (push_env f) (λ _, True)) as Henv
    by (intros f Hf; by apply Hw, safe_push_env).
  assert (∀ f, (∀ i, interp_ok i → is_u256 (f i)) → safe 0 32 (push_interp f) (λ _, True)) as Hint
    by (intros f Hf; by apply Hw, safe_push_interp).
  destruct opcode; cbn [instr_eval]; try apply Hres;
    try (apply Hw, safe_binary; intros; unfold op_add, op_mul, op_sub, op_lt, op_gt, op_slt, op_sgt, op_eq, op_and,
      op_or, op_xor; auto with word; fail);
    try (apply Hw, safe_unary; intros; unfold op_iszero; auto with word; fail);
    try (apply Hw, safe_ternary; intros; auto with word; fail);
    try (apply safe_instr_push; vm_compute; lia);
    try (apply Hw, safe_instr_dup; vm_compute; lia);
    try (apply Hw, safe_instr_swap); try (apply Hw, safe_instr_log);
    try (apply Henv; intros e (? & ? & ? & ? & ? & ? & ? & ? & ?); auto using address_u256; fail);
    try (apply Hint; intros i Hi; pose proof (io_context i Hi) as (? & ? & ?); auto using address_u256, vec_len_u256; fail).
  all: try (apply Hw; first [apply safe_instr_sha3 | apply safe_instr_calldataload | apply safe_copy_data
    | apply safe_instr_extcodecopy | apply safe_instr_returndatacopy | apply safe_instr_blockhash | apply safe_instr_pop
    | apply safe_instr_mload | apply safe_instr_mstore | apply safe_instr_mstore8 | apply safe_instr_sload
    | apply safe_instr_sstore | apply safe_instr_create | apply safe_instr_call | apply safe_instr_return
    | apply safe_instr_balance | apply safe_instr_selfbalance | apply safe_instr_extcodehash
    | apply safe_instr_extcodesize | apply safe_instr_difficulty | apply safe_instr_pc | apply safe_instr_msize
    | apply safe_instr_selfdestruct | by apply safe_push | by apply safe_ret ]).
  - apply Hw, safe_binary_opt. intros a b r. apply op_sdiv_range.
  - apply Hw, safe_binary_opt. intros a b r. apply op_smod_range.
  - apply Henv, effective_gas_price_range.
  - apply safe_instr_jump.
  - apply safe_instr_jumpi.
Qed.

Definition machine_ok (i : Interpreter) (h : VMHost E) : Prop :=
  interp_ok i ∧ host_ok h ∧ (instruction_result i = Continue → ip_within 32 i).

Lemma fetch_code i b : fetch i = Some b → b ≠ x00 → 0 ≤ instruction_pointer i →
  instruction_pointer i < Z.of_nat (length (ct_bytecode (contract i))).
Proof.
  unfold fetch, padded. intros Hf Hb Hi. destruct (decide (instruction_pointer i < Z.of_nat (length (ct_bytecode (contract i)))))
    as [?|Hge]; [done|]. rewrite lookup_app_r in Hf by lia. apply lookup_replicate in Hf as [-> _]. done.
Qed.

Lemma instr_step_safe i h s : machine_ok i h → instruction_result i = Continue →
  match instr_step keccak256 panic_on_bug call_h create_h (i, h, s) with
  | Next _ (i', h', _) | Returned (i', h', _) => machine_ok i' h'
  | Panicked => True
  | Undefined => False
  end.
Proof.
  intros (Hi & Hh & Hp) Hr. specialize (Hp Hr). unfold instr_step, mbind, Instr_bind, get_interp, unchecked. simpl.
  destruct (fetch i) as [op|] eqn:Ef.
  2: { unfold fetch in Ef. apply lookup_ge_None in Ef. unfold padded in Ef. rewrite length_app, length_replicate in Ef.
       unfold ip_within in Hp. lia. }
  set (i1 := set_ip (instruction_pointer i + 1) i). assert (interp_ok i1) as Hi1 by (by destruct Hi).
  destruct (decide (op = x00)) as [->|Hne].
  { cbn [instr_eval]. simpl. split; [by apply set_result_ok|]. split; [done|]. done. }
  pose proof (fetch_code i op Ef Hne) as Hlt. unfold ip_within in Hp.
  assert (ip_within 0 i1) as Hp1 by (unfold ip_within; simpl; lia).
  pose proof (safe_instr_eval op i1 h s Hi1 Hh Hp1) as Hs.
  change (match instr_eval keccak256 panic_on_bug call_h create_h op (i1, h, s) with
          | Next _ (i', h', _) | Returned (i', h', _) => machine_ok i' h'
          | Panicked => True | Undefined => False end).
  destruct (instr_eval _ _ _ _ op (i1, h, s)) as [u [[i2 h2] s2]|[[i2 h2] s2]| |]; [| |done|done].
  - destruct Hs as (H1 & H2 & H3 & _). by split_and!.
  - destruct Hs as (H1 & H2 & H3). by split.
Qed.

Lemma interp_step_ok i h s i' h' s' : machine_ok i h → instruction_result i = Continue →
  interp_step keccak256 panic_on_bug call_h create_h i h s = Some (i', h', s') → machine_ok i' h'.
Proof.
  intros Hm Hr. pose proof (instr_step_safe i h s Hm Hr) as Hs. unfold interp_step.
  destruct (instr_step _ _ _ _ _) as [u [[i2 h2] s2]|[[i2 h2] s2]| |]; try done; by intros [= <- <- <-].
Qed.
End safety.
Arguments HandlersOk {E S _}.

(** ** Whole executions *)

Section executions.
Context {E S : Type} `{EnvReads E} (keccak256 : list byte → Z) (panic_on_bug : bool) (cfg : Config E S).
Context (keccak_range : ∀ l, is_u256 (keccak256 l)).

(** What the middlewares and the random addresses must do. *)
Class ConfigOk : Prop := {
  random_address_ok s : is_address (random_address cfg s).1;
  mw_step_ok m i h s i' h' s' :
    (flashloan_middleware cfg = Some m ∨ ∃ ty, m = middleware_of cfg ty) →
    machine_ok i h → mw_on_step m i h s = Some (i', h', s') →
    machine_ok i' h' ∧ instruction_result i' = instruction_result i;
  mw_insert_ok m c a h s c' h' s' :
    (flashloan_middleware cfg = Some m ∨ ∃ ty, m = middleware_of cfg ty) →
    host_ok h → mw_on_insert m c a h s = Some (c', h', s') → host_ok h'
}.
Context `{!ConfigOk}.

Lemma on_insert_ok l address : ∀ c h s c' h' s', host_ok h →
  foldM (λ st ty, on_insert_step st address (middleware_of cfg ty)) (c, h, s) l = Some (c', h', s') → host_ok h'.
Proof.
  induction l as [|ty l IH]; intros c h s c' h' s' Hh; cbn [foldM]; [by intros [= _ <- _]|].
  unfold on_insert_step at 1. intros ([[c1 h1] s1] & E1 & E2)%bind_Some. eapply IH; [|exact E2].
  eapply mw_insert_ok; [|exact Hh|exact E1]. right. by eexists.
Qed.

Lemma set_code_ok address c h s h' s' : host_ok h → set_code cfg address c h s = Some (h', s') → host_ok h'.
Proof.
  intros Hh. unfold set_code. intros ([[c1 h1] s1] & E1 & E2)%bind_Some.
  assert (host_ok h1) as H1.
  { destruct (middlewares_enabled h); [|by injection E1 as _ <- _].
    apply bind_Some in E1 as ([[c2 h2] s2] & E0 & E1). eapply on_insert_ok; [|exact E1].
    destruct (flashloan_middleware cfg) as [m|] eqn:Em; [|by injection E0 as _ <- _].
    eapply mw_insert_ok; [|exact Hh|exact E0]. by left. }
  destruct (code h1 !! address); [done|]. by injection E2 as <- _.
Qed.

Lemma set_code_loop_ok l : ∀ h s h' s', host_ok h →
  foldM (λ '(h, s) '(a, c), set_code cfg a c h s) (h, s) l = Some (h', s') → host_ok h'.
Proof.
  induction l as [|[a c] l IH]; intros h s h' s' Hh; cbn [foldM]; [by intros [= <- _]|].
  intros ([h1 s1] & E1 & E2)%bind_Some. eapply IH; [|exact E2]. by eapply set_code_ok.
Qed.

Lemma on_step_ok l : ∀ i h s i' h' s', machine_ok i h →
  foldM (λ st ty, on_step_step st (middleware_of cfg ty)) (i, h, s) l = Some (i', h', s') →
  machine_ok i' h' ∧ instruction_result i' = instruction_result i.
Proof.
  induction l as [|ty l IH]; intros i h s i' h' s' Hm; cbn [foldM]; [by intros [= <- <- _]|].
  unfold on_step_step at 1. intros ([[i1 h1] s1] & E1 & E2)%bind_Some.
  apply mw_step_ok in E1 as [Hm1 Hr1]; [|right; by eexists|done].
  apply IH in E2 as [Hm2 Hr2]; [|done]. split; [done|congruence].
Qed.

(** Changes of the host that leave the words alone *)
Lemma machine_ok_host i (h h' : VMHost E) : machine_ok i h → (host_ok h → host_ok h') → machine_ok i h'.
Proof. intros (H1 & H2 & H3) Hh. split_and!; auto. Qed.

Lemma step_next_slot h v h' : step (λ c _, c) h v = Some h' → next_slot h' = next_slot h.
Proof.
  unfold step. destruct (step_maps_of _ _ _); [|done]. rewrite obind_Some.
  destruct (decode_instruction _ _); [|done]. rewrite obind_Some. by intros [= <-].
Qed.

Lemma host_step_ok i h s i' h' s' : machine_ok i h → host_step cfg i h s = Some (i', h', s') →
  machine_ok i' h' ∧ instruction_result i' = instruction_result i.
Proof.
  intros Hm. unfold host_step. intros ([[i1 h1] s1] & E1 & E2)%bind_Some.
  assert (machine_ok i1 h1 ∧ instruction_result i1 = instruction_result i) as [H1 Hr1].
  { destruct (middlewares_enabled h); [|by injection E1 as <- <- _]. unfold run_middlewares in E1.
    apply bind_Some in E1 as ([[i2 h2] s2] & E0 & E1). apply bind_Some in E1 as ([[i3 h3] s3] & E3 & E1).
    apply bind_Some in E1 as ([h4 s4] & E4 & E1). injection E1 as <- <- _.
    assert (machine_ok i2 h2 ∧ instruction_result i2 = instruction_result i) as [Hm2 Hr2].
    { destruct (flashloan_middleware cfg) as [m|] eqn:Em; [|by injection E0 as <- <- _].
      eapply mw_step_ok; [|exact Hm|exact E0]. by left. }
    apply on_step_ok in E3 as [Hm3 Hr3]; [|by apply (machine_ok_host _ h2)].
    split; [|congruence]. eapply machine_ok_host; [exact Hm3|]. intros Hh. by eapply set_code_loop_ok. }
  apply bind_Some in E2 as (c & E2 & E3). injection E3 as <- <- _. split; [|done].
  eapply machine_ok_host; [exact H1|]. intros (He & Hw & Hn). split; [done|].
  cbn [set_core core]. by rewrite (step_evmstate _ _ _ E2), (step_next_slot _ _ _ E2).
Qed.

(** *** The handlers *)

Section handlers.
Context (run : Interpreter → VMHost E → S → option (InstructionResult * Interpreter * VMHost E * S)).
Context (run_ok : ∀ i h s r i' h' s', machine_ok i h → run i h s = Some (r, i', h', s') → interp_ok i' ∧ host_ok h').

Lemma new_ok input c ctx (h : VMHost E) :
  ctx_ok ctx → host_ok h → machine_ok (Interpreter_new (mkContract input c ctx)) h.
Proof.
  intros Hc Hh. split; [|split; [done|]].
  - split; simpl; [constructor|apply Nat.le_0_l|by apply Z.divide_0_r|right; simpl; lia|done].
  - intros _. unfold ip_within. simpl. lia.
Qed.

Lemma run_code_ok input c ctx old h s r h' s' :
  ctx_ok ctx → host_ok h → run_code run input c ctx old h s = Some (r, h', s') → host_ok h'.
Proof.
  intros Hc Hh. unfold run_code. intros ([[[ret i] h1] s1] & E1 & E2)%bind_Some.
  apply bind_Some in E2 as (v & _ & E2). injection E2 as _ <- _.
  apply run_ok in E1 as [_ H1]; [done|by apply new_ok].
Qed.

Lemma dispatch_ok x hash bytes h s r h' s' :
  ctx_ok (cl_context x) → host_ok h → dispatch cfg run x hash bytes h s = Some (r, h', s') → host_ok h'.
Proof.
  intros Hc Hh. unfold dispatch. set (h1 := set_global_call_context _ h). assert (host_ok h1) as H1 by done.
  assert (∀ c, run_code run bytes c (cl_context x) (global_call_context h) h1 s = Some (r, h', s') → host_ok h')
    as Hrun by (intros c; by apply run_code_ok).
  assert (match code h1 !! cc_code_address (cl_context x) with
    | Some c => run_code run bytes c (cl_context x) (global_call_context h) h1 s
    | None => if decide (hash = replicate 4 x00)
              then Some (mkCallResult Continue [], set_global_call_context (global_call_context h) h1, s)
              else Some (mkCallResult Revert [], set_global_call_context (global_call_context h) h1, s)
    end = Some (r, h', s') → host_ok h') as Haddr.
  { destruct (code h1 !! _); [by apply Hrun|]. case_decide; by intros [= _ <- _]. }
  destruct (hash_to_address h1 !! hash) as [loc|]; [|exact Haddr].
  destruct (active_match_ext_call cfg && _); [|exact Haddr].
  destruct (elements loc) as [|a [|]]; try done.
  intros (c & _ & E2)%bind_Some. by apply (Hrun c).
Qed.

Lemma record_func_hash_ok hash h h' : host_ok h → record_func_hash cfg hash h = Some h' → host_ok h'.
Proof. intros Hh. unfold record_func_hash. by intros (m & _ & [= <-])%bind_Some. Qed.

Lemma unbound_call_ok hash bytes a h r h' : host_ok h → unbound_call hash bytes a h = Some (r, h') → host_ok h'.
Proof.
  intros Hh. unfold unbound_call. destruct (_ && _); [|by intros [= _ <-]].
  destruct (address_to_hash _ !! a); [|by intros [= _ <-]].
  case_decide; [done|]. by intros (k & _ & [= _ <-])%bind_Some.
Qed.

#[export] Instance handlers_ok : HandlersOk (call cfg run) (create cfg run).
Proof.
  split.
  - intros x h s r h' s' Hx Hh. unfold call. destruct (_ <=? _); [by intros [= _ <- _]|].
    destruct (latent_result _); [by intros [= _ <- _]|].
    destruct (_ =? _); [intros (h3 & E1 & [= _ <- _])%bind_Some; by eapply record_func_hash_ok in E1|].
    intros ([bytes h3] & E1 & E2)%bind_Some. apply unbound_call_ok in E1; [|done].
    destruct (_ =? _); [done|]. destruct (_ <? _)%nat.
    + apply bind_Some in E2 as (h5 & E2 & E3). injection E3 as _ <- _. by eapply record_func_hash_ok in E2.
    + by eapply dispatch_ok in E2.
  - intros x h s r h' s' Hx Hv Hh. unfold create. pose proof (random_address_ok s) as Ha.
    destruct (random_address cfg s) as [a s0]. simpl in Ha.
    intros ([[[ret i] h1] s1] & E1 & E2)%bind_Some.
    apply run_ok in E1 as [_ H1]; [|by apply new_ok].
    destruct (decide (ret = Continue)).
    + apply bind_Some in E2 as (v & _ & E2). apply bind_Some in E2 as ([h2 s2] & E2 & E3).
      injection E3 as <- <- _. by apply set_code_ok in E2.
    + by injection E2 as <- <- _.
Qed.
End handlers.

Abbreviation revm := (revm_eval keccak256 panic_on_bug).

Lemma run_inspect_ok fuel : ∀ i h s r i' h' s', machine_ok i h →
  run_inspect cfg revm fuel i h s = Some (r, i', h', s') → machine_ok i' h' ∧ r = instruction_result i'.
Proof.
  induction fuel as [|fuel IH]; intros i h s r i' h' s' Hm; cbn [run_inspect].
  { case_decide; [done|]. by intros [= <- <- <- _]. }
  destruct (decide (instruction_result i = Continue)) as [Hc|Hc]; [|by intros [= <- <- <- _]].
  intros ([[i1 h1] s1] & E1 & E2)%bind_Some. apply bind_Some in E2 as ([[i2 h2] s2] & E2 & E3).
  apply host_step_ok in E1 as [Hm1 Hr1]; [|done]. eapply IH; [|exact E3].
  eapply interp_step_ok; [exact keccak_range| |exact Hm1|congruence|exact E2].
  apply handlers_ok. intros j g t r0 j' g' t' Hj Hrun. by apply IH in Hrun as [(? & ? & _) _].
Qed.

Lemma return_value_ok i : interp_ok i → is_Some (return_value i).
Proof.
  intros Hi. destruct (io_range i Hi) as [Hr|Hr]; unfold return_value.
  - rewrite Hr, Z.eqb_refl. by eexists.
  - destruct (_ =? _); [by eexists|]. unfold slice. rewrite decide_True by lia. by eexists.
Qed.

(** C9. The unchecked reads of the interpreter stay in bounds.  From a well-formed machine
    (words of 256 bits, at most 1024 of them on the stack, the instruction pointer at most
    32 past the end of the code) that has not stopped, a step never reads the code outside
    of its 33 bytes of padding, nor the stack below its bottom: it is not undefined
    behaviour.  It panics, or ends in a well-formed machine again. *)
Theorem step_memory_safe fuel i h s :
  machine_ok i h → instruction_result i = Continue →
  match instr_step keccak256 panic_on_bug (call cfg (run_inspect cfg revm fuel))
          (create cfg (run_inspect cfg revm fuel)) (i, h, s) with
  | Next _ (i', h', _) | Returned (i', h', _) => machine_ok i' h'
  | Panicked => True
  | Undefined => False
  end.
Proof.
  intros Hm Hr. apply instr_step_safe; [done| |done|done]. apply handlers_ok.
  intros j g t r0 j' g' t' Hj Hrun. by apply run_inspect_ok in Hrun as [(? & ? & _) _].
Qed.

(** C8. Executions keep the types of the machine, through nested calls, creations and
    middlewares: every execution that ends leaves only 256-bit words on the stack (at most
    1024), in the storage of every account and in the environment, a memory that is a
    whole number of 32-byte words, and a return range inside of it, so that taking the
    return value never panics; and it has a result other than [Continue]. *)
Theorem execution_keeps_types fuel i h s r i' h' s' :
  machine_ok i h → run_inspect cfg revm fuel i h s = Some (r, i', h', s') →
  machine_ok i' h' ∧ is_Some (return_value i') ∧ r = instruction_result i' ∧ r ≠ Continue.
Proof.
  intros Hm Hrun. pose proof (run_inspect_ok fuel i h s r i' h' s' Hm Hrun) as [Hm' Hr].
  split; [done|]. split; [apply return_value_ok, Hm'|]. split; [done|].
  by eapply run_inspect_result.
Qed.
End executions.

(** ** The jump table *)

Lemma analyze_step fuel pre x rest jumps :
  instruction_ok x →
  analyze_loop (S fuel) (pre ++ encode x ++ rest) (length pre) jumps =
  analyze_loop fuel (pre ++ encode x ++ rest) (length (pre ++ encode x))
    (if decide (x = Op x5b) then {[length pre]} ∪ jumps else jumps).
Proof.
  intros Hx. cbn [analyze_loop]. rewrite lookup_app_r, Nat.sub_diag by done.
  destruct x as [data|b]; cbn [encode app lookup list_lookup]; rewrite length_app; cbn [length].
  - destruct (push_byte (length data) Hx) as [Eb _]. rewrite Eb. simpl in Hx.
    rewrite decide_False by lia. unfold u8z. rewrite wrap_small by lia.
    rewrite (proj2 (Z.ltb_lt _ 32)) by lia. rewrite decide_False by done. f_equal. lia.
  - rewrite Nat.add_1_r. destruct (decide (b = x5b)) as [->|Hne].
    + by rewrite !decide_True.
    + rewrite decide_False by (intros Hb; apply Hne, b2z_inj; exact Hb).
      rewrite (decide_False (P := Op b = Op x5b)) by congruence. simpl in Hx.
      assert (u8z (b2z b - 0x60) <? 32 = false) as ->; [|done]. apply Z.ltb_ge. unfold u8z, wrap.
      pose proof (b2z_range b). unfold is_push in Hx. destruct (Z.leb_spec 0x60 (b2z b)).
      * destruct (Z.leb_spec (b2z b) 0x7f); [done|]. rewrite Z.mod_small; lia.
      * replace (b2z b - 96) with (b2z b + 160 + (-1) * 2 ^ 8) by lia. rewrite Z.mod_add, Z.mod_small; lia.
Qed.

Lemma analyze_loop_spec l : ∀ fuel pre jumps j,
  Forall instruction_ok l → (length (assemble l) ≤ fuel)%nat →
  j ∈ analyze_loop fuel (pre ++ assemble l) (length pre) jumps ↔
  j ∈ jumps ∨ ∃ k, l !! k = Some (Op x5b) ∧ j = (length pre + code_start l k)%nat.
Proof.
  induction l as [|x l IH]; intros fuel pre jumps j Hl Hf.
  { split.
    - intros Hj. left. destruct fuel; [done|]. cbn [analyze_loop] in Hj.
      change (assemble []) with (@nil byte) in Hj. rewrite app_nil_r, lookup_ge_None_2 in Hj; done.
    - intros [Hj|(k & Hk & _)]; [|done]. destruct fuel; [done|]. cbn [analyze_loop].
      change (assemble []) with (@nil byte). rewrite app_nil_r, lookup_ge_None_2; done. }
  apply Forall_cons in Hl as [Hx Hl]. rewrite assemble_cons in *. rewrite length_app in Hf.
  pose proof (length_encode x). destruct fuel as [|fuel]; [lia|]. rewrite analyze_step by done.
  rewrite app_assoc, IH by (done || lia). rewrite length_app. split.
  - intros [Hj|(k & Hk & ->)].
    + destruct (decide (x = Op x5b)) as [->|_]; [|by left]. apply elem_of_union in Hj as [->%elem_of_singleton|Hj]; [|by left].
      right. exists 0%nat. split; [done|]. by rewrite Nat.add_0_r.
    + right. exists (S k). split; [done|]. rewrite code_start_S. lia.
  - intros [Hj|([|k] & Hk & ->)].
    + left. destruct (decide (x = Op x5b)); set_solver.
    + left. injection Hk as ->. rewrite decide_True by done. rewrite Nat.add_0_r. set_solver.
    + right. exists k. split; [done|]. rewrite code_start_S. lia.
Qed.

Lemma assemble_zeros n : assemble (replicate n (Op x00)) = replicate n x00.
Proof. induction n as [|n IH]; [done|]. cbn [replicate]. rewrite assemble_cons, IH. done. Qed.

(** With its padding, code that ends in a cut-off PUSH is complete. *)
Lemma padded_tail tail : truncated tail →
  ∃ l, tail ++ replicate 33 x00 = assemble l ∧ Forall instruction_ok l ∧ Op x5b ∉ l.
Proof.
  assert (∀ n, Forall instruction_ok (replicate n (Op x00)) ∧ Op x5b ∉ replicate n (Op x00)) as Hz.
  { intros n. split; [by apply Forall_replicate|]. by intros [? _]%elem_of_replicate. }
  destruct tail as [|b data]; intros Ht.
  { exists (replicate 33 (Op x00)). split; [by rewrite assemble_zeros|]. apply Hz. }
  destruct Ht as [Hb Hlt]. pose proof Hb as Hb'. unfold is_push in Hb'.
  apply andb_prop in Hb' as [H1%Z.leb_le H2%Z.leb_le]. set (n := Z.to_nat (b2z b - 0x5f)) in *.
  set (d := data ++ replicate (n - length data) x00).
  assert (length d = n) as Hd by (unfold d; rewrite length_app, length_replicate; lia).
  exists (Push d :: replicate (33 - (n - length data)) (Op x00)). split; [|split].
  - rewrite assemble_cons, assemble_zeros. cbn [encode]. rewrite Hd.
    replace (95 + Z.of_nat n) with (b2z b) by lia. rewrite z2b_b2z. unfold d. cbn [app]. f_equal.
    rewrite <- app_assoc. f_equal. rewrite <- replicate_add. f_equal. lia.
  - constructor; [simpl; rewrite Hd; lia|apply Hz].
  - intros [?|Hin]%elem_of_cons; [done|]. by apply Hz in Hin.
Qed.

Lemma valid_jump_spec c l tail pos :
  ct_bytecode c = assemble l ++ tail → Forall instruction_ok l → truncated tail →
  is_valid_jump c pos = true ↔ ∃ k, l !! k = Some (Op x5b) ∧ Z.to_nat pos = code_start l k.
Proof.
  intros El Hl Ht. destruct (padded_tail tail Ht) as (l2 & E2 & Hl2 & Hn2).
  assert (padded (ct_bytecode c) = assemble (l ++ l2)) as Ep.
  { unfold padded. by rewrite El, <- app_assoc, E2, assemble_app. }
  unfold is_valid_jump. rewrite bool_decide_eq_true. unfold analyze. rewrite Ep.
  rewrite (analyze_loop_spec (l ++ l2) _ [] ∅) by (try done; by apply Forall_app). split.
  - intros [?|(k & Hk & Hj)]; [set_solver|]. exists k. destruct (decide (k < length l)%nat) as [Hlt|Hge].
    + rewrite lookup_app_l in Hk by done. split; [done|]. unfold code_start in *.
      by rewrite take_app_le in Hj by lia.
    + rewrite lookup_app_r in Hk by lia. destruct Hn2. by eapply list_elem_of_lookup_2.
  - intros (k & Hk & ->). right. exists k. pose proof (lookup_lt_Some _ _ _ Hk).
    split; [by rewrite lookup_app_l|]. unfold code_start. by rewrite take_app_le by lia.
Qed.

(** Jumps land on instructions: every code decodes into instructions, with at most one
    cut-off PUSH at its end, and a jump to [pos] is valid exactly when [pos] is the start
    of one of them that is a JUMPDEST; a byte [0x5b] inside the operand of a PUSH, or in
    the padding of the code, is never a target. *)
Theorem valid_jumps_exact c :
  ∃ l tail, ct_bytecode c = assemble l ++ tail ∧ Forall instruction_ok l ∧ truncated tail ∧
    ∀ pos, 0 ≤ pos →
      is_valid_jump c pos = true ↔ ∃ k, l !! k = Some (Op x5b) ∧ pos = Z.of_nat (code_start l k).
Proof.
  destruct (disassemble (length (ct_bytecode c)) (ct_bytecode c)) as (l & tail & El & Hl & Ht); [done|].
  exists l, tail. split; [done|]. split; [done|]. split; [done|]. intros pos Hpos.
  rewrite (valid_jump_spec c l tail pos El Hl Ht).
  split; intros (k & Hk & Hj); (exists k; split; [done|lia]).
Qed.

(** ** Examples *)

#[export] Instance toy_env : EnvReads unit := {
  env_chain_id _ := 1; env_coinbase _ := 2; env_timestamp _ := 1690000000; env_number _ := 17000000;
  env_prevrandao _ := Some 0; env_gas_limit _ := 30000000; env_basefee _ := 7; env_gas_price _ := 9;
  env_gas_priority_fee _ := None; env_tx_caller _ := 9
}.

(** No middlewares, addresses in sequence *)
Definition revm_config : Config unit Z :=
  mkConfig _ _ (λ c, c) (λ _, 0) (λ s, (s mod 2 ^ 160, s + 1)) None (λ _, no_middleware) (2 ^ 32 - 1) false.

#[export] Instance revm_config_ok : ConfigOk revm_config.
Proof.
  split.
  - intros s. unfold is_address. simpl. by apply Z.mod_pos_bound.
  - intros m i h s i' h' s' [?|[ty ->]] Hm; [done|]. by intros [= <- <- _].
  - intros m c a h s c' h' s' [?|[ty ->]] Hm; [done|]. by intros [= _ <- _].
Qed.

(** Stores the sum of the first two words of the call data at slot 1, and returns it. *)
Definition adder : list byte :=
  [x60; x20; x35; x5f; x35; x01; x80; x60; x01; x55; x5f; x52; x60; x20; x5f; xf3].
Definition adder_interp : Interpreter :=
  Interpreter_new (mkContract (to_be_bytes 40 ++ to_be_bytes 2) adder (mkCallContext 7 1 7 0 SchemeCall)).

Lemma toy_host_ok : host_ok toy_host.
Proof.
  split; [|split; [|done]].
  - unfold env_ok. simpl. unfold is_address, is_u256. split_and!; try done. by intros v [= <-].
  - intros a account k v Ha. vm_compute in Ha. discriminate Ha.
Qed.

Lemma adder_ok : machine_ok adder_interp toy_host.
Proof. apply new_ok; [done|apply toy_host_ok]. Qed.

Lemma step_memory_safe_witness :
  match instr_step (λ _, 0) false (call revm_config (run_inspect revm_config (revm_eval (λ _, 0) false) 5))
          (create revm_config (run_inspect revm_config (revm_eval (λ _, 0) false) 5))
          (adder_interp, toy_host, 0) with
  | Next _ (i', h', _) | Returned (i', h', _) => machine_ok i' h'
  | Panicked => True
  | Undefined => False
  end.
Proof. apply (step_memory_safe (λ _, 0) false revm_config); [done|exact revm_config_ok|exact adder_ok|reflexivity]. Defined.

Lemma execution_keeps_types_witness :
  option_map (λ x, (x.1.1.1, option_map be2z (return_value x.1.1.2), sload (core x.1.2) 7 1))
    (run_inspect revm_config (revm_eval (λ _, 0) false) 30 adder_interp toy_host 0) = Some (Return, Some 42, 42) ∧
  ∀ r i' h' s',
    run_inspect revm_config (revm_eval (λ _, 0) false) 30 adder_interp toy_host 0 = Some (r, i', h', s') →
    machine_ok i' h' ∧ is_Some (return_value i') ∧ r = instruction_result i' ∧ r ≠ Continue.
Proof.
  split; [vm_compute; reflexivity|]. intros r i' h' s' Hrun.
  exact (execution_keeps_types (λ _, 0) false revm_config (λ _, is_u256_0)
    30 adder_interp toy_host 0 r i' h' s' adder_ok Hrun).
Defined.
