(* ===== verification/Concolic.v ===== *)
(** * The concolic middleware ([src/src/evm/concolic/concolic_host.rs])

    [ConcolicHost] follows an execution with a symbolic stack: an entry is an expression
    over the input, or nothing when the concrete value stands for itself.  At a JUMPI whose
    other branch was not seen it asks the solver for an input that takes it.  The solver is
    the crate [z3], a parameter with the operations the source calls. *)
From S2P Require Import Prelude Types Expr Abi AbiLayout AbiParse I256 Evm Host HostCall.
#[local] Open Scope Z_scope.

(** ** The solver *)

(** The binary operations and relations of bit vectors that the source uses. *)
Inductive bvop :=
| BvAdd | BvUdiv | BvMul | BvSub | BvSdiv | BvSmod | BvUrem | BvSrem | BvAnd | BvOr | BvXor
| BvShl | BvLshr | BvAshr.
Inductive bvrel := BvUgt | BvSgt | BvUlt | BvSlt | BvEq.

Inductive SatResult (M : Type) := Sat (m : M) | Unsat | Unknown.
Arguments Sat {M}.
Arguments Unsat {M}.
Arguments Unknown {M}.

(** The crate [z3]: terms, and the solver on a list of assertions.  An operation on terms
    of different widths fails. *)
Class Z3 := {
  BV : Type;
  ZBool : Type;
  Model : Type;
  bv_new_const : string → Z → BV;
  bv_from_u64 : Z → Z → BV;
  bv_concat : BV → BV → BV;
  bv_apply : bvop → BV → BV → option BV;
  bv_not : BV → BV;
  bv_rel : bvrel → BV → BV → option ZBool;
  zbool_eq : ZBool → ZBool → ZBool;
  zbool_not : ZBool → ZBool;
  check : list ZBool → SatResult Model;
  model_eval : Model → BV → string
}.

(** [enum SymbolicTy] *)
Inductive SymbolicTy `{Z3} := SymBV (t : BV) | SymBool (t : ZBool).

Section solving.
Context `{Z3}.

(** [expect_bv] and [expect_bool] *)
Definition expect_bv (x : SymbolicTy) : option BV := match x with SymBV t => Some t | SymBool _ => None end.

(** [bv_from_u256!]: the limbs, least significant first, concatenated. *)
Definition bv_from_u256 (v : EVMU256) : BV :=
  let bv := bv_from_u64 (limb v 0) 64 in
  let bv := bv_concat bv (bv_from_u64 (limb v 1) 64) in
  let bv := bv_concat bv (bv_from_u64 (limb v 2) 64) in
  bv_concat bv (bv_from_u64 (limb v 3) 64).

(** [struct Solving] *)
Record Solving := mkSolving {
  so_input : list BV;
  so_balance : BV;
  so_calldatavalue : BV;
  so_constraints : list Expr
}.

(** [slice_input]: indexing checks the bounds *)
Definition slice_input (sv : Solving) (start stop : Z) : option BV :=
  first ← so_input sv !! Z.to_nat start;
  foldM (λ slice i, b ← so_input sv !! i; Some (bv_concat slice b)) first
    (seq (Z.to_nat start + 1) (Z.to_nat stop - (Z.to_nat start + 1))).

(** [generate_z3_bv] *)
Fixpoint generate_z3_bv (sv : Solving) (e : Expr) : option SymbolicTy :=
  match e with
  | mkExpr l r o =>
      let lhs := match l with Some l => generate_z3_bv sv l | None => None end in
      let rhs := match r with Some r => generate_z3_bv sv r | None => None end in
      let binop o :=
        a ← lhs; a ← expect_bv a; b ← rhs; b ← expect_bv b; t ← bv_apply o a b; Some (SymBV t) in
      match o with
      | OpEVMU256 constant => Some (SymBV (bv_from_u256 constant))
      | OpADD => binop BvAdd
      | OpDIV => binop BvUdiv
      | OpMUL => binop BvMul
      | OpSUB => binop BvSub
      | OpSDIV => binop BvSdiv
      | OpSMOD => binop BvSmod
      | OpUREM => binop BvUrem
      | OpSREM => binop BvSrem
      | OpAND => binop BvAnd
      | OpOR => binop BvOr
      | OpXOR => binop BvXor
      | OpNOT =>
          a ← lhs;
          Some match a with SymBV t => SymBV (bv_not t) | SymBool t => SymBool (zbool_not t) end
      | OpSHL => binop BvShl
      | OpSHR => binop BvLshr
      | OpSAR => binop BvAshr
      | OpSLICEDINPUT idx =>
          let idx := limb idx 0 mod 2 ^ 32 in
          t ← slice_input sv idx (wrap 32 (idx + 4)); Some (SymBV t)
      | OpBALANCE => Some (SymBV (so_balance sv))
      | OpCALLVALUE => Some (SymBV (so_calldatavalue sv))
      | OpFINEGRAINEDINPUT start stop => t ← slice_input sv start stop; Some (SymBV t)
      | OpLNOT =>
          a ← lhs;
          Some match a with SymBV t => SymBV (bv_not t) | SymBool t => SymBool (zbool_not t) end
      | OpCONSTBYTE b => Some (SymBV (bv_from_u64 (b2z b) 8))
      | OpSYMBYTE s => Some (SymBV (bv_new_const s 8))
      | OpEQ =>
          a ← lhs; b ← rhs;
          match a, b with
          | SymBV a, SymBV b => t ← bv_rel BvEq a b; Some (SymBool t)
          | SymBool a, SymBool b => Some (SymBool (zbool_eq a b))
          | _, _ => None
          end
      | _ => None
      end
  end.

(** What [solve] asserts for a constraint *)
Definition constraint_assertion (sv : Solving) (cons : Expr) : option ZBool :=
  l ← lhs cons;
  bv ← generate_z3_bv sv l;
  let rel r :=
    a ← expect_bv bv; rh ← rhs cons; b ← generate_z3_bv sv rh; b ← expect_bv b; bv_rel r a b in
  match op cons with
  | OpGT => rel BvUgt
  | OpSGT => rel BvSgt
  | OpEQ => rel BvEq
  | OpLT => rel BvUlt
  | OpSLT => rel BvSlt
  | OpLNOT =>
      match bv with
      | SymBV t => bv_rel BvEq t (bv_from_u256 0)
      | SymBool t => Some (zbool_not t)
      end
  | _ => None
  end.

(** [Solving::solve]: the outer option is a panic ([Unknown] is [todo!()]), the inner one
    the result. *)
Definition solving_solve (sv : Solving) : option (option string) :=
  assertions ← mapM_opt (constraint_assertion sv) (so_constraints sv);
  match check assertions with
  | Sat model => Some (Some (String.concat "" (map (model_eval model) (so_input sv))))
  | Unsat => Some None
  | Unknown => None
  end.
End solving.

(** ** The middleware *)

(** [struct ConcolicHost] *)
Record ConcolicHost := mkConcolicHost {
  symbolic_stack : list (option Expr);
  input_bytes : list Expr;
  constraints : list Expr;
  bytes : Z;
  co_caller : EVMAddress
}.

(** [ConcolicHost::new]; [construct_input_from_abi] is [get_concolic], which numbers its
    symbols with a global counter. *)
Definition ConcolicHost_new (bytes : Z) (vm_input : BoxedABI) (caller : EVMAddress) (counter : N)
  : option (ConcolicHost * N) :=
  '(syms, counter) ← get_concolic (boxed_b vm_input) counter;
  Some (mkConcolicHost [] syms [] bytes caller, counter).

Definition set_symbolic_stack (l : list (option Expr)) (c : ConcolicHost) : ConcolicHost :=
  mkConcolicHost l (input_bytes c) (constraints c) (bytes c) (co_caller c).
Definition set_constraints (l : list Expr) (c : ConcolicHost) : ConcolicHost :=
  mkConcolicHost (symbolic_stack c) (input_bytes c) l (bytes c) (co_caller c).

(** [format!("input_{}", idx)] *)
Definition input_name (idx : nat) : string := String.append "input_" (string_of_list_ascii (show_nat idx)).

Section middleware.
Context `{Z3}.

(** The variables of [ConcolicHost::solve] *)
Definition solving_of (c : ConcolicHost) : Solving :=
  mkSolving (map (λ idx, bv_new_const (input_name idx) 8) (seq 0 (Z.to_nat (bytes c))))
    (bv_new_const "balance" 256) (bv_new_const "callvalue" 256) (constraints c).

(** [ConcolicHost::solve] *)
Definition concolic_solve (c : ConcolicHost) : option (option string) := solving_solve (solving_of c).

(** [fast_peek!]: [peek] counts from the top, so this counts from the bottom. *)
Definition concolic_peek (i : Interpreter) (idx : nat) : option EVMU256 := it_stack i !! idx.
(** [stack_concrete!] *)
Definition stack_concrete (i : Interpreter) (idx : nat) : option EVMU256 := it_stack i !! idx.
(** [stack_bv!]: the expression [idx] below the top of the symbolic stack, or the constant
    at the same position of the concrete one. *)
Definition stack_bv (c : ConcolicHost) (i : Interpreter) (idx : nat) : option Expr :=
  if (idx <? length (symbolic_stack c))%nat then
    let real_loc_sym := (length (symbolic_stack c) - 1 - idx)%nat in
    entry ← symbolic_stack c !! real_loc_sym;
    match entry with
    | Some bv => Some bv
    | None => u256 ← concolic_peek i real_loc_sym; Some (leaf (OpEVMU256 u256))
    end
  else None.

(** [symbolic_stack.pop()], [n] times, then the pushes *)
Definition pops (n : nat) (l : list (option Expr)) : list (option Expr) := take (length l - n) l.
Definition sym_result (n : nat) (res : list (option Expr)) (c : ConcolicHost) : ConcolicHost :=
  set_symbolic_stack (pops n (symbolic_stack c) ++ res) c.

Definition sym_binary (f : Expr → Expr → Expr) (c : ConcolicHost) (i : Interpreter) : option ConcolicHost :=
  a ← stack_bv c i 0; b ← stack_bv c i 1; Some (sym_result 2 [Some (f a b)] c).
Definition sym_unary (f : Expr → Expr) (c : ConcolicHost) (i : Interpreter) : option ConcolicHost :=
  a ← stack_bv c i 0; Some (sym_result 1 [Some (f a)] c).

(** The arm of JUMPI: the middleware and the solutions found *)
Definition concolic_jumpi (jmp_map : list Z) (c : ConcolicHost) (i : Interpreter)
  : option (ConcolicHost * list string) :=
  cond ← concolic_peek i 1;
  jump_dest_concolic ← (if is_zero cond then Some 1 else d ← concolic_peek i 0; Some (as_u64 d));
  let idx := u64 (instruction_pointer i * jump_dest_concolic) mod MAP_SIZE in
  hit ← jmp_map !! Z.to_nat idx;
  solutions ← (if hit =? 0 then
      path_constraint ← stack_bv c i 1;
      r ← concolic_solve (set_constraints (constraints c ++ [lnot path_constraint]) c);
      Some (match r with Some s => [s] | None => [] end)
    else Some []);
  p ← stack_bv c i 1;
  Some (sym_result 2 [] (set_constraints (constraints c ++ [p]) c), solutions).

(** [on_step] *)
Definition concolic_on_step (jmp_map : list Z) (c : ConcolicHost) (i : Interpreter)
  : option (ConcolicHost * list string) :=
  let no_solution x := c ← x; Some (c, []) in
  let pushes l := Some (sym_result 0 l c, []) in
  match z2b (opcode (view i)) with
  | x01 => no_solution (sym_binary expr_add c i)
  | x02 => no_solution (sym_binary expr_mul c i)
  | x03 => no_solution (sym_binary expr_sub c i)
  | x04 => no_solution (sym_binary expr_div c i)
  | x05 => no_solution (sym_binary bvsdiv c i)
  | x06 => no_solution (sym_binary bvurem c i)
  | x07 => no_solution (sym_binary bvsrem c i)
  | x08 =>
      a ← stack_bv c i 0; b ← stack_bv c i 1; m ← stack_bv c i 2;
      Some (sym_result 3 [Some (bvsrem (expr_add a b) m)] c, [])
  | x09 =>
      a ← stack_bv c i 0; b ← stack_bv c i 1; m ← stack_bv c i 2;
      Some (sym_result 3 [Some (bvsrem (expr_mul a b) m)] c, [])
  | x0a =>
      a ← stack_concrete i 0; b ← stack_concrete i 1;
      Some (sym_result 2 [Some (leaf (OpEVMU256 (op_exp a b)))] c, [])
  | x10 => no_solution (sym_binary bvult c i)
  | x11 => no_solution (sym_binary bvugt c i)
  | x12 => no_solution (sym_binary bvslt c i)
  | x13 => no_solution (sym_binary bvsgt c i)
  | x14 => no_solution (sym_binary expr_eq c i)
  | x15 => no_solution (sym_unary (λ a, expr_eq a (leaf (OpEVMU256 0))) c i)
  | x16 => no_solution (sym_binary bvand c i)
  | x17 => no_solution (sym_binary bvor c i)
  | x18 => no_solution (sym_binary bvxor c i)
  | x19 => no_solution (sym_unary bvnot c i)
  | x1b => no_solution (sym_binary bvshl c i)
  | x1c => no_solution (sym_binary bvlshr c i)
  | x1d => no_solution (sym_binary bvsar c i)
  | x31 => pushes [Some new_balance]
  | x34 => pushes [Some new_callvalue]
  | x35 => idx ← last (it_stack i); pushes [Some (new_sliced_input idx)]
  | x52 => Some (sym_result 2 [] c, [])
  | x56 => Some (sym_result 1 [] c, [])
  | x57 => concolic_jumpi jmp_map c i
  | x5b => pushes []
  | x0b | x1a | x20 | x30 | x32 | x33 | x36 | x37 | x38 | x39 | x3a | x3b | x3c | x3d | x3e
  | x40 | x41 | x42 | x43 | x44 | x45 | x46 | x47 | x48 | x50 | x51 | x53 | x54 | x55 | x58 | x59 | x5a
  | x60 | x61 | x62 | x63 | x64 | x65 | x66 | x67 | x68 | x69 | x6a | x6b | x6c | x6d | x6e | x6f
  | x70 | x71 | x72 | x73 | x74 | x75 | x76 | x77 | x78 | x79 | x7a | x7b | x7c | x7d | x7e | x7f =>
      pushes [None]
  | x80 | x81 | x82 | x83 | x84 | x85 | x86 | x87 | x88 | x89 | x8a | x8b | x8c | x8d | x8e | x8f =>
      e ← stack_bv c i (Z.to_nat (opcode (view i) - 0x80)); pushes [Some e]
  | _ => pushes []
  end.
End middleware.

(** The middleware as the host runs it; the solutions are only printed. *)
Definition concolic_middleware {E} `{Z3} : Middleware E ConcolicHost :=
  mkMiddleware _ _
    (λ i h c, '(c, _) ← concolic_on_step (jmp_map (core h)) c i; Some (i, h, c))
    (λ code _ h c, Some (code, h, c)).
