(* ===== verification/ConcolicProps.v ===== *)
(** * Properties of the concolic middleware

    A semantics of the expressions, the agreement of the symbolic with the concrete stack
    across the steps of the interpreter, and what a solution of the solver means.  The
    solver is used through its documented behaviour, [Z3Laws]. *)
From S2P Require Import Prelude Types Expr Abi AbiLayout AbiParse I256 Evm Host HostProps HostCall HostCallProps Bytecode Revm RevmProps Concolic.
#[local] Open Scope Z_scope.

(** ** Bit vectors (SMT-LIB) *)

Definition signed_w (w v : Z) : Z := if v <? 2 ^ (w - 1) then v else v - 2 ^ w.
Definition word_w (w z : Z) : Z := z mod 2 ^ w.

Definition bvop_sem (w : Z) (o : bvop) (a b : Z) : Z :=
  let sa := signed_w w a in
  let sb := signed_w w b in
  match o with
  | BvAdd => word_w w (a + b)
  | BvMul => word_w w (a * b)
  | BvSub => word_w w (a - b)
  | BvUdiv => if b =? 0 then 2 ^ w - 1 else a / b
  | BvUrem => if b =? 0 then a else a mod b
  | BvSdiv => if b =? 0 then (if sa <? 0 then 1 else 2 ^ w - 1) else word_w w (Z.quot sa sb)
  | BvSrem => if b =? 0 then a else word_w w (Z.rem sa sb)
  | BvSmod => if b =? 0 then a else word_w w (sa mod sb)
  | BvAnd => Z.land a b
  | BvOr => Z.lor a b
  | BvXor => Z.lxor a b
  | BvShl => if b <? w then word_w w (a * 2 ^ b) else 0
  | BvLshr => if b <? w then a / 2 ^ b else 0
  | BvAshr => if b <? w then word_w w (sa / 2 ^ b) else word_w w (if sa <? 0 then -1 else 0)
  end.

Definition bvrel_sem (w : Z) (r : bvrel) (a b : Z) : bool :=
  match r with
  | BvUgt => b <? a
  | BvUlt => a <? b
  | BvSgt => signed_w w b <? signed_w w a
  | BvSlt => signed_w w a <? signed_w w b
  | BvEq => a =? b
  end.

(** ** Expressions *)

(** The values of the variables: [input_0], ..., [balance], [callvalue], and the symbolic
    bytes. *)
Definition valuation := string → Z.

Inductive value := VBV (w v : Z) | VBool (b : bool).
#[export] Instance value_eq_dec : EqDecision value.
Proof. solve_decision. Defined.

(** A variable of [w] bits *)
Definition var (rho : valuation) (name : string) (w : Z) : Z := word_w w (rho name).

(** The input bytes from [start] to [stop], the first the most significant *)
Definition input_value (n : nat) (rho : valuation) (start stop : nat) : option value :=
  if decide (start < n ∧ Nat.max (start + 1) stop ≤ n)%nat then
    let len := Nat.max 1 (stop - start) in
    Some (VBV (8 * Z.of_nat len)
      (fold_left (λ acc i, acc * 2 ^ 8 + var rho (input_name i) 8) (seq start len) 0))
  else None.

(** The operation an [Expr] stands for *)
Definition op_of (o : ConcolicOp) : option bvop :=
  match o with
  | OpADD => Some BvAdd | OpDIV => Some BvUdiv | OpMUL => Some BvMul | OpSUB => Some BvSub
  | OpSDIV => Some BvSdiv | OpSMOD => Some BvSmod | OpUREM => Some BvUrem | OpSREM => Some BvSrem
  | OpAND => Some BvAnd | OpOR => Some BvOr | OpXOR => Some BvXor
  | OpSHL => Some BvShl | OpSHR => Some BvLshr | OpSAR => Some BvAshr
  | _ => None
  end.
Definition rel_of (o : ConcolicOp) : option bvrel :=
  match o with
  | OpGT => Some BvUgt | OpSGT => Some BvSgt | OpLT => Some BvUlt | OpSLT => Some BvSlt | OpEQ => Some BvEq
  | _ => None
  end.

Section eval.
(** [konst]: the value of a 256-bit constant; [n]: the number of input bytes *)
Context (konst : EVMU256 → Z) (n : nat) (rho : valuation).

Definition lift_op (o : bvop) (a b : option value) : option value :=
  match a, b with
  | Some (VBV w x), Some (VBV w' y) => if decide (w = w') then Some (VBV w (bvop_sem w o x y)) else None
  | _, _ => None
  end.
Definition lift_rel (r : bvrel) (a b : option value) : option value :=
  match a, b with
  | Some (VBV w x), Some (VBV w' y) => if decide (w = w') then Some (VBool (bvrel_sem w r x y)) else None
  | _, _ => None
  end.
Definition lift_not (a : option value) : option value :=
  match a with
  | Some (VBV w x) => Some (VBV w (2 ^ w - 1 - x))
  | Some (VBool b) => Some (VBool (negb b))
  | None => None
  end.
Definition lift_eq (a b : option value) : option value :=
  match a, b with
  | Some (VBool x), Some (VBool y) => Some (VBool (eqb x y))
  | _, _ => lift_rel BvEq a b
  end.

(** The value of an expression; comparisons are truth values. *)
Fixpoint eval_expr (e : Expr) : option value :=
  match e with
  | mkExpr l r o =>
      let a := match l with Some l => eval_expr l | None => None end in
      let b := match r with Some r => eval_expr r | None => None end in
      match o with
      | OpEVMU256 c => Some (VBV 256 (konst c))
      | OpSLICEDINPUT idx =>
          let idx := limb idx 0 mod 2 ^ 32 in input_value n rho (Z.to_nat idx) (Z.to_nat (wrap 32 (idx + 4)))
      | OpFINEGRAINEDINPUT start stop => input_value n rho (Z.to_nat start) (Z.to_nat stop)
      | OpBALANCE => Some (VBV 256 (var rho "balance" 256))
      | OpCALLVALUE => Some (VBV 256 (var rho "callvalue" 256))
      | OpCONSTBYTE b => Some (VBV 8 (b2z b))
      | OpSYMBYTE s => Some (VBV 8 (var rho s 8))
      | OpNOT | OpLNOT => lift_not a
      | OpEQ => lift_eq a b
      | OpGT | OpSGT | OpLT | OpSLT => r ← rel_of o; lift_rel r a b
      | _ => f ← op_of o; lift_op f a b
      end
  end.

(** A constraint holds: a negation is true when its operand is zero or false. *)
Definition constraint_holds (e : Expr) : Prop :=
  match op e with
  | OpLNOT => ∃ l, lhs e = Some l ∧
      (eval_expr l = Some (VBV 256 0) ∨ eval_expr l = Some (VBool false))
  | _ => eval_expr e = Some (VBool true)
  end.
End eval.

(** ** What the middleware relies on of the solver *)

Class Z3Laws `{Z3} := {
  bv_den : valuation → BV → Z * Z;   (** width and value *)
  zbool_den : valuation → ZBool → bool;
  model_val : Model → valuation;
  show_value : Z * Z → string;
  den_const rho s w : bv_den rho (bv_new_const s w) = (w, var rho s w);
  den_u64 rho v w : bv_den rho (bv_from_u64 v w) = (w, word_w w v);
  den_concat rho a b : bv_den rho (bv_concat a b) =
    ((bv_den rho a).1 + (bv_den rho b).1, (bv_den rho a).2 * 2 ^ (bv_den rho b).1 + (bv_den rho b).2);
  den_not rho a : bv_den rho (bv_not a) = ((bv_den rho a).1, 2 ^ (bv_den rho a).1 - 1 - (bv_den rho a).2);
  den_apply rho o a b t : bv_apply o a b = Some t →
    (bv_den rho a).1 = (bv_den rho b).1 ∧
    bv_den rho t = ((bv_den rho a).1, bvop_sem (bv_den rho a).1 o (bv_den rho a).2 (bv_den rho b).2);
  den_rel rho r a b t : bv_rel r a b = Some t →
    (bv_den rho a).1 = (bv_den rho b).1 ∧
    zbool_den rho t = bvrel_sem (bv_den rho a).1 r (bv_den rho a).2 (bv_den rho b).2;
  den_bool_eq rho a b : zbool_den rho (zbool_eq a b) = eqb (zbool_den rho a) (zbool_den rho b);
  den_bool_not rho a : zbool_den rho (zbool_not a) = negb (zbool_den rho a);
  check_sat l m : check l = Sat m → Forall (λ t, zbool_den (model_val m) t = true) l;
  check_unsat l : check l = Unsat → ∀ rho, ¬ Forall (λ t, zbool_den rho t = true) l;
  model_eval_show m t : model_eval m t = show_value (bv_den (model_val m) t)
}.

(** ** Constants *)

(** The word with its four limbs in the opposite order *)
Definition reverse_limbs (v : EVMU256) : Z :=
  limb v 0 * 2 ^ 192 + limb v 1 * 2 ^ 128 + limb v 2 * 2 ^ 64 + limb v 3.

Section translation.
Context `{Z3Laws}.

Lemma limb_word v i : word_w 64 (limb v i) = limb v i.
Proof. apply Z.mod_small, limb_range. Qed.

Lemma bv_from_u256_den rho v : bv_den rho (bv_from_u256 v) = (256, reverse_limbs v).
Proof.
  unfold bv_from_u256. rewrite !den_concat, !den_u64. cbn [fst snd]. rewrite !limb_word.
  f_equal. unfold reverse_limbs. lia.
Qed.

Definition sym_den (rho : valuation) (x : SymbolicTy) : value :=
  match x with
  | SymBV t => VBV (bv_den rho t).1 (bv_den rho t).2
  | SymBool t => VBool (zbool_den rho t)
  end.

Lemma expect_bv_den rho x t : expect_bv x = Some t → sym_den rho x = VBV (bv_den rho t).1 (bv_den rho t).2.
Proof. destruct x; [|done]. by intros [= ->]. Qed.

Context (c : ConcolicHost) (rho : valuation).
Abbreviation n := (Z.to_nat (bytes c)).
Abbreviation sv := (solving_of c).

Lemma so_input_lookup i t :
  so_input sv !! i = Some t → (i < n)%nat ∧ bv_den rho t = (8, var rho (input_name i) 8).
Proof.
  unfold solving_of. cbn [so_input]. rewrite list_lookup_fmap. intros (j & [-> Hj]%lookup_seq & ->)%fmap_Some.
  simpl. split; [lia|]. apply den_const.
Qed.

Lemma slice_fold k : ∀ s acc t,
  foldM (λ slice i, b ← so_input sv !! i; Some (bv_concat slice b)) acc (seq s k) = Some t →
  (k = 0 ∨ s + k ≤ n)%nat ∧
  bv_den rho t = ((bv_den rho acc).1 + 8 * Z.of_nat k,
    fold_left (λ acc i, acc * 2 ^ 8 + var rho (input_name i) 8) (seq s k) (bv_den rho acc).2).
Proof.
  induction k as [|k IH]; intros s acc t; cbn [seq foldM].
  { intros [= <-]. split; [by left|]. rewrite Z.add_0_r. by destruct (bv_den rho acc). }
  intros (acc' & (b & [Hb Eb]%so_input_lookup & [= <-])%bind_Some & E2)%bind_Some.
  apply IH in E2 as [Hk ->]. rewrite den_concat, Eb. cbn [fst snd fold_left]. split; [lia|]. f_equal. lia.
Qed.

Lemma slice_input_den start stop t :
  slice_input sv start stop = Some t →
  input_value n rho (Z.to_nat start) (Z.to_nat stop) = Some (VBV (bv_den rho t).1 (bv_den rho t).2).
Proof.
  intros (b & [Hb Eb]%so_input_lookup & [Hk Et]%slice_fold)%bind_Some. unfold input_value.
  rewrite decide_True by lia. rewrite Et, Eb. cbn [fst snd]. f_equal.
  set (a := Z.to_nat start) in *. set (z := Z.to_nat stop) in *.
  destruct (decide (z - a ≤ 1)%nat).
  - replace (z - (a + 1))%nat with 0%nat by lia. replace (Nat.max 1 (z - a)) with 1%nat by lia.
    cbn [seq fold_left]. f_equal.
  - replace (Nat.max 1 (z - a)) with (S (z - (a + 1))) by lia. cbn [seq fold_left].
    rewrite Nat.add_1_r. f_equal. lia.
Qed.

Lemma lift_op_den (o : bvop) x y t ex ey : 
  ex = Some (sym_den rho x) → ey = Some (sym_den rho y) →
  (a ← expect_bv x; b ← expect_bv y; t ← bv_apply o a b; Some (SymBV t)) = Some t →
  lift_op o ex ey = Some (sym_den rho t).
Proof.
  intros -> -> (a & Ea%(expect_bv_den rho) & E1)%bind_Some.
  apply bind_Some in E1 as (b & Eb%(expect_bv_den rho) & E1). apply bind_Some in E1 as (u & Eu & E1).
  injection E1 as <-. rewrite Ea, Eb. apply (den_apply rho) in Eu as [Hw Hv]. unfold lift_op.
  rewrite decide_True by done. cbn [sym_den]. by rewrite Hv.
Qed.

(** The translation means what the expression means, with reversed constants. *)
Lemma generate_z3_bv_den : ∀ e x,
  generate_z3_bv sv e = Some x → eval_expr reverse_limbs n rho e = Some (sym_den rho x).
Proof.
  fix IH 1. intros [l r o] x. cbn [generate_z3_bv eval_expr].
  set (gl := match l with Some l => generate_z3_bv sv l | None => None end).
  set (gr := match r with Some r => generate_z3_bv sv r | None => None end).
  set (el := match l with Some l => eval_expr _ _ _ l | None => None end).
  set (er := match r with Some r => eval_expr _ _ _ r | None => None end).
  assert (∀ y, gl = Some y → el = Some (sym_den rho y)) as Hl.
  { subst gl el. destruct l as [l|]; [|done]. intros y Hy. by apply (IH l y). }
  assert (∀ y, gr = Some y → er = Some (sym_den rho y)) as Hr.
  { subst gr er. destruct r as [r|]; [|done]. intros y Hy. by apply (IH r y). }
  assert (∀ o x, (a ← gl; a ← expect_bv a; b ← gr; b ← expect_bv b; t ← bv_apply o a b; Some (SymBV t)) = Some x →
    lift_op o el er = Some (sym_den rho x)) as Hbin.
  { intros o' y (a & Ea & E1)%bind_Some. apply bind_Some in E1 as (ta & Eta & E1).
    apply bind_Some in E1 as (b & Eb & E1). apply (lift_op_den o' a b y); [by apply Hl|by apply Hr|].
    rewrite Eta. exact E1. }
  assert (∀ x, (a ← gl; Some match a with SymBV t => SymBV (bv_not t) | SymBool t => SymBool (zbool_not t) end) = Some x →
    lift_not el = Some (sym_den rho x)) as Hnot.
  { intros y (a & Ea & [= <-])%bind_Some. rewrite (Hl a Ea). destruct a; cbn [lift_not sym_den].
    - by rewrite den_not.
    - by rewrite den_bool_not. }
  destruct o; try done; try (apply Hbin); try (apply Hnot).
  - intros [= <-]. cbn [sym_den]. by rewrite bv_from_u256_den.
  - intros (t & Et & [= <-])%bind_Some. by apply slice_input_den in Et.
  - intros [= <-]. cbn [sym_den]. unfold solving_of. cbn [so_balance]. by rewrite den_const.
  - intros [= <-]. cbn [sym_den]. unfold solving_of. cbn [so_calldatavalue]. by rewrite den_const.
  - intros [= <-]. cbn [sym_den]. by rewrite den_const.
  - intros [= <-]. cbn [sym_den]. rewrite den_u64. unfold word_w. rewrite Z.mod_small; [done|]. apply b2z_range.
  - intros (t & Et & [= <-])%bind_Some. by apply slice_input_den in Et.
  - intros (a & Ea & E1)%bind_Some. apply bind_Some in E1 as (b & Eb & E1).
    rewrite (Hl a Ea), (Hr b Eb). destruct a as [a|a], b as [b|b]; try done; cbn [lift_eq lift_rel sym_den].
    + apply bind_Some in E1 as (t & Et & E1). injection E1 as <-. apply (den_rel rho) in Et as [Hw Hv].
      rewrite decide_True by done. cbn [sym_den]. by rewrite Hv.
    + injection E1 as <-. cbn [sym_den]. by rewrite den_bool_eq.
Qed.

Lemma reverse_limbs_0 : reverse_limbs 0 = 0.
Proof. reflexivity. Qed.

(** What is asserted for a constraint is the constraint. *)
Lemma constraint_assertion_den e t :
  constraint_assertion sv e = Some t →
  zbool_den rho t = true ↔ constraint_holds reverse_limbs n rho e.
Proof.
  destruct e as [l r o]. unfold constraint_assertion, constraint_holds. cbn [lhs rhs op].
  intros (l' & -> & E1)%bind_Some. apply bind_Some in E1 as (x & Ex & E1).
  pose proof (generate_z3_bv_den l' x Ex) as Hl.
  assert (∀ q, (a ← expect_bv x; rh ← r; b ← generate_z3_bv sv rh; b ← expect_bv b; bv_rel q a b) = Some t →
    ∃ r' w v v', r = Some r' ∧ eval_expr reverse_limbs n rho l' = Some (VBV w v) ∧
      eval_expr reverse_limbs n rho r' = Some (VBV w v') ∧ zbool_den rho t = bvrel_sem w q v v') as Hrel.
  { intros q (a & Ea%(expect_bv_den rho) & E2)%bind_Some. apply bind_Some in E2 as (r' & -> & E2).
    apply bind_Some in E2 as (y & Ey & E2). apply generate_z3_bv_den in Ey.
    apply bind_Some in E2 as (b & Eb%(expect_bv_den rho) & E2). apply (den_rel rho) in E2 as [Hw Hv].
    exists r'. do 3 eexists. split; [done|]. rewrite Hl, Ea, Ey, Eb, Hw. split; [done|]. split; [done|].
    by rewrite Hv, Hw. }
  destruct o; try done; try (apply Hrel in E1 as (r' & w & v & v' & -> & E2 & E3 & Hv); cbn [eval_expr rel_of];
    rewrite E2, E3, Hv; cbn [lift_rel mbind option_bind]; rewrite decide_True by done; destruct (bvrel_sem _ _ _ _); split; congruence).
  { apply Hrel in E1 as (r' & w & v & v' & -> & E2 & E3 & Hv). cbn [eval_expr]. rewrite E2, E3, Hv. unfold lift_eq, lift_rel.
    rewrite decide_True by done. destruct (bvrel_sem _ _ _ _); split; congruence. }
  destruct x as [x|x]; cbn [sym_den] in Hl.
  - apply (den_rel rho) in E1 as [Hw Hv]. rewrite bv_from_u256_den in Hw, Hv. cbn [fst snd] in *.
    rewrite Hv. cbn [bvrel_sem]. rewrite reverse_limbs_0, Z.eqb_eq. split.
    + intros Hz. exists l'. split; [done|]. left. by rewrite Hl, Hw, Hz.
    + intros (l2 & [= <-] & [E2|E2]); congruence.
  - injection E1 as <-. rewrite den_bool_not, negb_true_iff. split.
    + intros Hz. exists l'. split; [done|]. right. by rewrite Hl, Hz.
    + intros (l2 & [= <-] & [E2|E2]); congruence.
Qed.

Lemma assertions_den l ts :
  mapM_opt (constraint_assertion sv) l = Some ts →
  Forall (λ t, zbool_den rho t = true) ts ↔ Forall (constraint_holds reverse_limbs n rho) l.
Proof.
  revert ts. induction l as [|e l IH]; intros ts; cbn [mapM_opt].
  { intros [= <-]. split; constructor. }
  intros (t & Et%constraint_assertion_den & E1)%bind_Some. apply bind_Some in E1 as (ts' & E2 & E1).
  injection E1 as <-. rewrite !Forall_cons. rewrite Et. by rewrite (IH ts' E2).
Qed.
End translation.

Section solutions.
Context `{Z3Laws}.

(** C17. A solution satisfies the path, and no solution means there is none.  When
    [solve] returns an input, it is the printed bytes of a valuation under which every
    constraint collected on the path holds, a negated condition being zero or false; when
    it returns nothing, no valuation satisfies them.  The meaning of an expression is that
    of bit vectors, comparisons being truth values, except that the constants are read
    with their 64-bit limbs reversed. *)
Theorem concolic_solve_sound c r :
  concolic_solve c = Some r →
  let n := Z.to_nat (bytes c) in
  match r with
  | Some s => ∃ rho, Forall (constraint_holds reverse_limbs n rho) (constraints c) ∧
      s = String.concat "" (map (λ i, show_value (8, var rho (input_name i) 8)) (seq 0 n))
  | None => ∀ rho, ¬ Forall (constraint_holds reverse_limbs n rho) (constraints c)
  end.
Proof.
  unfold concolic_solve, solving_solve. intros (ts & Ets & E1)%bind_Some.
  change (so_constraints (solving_of c)) with (constraints c) in Ets.
  destruct (check ts) as [m| |] eqn:Ec; [| |done]; injection E1 as <-.
  - exists (model_val m). split.
    + apply (assertions_den c (model_val m) _ ts Ets). by apply check_sat.
    + f_equal. unfold solving_of. cbn [so_input]. rewrite map_map. apply map_ext. intros i.
      by rewrite model_eval_show, den_const.
  - intros rho. rewrite <- (assertions_den c rho _ ts Ets). by apply check_unsat.
Qed.

(** The constants of the solver are wrong: [bv_from_u256!] concatenates the limbs of a
    word with the least significant one on top, so the term it builds stands for the word
    with its limbs in the opposite order.  It is the word itself only when the limbs are
    symmetric; a constant other than zero that fits in 64 bits becomes its multiple by
    [2^192]. *)
Theorem solver_constants_reversed v rho :
  is_u256 v →
  bv_den rho (bv_from_u256 v) = (256, reverse_limbs v) ∧
  (reverse_limbs v = v ↔ limb v 0 = limb v 3 ∧ limb v 1 = limb v 2) ∧
  (0 < v < 2 ^ 64 → reverse_limbs v = v * 2 ^ 192 ∧ reverse_limbs v ≠ v).
Proof.
  intros Hv. split; [apply bv_from_u256_den|].
  assert (v = limb v 0 + limb v 1 * 2 ^ 64 + limb v 2 * 2 ^ 128 + limb v 3 * 2 ^ 192) as Ev.
  { unfold limb, is_u256, U256_MOD in *. change (2 ^ (64 * 0)) with 1. rewrite Z.div_1_r.
    change (2 ^ (64 * 1)) with (2 ^ 64). change (2 ^ (64 * 2)) with (2 ^ 64 * 2 ^ 64).
    change (2 ^ (64 * 3)) with (2 ^ 64 * (2 ^ 64 * 2 ^ 64)). rewrite <- !Z.div_div by done.
    pose proof (Z.div_mod v (2 ^ 64)). pose proof (Z.div_mod (v / 2 ^ 64) (2 ^ 64)).
    pose proof (Z.div_mod (v / 2 ^ 64 / 2 ^ 64) (2 ^ 64)).
    assert (v / 2 ^ 64 / 2 ^ 64 / 2 ^ 64 < 2 ^ 64) by (rewrite !Z.div_div by done; apply Z.div_lt_upper_bound; lia).
    assert (0 ≤ v / 2 ^ 64 / 2 ^ 64 / 2 ^ 64) by (repeat apply Z.div_pos; lia).
    rewrite (Z.mod_small (v / 2 ^ 64 / 2 ^ 64 / 2 ^ 64)) by lia. lia. }
  pose proof (limb_range v 0). pose proof (limb_range v 1). pose proof (limb_range v 2). pose proof (limb_range v 3).
  unfold reverse_limbs. set (a := limb v 0) in *. set (b := limb v 1) in *. set (x := limb v 2) in *.
  set (d := limb v 3) in *. clearbody a b x d. split; [lia|]. lia.
Qed.
End solutions.

(** ** The effect of instructions on the stack *)

Section effects.
Context {E S : Type} `{EnvReads E} (keccak256 : list byte → Z) (panic_on_bug : bool).
Context (call_h : @call_handler E S) (create_h : @create_handler E S).
Implicit Types w : @world E S.

(** The stack of a world *)
Definition wstack w : list EVMU256 := it_stack w.1.1.

Lemma bind_Next {A B} (m : Instr (@world E S) A) (f : A → Instr _ B) w b w' :
  (m ≫= f) w = Next b w' → ∃ a w1, m w = Next a w1 ∧ f a w1 = Next b w'.
Proof. unfold mbind, Instr_bind. destruct (m w) as [a w1|w1| |]; try done. by exists a, w1. Qed.

Lemma pop1_Next w a w' : pop1 w = Next a w' → wstack w = wstack w' ++ [a].
Proof.
  destruct w as [[i h] s]. unfold pop1, mbind, Instr_bind, get_interp, wstack. simpl.
  destruct (reverse (it_stack i)) as [|x l] eqn:Eq; [done|]. intros [= <- <-]. simpl.
  by rewrite <- (reverse_involutive (it_stack i)), Eq, reverse_cons.
Qed.

Lemma pop2_Next w a b w' : pop2 w = Next (a, b) w' → wstack w = wstack w' ++ [b; a].
Proof.
  destruct w as [[i h] s]. unfold pop2, mbind, Instr_bind, get_interp, wstack. simpl.
  destruct (reverse (it_stack i)) as [|x [|y l]] eqn:Eq; [done..|]. intros [= <- <- <-]. simpl.
  rewrite <- (reverse_involutive (it_stack i)), Eq, !reverse_cons. by rewrite <- app_assoc.
Qed.

Lemma write_top_Next w v u w' : write_top v w = Next u w' → wstack w' = wstack w ++ [v].
Proof. destruct w as [[i h] s]. by intros [= _ <-]. Qed.

Lemma push_Next w v u w' : push v w = Next u w' → wstack w' = wstack w ++ [v].
Proof.
  destruct w as [[i h] s]. unfold push, mbind, Instr_bind, get_interp. simpl.
  destruct (_ <? _)%nat; [done|]. by intros [= _ <-].
Qed.

Lemma as_usize_Next w v r a w' : as_usize_or_fail v r w = Next a w' → w' = w.
Proof. unfold as_usize_or_fail. destruct (_ || _); [by destruct w as [[]]|]. by intros [= _ ->]. Qed.

Lemma resize_Next w a b u w' : resize_to a b w = Next u w' → wstack w' = wstack w.
Proof.
  destruct w as [[i h] s]. unfold resize_to. destruct (next_multiple_of_32 _); [|done].
  unfold mbind, Instr_bind, get_interp. simpl. destruct (_ <? _); [|by intros [= _ <-]].
  destruct (_ <=? _); [|done]. by intros [= _ <-].
Qed.

Lemma update_memory_Next w f u w' : update_memory f w = Next u w' → wstack w' = wstack w.
Proof.
  destruct w as [[i h] s]. unfold update_memory, mbind, Instr_bind, get_interp, unwrap. simpl.
  destruct (f _); [|done]. by intros [= _ <-].
Qed.

Lemma binary_opt_Next w f u w' : binary_opt f w = Next u w' →
  ∃ l a b r, wstack w = l ++ [b; a] ∧ f a b = Some r ∧ wstack w' = l ++ [r].
Proof.
  intros ([a b] & w1 & E1%pop2_Next & E2)%bind_Next. apply bind_Next in E2 as (r & w2 & E2 & E3%write_top_Next).
  unfold unwrap in E2. destruct (f a b) as [r'|] eqn:Ef; [|done]. injection E2 as <- <-. by exists (wstack w1), a, b, r'.
Qed.

Lemma binary_Next w f u w' : binary f w = Next u w' →
  ∃ l a b, wstack w = l ++ [b; a] ∧ wstack w' = l ++ [f a b].
Proof.
  intros ([a b] & w1 & E1%pop2_Next & E2%write_top_Next)%bind_Next. by exists (wstack w1), a, b.
Qed.

Lemma unary_Next w f u w' : unary f w = Next u w' →
  ∃ l a, wstack w = l ++ [a] ∧ wstack w' = l ++ [f a].
Proof.
  intros (a & w1 & E1%pop1_Next & E2%write_top_Next)%bind_Next. by exists (wstack w1), a.
Qed.

Lemma push_interp_Next w f u w' : push_interp f w = Next u w' → ∃ v, wstack w' = wstack w ++ [v] ∧ v = f w.1.1.
Proof. intros (i & w1 & [= <- <-] & E2%push_Next)%bind_Next. by eexists. Qed.

Lemma push_env_Next w f u w' : push_env f w = Next u w' → ∃ v, wstack w' = wstack w ++ [v].
Proof. intros (h & w1 & [= <- <-] & E2%push_Next)%bind_Next. by eexists. Qed.

Lemma goto_Next w d u w' : goto d w = Next u w' → wstack w' = wstack w.
Proof.
  intros (a & w1 & ->%as_usize_Next & E2)%bind_Next. apply bind_Next in E2 as (i & w2 & [= <- <-] & E2).
  destruct w as [[i h] s]. destruct (is_valid_jump _ _); by injection E2 as _ <-.
Qed.

(** The instructions that push one value and nothing else *)
Definition pushes_value (op : byte) : bool :=
  match op with
  | x30 | x32 | x33 | x34 | x36 | x38 | x3a | x3d | x41 | x42 | x43 | x44 | x45 | x46 | x47 | x48 | x58 | x59 | x5a => true
  | _ => is_push op
  end.

Lemma pushes_value_Next op w u w' :
  pushes_value op = true → instr_eval keccak256 panic_on_bug call_h create_h op w = Next u w' →
  instruction_result w'.1.1 = Continue → ∃ v, wstack w' = wstack w ++ [v].
Proof.
  assert (∀ n, instr_push n w = Next u w' → instruction_result w'.1.1 = Continue → ∃ v, wstack w' = wstack w ++ [v]) as Hpush.
  { intros n. destruct w as [[i h] s]. unfold instr_push, mbind, Instr_bind, get_interp, unchecked, wstack. simpl.
    destruct (_ <? _)%nat; [by intros [= _ <-]|]. destruct (slice _ _ _); [|done]. intros [= _ <-] _. simpl. by eexists. }
  assert (∀ f, push_interp f w = Next u w' → ∃ v, wstack w' = wstack w ++ [v]) as Hint.
  { intros f (v & Hv & _)%push_interp_Next. by exists v. }
  intros Hop Hev Hc. destruct op; try discriminate Hop; cbn [instr_eval] in Hev;
    try (by eapply Hpush); try (by eapply Hint); try (by eapply push_env_Next).
  - apply bind_Next in Hev as (h & w1 & [= <- <-] & E2). apply bind_Next in E2 as (v & w2 & E2 & E3%push_Next).
    unfold unwrap in E2. destruct (env_prevrandao _); [|done]. injection E2 as <- <-. by eexists.
  - apply bind_Next in Hev as (i & w1 & [= <- <-] & E2). apply bind_Next in E2 as ([v b] & w2 & [= <- <- <-] & E3%push_Next).
    by eexists.
  - apply bind_Next in Hev as (i & w1 & [= <- <-] & E2%push_Next). by eexists.
  - apply bind_Next in Hev as (i & w1 & [= <- <-] & E2%push_Next). by eexists.
  - apply push_Next in Hev. by eexists.
Qed.
End effects.

(** ** The symbolic and the concrete stack *)

Section agreement.
Context (n : nat) (rho : valuation).

Abbreviation eval := (eval_expr (λ c, c) n rho).

(** An expression stands for a word: as a bit vector, or as a truth value. *)
Definition denotes (e : Expr) (v : EVMU256) : Prop :=
  eval e = Some (VBV 256 v) ∨ ∃ b, eval e = Some (VBool b) ∧ v = of_bool b.

Definition entry_agrees (x : option Expr) (v : EVMU256) : Prop := ∀ e, x = Some e → denotes e v.

(** The stacks have the same height, and every expression stands for the word beside it. *)
Definition agrees (c : ConcolicHost) (i : Interpreter) : Prop :=
  Forall2 entry_agrees (symbolic_stack c) (it_stack i).

(** The [k] topmost entries are not truth values. *)
Definition words_on_top (c : ConcolicHost) (i : Interpreter) (k : nat) : Prop :=
  ∀ idx e b, (idx < k)%nat → stack_bv c i idx = Some e → eval e ≠ Some (VBool b).

Lemma stack_bv_agrees c i idx v :
  agrees c i → reverse (it_stack i) !! idx = Some v → ∃ e, stack_bv c i idx = Some e ∧ denotes e v.
Proof.
  intros Ha Hv. pose proof (Forall2_length _ _ _ Ha) as Hl. pose proof (lookup_lt_Some _ _ _ Hv) as Hlt.
  rewrite length_reverse in Hlt. rewrite reverse_lookup in Hv by done. unfold stack_bv.
  rewrite (proj2 (Nat.ltb_lt _ _)) by lia. rewrite Hl.
  replace (length (it_stack i) - 1 - idx)%nat with (length (it_stack i) - S idx)%nat by lia.
  destruct (Forall2_lookup_r _ _ _ _ _ Ha Hv) as (x & Ex & Hx). rewrite Ex, obind_Some.
  destruct x as [e|]; [exists e; by split; [|apply Hx]|].
  unfold concolic_peek. rewrite Hv, obind_Some. eexists. split; [done|]. by left.
Qed.

Lemma words_denote c i k idx e v :
  words_on_top c i k → (idx < k)%nat → stack_bv c i idx = Some e → denotes e v → eval e = Some (VBV 256 v).
Proof. intros Hw Hk Hs [He|(b & He & _)]; [done|]. by destruct (Hw idx e b Hk Hs). Qed.

(** Replacing the [k] topmost entries *)
Lemma agrees_result c i i' (l top new : list EVMU256) res :
  agrees c i → it_stack i = l ++ top → it_stack i' = l ++ new → Forall2 entry_agrees res new →
  agrees (sym_result (length top) res c) i'.
Proof.
  unfold agrees. intros Ha Ei Ei' Hr. rewrite Ei in Ha. rewrite Ei'. cbn [sym_result set_symbolic_stack symbolic_stack].
  apply Forall2_app; [|done]. unfold pops. rewrite (Forall2_length _ _ _ Ha), length_app.
  apply Forall2_app_inv_r in Ha as (l1 & l2 & H1 & H2 & ->).
  rewrite take_app_le by (rewrite (Forall2_length _ _ _ H1); lia).
  rewrite take_ge by (rewrite (Forall2_length _ _ _ H1); lia). done.
Qed.

Lemma entry_some e v : denotes e v → Forall2 entry_agrees [Some e] [v].
Proof. intros H. constructor; [|constructor]. by intros e' [= <-]. Qed.
Lemma entry_none v : Forall2 entry_agrees [None] [v].
Proof. constructor; [|constructor]. by intros e'. Qed.

Lemma word_operations_signs a b : is_u256 a → is_u256 b →
  op_slt a b = of_bool (to_signed a <? to_signed b) ∧ op_sgt a b = of_bool (to_signed b <? to_signed a).
Proof.
  intros Ha Hb. unfold op_slt, op_sgt, Z.ltb. rewrite i256_cmp_spec, (Z.compare_antisym (to_signed a)) by done.
  by destruct (to_signed a ?= to_signed b).
Qed.

(** *** The operations that the expressions describe *)

Definition word_op (op : byte) : option (bvop * ConcolicOp) :=
  match op with
  | x01 => Some (BvAdd, OpADD) | x02 => Some (BvMul, OpMUL) | x03 => Some (BvSub, OpSUB)
  | x04 => Some (BvUdiv, OpDIV) | x05 => Some (BvSdiv, OpSDIV) | x06 => Some (BvUrem, OpUREM)
  | x07 => Some (BvSrem, OpSREM)
  | x16 => Some (BvAnd, OpAND) | x17 => Some (BvOr, OpOR) | x18 => Some (BvXor, OpXOR)
  | _ => None
  end.
Definition divides (op : byte) : bool := match op with x04 | x05 | x06 | x07 => true | _ => false end.
Definition word_rel (op : byte) : option (bvrel * ConcolicOp) :=
  match op with
  | x10 => Some (BvUlt, OpLT) | x11 => Some (BvUgt, OpGT) | x12 => Some (BvSlt, OpSLT)
  | x13 => Some (BvSgt, OpSGT) | x14 => Some (BvEq, OpEQ)
  | _ => None
  end.

(** The opcodes whose arm describes what the interpreter does, with their conditions *)
Inductive faithful (c : ConcolicHost) (i : Interpreter) : byte → Prop :=
| faithful_op op o : word_op op = Some o → words_on_top c i 2 →
    (divides op = true → reverse (it_stack i) !! 1%nat ≠ Some 0) → faithful c i op
| faithful_rel op r : word_rel op = Some r → words_on_top c i 2 → faithful c i op
| faithful_iszero : words_on_top c i 1 → faithful c i x15
| faithful_not : words_on_top c i 1 → faithful c i x19
| faithful_push op : pushes_value op = true → op ≠ x34 → faithful c i op
| faithful_callvalue : var rho "callvalue" 256 = cc_apparent_value (ct_context (contract i)) → faithful c i x34
| faithful_dup op : 0x80 ≤ b2z op ≤ 0x8f → faithful c i op
| faithful_mstore : faithful c i x52
| faithful_jump : faithful c i x56
| faithful_jumpdest : faithful c i x5b.

(** What the interpreter computes for them *)
Definition alu (op : byte) (a b : EVMU256) : option EVMU256 :=
  match op with
  | x01 => Some (op_add a b) | x02 => Some (op_mul a b) | x03 => Some (op_sub a b) | x04 => Some (op_div a b)
  | x05 => op_sdiv a b | x06 => Some (op_rem a b) | x07 => op_smod a b
  | x10 => Some (op_lt a b) | x11 => Some (op_gt a b) | x12 => Some (op_slt a b) | x13 => Some (op_sgt a b)
  | x14 => Some (op_eq a b)
  | x16 => Some (op_and a b) | x17 => Some (op_or a b) | x18 => Some (op_xor a b)
  | _ => None
  end.

Lemma alu_sem op o x a b v :
  word_op op = Some (o, x) → is_u256 a → is_u256 b → (divides op = true → b ≠ 0) → alu op a b = Some v →
  bvop_sem 256 o a b = v.
Proof.
  intros Ho Ha Hb Hd Hv. assert (divides op = true → (b =? 0) = false) as Hz by (intros Hdv; by apply Z.eqb_neq, Hd).
  destruct op; try discriminate Ho; injection Ho as <- <-; cbn [alu divides bvop_sem] in *;
    rewrite ?Hz by done; try (injection Hv as <-; done).
  - injection Hv as <-. unfold op_div, div256. by rewrite decide_False by (by apply Hd).
  - unfold op_sdiv in Hv. rewrite i256_div_spec, Hz in Hv by done. by injection Hv.
  - injection Hv as <-. unfold op_rem, rem256. by rewrite decide_False by (by apply Hd).
  - rewrite op_smod_spec, Hz in Hv by done. by injection Hv.
Qed.

Lemma alu_rel op r x a b v :
  word_rel op = Some (r, x) → is_u256 a → is_u256 b → alu op a b = Some v → v = of_bool (bvrel_sem 256 r a b).
Proof.
  intros Ho Ha Hb Hv. destruct (word_operations_signs a b Ha Hb) as [H1 H2].
  destruct op; try discriminate Ho; injection Ho as <- <-; cbn [alu bvrel_sem] in *; injection Hv as <-; try done.
Qed.

Section step.
Context {E S : Type} `{EnvReads E} (keccak256 : list byte → Z) (panic_on_bug : bool).
Context (call_h : @call_handler E S) (create_h : @create_handler E S).
Context `{Z3}.

Lemma alu_Next op (w : @world E S) u w' :
  is_Some (word_op op) ∨ is_Some (word_rel op) →
  instr_eval keccak256 panic_on_bug call_h create_h op w = Next u w' →
  ∃ l a b r, wstack w = l ++ [b; a] ∧ alu op a b = Some r ∧ wstack w' = l ++ [r].
Proof.
  intros Ho. destruct op; try (destruct Ho as [[? ?]|[? ?]]; discriminate); cbn [instr_eval alu]; clear Ho;
    first [intros (l & a & b & Hw & Hw')%binary_Next; eexists l, a, b, _; split; [exact Hw|split; [reflexivity|exact Hw']]
          |apply binary_opt_Next].
Qed.

(** The arms of [on_step] for them *)
Lemma on_step_binary jm c i op x :
  opcode (view i) = b2z op →
  (∃ o, word_op op = Some (o, x)) ∨ (∃ r, word_rel op = Some (r, x)) →
  concolic_on_step jm c i =
    (a ← stack_bv c i 0; b ← stack_bv c i 1; Some (sym_result 2 [Some (box_bv a b x)] c, [])).
Proof.
  intros Hop Ho. unfold concolic_on_step. rewrite Hop, z2b_b2z. unfold sym_binary.
  destruct op; try (destruct Ho as [[? ?]|[? ?]]; discriminate);
    (destruct Ho as [[o Ho]|[o Ho]]; try discriminate Ho; injection Ho as <- <-);
    destruct (stack_bv c i 0); try reflexivity; cbn [mbind option_bind]; destruct (stack_bv c i 1); reflexivity.
Qed.

Lemma fetch_view i op : fetch i = Some op → opcode (view i) = b2z op.
Proof.
  unfold fetch, padded, view. cbn [opcode]. intros Hf. apply lookup_app_Some in Hf as [->|[Hge Hf]]; [done|].
  rewrite lookup_ge_None_2 by done. by apply lookup_replicate in Hf as [-> _].
Qed.

(** One arm with two operands *)
Lemma binary_agrees jm c i i' op x l a b r :
  agrees c i → opcode (view i) = b2z op →
  (∃ o, word_op op = Some (o, x)) ∨ (∃ q, word_rel op = Some (q, x)) →
  it_stack i = l ++ [b; a] → it_stack i' = l ++ [r] → words_on_top c i 2 →
  (∀ ea eb, eval ea = Some (VBV 256 a) → eval eb = Some (VBV 256 b) → denotes (box_bv ea eb x) r) →
  ∃ c', concolic_on_step jm c i = Some (c', []) ∧ agrees c' i'.
Proof.
  intros Ha Hop Ho Ei Ei' Hw Hd.
  destruct (stack_bv_agrees c i 0 a Ha) as (ea & Ea & Da); [by rewrite Ei, reverse_app|].
  destruct (stack_bv_agrees c i 1 b Ha) as (eb & Eb & Db); [by rewrite Ei, reverse_app|].
  rewrite (on_step_binary jm c i op x Hop Ho), Ea, Eb. cbn [mbind option_bind]. eexists. split; [done|].
  eapply (agrees_result c i i' l [b; a]); [done|done|exact Ei'|]. apply entry_some, Hd.
  - apply (words_denote c i 2 0); [done|lia|done|done].
  - apply (words_denote c i 2 1); [done|lia|done|done].
Qed.
End step.
End agreement.

Section concolic_step.
Context {E S : Type} `{EnvReads E} (keccak256 : list byte → Z) (panic_on_bug : bool).
Context (call_h : @call_handler E S) (create_h : @create_handler E S).
Context `{Z3} (n : nat) (rho : valuation).
Abbreviation agrees := (agrees n rho).
Abbreviation denotes := (denotes n rho).

Lemma instr_step_Next i h s u w' op :
  fetch i = Some op → instr_step keccak256 panic_on_bug call_h create_h (i, h, s) = Next u w' →
  instr_eval keccak256 panic_on_bug call_h create_h op (set_ip (instruction_pointer i + 1) i, h, s) = Next u w'.
Proof.
  intros Hf. unfold instr_step, mbind, Instr_bind, get_interp, unchecked. simpl. by rewrite Hf.
Qed.

(** Two words whose result is described as a word or as a truth value *)
Lemma word_op_agrees jm c i i' op o l a b r :
  agrees c i → opcode (view i) = b2z op → word_op op = Some o → words_on_top n rho c i 2 →
  (divides op = true → b ≠ 0) → is_u256 a → is_u256 b →
  it_stack i = l ++ [b; a] → alu op a b = Some r → it_stack i' = l ++ [r] →
  ∃ c', concolic_on_step jm c i = Some (c', []) ∧ agrees c' i'.
Proof.
  intros Ha Hop Ho Hw Hd Hua Hub Ei Hr Ei'. destruct o as [o x].
  eapply (binary_agrees n rho jm c i i' op x l a b r); [done|done|left; by eexists|done|done|done|].
  intros ea eb Hea Heb. left. apply (alu_sem op o x a b r Ho Hua Hub Hd) in Hr.
  unfold box_bv. cbn [eval_expr]. rewrite Hea, Heb.
  destruct op; try discriminate Ho; injection Ho as <- <-; cbn [op_of mbind option_bind lift_op];
    rewrite decide_True by done; by rewrite Hr.
Qed.

Lemma word_rel_agrees jm c i i' op o l a b r :
  agrees c i → opcode (view i) = b2z op → word_rel op = Some o → words_on_top n rho c i 2 →
  is_u256 a → is_u256 b →
  it_stack i = l ++ [b; a] → alu op a b = Some r → it_stack i' = l ++ [r] →
  ∃ c', concolic_on_step jm c i = Some (c', []) ∧ agrees c' i'.
Proof.
  intros Ha Hop Ho Hw Hua Hub Ei Hr Ei'. destruct o as [o x].
  eapply (binary_agrees n rho jm c i i' op x l a b r); [done|done|right; by eexists|done|done|done|].
  intros ea eb Hea Heb. right. apply (alu_rel op o x a b r Ho Hua Hub) in Hr. eexists. split; [|exact Hr].
  unfold box_bv. cbn [eval_expr]. rewrite Hea, Heb.
  destruct op; try discriminate Ho; injection Ho as <- <-; cbn [rel_of mbind option_bind lift_rel lift_eq];
    rewrite decide_True by done; done.
Qed.

Lemma unary_agrees jm c i i' op f l a r :
  agrees c i → opcode (view i) = b2z op →
  concolic_on_step jm c i = (x ← (e ← stack_bv c i 0; Some (sym_result 1 [Some (f e)] c)); Some (x, [])) →
  words_on_top n rho c i 1 → it_stack i = l ++ [a] → it_stack i' = l ++ [r] →
  (∀ e, eval_expr (λ c, c) n rho e = Some (VBV 256 a) → denotes (f e) r) →
  ∃ c', concolic_on_step jm c i = Some (c', []) ∧ agrees c' i'.
Proof.
  intros Ha Hop Hs Hw Ei Ei' Hd.
  destruct (stack_bv_agrees n rho c i 0 a Ha) as (e & Ee & De); [by rewrite Ei, reverse_app|].
  rewrite Hs, Ee. cbn [mbind option_bind]. eexists. split; [done|].
  eapply (agrees_result n rho c i i' l [a]); [done|done|exact Ei'|]. apply entry_some, Hd.
  apply (words_denote n rho c i 1 0); [done|lia|done|done].
Qed.

Lemma push_agrees jm c i i' res v :
  agrees c i → concolic_on_step jm c i = Some (sym_result 0 [res] c, []) →
  it_stack i' = it_stack i ++ [v] → entry_agrees n rho res v →
  ∃ c', concolic_on_step jm c i = Some (c', []) ∧ agrees c' i'.
Proof.
  intros Ha Hs Ei' Hr. eexists. split; [exact Hs|].
  eapply (agrees_result n rho c i i' (it_stack i) []); [done|by rewrite app_nil_r|exact Ei'|].
  by constructor; [|constructor].
Qed.

Lemma drop_agrees jm c i i' l top :
  agrees c i → concolic_on_step jm c i = Some (sym_result (length top) [] c, []) →
  it_stack i = l ++ top → it_stack i' = l →
  ∃ c', concolic_on_step jm c i = Some (c', []) ∧ agrees c' i'.
Proof.
  intros Ha Hs Ei Ei'. eexists. split; [exact Hs|].
  eapply (agrees_result n rho c i i' l top []); [done|done|by rewrite app_nil_r|constructor].
Qed.

Lemma on_step_pushes jm c i op :
  pushes_value op = true → op ≠ x34 → opcode (view i) = b2z op →
  concolic_on_step jm c i = Some (sym_result 0 [None] c, []).
Proof.
  intros Hp Hne Hop. unfold concolic_on_step. rewrite Hop, z2b_b2z.
  destruct op; try discriminate Hp; done.
Qed.

Lemma on_step_dup jm c i op :
  0x80 ≤ b2z op ≤ 0x8f → opcode (view i) = b2z op →
  concolic_on_step jm c i =
    (e ← stack_bv c i (Z.to_nat (b2z op - 0x80)); Some (sym_result 0 [Some e] c, [])).
Proof.
  intros Hp Hop. unfold concolic_on_step. rewrite Hop, z2b_b2z.
  destruct op; cbv in Hp; try done; exfalso; destruct Hp; congruence.
Qed.

Lemma dup_Next op (w : @world E S) u w' :
  0x80 ≤ b2z op ≤ 0x8f → instr_eval keccak256 panic_on_bug call_h create_h op w = Next u w' →
  instruction_result w'.1.1 = Continue →
  ∃ v, reverse (wstack w) !! Z.to_nat (b2z op - 0x80) = Some v ∧ wstack w' = wstack w ++ [v].
Proof.
  intros Hp Hev Hc.
  assert (instr_dup (Z.to_nat (b2z op - 0x80 + 1)) w = Next u w') as Hd.
  { destruct op; cbv in Hp; try (exfalso; destruct Hp; congruence); exact Hev. }
  destruct w as [[i h] s]. unfold instr_dup, mbind, Instr_bind, get_interp, unchecked, wstack in *. simpl in *.
  replace (Z.to_nat (b2z op - 128 + 1)) with (Datatypes.S (Z.to_nat (b2z op - 128))) in Hd by lia.
  set (k := Z.to_nat (b2z op - 128)) in *.
  destruct (Nat.ltb_spec (length (it_stack i)) (Datatypes.S k)); [injection Hd as _ <-; discriminate Hc|].
  destruct (_ <? _)%nat; [injection Hd as _ <-; discriminate Hc|].
  destruct (it_stack i !! (length (it_stack i) - Datatypes.S k)%nat) as [v|] eqn:Ev; [|discriminate Hd].
  injection Hd as _ <-. exists v. split; [|done]. by rewrite reverse_lookup by lia.
Qed.

(** MSTORE and JUMP only take their operands off the stack. *)
Lemma mstore_Next (w w' : @world E S) u : instr_mstore w = Next u w' → ∃ a b, wstack w = wstack w' ++ [b; a].
Proof.
  unfold instr_mstore. intros ([a b] & w1 & E1%pop2_Next & E2)%bind_Next.
  apply bind_Next in E2 as (idx & w2 & ->%as_usize_Next & E2).
  apply bind_Next in E2 as (? & w3 & E2%resize_Next & E3%update_memory_Next).
  exists a, b. by rewrite E3, E2.
Qed.
Lemma jump_Next (w w' : @world E S) u : instr_jump w = Next u w' → ∃ a, wstack w = wstack w' ++ [a].
Proof. unfold instr_jump. intros (a & w1 & E1%pop1_Next & E2%goto_Next)%bind_Next. exists a. by rewrite E2. Qed.

(** C16. The concolic middleware follows the interpreter on the opcodes it describes.  Let
    the symbolic stack agree with the concrete one: same height, and every expression
    stands for the word beside it, as a bit vector or as a truth value.  If the next
    instruction is an arithmetic or bit operation on words (with a divisor that is not
    zero), a comparison, ISZERO, NOT, an instruction that pushes one value, CALLVALUE,
    DUP, MSTORE, JUMP or JUMPDEST, and the interpreter executes it and goes on, then
    [on_step] returns, finds no solution, and the stacks agree again. *)
Theorem concolic_step_agrees jm c i h s op u i' h' s' :
  agrees c i → Forall is_u256 (it_stack i) → fetch i = Some op → faithful n rho c i op →
  instr_step keccak256 panic_on_bug call_h create_h (i, h, s) = Next u (i', h', s') →
  instruction_result i' = Continue →
  ∃ c', concolic_on_step jm c i = Some (c', []) ∧ agrees c' i'.
Proof.
  intros Ha Hu Hf Hop Hst Hc. pose proof (fetch_view i op Hf) as Hv.
  pose proof (instr_step_Next i h s u (i', h', s') op Hf Hst) as Hev. clear Hst.
  assert (∀ l a b, it_stack i = l ++ [b; a] → is_u256 a ∧ is_u256 b) as Hwords.
  { intros l a b Ei. rewrite Ei, Forall_app, !Forall_cons in Hu. tauto. }
  destruct Hop as [op o Ho Hw Hd|op r Ho Hw|Hw|Hw|op Hp Hne|Hcv|op Hp| | |].
  - apply alu_Next in Hev as (l & a & b & r & Ei & Hr & Ei'); [|left; by eexists].
    destruct (Hwords l a b Ei). eapply (word_op_agrees jm c i i' op o l a b r); try done.
    intros Hdv ->. apply (Hd Hdv). change (it_stack i = l ++ [0; a]) in Ei. by rewrite Ei, reverse_app.
  - apply alu_Next in Hev as (l & a & b & v & Ei & Hr & Ei'); [|right; by eexists].
    destruct (Hwords l a b Ei). by eapply (word_rel_agrees jm c i i' op r l a b v).
  - cbn [instr_eval] in Hev. apply unary_Next in Hev as (l & a & Ei & Ei').
    eapply (unary_agrees jm c i i' x15 (λ e, expr_eq e (leaf (OpEVMU256 0))) l a); [done|done| |done|done|done|].
    { unfold concolic_on_step. by rewrite Hv, z2b_b2z. }
    intros e He. right. eexists. split; [|unfold op_iszero; reflexivity]. unfold expr_eq, box_bv, leaf. cbn [eval_expr].
    rewrite He. cbn [lift_eq lift_rel]. by rewrite decide_True.
  - cbn [instr_eval] in Hev. apply unary_Next in Hev as (l & a & Ei & Ei').
    eapply (unary_agrees jm c i i' x19 bvnot l a); [done|done| |done|done|done|].
    { unfold concolic_on_step. by rewrite Hv, z2b_b2z. }
    intros e He. left. unfold bvnot. cbn [eval_expr]. by rewrite He.
  - apply pushes_value_Next in Hev as (v & Ei'); [|done|done].
    eapply (push_agrees jm c i i' None v); [done|by eapply on_step_pushes|done|by intros e].
  - cbn [instr_eval] in Hev. apply push_interp_Next in Hev as (v & Ei' & ->).
    eapply push_agrees; [done| |exact Ei'|].
    { unfold concolic_on_step. by rewrite Hv, z2b_b2z. }
    intros e [= <-]. left. unfold new_callvalue, leaf. cbn [eval_expr]. by rewrite Hcv.
  - destruct (dup_Next op _ _ _ Hp Hev Hc) as (v & Hl & Ei').
    change (reverse (it_stack i) !! Z.to_nat (b2z op - 128) = Some v) in Hl.
    destruct (stack_bv_agrees n rho c i _ v Ha Hl) as (e & Ee & De).
    eapply (push_agrees jm c i i' (Some e) v); [done| |exact Ei'|by intros e' [= <-]].
    rewrite (on_step_dup jm c i op Hp Hv), Ee. done.
  - apply mstore_Next in Hev as (a & b & Ei).
    eapply (drop_agrees jm c i i' (it_stack i') [b; a]); [done| |exact Ei|done].
    unfold concolic_on_step. by rewrite Hv, z2b_b2z.
  - apply jump_Next in Hev as (a & Ei).
    eapply (drop_agrees jm c i i' (it_stack i') [a]); [done| |exact Ei|done].
    unfold concolic_on_step. by rewrite Hv, z2b_b2z.
  - cbn [instr_eval] in Hev. injection Hev as _ <- _ _.
    eapply (drop_agrees jm c i _ (it_stack i) []); [done| |by rewrite app_nil_r|done].
    unfold concolic_on_step. by rewrite Hv, z2b_b2z.
Qed.

(** Instructions that take operands off the stack, though their arm only pushes *)
Definition drift (op : byte) : option nat :=
  match op with x35 | x51 | x54 => Some 1%nat | x50 => Some 2%nat | x55 => Some 3%nat | _ => None end.

Lemma pop_push_length (w w1 w2 w' : @world E S) a v u :
  pop1 w = Next a w1 → wstack w2 = wstack w1 → push v w2 = Next u w' → length (wstack w') = length (wstack w).
Proof. intros E1%pop1_Next E2 E3%push_Next. rewrite E3, E2, E1, !length_app. done. Qed.

Lemma instr_pop_Next (w w' : @world E S) u :
  instr_pop w = Next u w' → instruction_result w'.1.1 = Continue → ∃ a, wstack w = wstack w' ++ [a].
Proof.
  destruct w as [[i h] s], w' as [[i' h'] s']. unfold instr_pop, mbind, Instr_bind, get_interp, update, wstack. simpl.
  destruct (it_stack i) as [|x l] eqn:El; intros [= _ <- _ _] Hc; [done|].
  exists (List.last (x :: l) 0). by apply app_removelast_last.
Qed.

Lemma check_staticcall_Next (w w' : @world E S) u : check_staticcall w = Next u w' → w' = w.
Proof.
  destruct w as [[i h] s]. unfold check_staticcall, mbind, Instr_bind, get_interp. simpl.
  destruct (is_static i); [done|]. by intros [= _ ->].
Qed.

Lemma instr_sstore_Next (w w' : @world E S) u :
  instr_sstore w = Next u w' → ∃ a b, wstack w = wstack w' ++ [b; a].
Proof.
  unfold instr_sstore. intros (? & w0 & ->%check_staticcall_Next & Hev)%bind_Next.
  apply bind_Next in Hev as ([a b] & w1 & ->%pop2_Next & Hev).
  apply bind_Next in Hev as (j & w2 & [= _ <-] & Hev). exists a, b.
  destruct w1 as [[i1 h1] s1]. by injection Hev as _ <-.
Qed.

(** The symbolic stack loses track of the concrete one: CALLDATALOAD, which is where
    input enters an expression, MLOAD, SLOAD, POP and SSTORE push an entry without taking
    their operands off.  From stacks that agree, the symbolic one is 1, 1, 1, 2 or 3
    entries too high after them, and the stacks no longer agree. *)
Theorem concolic_height_drifts jm c i h s op k u i' h' s' :
  agrees c i → fetch i = Some op → drift op = Some k →
  instr_step keccak256 panic_on_bug call_h create_h (i, h, s) = Next u (i', h', s') →
  instruction_result i' = Continue →
  ∃ c', concolic_on_step jm c i = Some (c', []) ∧
    length (symbolic_stack c') = (length (it_stack i') + k)%nat ∧ ¬ agrees c' i'.
Proof.
  intros Ha Hf Hk Hst Hc. pose proof (fetch_view i op Hf) as Hv.
  pose proof (instr_step_Next i h s u (i', h', s') op Hf Hst) as Hev. clear Hst.
  pose proof (Forall2_length _ _ _ Ha) as Hl.
  set (w := (set_ip (instruction_pointer i + 1) i, h, s)) in *.
  assert (length (it_stack i) + 1 = length (it_stack i') + k ∧ (0 < k)%nat ∧ it_stack i ≠ [])%nat as (Hlen & Hpos & Hne).
  { change (it_stack i) with (wstack w). change (it_stack i') with (wstack (i', h', s')).
    destruct op; try discriminate Hk; injection Hk as <-; cbn [instr_eval] in Hev.
    - apply bind_Next in Hev as (a & w1 & E1 & E2). apply bind_Next in E2 as (j & w2 & [= _ <-] & E2).
      pose proof (pop1_Next _ _ _ E1) as Ew. rewrite (pop_push_length _ _ _ _ _ _ _ E1 eq_refl E2), Ew.
      split; [lia|]. split; [lia|]. by destruct (wstack w1).
    - apply instr_pop_Next in Hev as (a & Ew); [|done].
      rewrite Ew, length_app. split; [simpl; lia|]. split; [lia|]. by destruct (wstack (i', h', s')).
    - unfold instr_mload in Hev. apply bind_Next in Hev as (a & w1 & E1 & E2).
      apply bind_Next in E2 as (idx & w2 & ->%as_usize_Next & E2). apply bind_Next in E2 as (? & w3 & E3%resize_Next & E2).
      apply bind_Next in E2 as (j & w4 & [= _ <-] & E2). apply bind_Next in E2 as (bs & w5 & E4 & E2).
      unfold unwrap in E4. destruct (memory_get_slice _ _ _); [|done]. injection E4 as <- <-.
      pose proof (pop1_Next _ _ _ E1) as Ew. rewrite (pop_push_length _ _ _ _ _ _ _ E1 E3 E2), Ew.
      split; [lia|]. split; [lia|]. by destruct (wstack w1).
    - unfold instr_sload in Hev. apply bind_Next in Hev as (a & w1 & E1 & E2).
      apply bind_Next in E2 as (j & w2 & [= _ <-] & E2). apply bind_Next in E2 as (g & w3 & [= _ <-] & E2).
      apply bind_Next in E2 as ([v b] & w4 & [= <- <- <-] & E2).
      pose proof (pop1_Next _ _ _ E1) as Ew. rewrite (pop_push_length _ _ _ _ _ _ _ E1 eq_refl E2), Ew.
      split; [lia|]. split; [lia|]. by destruct (wstack w1).
    - apply instr_sstore_Next in Hev as (a & b & Ew).
      rewrite Ew, length_app. split; [simpl; lia|]. split; [lia|]. by destruct (wstack (i', h', s')). }
  assert (∃ res, concolic_on_step jm c i = Some (sym_result 0 [res] c, [])) as [res Hs].
  { unfold concolic_on_step. rewrite Hv, z2b_b2z. destruct op; try discriminate Hk; try (by eexists).
    destruct (last (it_stack i)) eqn:El; [by eexists|]. by apply last_None in El. }
  exists (sym_result 0 [res] c). split; [done|].
  assert (length (symbolic_stack (sym_result 0 [res] c)) = length (it_stack i') + k)%nat as Hlen'.
  { cbn [sym_result set_symbolic_stack symbolic_stack]. unfold pops. rewrite length_app, length_take, Hl. simpl. lia. }
  split; [done|]. intros Hag. pose proof (Forall2_length _ _ _ Hag). lia.
Qed.
End concolic_step.

(** ** Examples *)

(** Terms as syntax, with a solver that only tries the valuation that is zero everywhere *)
Inductive bv_term :=
| TConst (s : string) (w : Z) | TVal (v w : Z) | TConcat (a b : bv_term)
| TOp (o : bvop) (a b : bv_term) | TNot (a : bv_term).
Inductive bool_term :=
| TRel (r : bvrel) (a b : bv_term) | TEqb (a b : bool_term) | TNegb (a : bool_term).

Fixpoint bv_term_den (rho : valuation) (t : bv_term) : Z * Z :=
  match t with
  | TConst s w => (w, var rho s w)
  | TVal v w => (w, word_w w v)
  | TConcat a b =>
      let a := bv_term_den rho a in let b := bv_term_den rho b in (a.1 + b.1, a.2 * 2 ^ b.1 + b.2)
  | TOp o a b => let a := bv_term_den rho a in (a.1, bvop_sem a.1 o a.2 (bv_term_den rho b).2)
  | TNot a => let a := bv_term_den rho a in (a.1, 2 ^ a.1 - 1 - a.2)
  end.
Fixpoint bool_term_den (rho : valuation) (t : bool_term) : bool :=
  match t with
  | TRel r a b => let a := bv_term_den rho a in bvrel_sem a.1 r a.2 (bv_term_den rho b).2
  | TEqb a b => eqb (bool_term_den rho a) (bool_term_den rho b)
  | TNegb a => negb (bool_term_den rho a)
  end.
Definition zero_valuation : valuation := λ _, 0.
Definition same_width (a b : bv_term) : bool :=
  (bv_term_den zero_valuation a).1 =? (bv_term_den zero_valuation b).1.

#[export] Instance toy_z3 : Z3 := {|
  BV := bv_term; ZBool := bool_term; Model := unit;
  bv_new_const := TConst; bv_from_u64 := TVal; bv_concat := TConcat;
  bv_apply o a b := if same_width a b then Some (TOp o a b) else None;
  bv_not := TNot;
  bv_rel r a b := if same_width a b then Some (TRel r a b) else None;
  zbool_eq := TEqb; zbool_not := TNegb;
  check l := if forallb (bool_term_den zero_valuation) l then Sat tt else Unknown;
  model_eval _ t := string_of_list_ascii (decimal 80 (bv_term_den zero_valuation t).2)
|}.

Lemma width_fixed rho rho' t : (bv_term_den rho t).1 = (bv_term_den rho' t).1.
Proof. induction t; simpl; congruence. Qed.

Lemma same_width_spec rho a b : same_width a b = true → (bv_term_den rho a).1 = (bv_term_den rho b).1.
Proof.
  unfold same_width. rewrite Z.eqb_eq. intros Hw.
  by rewrite (width_fixed rho zero_valuation a), (width_fixed rho zero_valuation b).
Qed.

#[export] Instance toy_z3_laws : Z3Laws.
Proof.
  refine {| bv_den := bv_term_den : valuation → BV → _; zbool_den := bool_term_den : valuation → ZBool → _;
    model_val := (λ _, zero_valuation) : Model → _; show_value v := string_of_list_ascii (decimal 80 v.2) |}; try done.
  - simpl. intros rho o a b t. destruct (same_width a b) eqn:Hw; [|done]. intros [= <-].
    split; [by apply same_width_spec|done].
  - simpl. intros rho o a b t. destruct (same_width a b) eqn:Hw; [|done]. intros [= <-].
    split; [by apply same_width_spec|done].
  - simpl. intros l m. destruct (forallb _ l) eqn:Hl; [|done]. intros _.
    rewrite forallb_forall in Hl. apply Forall_forall. intros t Ht. apply Hl. by apply list_elem_of_In.
  - simpl. intros l. by destruct (forallb _ l).
Defined.

(** The path [CALLVALUE = 0] of a call with two bytes of input *)
Definition free_call : ConcolicHost :=
  mkConcolicHost [] [] [expr_eq new_callvalue (leaf (OpEVMU256 0))] 2 9.

Lemma concolic_solve_sound_witness :
  concolic_solve free_call = Some (Some "00"%string) ∧
  ∃ rho, Forall (constraint_holds reverse_limbs 2 rho) (constraints free_call) ∧
    "00"%string = String.concat "" (map (λ i, show_value (8, var rho (input_name i) 8)) (seq 0 2)).
Proof.
  split; [vm_compute; reflexivity|].
  exact (concolic_solve_sound (H := toy_z3) free_call (Some "00"%string) ltac:(vm_compute; reflexivity)).
Defined.

Lemma solver_constants_reversed_witness :
  bv_den zero_valuation (bv_from_u256 1) = (256, 2 ^ 192) ∧ reverse_limbs 1 ≠ 1.
Proof.
  split; [reflexivity|]. destruct (solver_constants_reversed 1 zero_valuation) as (_ & _ & Hr); [by split|].
  apply Hr. by split.
Defined.

(** CALLVALUE, DUP1, ADD on a call that carries 21 *)
Definition doubler : Interpreter :=
  Interpreter_new (mkContract [] [x34; x80; x01] (mkCallContext 7 1 7 21 SchemeCall)).
Definition paid : valuation := λ s, if String.eqb s "callvalue" then 21 else 0.
Abbreviation toy_handlers f :=
  (f (λ _, 0) false (call revm_config (run_inspect revm_config (revm_eval (λ _, 0) false) 5))
     (create revm_config (run_inspect revm_config (revm_eval (λ _, 0) false) 5))).
(** The stack and the state of a machine that goes on *)
Definition after {A} (o : outcome_of (@world unit Z) A) : option (list EVMU256 * InstructionResult) :=
  match o with Next _ w => Some (it_stack w.1.1, instruction_result w.1.1) | _ => None end.
Definition doubler_ready : ConcolicHost :=
  mkConcolicHost [Some new_callvalue; Some new_callvalue] [] [] 0 9.
Definition doubler_at_add : Interpreter := set_ip 2 (set_stack [21; 21] doubler).

Lemma concolic_step_agrees_witness :
  ∃ c' i' h' s',
    toy_handlers (@instr_step unit Z _) (doubler_at_add, toy_host, 0) = Next tt (i', h', s') ∧
    it_stack i' = [42] ∧
    concolic_on_step [] doubler_ready doubler_at_add = Some (c', []) ∧ agrees 0 paid c' i'.
Proof.
  destruct (toy_handlers (@instr_step unit Z _) (doubler_at_add, toy_host, 0)) as [[] [[i' h'] s']| | |] eqn:Ew;
    [|vm_compute in Ew; discriminate Ew..].
  assert (it_stack i' = [42] ∧ instruction_result i' = Continue) as [Hi Hc].
  { apply (f_equal after) in Ew. assert (Some (it_stack i', instruction_result i') = Some ([42], Continue)) as [= -> ->]; [|done].
    etransitivity; [symmetry; exact Ew|vm_compute; reflexivity]. }
  destruct (toy_handlers (@concolic_step_agrees unit Z _) 0%nat paid [] doubler_ready doubler_at_add toy_host 0 x01 tt i' h' s')
    as (c' & Hs & Ha); [|by repeat (constructor; [by split|])| | |exact Ew|exact Hc|].
  - apply Forall2_cons; split; [|apply Forall2_cons; split; [|apply Forall2_nil; done]];
      intros e [= <-]; left; vm_compute; reflexivity.
  - reflexivity.
  - eapply faithful_op; [reflexivity| |done]. intros idx e b Hidx.
    assert (stack_bv doubler_ready doubler_at_add idx = Some new_callvalue) as ->.
    { destruct idx as [|[|idx]]; [reflexivity..|lia]. }
    intros [= <-]. cbn. discriminate.
  - by exists c', i', h', s'.
Defined.

(** CALLDATALOAD *)
Definition loader_at : Interpreter :=
  set_stack [0] (Interpreter_new (mkContract (to_be_bytes 5) [x35] (mkCallContext 7 1 7 0 SchemeCall))).

Lemma concolic_height_drifts_witness :
  ∃ c' i' h' s',
    toy_handlers (@instr_step unit Z _) (loader_at, toy_host, 0) = Next tt (i', h', s') ∧
    it_stack i' = [5] ∧
    concolic_on_step [] (mkConcolicHost [None] [] [] 0 9) loader_at = Some (c', []) ∧
    length (symbolic_stack c') = 2%nat ∧ ¬ agrees 0 paid c' i'.
Proof.
  destruct (toy_handlers (@instr_step unit Z _) (loader_at, toy_host, 0)) as [[] [[i' h'] s']| | |] eqn:Ew;
    [|vm_compute in Ew; discriminate Ew..].
  assert (it_stack i' = [5] ∧ instruction_result i' = Continue) as [Hi Hc].
  { apply (f_equal after) in Ew. assert (Some (it_stack i', instruction_result i') = Some ([5], Continue)) as [= -> ->]; [|done].
    etransitivity; [symmetry; exact Ew|vm_compute; reflexivity]. }
  destruct (toy_handlers (@concolic_height_drifts unit Z _) 0%nat paid [] (mkConcolicHost [None] [] [] 0 9) loader_at
    toy_host 0 x35 1 tt i' h' s') as (c' & Hs & Hl & Ha); [|done..|exact Ew|exact Hc|].
  - apply Forall2_cons; split; [by intros e|by apply Forall2_nil].
  - rewrite Hi in Hl. by exists c', i', h', s'.
Defined.
