(* ===== verification/Vm.v ===== *)
(** * The EVM executor ([src/src/evm/vm.rs])

    [EVMExecutor]: running a transaction, resuming an execution that was suspended at a
    control leak, deploying a contract, and static calls.  The interpreter is
    [HostCall.run_inspect]. *)
From S2P Require Import Prelude Types Expr Abi F64 Evm Host HostCall Tracer.
#[local] Open Scope Z_scope.

(** ** Scaling a float ([float_scale_to_u512] of [types.rs]) *)

(** [x as u64]: truncation that saturates; NaN is 0. *)
Definition f64_as_u64 (x : f64) : Z :=
  match x with
  | S754_finite false m e =>
      Z.min (2 ^ 64 - 1) (if 0 <=? e then Zpos m * 2 ^ e else Zpos m / 2 ^ (- e))
  | S754_infinity false => 2 ^ 64 - 1
  | _ => 0
  end.

Definition float_scale_to_u512 (v : f64) (decimals : nat) : EVMU512 :=
  f64_as_u64 (Nat.iter decimals (λ temp, f64_mul temp (f64_of_u64 10)) v).

(** ** Inputs and results *)

(** What the executor reads of an [EVMInput]; its access pattern is shared with the
    host, so the one of the host after the execution is also the one of the input. *)
Record VMInput (E : Type) := mkVMInput {
  in_state : EVMState;
  in_step : bool;
  in_caller : EVMAddress;
  in_contract : EVMAddress;
  in_data : option BoxedABI;
  in_direct_data : list byte;
  in_txn_value : option EVMU256;
  in_repeat : Z;
  in_env : E;
  in_access_pattern : AccessPattern
}.
Arguments in_state {E}. Arguments in_step {E}. Arguments in_caller {E}. Arguments in_contract {E}.
Arguments in_data {E}. Arguments in_direct_data {E}. Arguments in_txn_value {E}. Arguments in_repeat {E}.
Arguments in_env {E}. Arguments in_access_pattern {E}.

(** [EVMInput::to_bytes] *)
Definition to_bytes {E} (x : VMInput E) : option (list byte) :=
  match in_data x with Some d => boxed_get_bytes d | None => Some [] end.

(** [struct IntermediateExecutionResult] *)
Record IntermediateExecutionResult := mkIntermediate {
  ir_output : list byte;
  ir_new_state : EVMState;
  ir_pc : Z;
  ir_ret : InstructionResult;
  ir_stack : list EVMU256;
  ir_memory : list byte
}.

(** [struct StagedVMState] *)
Record StagedVMState := mkStaged {
  ss_state : EVMState;
  ss_stage : list Z;
  ss_initialized : bool;
  ss_trace : TxnTrace
}.
Definition new_with_state (s : EVMState) : StagedVMState := mkStaged s [] true TxnTrace_new.
Definition new_uninitialized : StagedVMState := mkStaged EVMState_new [] false TxnTrace_new.

(** [struct ExecutionResult] *)
Record ExecutionResult := mkExecutionResult {
  er_output : list byte;
  er_reverted : bool;
  er_new_state : StagedVMState;
  er_additional_info : option (list Z);
  er_distance : Z
}.

Section executor.
Context {E S : Type} (cfg : Config E S).
Context (run : Interpreter → VMHost E → S → option (InstructionResult * Interpreter * VMHost E * S)).
Implicit Types (h : VMHost E) (s : S).

(** The host at the start of an execution. *)
Definition reset_core (vm_state : EVMState) (ap : AccessPattern) (c : FuzzHost) : FuzzHost :=
  mkFuzzHost vm_state (next_slot c) (edge_hashmap c) (ins_hashmap c) false (host_pc c) ap
    (jmp_map c) (read_map c) (write_map c) (cmp_map c) false (branch_distance c) (ret_offset c) (ret_size c)
    (explored_ins c) (explored_edge c).

Definition reset_host (call_ctx : CallContext) (vm_state : EVMState) (input : VMInput E) h : VMHost E :=
  set_global_call_context (Some call_ctx)
    (set_call_count 0 (set_host_bug_hit false (set_host_env (in_env input)
      (set_core (reset_core vm_state (in_access_pattern input) (core h)) h)))).

(** The interpreter that continues a suspended execution with the returned [data]. *)
Definition resume_interp (p : PostExecutionCtx) (c data : list byte) (call_ctx : CallContext)
  : option Interpreter :=
  let m := memory_resize [] (Z.max (u64 (pe_output_offset p + pe_output_len p)) (Z.of_nat (length (pe_memory p)))) in
  m ← memory_set m 0 (pe_memory p);
  ret ← slice data 4 (Z.min (u64 (pe_output_len p + 4)) (Z.of_nat (length data)));
  m ← memory_set m (pe_output_offset p) ret;
  buffer ← slice_from data 4;
  Some (mkInterpreter (pe_pc p) Continue m (pe_stack p) buffer (0, 0) false (mkContract (pe_call_data p) c call_ctx)).

(** [interp.stack.data.clear(); interp.memory.data.clear();] and back to the start *)
Definition rewind (i : Interpreter) : Interpreter :=
  mkInterpreter 0 (instruction_result i) [] [] (return_data_buffer i) (return_range i) (is_static i) (contract i).

Definition clear_return (i : Interpreter) : Interpreter :=
  mkInterpreter (instruction_pointer i) (instruction_result i) (it_memory i) (it_stack i)
    (return_data_buffer i) (0, 0) (is_static i) (contract i).

(** The loop [for v in 0..repeats - 1], from the last result [r]. *)
Fixpoint repeat_loop (n : nat) (r : InstructionResult) (i : Interpreter) h s
  : option (InstructionResult * Interpreter * VMHost E * S) :=
  match n with
  | O => Some (r, i, h, s)
  | Datatypes.S n =>
      '(r, i, h, s) ← run i h s;
      let i := rewind i in
      if decide (r = Revert) then Some (r, clear_return i, h, s) else repeat_loop n r i h s
  end.

(** All runs of a transaction. *)
Definition run_repeats (repeats : Z) (i : Interpreter) h s
  : option (InstructionResult * Interpreter * VMHost E * S) :=
  '(r, i, h, s) ← repeat_loop (Z.to_nat (u64 (repeats - 1))) Stop i h s;
  if decide (r = Revert) then Some (r, i, h, s) else run i h s.

(** [execute_from_pc] *)
Definition execute_from_pc (call_ctx : CallContext) (vm_state : EVMState) (data : list byte)
    (input : VMInput E) (post_exec : option PostExecutionCtx) h s
  : option (IntermediateExecutionResult * VMHost E * S) :=
  let h := reset_host call_ctx vm_state input h in
  bytecode ← code h !! cc_code_address call_ctx;
  i ← match post_exec with
      | Some p => resume_interp p bytecode data call_ctx
      | None => Some (Interpreter_new (mkContract data bytecode call_ctx))
      end;
  let repeats := match post_exec with Some _ => 1 | None => in_repeat input end in
  '(r, i, h, s) ← run_repeats repeats i h s;
  output ← return_value i;
  let h := set_coverage_not_changed
             (if coverage_changed (core h) then 0 else wrap 32 (coverage_not_changed h + 1)) h in
  let new_state := add_owed (evmstate (core h))
                     (mul512 (cc_apparent_value call_ctx) (float_scale_to_u512 (f64_of_u64 1) 5)) in
  let h := set_middlewares (filter (λ ty, ty ≠ Concolic) (middlewares h)) h in
  Some (mkIntermediate output new_state (instruction_pointer i) r (it_stack i) (it_memory i), h, s).

(** [r.ret != Return && r.ret != Stop && r.ret != ControlLeak] *)
Definition is_reverted (r : InstructionResult) : bool :=
  negb (bool_decide (r = Return)) && negb (bool_decide (r = Stop)) && negb (bool_decide (r = ControlLeak)).

(** The context pushed at a control leak. *)
Definition suspend (r : IntermediateExecutionResult) (ctx : CallContext) h : PostExecutionCtx :=
  mkPostExec (ir_stack r) (ir_memory r) (ir_pc r) (ret_offset (core h)) (ret_size (core h)) []
    (cc_address ctx) (cc_caller ctx) (cc_code_address ctx) (cc_apparent_value ctx).

(** The end of [execute_abi]. *)
Definition finish (vm_state : EVMState) (r : IntermediateExecutionResult) h s
  : option (ExecutionResult * VMHost E * S) :=
  new_state ← (if decide (ir_ret r = ControlLeak) then
                 ctx ← global_call_context h;
                 Some (set_post_execution (ir_new_state r)
                         (post_execution (ir_new_state r) ++ [suspend r ctx h]))
               else Some (ir_new_state r));
  let new_state := set_bug_hit new_state (es_bug_hit vm_state || bug_hit h) in
  Some (mkExecutionResult (ir_output r) (is_reverted (ir_ret r)) (new_with_state new_state)
          (Some (if decide (ir_ret r = ControlLeak) then [u8z (call_count h)] else [255])) 0, h, s).

(** [execute_abi]; [execute] is the same in this build. *)
Definition execute_abi (input : VMInput E) h s : option (ExecutionResult * VMHost E * S) :=
  let vm_state := in_state input in
  data ← to_bytes input;
  let data := if decide (data = []) then in_direct_data input else data in
  let value := default 0 (in_txn_value input) in
  if in_step input then
    match last (post_execution vm_state) with
    | None => Some (mkExecutionResult [] false new_uninitialized None usize_max, h, s)
    | Some p =>
        let vm_state := set_post_execution vm_state (removelast (post_execution vm_state)) in
        let p := mkPostExec (pe_stack p ++ [1]) (pe_memory p) (pe_pc p) (pe_output_offset p) (pe_output_len p)
                   (pe_call_data p) (pe_address p) (pe_caller p) (pe_code_address p) (pe_apparent_value p) in
        let h := set_origin (pe_caller p) h in
        '(r, h, s) ← execute_from_pc (get_call_ctx p) vm_state data input (Some p) h s;
        finish vm_state r h s
    end
  else
    let h := set_origin (in_caller input) h in
    let ctx := mkCallContext (in_contract input) (in_caller input) (in_contract input) value SchemeCall in
    '(r, h, s) ← execute_from_pc ctx vm_state data input None h s;
    finish vm_state r h s.

(** [fast_call] *)
Definition fast_call (address : EVMAddress) (data : list byte) (vm_state : EVMState) (value : EVMU256)
    (from : EVMAddress) h s : option (IntermediateExecutionResult * VMHost E * S) :=
  let h := set_is_fast_call true h in
  c ← code h !! address;
  let i := Interpreter_new (mkContract data c (mkCallContext address from address value SchemeCall)) in
  let h := set_core (set_evmstate (core h) vm_state) h in
  '(ret, i, h, s) ← run i h s;
  let h := set_is_fast_call false h in
  output ← return_value i;
  Some (mkIntermediate output (evmstate (core h)) (instruction_pointer i) ret [] [], h, s).

(** The body of the [map] of [fast_static_call]. *)
Definition static_call_step (st : list (list byte) * VMHost E * S) (x : EVMAddress * list byte)
  : option (list (list byte) * VMHost E * S) :=
  let '(outs, h, s) := st in
  c ← code h !! x.1;
  let i := Interpreter_new (mkContract x.2 c (mkCallContext x.1 0 x.1 0 SchemeStaticCall)) in
  '(ret, i, h, s) ← run i h s;
  out ← (if decide (ret = Revert) then Some [] else return_value i);
  Some (outs ++ [out], h, s).

(** [fast_static_call] *)
Definition fast_static_call (data : list (EVMAddress * list byte)) (vm_state : EVMState) h s
  : option (list (list byte) * VMHost E * S) :=
  let h := set_core (set_evmstate (core h) vm_state) h in
  let h := set_call_count 0 (set_host_bug_hit false h) in
  foldM static_call_step ([], h, s) data.

(** [deploy]; [deployer] is the executor's, [dummy] is [S::default()] and [analyse] is
    [add_analysis_result_to_state]. *)
Definition deploy (deployer : EVMAddress) (dummy : S) (analyse : list byte → S → S)
    (c : list byte) (constructor_args : option (list byte)) (deployed_address : EVMAddress) h s
  : option (option EVMAddress * VMHost E * S) :=
  let ctx := mkCallContext deployed_address deployer deployed_address 0 SchemeCall in
  let middleware_status := middlewares_enabled h in
  let h := set_middlewares_enabled false h in
  let i := Interpreter_new (mkContract (default [] constructor_args) c ctx) in
  let h := set_middlewares_enabled middleware_status h in
  '(r, i, h, _) ← run i h dummy;
  if decide (r = Return) then
    v ← return_value i;
    let s := analyse v s in
    '(h, s) ← set_code cfg deployed_address v h s;
    Some (Some deployed_address, h, s)
  else Some (None, h, s).
End executor.
