(* ===== verification/VmProps.v ===== *)
(** * Properties of the executor: suspending, resuming and repeating executions, and leaks *)
From S2P Require Import Prelude Types Expr Abi F64 Evm Host HostProps HostCall HostCallProps Vm.
#[local] Open Scope Z_scope.

(** ** Memory *)

Lemma memory_resize_nil n : memory_resize [] n = replicate (Z.to_nat n) x00.
Proof. unfold memory_resize. rewrite take_nil. simpl. by rewrite Nat.sub_0_r. Qed.

(** Copying into a buffer: the copied bytes inside, the old ones outside. *)
Lemma copy_at_lookup {A} (buf src res : list A) off j :
  copy_at buf off src = Some res →
  res !! j = if decide (off ≤ j < off + length src)%nat then src !! (j - off)%nat else buf !! j.
Proof.
  unfold copy_at. case_decide as Hlen; [|done]. intros [= <-].
  destruct (decide (j < off)%nat) as [Hj|Hj].
  { rewrite decide_False by lia. rewrite lookup_app_l by (rewrite length_take; lia). by apply lookup_take_lt. }
  rewrite lookup_app_r by (rewrite length_take; lia). rewrite length_take, Nat.min_l by lia.
  destruct (decide (j < off + length src)%nat) as [Hj2|Hj2].
  - rewrite decide_True by lia. by rewrite lookup_app_l by lia.
  - rewrite decide_False by lia. rewrite lookup_app_r by lia. rewrite lookup_drop. f_equal. lia.
Qed.

Lemma memory_set_spec m off v :
  0 ≤ off → off + Z.of_nat (length v) ≤ Z.of_nat (length m) →
  ∃ m', memory_set m off v = Some m' ∧ length m' = length m ∧
    ∀ j, m' !! j = if decide (Z.to_nat off ≤ j < Z.to_nat off + length v)%nat
                   then v !! (j - Z.to_nat off)%nat else m !! j.
Proof.
  intros Ho Hl. unfold memory_set. case_decide as Hv.
  { exists m. subst v. split; [done|]. split; [done|]. intros j. rewrite decide_False; [done|]. simpl. lia. }
  rewrite decide_True by done. destruct (copy_at m (Z.to_nat off) v) as [m'|] eqn:Ec.
  - exists m'. split; [done|]. split; [by eapply copy_at_length|]. intros j. by apply copy_at_lookup.
  - unfold copy_at in Ec. case_decide; [done|]. lia.
Qed.

(** The memory of a resumed frame: the returned bytes at the output region, the saved
    memory elsewhere. *)
Lemma resume_interp_spec p c data ctx :
  (4 ≤ length data)%nat → 0 ≤ pe_output_offset p → 0 ≤ pe_output_len p →
  pe_output_offset p + pe_output_len p + 4 < 2 ^ 64 → Z.of_nat (length (pe_memory p)) < 2 ^ 64 →
  let n := Nat.min (Z.to_nat (pe_output_len p)) (length data - 4) in
  let off := Z.to_nat (pe_output_offset p) in
  ∃ m, resume_interp p c data ctx =
      Some (mkInterpreter (pe_pc p) Continue m (pe_stack p) (drop 4 data) (0, 0) false
              (mkContract (pe_call_data p) c ctx)) ∧
    (∀ j, (j < n)%nat → m !! (off + j)%nat = data !! (4 + j)%nat) ∧
    (∀ j, (j < length (pe_memory p))%nat → ¬ (off ≤ j < off + n)%nat → m !! j = pe_memory p !! j).
Proof.
  intros Hd Ho Hl H64 Hm n off. unfold resume_interp. rewrite memory_resize_nil.
  assert (u64 (pe_output_offset p + pe_output_len p) = pe_output_offset p + pe_output_len p) as ->
    by (unfold u64; apply wrap_small; lia).
  assert (u64 (pe_output_len p + 4) = pe_output_len p + 4) as -> by (unfold u64; apply wrap_small; lia).
  set (size := Z.to_nat _).
  destruct (memory_set_spec (replicate size x00) 0 (pe_memory p)) as (m1 & -> & Hl1 & Hm1);
    [lia|rewrite length_replicate; lia|]. rewrite length_replicate in Hl1. rewrite obind_Some.
  assert (slice data 4 (Z.min (pe_output_len p + 4) (Z.of_nat (length data))) = Some (take n (drop 4 data))) as ->.
  { unfold slice. rewrite decide_True by lia. f_equal. f_equal. lia. }
  rewrite obind_Some.
  assert (length (take n (drop 4 data)) = n) as Hn by (rewrite length_take, length_drop; lia).
  destruct (memory_set_spec m1 (pe_output_offset p) (take n (drop 4 data))) as (m2 & -> & Hl2 & Hm2);
    [lia|rewrite Hn, Hl1; lia|]. rewrite obind_Some. unfold slice_from. rewrite decide_True by lia.
  rewrite obind_Some. exists m2. split; [done|]. rewrite Hn in Hm2. fold off in Hm2. split.
  - intros j Hj. rewrite Hm2, decide_True by lia. replace (off + j - off)%nat with j by lia.
    rewrite lookup_take_lt by done. by rewrite lookup_drop.
  - intros j Hj Hout. rewrite Hm2, decide_False by done. rewrite Hm1.
    rewrite decide_True by lia. f_equal. lia.
Qed.

(** ** Repeats *)

Lemma rewind_idemp i : rewind (rewind i) = rewind i.
Proof. done. Qed.

Section props.
Context {E S : Type} (cfg : Config E S) `{!MiddlewareLaws cfg}.
Context (eval : @call_handler E S → @create_handler E S → Interpreter → VMHost E → S →
                option (Interpreter * VMHost E * S)) `{!EvalLaws eval}.
Context (fuel : nat).
Notation run := (run_inspect cfg eval fuel).
Implicit Types (h : VMHost E) (s : S).

Lemma repeat_loop_finished n r i h s :
  r ≠ Continue → r ≠ Revert → instruction_result i = r → rewind i = i →
  repeat_loop run n r i h s = Some (r, i, h, s).
Proof.
  intros Hr Hv Hi Hw. induction n as [|n IH]; cbn [repeat_loop]; [done|].
  rewrite run_inspect_finished by congruence. rewrite obind_Some, Hi, Hw.
  by rewrite decide_False.
Qed.

Lemma run_repeats_one i h s : run_repeats run 1 i h s = run i h s.
Proof. done. Qed.

(** All the repetitions after the first do nothing but forget the frame. *)
Lemma run_repeats_many n i h s :
  2 ≤ n < 2 ^ 64 →
  run_repeats run n i h s =
  '(r, i, h, s) ← run i h s;
  Some (r, if decide (r = Revert) then clear_return (rewind i) else rewind i, h, s).
Proof.
  intros Hn. unfold run_repeats. assert (u64 (n - 1) = n - 1) as -> by (unfold u64; apply wrap_small; lia).
  destruct (Z.to_nat (n - 1)) as [|k] eqn:Ek; [lia|]. cbn [repeat_loop].
  destruct (run i h s) as [[[[r i1] h1] s1]|] eqn:Er; [|done]. rewrite !obind_Some.
  pose proof (run_inspect_result _ _ _ _ _ _ _ _ _ _ Er) as [Hr Hi].
  case_decide as Hv.
  - rewrite obind_Some. by rewrite decide_True.
  - rewrite repeat_loop_finished by done. rewrite obind_Some, decide_False by done.
    rewrite run_inspect_finished by (cbn; congruence). cbn [rewind instruction_result]. by rewrite Hi.
Qed.

Lemma return_value_rewind i :
  return_value (rewind i) =
  if (return_range i).1 =? usize_max then Some [] else slice [] (return_range i).1 (return_range i).2.
Proof. done. Qed.

(** A repeated transaction is executed once: the interpreter is rewound between the
    repetitions but its result is not reset, so every repetition after the first stops
    at once.  The result code and the host are those of a single run, but the frame is
    lost (program counter 0, empty stack and memory), so a control leak is suspended
    without its frame; and when the single run returned data, reading it panics. *)
Theorem repeat_executes_once ctx vm_state data input h s c r i1 h1 s1 :
  2 ≤ in_repeat input < 2 ^ 64 → code h !! cc_code_address ctx = Some c →
  run (Interpreter_new (mkContract data c ctx)) (reset_host ctx vm_state input h) s = Some (r, i1, h1, s1) →
  let res := execute_from_pc run ctx vm_state data input None h s in
  (r = Revert ∨ return_range i1 = (0, 0) →
     ∃ x h2, res = Some (x, h2, s1) ∧ ir_ret x = r ∧ core h2 = core h1 ∧
       ir_pc x = 0 ∧ ir_stack x = [] ∧ ir_memory x = [] ∧ ir_output x = []) ∧
  (r ≠ Revert → (return_range i1).1 < (return_range i1).2 → (return_range i1).1 ≠ usize_max → res = None).
Proof.
  intros Hn Hc Hr res. unfold res, execute_from_pc.
  change (code (reset_host ctx vm_state input h)) with (code h). rewrite Hc, !obind_Some.
  rewrite run_repeats_many by done. rewrite Hr, !obind_Some. split.
  - intros Hx. set (i2 := if decide (r = Revert) then _ else _).
    assert (return_value i2 = Some []) as ->.
    { unfold i2. case_decide; [done|]. destruct Hx as [Hx|Hx]; [done|]. rewrite return_value_rewind, Hx. done. }
    assert (it_stack i2 = [] ∧ it_memory i2 = [] ∧ instruction_pointer i2 = 0) as (-> & -> & ->)
      by (unfold i2; by case_decide).
    rewrite obind_Some. by eexists _, _.
  - intros Hv Hlt Hmax. rewrite decide_False by done. rewrite return_value_rewind.
    rewrite (proj2 (Z.eqb_neq _ _) Hmax). unfold slice. rewrite decide_False; [done|]. simpl. lia.
Qed.
(** ** Suspending and resuming *)

(** The data of an input: its ABI encoding, or the direct data when that is empty. *)
Definition input_data (input : VMInput E) : option (list byte) :=
  data ← to_bytes input; Some (if decide (data = []) then in_direct_data input else data).

(** One run of [execute_from_pc], from the interpreter it builds. *)
Lemma execute_from_pc_run ctx vm_state data input post h s c i r i1 h1 s1 out :
  code h !! cc_code_address ctx = Some c →
  match post with
  | Some p => resume_interp p c data ctx
  | None => Some (Interpreter_new (mkContract data c ctx))
  end = Some i →
  match post with Some _ => 1 | None => in_repeat input end = 1 →
  run i (reset_host ctx vm_state input h) s = Some (r, i1, h1, s1) → return_value i1 = Some out →
  ∃ x h2, execute_from_pc run ctx vm_state data input post h s = Some (x, h2, s1) ∧
    ir_ret x = r ∧ ir_pc x = instruction_pointer i1 ∧ ir_stack x = it_stack i1 ∧ ir_memory x = it_memory i1 ∧
    ir_output x = out ∧ post_execution (ir_new_state x) = post_execution vm_state ∧
    core h2 = core h1 ∧ global_call_context h2 = Some ctx ∧ bug_hit h2 = bug_hit h1.
Proof.
  intros Hc Hi Hrep Hr Hout. unfold execute_from_pc.
  change (code (reset_host ctx vm_state input h)) with (code h). rewrite Hc, obind_Some, Hi, obind_Some, Hrep.
  rewrite run_repeats_one, Hr, obind_Some, Hout, obind_Some.
  apply (run_inspect_extends cfg eval) in Hr as [Hctx Hpost _ _].
  eexists _, _. split; [reflexivity|]. cbn in *. by rewrite Hpost, Hctx.
Qed.

(** The end of an execution: what becomes of the suspended frames. *)
Lemma finish_spec vm_state x h s ctx :
  global_call_context h = Some ctx →
  ∃ res, finish vm_state x h s = Some (res, h, s) ∧
    er_output res = ir_output x ∧ er_reverted res = is_reverted (ir_ret x) ∧
    ss_initialized (er_new_state res) = true ∧
    post_execution (ss_state (er_new_state res)) =
      post_execution (ir_new_state x) ++ (if decide (ir_ret x = ControlLeak) then [suspend x ctx h] else []).
Proof.
  intros Hctx. unfold finish. rewrite Hctx. case_decide.
  - rewrite !obind_Some. eexists. split; [reflexivity|]. done.
  - rewrite !obind_Some. eexists. split; [reflexivity|]. cbn. by rewrite app_nil_r.
Qed.

(** The frame suspended by a leak in interpreter [i] and host [h], under context [ctx]. *)
Definition frame (i : Interpreter) (h : VMHost E) (ctx : CallContext) : PostExecutionCtx :=
  mkPostExec (it_stack i) (it_memory i) (instruction_pointer i) (ret_offset (core h)) (ret_size (core h)) []
    (cc_address ctx) (cc_caller ctx) (cc_code_address ctx) (cc_apparent_value ctx).

(** C13. A transaction and its suspended frame: when the run of a (not repeated) transaction
    ends with result [r], the execution succeeds, is reported as reverted exactly when
    [r] is neither a return nor a stop nor a control leak, and its new state keeps all
    suspended frames of the old one; a control leak, and nothing else, adds one frame,
    which has the stack, memory and program counter of the interpreter, the output region
    of the leaking call and the call context of the transaction, however deeply the
    leaking call was nested. *)
Theorem leak_suspends_frame input h s data c r i1 h1 s1 out :
  in_step input = false → in_repeat input = 1 → input_data input = Some data →
  code h !! in_contract input = Some c →
  let ctx := mkCallContext (in_contract input) (in_caller input) (in_contract input)
               (default 0 (in_txn_value input)) SchemeCall in
  run (Interpreter_new (mkContract data c ctx))
      (reset_host ctx (in_state input) input (set_origin (in_caller input) h)) s = Some (r, i1, h1, s1) →
  return_value i1 = Some out →
  ∃ res h2, execute_abi run input h s = Some (res, h2, s1) ∧
    er_output res = out ∧ core h2 = core h1 ∧
    (er_reverted res = false ↔ r = Return ∨ r = Stop ∨ r = ControlLeak) ∧
    post_execution (ss_state (er_new_state res)) =
      post_execution (in_state input) ++ (if decide (r = ControlLeak) then [frame i1 h1 ctx] else []).
Proof.
  intros Hs Hrep Hd Hc ctx Hr Hout. unfold input_data in Hd. apply bind_Some in Hd as (d & Ed & [= <-]).
  unfold execute_abi. rewrite Ed, obind_Some, Hs. fold ctx. set (data := if decide (d = []) then _ else _) in *.
  destruct (execute_from_pc_run ctx (in_state input) data input None (set_origin (in_caller input) h) s c
    (Interpreter_new (mkContract data c ctx)) r i1 h1 s1 out Hc eq_refl Hrep Hr Hout)
    as (x & h2 & E1 & Hret & Hpc & Hst & Hmem & Ho & Hpost & Hcore & Hctx & _).
  rewrite E1, obind_Some. destruct (finish_spec (in_state input) x h2 s1 ctx Hctx)
    as (res & E2 & Ro & Rr & _ & Rp). rewrite E2. exists res, h2.
  split; [done|]. split; [congruence|]. split; [done|]. split.
  - rewrite Rr, Hret. unfold is_reverted. repeat case_bool_decide; naive_solver.
  - rewrite Rp, Hpost, Hret. f_equal. destruct (decide (r = ControlLeak)); [|done]. unfold suspend, frame.
    by rewrite Hst, Hmem, Hpc, Hcore.
Qed.

(** C14. Resuming a suspended frame: a step input pops the last suspended frame and runs it
    from its program counter, on its stack with the success flag of the call pushed, in
    its call context, with the input's data (less the selector) as return data and
    copied into the output region of its memory, which is otherwise the saved one; the
    other frames stay suspended below, and a new leak pushes a new frame of the same
    context. *)
Theorem resume_continues_frame input h s data c p rest :
  in_step input = true → input_data input = Some data → post_execution (in_state input) = rest ++ [p] →
  code h !! pe_code_address p = Some c →
  (4 ≤ length data)%nat → 0 ≤ pe_output_offset p → 0 ≤ pe_output_len p →
  pe_output_offset p + pe_output_len p + 4 < 2 ^ 64 → Z.of_nat (length (pe_memory p)) < 2 ^ 64 →
  let n := Nat.min (Z.to_nat (pe_output_len p)) (length data - 4) in
  let off := Z.to_nat (pe_output_offset p) in
  let h0 := reset_host (get_call_ctx p) (set_post_execution (in_state input) rest) input
              (set_origin (pe_caller p) h) in
  ∃ m, (∀ j, (j < n)%nat → m !! (off + j)%nat = data !! (4 + j)%nat) ∧
    (∀ j, (j < length (pe_memory p))%nat → ¬ (off ≤ j < off + n)%nat → m !! j = pe_memory p !! j) ∧
    ∀ r i1 h1 s1 out,
      run (mkInterpreter (pe_pc p) Continue m (pe_stack p ++ [1]) (drop 4 data) (0, 0) false
             (mkContract (pe_call_data p) c (get_call_ctx p))) h0 s = Some (r, i1, h1, s1) →
      return_value i1 = Some out →
      ∃ res h2, execute_abi run input h s = Some (res, h2, s1) ∧ er_output res = out ∧ core h2 = core h1 ∧
        post_execution (ss_state (er_new_state res)) =
          rest ++ (if decide (r = ControlLeak) then [frame i1 h1 (get_call_ctx p)] else []).
Proof.
  intros Hs Hd Hp Hc Hlen Ho Hl H64 Hmem n off h0.
  unfold input_data in Hd. apply bind_Some in Hd as (d & Ed & [= <-]).
  set (data := if decide (d = []) then _ else _) in *.
  set (p1 := mkPostExec (pe_stack p ++ [1]) (pe_memory p) (pe_pc p) (pe_output_offset p) (pe_output_len p)
               (pe_call_data p) (pe_address p) (pe_caller p) (pe_code_address p) (pe_apparent_value p)).
  destruct (resume_interp_spec p1 c data (get_call_ctx p) Hlen Ho Hl H64 Hmem) as (m & Ei & Hin & Hrest).
  exists m. split; [exact Hin|]. split; [exact Hrest|]. intros r i1 h1 s1 out Hr Hout.
  unfold execute_abi. rewrite Ed, obind_Some, Hs, Hp, last_snoc, removelast_last. fold data p1.
  destruct (execute_from_pc_run (get_call_ctx p) (set_post_execution (in_state input) rest) data input (Some p1)
    (set_origin (pe_caller p) h) s c _ r i1 h1 s1 out Hc Ei eq_refl Hr Hout)
    as (x & h2 & E1 & Hret & Hpc & Hst & Hm & Hox & Hpost & Hcore & Hctx & _).
  change (get_call_ctx p1) with (get_call_ctx p). change (pe_caller p1) with (pe_caller p).
  rewrite E1, obind_Some.
  destruct (finish_spec (set_post_execution (in_state input) rest) x h2 s1 (get_call_ctx p) Hctx)
    as (res & E2 & Ro & _ & _ & Rp). rewrite E2. exists res, h2.
  split; [done|]. split; [congruence|]. split; [done|]. rewrite Rp, Hpost, Hret. cbn [set_post_execution post_execution].
  f_equal. destruct (decide (r = ControlLeak)); [|done]. unfold suspend, frame. by rewrite Hst, Hm, Hpc, Hcore.
Qed.
End props.

(** ** Control leaks are permanent *)

Section permanent.
Context {E S : Type} (cfg : Config E S) `{!MiddlewareLaws cfg}.
Context (eval : @call_handler E S → @create_handler E S → Interpreter → VMHost E → S →
                option (Interpreter * VMHost E * S)) `{!EvalLaws eval}.
Implicit Types (h : VMHost E) (s : S).

(** The targets called from a program counter; no execution forgets one. *)
Definition targets h (pc : Z) : gset Z := default ∅ (pc_to_addresses h !! pc).
Definition keeps_targets h h' : Prop := ∀ pc, targets h pc ⊆ targets h' pc.
#[local] Instance keeps_targets_preorder : PreOrder keeps_targets.
Proof. split; [by intros h pc a|]. intros h1 h2 h3 H1 H2 pc a Ha. by apply H2, H1. Qed.

Lemma keeps_targets_refl h : keeps_targets h h.
Proof. reflexivity. Qed.
#[local] Hint Resolve keeps_targets_refl : core.
Lemma keeps_targets_eq h h' : pc_to_addresses h' = pc_to_addresses h → keeps_targets h h'.
Proof. intros Er pc. unfold targets. by rewrite Er. Qed.
Lemma keeps_targets_extends h h' : extends h h' → keeps_targets h h'.
Proof. intros [_ _ _ Ht] pc a. apply Ht. Qed.

Section keeps.
Context (run : Interpreter → VMHost E → S → option (InstructionResult * Interpreter * VMHost E * S)).
Context (run_keeps : ∀ i h s r i' h' s', run i h s = Some (r, i', h', s') → keeps_targets h h').

Lemma repeat_loop_targets n : ∀ r i h s r' i' h' s', repeat_loop run n r i h s = Some (r', i', h', s') → keeps_targets h h'.
Proof using run_keeps.
  induction n as [|n IH]; intros r i h s r' i' h' s'; cbn [repeat_loop]; [by intros [= _ _ <- _]|].
  intros ([[[r1 i1] h1] s1] & E1%run_keeps & E2)%bind_Some. case_decide; [by injection E2 as _ _ <- _|].
  apply IH in E2. by etransitivity.
Qed.

Lemma execute_from_pc_targets ctx vm data input post h s r h' s' :
  execute_from_pc run ctx vm data input post h s = Some (r, h', s') → keeps_targets h h'.
Proof using run_keeps.
  unfold execute_from_pc. intros (c & _ & Er)%bind_Some. apply bind_Some in Er as (i & _ & Er).
  apply bind_Some in Er as ([[[r1 i1] h1] s1] & E1 & Er). apply bind_Some in Er as (out & _ & [= _ <- _]).
  assert (keeps_targets (reset_host ctx vm input h) h1) as Hk; [|intros pc; by apply (Hk pc)].
  unfold run_repeats in E1. apply bind_Some in E1 as ([[[r2 i2] h2] s2] & E2%repeat_loop_targets & E3).
  case_decide; [by injection E3 as _ _ <- _|]. apply run_keeps in E3. by etransitivity.
Qed.

Lemma execute_abi_targets input h s r h' s' : execute_abi run input h s = Some (r, h', s') → keeps_targets h h'.
Proof using run_keeps.
  assert (∀ vm x h0 s0 r0 h1 s1, finish vm x h0 s0 = Some (r0, h1, s1) → h1 = h0) as Hfin.
  { intros vm x h0 s0 r0 h1 s1. unfold finish. by intros (n & _ & [= _ -> _])%bind_Some. }
  unfold execute_abi. intros (d & _ & Er)%bind_Some. destruct (in_step input).
  - destruct (last _) as [p|]; [|by injection Er as _ <- _]. apply bind_Some in Er as ([[x h1] s1] & E1%execute_from_pc_targets & ->%Hfin). exact E1.
  - apply bind_Some in Er as ([[x h1] s1] & E1%execute_from_pc_targets & ->%Hfin). exact E1.
Qed.

Lemma fast_call_targets a data vm v from h s r h' s' : fast_call run a data vm v from h s = Some (r, h', s') → keeps_targets h h'.
Proof using run_keeps.
  unfold fast_call. intros (c & _ & Er)%bind_Some. apply bind_Some in Er as ([[[r1 i1] h1] s1] & E1%run_keeps & Er).
  apply bind_Some in Er as (out & _ & [= _ <- _]). exact E1.
Qed.

Lemma fast_static_call_targets data vm h s outs h' s' : fast_static_call run data vm h s = Some (outs, h', s') → keeps_targets h h'.
Proof using run_keeps.
  unfold fast_static_call. set (h0 := set_call_count _ _). assert (keeps_targets h h0) as H0 by (by apply keeps_targets_eq).
  generalize (@nil (list byte)) as outs0. intros outs0 Er. etransitivity; [exact H0|]. clear H0. clearbody h0.
  revert outs0 h0 s Er. induction data as [|x data IH]; intros outs0 h0 s; cbn [foldM]; [by intros [= _ <- _]|].
  intros ([[outs1 h1] s1] & E1 & E2%IH)%bind_Some. etransitivity; [|exact E2]. unfold static_call_step in E1.
  apply bind_Some in E1 as (c & _ & E1). apply bind_Some in E1 as ([[[r1 i1] h2] s2] & E1%run_keeps & Er).
  by apply bind_Some in Er as (out & _ & [= _ <- _]).
Qed.

Lemma deploy_targets deployer dummy analyse c args a h s r h' s' :
  deploy cfg run deployer dummy analyse c args a h s = Some (r, h', s') → keeps_targets h h'.
Proof using All.
  unfold deploy. intros ([[[r1 i1] h1] s1] & E1%run_keeps & Er)%bind_Some. etransitivity; [exact E1|].
  case_decide; [|by injection Er as _ <- _]. apply bind_Some in Er as (v & _ & Er). apply bind_Some in Er as ([h2 s2] & E2 & [= _ <- _]).
  by eapply keeps_targets_extends, set_code_extends.
Qed.
End keeps.

(** What happens to the host of a campaign: executions and nested calls, transactions on
    whatever VM state and in whatever call context, the calls of oracles and producers,
    deployments; and the fuzzer resets or replaces everything else between them. *)
Inductive host_step_of : VMHost E → VMHost E → Prop :=
| ho_run fuel i h s r i' h' s' : run_inspect cfg eval fuel i h s = Some (r, i', h', s') → host_step_of h h'
| ho_call fuel x h s r h' s' : call cfg (run_inspect cfg eval fuel) x h s = Some (r, h', s') → host_step_of h h'
| ho_create fuel x h s r h' s' : create cfg (run_inspect cfg eval fuel) x h s = Some (r, h', s') → host_step_of h h'
| ho_execute fuel input h s r h' s' : execute_abi (run_inspect cfg eval fuel) input h s = Some (r, h', s') → host_step_of h h'
| ho_fast fuel a data vm v from h s r h' s' :
    fast_call (run_inspect cfg eval fuel) a data vm v from h s = Some (r, h', s') → host_step_of h h'
| ho_static fuel data vm h s outs h' s' :
    fast_static_call (run_inspect cfg eval fuel) data vm h s = Some (outs, h', s') → host_step_of h h'
| ho_deploy fuel deployer dummy analyse c args a h s r h' s' :
    deploy cfg (run_inspect cfg eval fuel) deployer dummy analyse c args a h s = Some (r, h', s') → host_step_of h h'
| ho_reset h h' : pc_to_addresses h' = pc_to_addresses h → host_step_of h h'.

Lemma host_step_of_keeps h h' : host_step_of h h' → keeps_targets h h'.
Proof.
  assert (∀ n i h0 s r i' h1 s', run_inspect cfg eval n i h0 s = Some (r, i', h1, s') → extends h0 h1) as Hrun.
  { intros n i h0 s r i' h1 s' Er. by eapply run_inspect_extends. }
  assert (∀ n i h0 s r i' h1 s', run_inspect cfg eval n i h0 s = Some (r, i', h1, s') → keeps_targets h0 h1) as Hkeeps.
  { intros n i h0 s r i' h1 s' Er. by eapply keeps_targets_extends, Hrun. }
  intros Hs. destruct Hs as [n i h s r i' h' s' Er|n x h s r h' s' Er|n x h s r h' s' Er|n i h s r h' s' Er|n a d vm v f h s r h' s' Er|
    n d vm h s o h' s' Er|n dep dum an c args a h s r h' s' Er|h h' Er].
  - by eapply Hkeeps.
  - eapply keeps_targets_extends, call_extends, Er; [exact _|apply Hrun].
  - eapply keeps_targets_extends, create_extends, Er; [exact _|apply Hrun].
  - eapply execute_abi_targets, Er. apply Hkeeps.
  - eapply fast_call_targets, Er. apply Hkeeps.
  - eapply fast_static_call_targets, Er. apply Hkeeps.
  - eapply deploy_targets, Er. apply Hkeeps.
  - by apply keeps_targets_eq.
Qed.

Lemma host_life_keeps h h' : rtc host_step_of h h' → keeps_targets h h'.
Proof. induction 1 as [|h h1 h' Hs%host_step_of_keeps _ IH]; [done|by etransitivity]. Qed.

(** C20. Control leaks are detected and permanent: the call that reaches a third distinct
    target from one program counter returns [ControlLeak] without running any code.  And
    so does every later call from that program counter that gets to the check, to any
    contract, in this transaction or a later one, on any VM state and in any call context:
    nothing the executor does, however often, makes the host forget the targets. *)
Theorem third_target_leaks run x h s :
  reaches_leak_check cfg x h →
  let seen := {[cl_contract x]} ∪ default ∅ (pc_to_addresses h !! host_pc (core h)) in
  (CONTROL_LEAK_THRESHOLD < size seen)%nat →
  ∃ h', call cfg run x h s = Some (mkCallResult ControlLeak [], h', s) ∧
    ∀ x2 h2 s2, rtc host_step_of h' h2 → host_pc (core h2) = host_pc (core h) → reaches_leak_check cfg x2 h2 →
      ∃ h3, call cfg run x2 h2 s2 = Some (mkCallResult ControlLeak [], h3, s2).
Proof.
  intros Hc seen Hs. destruct (call_leaks cfg run x h s Hc Hs) as (h' & E1 & Ht).
  exists h'. split; [exact E1|]. intros x2 h2 s2 He%host_life_keeps Hpc Hc2.
  destruct (call_leaks cfg run x2 h2 s2 Hc2) as (h3 & E3 & _); [|by exists h3].
  eapply Nat.lt_le_trans; [exact Hs|]. apply subseteq_size. intros a Ha. apply elem_of_union_r.
  rewrite Hpc. apply (He (host_pc (core h))). unfold targets. rewrite Ht, lookup_insert_eq. exact Ha.
Qed.
End permanent.

(** ** Deployment *)

(** The middlewares are switched off and on again before the constructor runs, so it runs
    in the very host it was given, middlewares included. *)
Lemma deploy_runs_middlewares {E S} (cfg : Config E S) run deployer dummy analyse c args a (h : VMHost E) (s : S) :
  deploy cfg run deployer dummy analyse c args a h s =
  '(r, i, h', _) ← run (Interpreter_new (mkContract (default [] args) c (mkCallContext a deployer a 0 SchemeCall)))
                      h dummy;
  if decide (r = Return) then
    v ← return_value i;
    '(h', s) ← set_code cfg a v h' (analyse v s);
    Some (Some a, h', s)
  else Some (None, h', s).
Proof.
  unfold deploy. replace (set_middlewares_enabled (middlewares_enabled h) (set_middlewares_enabled false h)) with h;
    [done|by destruct h].
Qed.

(** ** Examples *)

(** A transaction of [9] to the contract [8], which calls [9] back. *)
Definition toy_input (repeats : Z) : VMInput unit :=
  mkVMInput _ EVMState_new false 9 8 None [x00; x00; x00; x00] None repeats tt AccessPattern_new.
Definition toy_ctx : CallContext := mkCallContext 8 9 8 0 SchemeCall.

Lemma toy_run repeats :
  ∃ i1 h1 s1, run_inspect toy_config toy_eval 20
      (Interpreter_new (mkContract [x00; x00; x00; x00] toy_code_8 toy_ctx))
      (reset_host toy_ctx EVMState_new (toy_input repeats) (set_origin 9 toy_host)) 0 =
      Some (ControlLeak, i1, h1, s1) ∧
    instruction_pointer i1 = 15 ∧ return_range i1 = (0, 0).
Proof.
  set (res := run_inspect _ _ _ _ _ _).
  assert (option_map (λ x, (x.1.1.1, instruction_pointer x.1.1.2, return_range x.1.1.2)) res =
          Some (ControlLeak, 15, (0, 0))) as Hr by (vm_compute; reflexivity).
  destruct res as [[[[r i1] h1] s1]|]; [|done]. cbn in Hr. injection Hr as -> Hip Hrr.
  by exists i1, h1, s1.
Qed.

Lemma leak_suspends_frame_witness :
  ∃ res h2 s2 p, execute_abi (run_inspect toy_config toy_eval 20) (toy_input 1) toy_host 0 = Some (res, h2, s2) ∧
    er_reverted res = false ∧ post_execution (ss_state (er_new_state res)) = [p] ∧ pe_pc p = 15.
Proof.
  destruct (toy_run 1) as (i1 & h1 & s1 & Hr & Hip & Hrr).
  destruct (leak_suspends_frame toy_config toy_eval 20 (toy_input 1) toy_host 0 [x00; x00; x00; x00] toy_code_8
    ControlLeak i1 h1 s1 [] eq_refl eq_refl eq_refl eq_refl Hr) as (res & h2 & E1 & _ & _ & Hrev & Hpost).
  { unfold return_value. rewrite Hrr. unfold slice. simpl. rewrite decide_True by lia. reflexivity. }
  rewrite decide_True in Hpost by reflexivity.
  exists res, h2, s1, (frame i1 h1 toy_ctx). split; [exact E1|]. split.
  - apply Hrev. right. right. reflexivity.
  - split; [exact Hpost|exact Hip].
Defined.

Lemma repeat_executes_once_witness :
  ∃ x h2 s2, execute_from_pc (run_inspect toy_config toy_eval 20) toy_ctx EVMState_new [x00; x00; x00; x00]
      (toy_input 37) None (set_origin 9 toy_host) 0 = Some (x, h2, s2) ∧
    ir_ret x = ControlLeak ∧ ir_pc x = 0 ∧ ir_stack x = [].
Proof.
  destruct (toy_run 37) as (i1 & h1 & s1 & Hr & Hip & Hrr).
  destruct (repeat_executes_once toy_config toy_eval 20 toy_ctx EVMState_new [x00; x00; x00; x00]
    (toy_input 37) (set_origin 9 toy_host) 0 toy_code_8 ControlLeak i1 h1 s1) as [Hok _].
  - simpl. lia.
  - reflexivity.
  - exact Hr.
  - destruct (Hok (or_intror Hrr)) as (x & h2 & E1 & Hret & _ & Hpc & Hst & _).
    exists x, h2, s1. split; [exact E1|]. split; [exact Hret|]. split; [exact Hpc|exact Hst].
Defined.

(** The same contract suspended after its call, with one word on the stack. *)
Definition toy_frame : PostExecutionCtx := mkPostExec [3] [x01; x02; x03] 15 1 8 [] 8 9 8 0.
Definition toy_resume : VMInput unit :=
  mkVMInput _ (set_post_execution EVMState_new [toy_frame]) true 9 8 None [x00; x00; x00; x00; xaa] None 1 tt
    AccessPattern_new.

Lemma resume_continues_frame_witness :
  let h0 := reset_host (get_call_ctx toy_frame) (set_post_execution (in_state toy_resume) []) toy_resume
              (set_origin 9 toy_host) in
  ∃ m, m !! 1%nat = Some xaa ∧ m !! 0%nat = Some x01 ∧
    ∀ r i1 h1 s1 out,
      run_inspect toy_config toy_eval 20 (mkInterpreter 15 Continue m [3; 1] [xaa] (0, 0) false
        (mkContract [] toy_code_8 (get_call_ctx toy_frame))) h0 0 = Some (r, i1, h1, s1) →
      return_value i1 = Some out →
      ∃ res h2, execute_abi (run_inspect toy_config toy_eval 20) toy_resume toy_host 0 = Some (res, h2, s1) ∧
        er_output res = out ∧ core h2 = core h1 ∧
        post_execution (ss_state (er_new_state res)) =
          [] ++ (if decide (r = ControlLeak) then [frame i1 h1 (get_call_ctx toy_frame)] else []).
Proof.
  destruct (resume_continues_frame toy_config toy_eval 20 toy_resume toy_host 0 [x00; x00; x00; x00; xaa] toy_code_8
    toy_frame [] eq_refl eq_refl eq_refl eq_refl) as (m & Hin & Hout & Hrun);
    [simpl; lia|simpl; lia|simpl; lia|simpl; lia|simpl; lia|].
  exists m. split; [exact (Hin 0%nat ltac:(simpl; lia))|]. split; [|exact Hrun].
  apply (Hout 0%nat); simpl; lia.
Defined.

(** A third target; then a transaction on another VM state calls a fourth contract, in
    another call context. *)
Lemma third_target_leaks_witness :
  ∃ h', call toy_config (run_inspect toy_config toy_eval 20) toy_call toy_call_host 0 =
      Some (mkCallResult ControlLeak [], h', 0) ∧
    ∃ h3, call toy_config (run_inspect toy_config toy_eval 20)
        (mkCallInputs 99 [] (mkCallContext 99 8 99 0 SchemeCall)) (set_global_call_context None (set_origin 5 h')) 0 =
      Some (mkCallResult ControlLeak [], h3, 0).
Proof.
  destruct (third_target_leaks toy_config toy_eval (run_inspect toy_config toy_eval 20) toy_call toy_call_host 0 toy_call_reaches)
    as (h' & E & Hlater); [vm_compute; lia|].
  exists h'. split; [exact E|]. assert (h' = match call toy_config (run_inspect toy_config toy_eval 20) toy_call toy_call_host 0 with
    Some (_, h, _) => h | None => toy_call_host end) as Eh by (by rewrite E). apply Hlater.
  - apply rtc_once, ho_reset. reflexivity.
  - rewrite Eh. vm_compute. reflexivity.
  - rewrite Eh. split; [vm_compute; reflexivity|]. split; [vm_compute; reflexivity|]. split; [vm_compute; discriminate|].
    split; [vm_compute; discriminate|]. split; [|vm_compute; reflexivity]. intros l Hl. vm_compute in Hl. discriminate Hl.
Defined.
