(* ===== verification/VmState.v ===== *)
(** * What an execution does to the state of the fuzzer

    An execution hands the state of the fuzzer to the middlewares and draws addresses from
    it, and touches it in no other way: what these keep, every execution keeps. *)
From S2P Require Import Prelude Types Expr Abi F64 Evm Host HostCall HostCallProps Tracer Vm.
#[local] Open Scope Z_scope.

(** What a loop keeps *)
Lemma foldM_keeps {A B C} (Q : C → C → Prop) `{!PreOrder Q} (g : B → C) (f : B → A → option B) l b b' :
  (∀ a b b', f b a = Some b' → Q (g b) (g b')) → foldM f b l = Some b' → Q (g b) (g b').
Proof.
  intros Hf. revert b. induction l as [|a l IH]; intros b; cbn [foldM]; [by intros [= ->]|].
  intros (b1 & E1%Hf & E2%IH)%bind_Some. by etransitivity.
Qed.

(** The middlewares of a host *)
Definition registered {E S} (cfg : Config E S) (m : Middleware E S) : Prop :=
  flashloan_middleware cfg = Some m ∨ ∃ ty, m = middleware_of cfg ty.

Class StateLaws {E S} (cfg : Config E S) (P : S → S → Prop) : Prop := {
  kp_step m i h s i' h' s' : registered cfg m → mw_on_step m i h s = Some (i', h', s') → P s s';
  kp_insert m c a h s c' h' s' : registered cfg m → mw_on_insert m c a h s = Some (c', h', s') → P s s';
  kp_random s : P s (random_address cfg s).2
}.

Section state.
Context {E S : Type} (cfg : Config E S) (P : S → S → Prop) `{!PreOrder P} `{!StateLaws cfg P}.
Implicit Types (h : VMHost E) (s : S).

(** ** The steps of the host *)

Lemma on_insert_state a ty st st' : on_insert_step st a (middleware_of cfg ty) = Some st' → P st.2 st'.2.
Proof. destruct st as [[c h] s], st' as [[c' h'] s']. apply kp_insert. right. by exists ty. Qed.

Lemma set_code_keeps a c h s h' s' : set_code cfg a c h s = Some (h', s') → P s s'.
Proof.
  unfold set_code. intros ([[c1 h1] s1] & E1 & E2)%bind_Some.
  assert (P s s1) as H1. 2: { destruct (code h1 !! a); [done|]. by injection E2 as _ <-. }
  destruct (middlewares_enabled h); [|by injection E1 as _ _ ->]. apply bind_Some in E1 as (st & E0 & E1).
  transitivity st.2.
  - destruct (flashloan_middleware cfg) as [m|] eqn:Em; [|by injection E0 as <-].
    destruct st as [[c0 h0] s0]. eapply kp_insert; [by left|exact E0].
  - apply (foldM_keeps P snd) in E1; [done|]. intros ty. apply on_insert_state.
Qed.

Lemma run_middlewares_keeps i h s i' h' s' : run_middlewares cfg i h s = Some (i', h', s') → P s s'.
Proof.
  unfold run_middlewares. intros ([[i1 h1] s1] & E1 & Er)%bind_Some. apply bind_Some in Er as ([[i2 h2] s2] & E2 & Er).
  apply bind_Some in Er as ([h3 s3] & E3 & [= _ _ <-]).
  assert (P s s1) as H1.
  { destruct (flashloan_middleware cfg) as [m|] eqn:Em; [|by injection E1 as _ _ <-]. eapply kp_step; [by left|exact E1]. }
  assert (P s1 s2) as H2.
  { apply (foldM_keeps P snd) in E2; [done|].
    intros ty [[i0 h0] s0] [[i0' h0'] s0']. apply kp_step. right. by exists ty. }
  transitivity s1; [done|]. transitivity s2; [done|].
  apply (foldM_keeps P snd) in E3; [done|].
  intros [a c] [h0 s0] [h0' s0']. apply set_code_keeps.
Qed.

Lemma host_step_keeps i h s i' h' s' : host_step cfg i h s = Some (i', h', s') → P s s'.
Proof.
  unfold host_step. intros ([[i1 h1] s1] & E1 & Er)%bind_Some. apply bind_Some in Er as (c & _ & [= _ _ <-]).
  destruct (middlewares_enabled h); [by apply run_middlewares_keeps in E1|by injection E1 as _ _ <-].
Qed.

(** ** Calls *)

Section handlers.
Context (run : Interpreter → VMHost E → S → option (InstructionResult * Interpreter * VMHost E * S)).
Context (run_keeps : ∀ i h s r i' h' s', run i h s = Some (r, i', h', s') → P s s').

Lemma create_keeps x h s r h' s' : create cfg run x h s = Some (r, h', s') → P s s'.
Proof using All.
  unfold create. pose proof (kp_random (cfg := cfg) (P := P) s) as Hr. destruct (random_address cfg s) as [a s0]. cbn [snd] in Hr.
  intros ([[[ret i] h1] s1] & E1%run_keeps & E2)%bind_Some. transitivity s0; [done|]. transitivity s1; [done|]. case_decide.
  - apply bind_Some in E2 as (v & _ & E2). by apply bind_Some in E2 as ([h2 s2] & E2%set_code_keeps & [= _ _ <-]).
  - by injection E2 as _ _ <-.
Qed.

Lemma run_code_keeps bytes c ctx old h s r h' s' : run_code run bytes c ctx old h s = Some (r, h', s') → P s s'.
Proof using run_keeps.
  unfold run_code. intros ([[[ret i] h1] s1] & E1%run_keeps & E2)%bind_Some. by apply bind_Some in E2 as (v & _ & [= _ _ <-]).
Qed.

Lemma dispatch_keeps x hash bytes h s r h' s' : dispatch cfg run x hash bytes h s = Some (r, h', s') → P s s'.
Proof using All.
  unfold dispatch. cbv zeta.
  assert (∀ h1, match code h1 !! cc_code_address (cl_context x) with
    | Some c => run_code run bytes c (cl_context x) (global_call_context h) h1 s
    | None => if decide (hash = replicate 4 x00)
              then Some (mkCallResult Continue [], set_global_call_context (global_call_context h) h1, s)
              else Some (mkCallResult Revert [], set_global_call_context (global_call_context h) h1, s)
    end = Some (r, h', s') → P s s') as Haddr.
  { intros h1. destruct (code h1 !! _); [by apply run_code_keeps|]. case_decide; by intros [= _ _ <-]. }
  destruct (_ !! hash) as [loc|]; [|apply Haddr]. destruct (active_match_ext_call cfg && _); [|apply Haddr].
  destruct (elements loc) as [|a [|]]; try done. intros (c & _ & E2)%bind_Some. by apply run_code_keeps in E2.
Qed.

Lemma call_keeps x h s r h' s' : call cfg run x h s = Some (r, h', s') → P s s'.
Proof using All.
  unfold call. destruct (_ <=? _); [by intros [= _ _ <-]|]. destruct (latent_result _); [by intros [= _ _ <-]|].
  destruct (_ =? _). { by intros (h3 & _ & [= _ _ <-])%bind_Some. }
  intros ([bytes h3] & _ & E2)%bind_Some. destruct (host_pc _ =? 0); [done|]. cbv zeta in E2. destruct (_ <? _)%nat.
  - by apply bind_Some in E2 as (h5 & _ & [= _ _ <-]).
  - by apply dispatch_keeps in E2.
Qed.
End handlers.

(** ** The loop and the executor *)

Context (eval : @call_handler E S → @create_handler E S → Interpreter → VMHost E → S →
                option (Interpreter * VMHost E * S)) `{!EvalLaws eval}.

Lemma run_inspect_keeps fuel : ∀ i h s r i' h' s', run_inspect cfg eval fuel i h s = Some (r, i', h', s') → P s s'.
Proof using All.
  induction fuel as [|fuel IH]; intros i h s r i' h' s'; cbn [run_inspect].
  { case_decide; [done|]. by intros [= _ _ _ <-]. }
  case_decide; [|by intros [= _ _ _ <-]]. intros ([[i1 h1] s1] & E1%host_step_keeps & E2)%bind_Some.
  apply bind_Some in E2 as ([[i2 h2] s2] & E2 & E3%IH). transitivity s1; [done|]. transitivity s2; [|done].
  change (P (h1, s1).2 (h2, s2).2). eapply (eval_frame (λ a b, P a.2 b.2)); [|..|exact E2]; cbn [snd].
  - split; [intros x; reflexivity|intros x y z; apply transitivity].
  - done.
  - done.
  - intros x h0 s0 r0 h0' s0'. by apply call_keeps.
  - intros x h0 s0 r0 h0' s0'. by apply create_keeps.
Qed.

Section executor.
Context (run : Interpreter → VMHost E → S → option (InstructionResult * Interpreter * VMHost E * S)).
Context (run_keeps : ∀ i h s r i' h' s', run i h s = Some (r, i', h', s') → P s s').

Lemma run_repeats_keeps n i h s r i' h' s' : run_repeats run n i h s = Some (r, i', h', s') → P s s'.
Proof using PreOrder0 run_keeps.
  unfold run_repeats. intros ([[[r1 i1] h1] s1] & E1 & E2)%bind_Some. transitivity s1.
  - clear E2. set (k := Z.to_nat _) in E1. clearbody k. revert E1. generalize Stop as q. revert i h s.
    induction k as [|k IH]; intros i h s q; cbn [repeat_loop]; [by intros [= _ _ _ <-]|].
    intros ([[[r2 i2] h2] s2] & E3%run_keeps & E4)%bind_Some. case_decide; [by injection E4 as _ _ _ <-|].
    apply IH in E4. by transitivity s2.
  - case_decide; [by injection E2 as _ _ _ <-|]. by apply run_keeps in E2.
Qed.

Lemma execute_abi_keeps (input : VMInput E) h s r h' s' : execute_abi run input h s = Some (r, h', s') → P s s'.
Proof using PreOrder0 run_keeps.
  assert (∀ ctx vm data post h0 res h1 s1, execute_from_pc run ctx vm data input post h0 s = Some (res, h1, s1) → P s s1) as Hpc.
  { intros ctx vm data post h0 res h1 s1. unfold execute_from_pc. intros (c & _ & Er)%bind_Some.
    apply bind_Some in Er as (i & _ & Er). apply bind_Some in Er as ([[[r1 i1] h2] s2] & E1%run_repeats_keeps & Er).
    by apply bind_Some in Er as (out & _ & [= _ _ <-]). }
  assert (∀ vm x h1 s1, finish vm x h1 s1 = Some (r, h', s') → s' = s1) as Hfin.
  { intros vm x h1 s1. unfold finish. by intros (new & _ & [= _ _ <-])%bind_Some. }
  unfold execute_abi. intros (data & _ & Er)%bind_Some. destruct (in_step input).
  - destruct (last _); [|by injection Er as _ _ <-]. apply bind_Some in Er as ([[x h1] s1] & E1%Hpc & ->%Hfin). done.
  - apply bind_Some in Er as ([[x h1] s1] & E1%Hpc & ->%Hfin). done.
Qed.
End executor.
End state.
