(* ===== verification/FlashloanMw.v ===== *)
(** * The flash-loan middleware ([src/src/evm/onchain/flashloan.rs], without
      [flashloan_v2])

    Before every call instruction it inspects the call: ether and tokens that go to the
    caller are earned, tokens taken from the caller are owed, and the call may be made to
    succeed without being executed. *)
From S2P Require Import Prelude Types F64 Evm Host HostProps HostCall HostCallProps Vm.
#[local] Open Scope Z_scope.

(** ** Token values *)

(** [10u64.pow(n)], which wraps *)
Definition pow10 (n : Z) : Z := u64 (10 ^ n).

(** [calculate_usd_value]; the division panics when the wrapped power is 0. *)
Definition calculate_usd_value (price : Z * Z) (amount : EVMU256) : option EVMU512 :=
  let '(eth_price, decimals) := price in
  amount ← (if 18 <? decimals then
              let d := pow10 (decimals - 18) in
              if decide (d = 0) then None else Some (amount / d)
            else Some (mul512 amount (pow10 (18 - decimals))));
  Some (mul512 amount eth_price).

(** ** The step *)

(** The selectors. *)
Definition sel_balance_of : list byte := [x70; xa0; x82; x31].
Definition sel_approve : list byte := [x09; x5e; xa7; xb3].
Definition sel_transfer : list byte := [xa9; x05; x9c; xbb].
Definition sel_transfer_from : list byte := [x23; xb8; x72; xdd].

(** [make_transfer_call_success!] and [make_balance_call_success!] *)
Definition transfer_success : CallMiddlewareReturn := ReturnSuccess (replicate 31 x00 ++ [x01]).
Definition balance_success : CallMiddlewareReturn := ReturnSuccess (replicate 32 xff).

(** An [EVMU512] multiple of a word by [float_scale_to_u512(1.0, 5)] *)
Definition scaled (v : EVMU256) : EVMU512 := mul512 v (float_scale_to_u512 (f64_of_u64 1) 5).

Section flashloan.
Context {E S : Type}.
Context (use_contract_value : bool) (fetch_token_price : EVMAddress → S → option (Z * Z) * S).
Implicit Types (h : VMHost E) (s : S).

Definition host_earned (amount : EVMU512) h : VMHost E :=
  set_core (set_evmstate (core h) (add_earned (evmstate (core h)) amount)) h.
Definition host_owed (amount : EVMU512) h : VMHost E :=
  set_core (set_evmstate (core h) (add_owed (evmstate (core h)) amount)) h.
Definition push_action (a : CallMiddlewareReturn) h : VMHost E :=
  set_middlewares_latent_call_actions (middlewares_latent_call_actions h ++ [a]) h.

(** [handle_contract_contract_transfer!] and [handle_dst_is_attacker!] *)
Definition contract_transfer h : VMHost E :=
  if use_contract_value then h else push_action transfer_success h.
Definition dst_is_attacker (amount : EVMU512) h : VMHost E :=
  if use_contract_value then host_earned amount h else push_action transfer_success (host_earned amount h).

(** [calculate_usd_value_from_addr]; the outer option is the panic. *)
Definition usd_value_from_addr (addr : EVMAddress) (amount : EVMU256) s : option (option EVMU512 * S) :=
  let '(price, s) := fetch_token_price addr s in
  match price with
  | Some p => v ← calculate_usd_value p amount; Some (Some v, s)
  | None => Some (None, s)
  end.

(** The call data of a transfer: [EVMAddress::from_slice(&data[i..j])] and the amount. *)
Definition address_at (data : list byte) (i j : Z) : option EVMAddress :=
  b ← slice data i j; address_from_slice b.
Definition amount_at (data : list byte) (i j : Z) : option EVMU256 :=
  b ← slice data i j; try_from_be_slice b.

(** The arm of [transfer]. *)
Definition on_transfer (caller call_target : EVMAddress) (data : list byte) h s : option (VMHost E * S) :=
  dst ← address_at data 16 36;
  amount ← amount_at data 36 68;
  '(value, s) ← usd_value_from_addr call_target amount s;
  match value with
  | Some v => if dst =? caller then Some (dst_is_attacker v h, s) else Some (contract_transfer h, s)
  | None => Some (contract_transfer h, s)
  end.

(** The arm of [transferFrom]. *)
Definition on_transfer_from (caller call_target : EVMAddress) (data : list byte) h s : option (VMHost E * S) :=
  src ← address_at data 16 36;
  dst ← address_at data 48 68;
  amount ← amount_at data 68 100;
  '(value, s) ← usd_value_from_addr call_target amount s;
  let rest := if negb (src =? caller) && negb (dst =? caller) then contract_transfer h else h in
  match value with
  | Some v =>
      if src =? caller then Some (host_owed v (push_action transfer_success h), s)
      else if dst =? caller then Some (dst_is_attacker v h, s)
      else Some (rest, s)
  | None => Some (rest, s)
  end.

(** [on_step] *)
Definition flashloan_on_step (i : Interpreter) h s : option (Interpreter * VMHost E * S) :=
  let op := opcode (view i) in
  let peek n := stack (view i) !! n in
  let caller := cc_caller (ct_context (contract i)) in
  if is_op (view i) [0xf1; 0xf2; 0xf4; 0xfa] then
    let offset_of_arg_offset := if is_op (view i) [0xf1; 0xf2] then 3%nat else 2%nat in
    value_transfer ← (if is_op (view i) [0xf1; 0xf2] then peek 2%nat else Some 0);
    target ← peek 1%nat;
    call_target ← convert_u256_to_h160 target;
    let h := if (0 <? value_transfer) && (call_target =? caller) then host_earned (scaled value_transfer) h else h in
    offset ← peek offset_of_arg_offset;
    size ← peek (offset_of_arg_offset + 1)%nat;
    if size <? 4 then Some (i, h, s)
    else
      data ← slice (it_memory i) (as_u64 offset) (as_u64 offset + as_u64 size);
      sel ← slice data 0 4;
      '(h, s) ← (if decide (sel = sel_balance_of ∨ sel = sel_approve) then
                   Some (if use_contract_value then h else push_action balance_success h, s)
                 else if decide (sel = sel_transfer) then on_transfer caller call_target data h s
                 else if decide (sel = sel_transfer_from) then on_transfer_from caller call_target data h s
                 else Some (h, s));
      Some (i, h, s)
  else Some (i, h, s).

(** The middleware; [on_insert] does nothing. *)
Definition flashloan_mw : Middleware E S :=
  mkMiddleware _ _ flashloan_on_step (λ c a h s, Some (c, h, s)).

(** ** The middleware keeps what an execution keeps *)

Lemma earned_extends v h : extends h (host_earned v h).
Proof. by apply extends_eq. Qed.
Lemma owed_extends v h : extends h (host_owed v h).
Proof. by apply extends_eq. Qed.
Lemma push_action_extends a h : extends h (push_action a h).
Proof. by apply extends_eq. Qed.
Lemma contract_transfer_extends h : extends h (contract_transfer h).
Proof. unfold contract_transfer. destruct use_contract_value; [reflexivity|apply push_action_extends]. Qed.
Lemma dst_is_attacker_extends v h : extends h (dst_is_attacker v h).
Proof.
  unfold dst_is_attacker. destruct use_contract_value; [apply earned_extends|].
  etransitivity; [apply earned_extends|apply push_action_extends].
Qed.

Lemma on_transfer_extends caller t data h s h' s' :
  on_transfer caller t data h s = Some (h', s') → extends h h'.
Proof.
  unfold on_transfer. intros (dst & _ & E1)%bind_Some. apply bind_Some in E1 as (amount & _ & E1).
  apply bind_Some in E1 as ([v s1] & _ & E1). destruct v as [v|].
  - destruct (dst =? caller); injection E1 as <- _; [apply dst_is_attacker_extends|apply contract_transfer_extends].
  - injection E1 as <- _. apply contract_transfer_extends.
Qed.

Lemma on_transfer_from_extends caller t data h s h' s' :
  on_transfer_from caller t data h s = Some (h', s') → extends h h'.
Proof.
  unfold on_transfer_from. intros (src & _ & E1)%bind_Some. apply bind_Some in E1 as (dst & _ & E1).
  apply bind_Some in E1 as (amount & _ & E1). apply bind_Some in E1 as ([v s1] & _ & E1).
  assert (extends h (if negb (src =? caller) && negb (dst =? caller) then contract_transfer h else h)) as Hrest.
  { destruct (negb _ && negb _); [apply contract_transfer_extends|reflexivity]. }
  destruct v as [v|]; [|by injection E1 as <- _].
  destruct (src =? caller); [|destruct (dst =? caller)]; injection E1 as <- _; [|apply dst_is_attacker_extends|done].
  etransitivity; [apply push_action_extends|apply owed_extends].
Qed.

Lemma flashloan_mw_ok : middleware_ok flashloan_mw.
Proof.
  split; [|by intros c a h s c' h' s' [= _ <- _]]. cbn [flashloan_mw mw_on_step].
  intros i h s i' h' s'. unfold flashloan_on_step.
  destruct (is_op (view i) [0xf1; 0xf2; 0xf4; 0xfa]); [|by intros [= _ <- _]].
  intros (v & _ & E1)%bind_Some. apply bind_Some in E1 as (t & _ & E1).
  apply bind_Some in E1 as (ct & _ & E1). apply bind_Some in E1 as (off & _ & E1).
  apply bind_Some in E1 as (size & _ & E1). set (h1 := if _ && _ then _ else h) in E1.
  assert (extends h h1) as H1 by (unfold h1; destruct (_ && _); [apply earned_extends|reflexivity]).
  destruct (size <? 4); [by injection E1 as _ <- _|].
  apply bind_Some in E1 as (data & _ & E1). apply bind_Some in E1 as (sel & _ & E1).
  apply bind_Some in E1 as ([h2 s2] & E2 & E1). injection E1 as _ <- _. etransitivity; [exact H1|].
  case_decide; [injection E2 as <- _; destruct use_contract_value; [reflexivity|apply push_action_extends]|].
  case_decide; [by apply on_transfer_extends in E2|].
  case_decide; [by apply on_transfer_from_extends in E2|]. by injection E2 as <- _.
Qed.

(** ** Accounting *)

(** The token calls the middleware understands, with their arguments. *)
Inductive token_call := Transfer (dst amount : Z) | TransferFrom (src dst amount : Z).

Definition encode_token_call (c : token_call) : list byte :=
  match c with
  | Transfer dst amount => sel_transfer ++ replicate 12 x00 ++ z2be 20 dst ++ z2be 32 amount
  | TransferFrom src dst amount =>
      sel_transfer_from ++ replicate 12 x00 ++ z2be 20 src ++ replicate 12 x00 ++ z2be 20 dst ++ z2be 32 amount
  end.

Definition token_call_ok (c : token_call) : Prop :=
  match c with
  | Transfer dst amount => is_address dst ∧ is_u256 amount
  | TransferFrom src dst amount => is_address src ∧ is_address dst ∧ is_u256 amount
  end.

Definition token_amount (c : token_call) : Z :=
  match c with Transfer _ a => a | TransferFrom _ _ a => a end.

(** What a token call costs or pays the caller, and whether it is answered at once. *)
Definition account (caller value : Z) (c : token_call) (h : VMHost E) : VMHost E :=
  match c with
  | Transfer dst _ => if dst =? caller then dst_is_attacker value h else contract_transfer h
  | TransferFrom src dst _ =>
      if src =? caller then host_owed value (push_action transfer_success h)
      else if dst =? caller then dst_is_attacker value h
      else contract_transfer h
  end.

Lemma address_at_spec pre a post i j :
  is_address a → i = Z.of_nat (length pre) → j = i + 20 → address_at (pre ++ z2be 20 a ++ post) i j = Some a.
Proof.
  intros Ha -> ->. unfold address_at. rewrite (slice_app pre (z2be 20 a) post) by (rewrite ?length_z2be; done).
  rewrite obind_Some. unfold address_from_slice. rewrite length_z2be, decide_True by done.
  rewrite be2z_z2be. f_equal. apply Z.mod_small. exact Ha.
Qed.

Lemma amount_at_spec pre a post i j :
  is_u256 a → i = Z.of_nat (length pre) → j = i + 32 → amount_at (pre ++ z2be 32 a ++ post) i j = Some a.
Proof.
  intros Ha -> ->. unfold amount_at. rewrite (slice_app pre (z2be 32 a) post) by (rewrite ?length_z2be; done).
  rewrite obind_Some. unfold try_from_be_slice. rewrite be2z_z2be.
  assert (a mod 256 ^ Z.of_nat 32 = a) as -> by (apply Z.mod_small; exact Ha).
  rewrite decide_True by apply Ha. done.
Qed.

Lemma on_transfer_spec caller t dst amount h s value s' :
  is_address dst → is_u256 amount → usd_value_from_addr t amount s = Some (Some value, s') →
  on_transfer caller t (encode_token_call (Transfer dst amount)) h s =
  Some (account caller value (Transfer dst amount) h, s').
Proof.
  intros Hd Ha Hv. unfold on_transfer. cbn [encode_token_call account].
  rewrite (address_at_spec (sel_transfer ++ replicate 12 x00) dst (z2be 32 amount)) by done. rewrite obind_Some.
  pose proof (amount_at_spec (sel_transfer ++ replicate 12 x00 ++ z2be 20 dst) amount [] 36 68 Ha) as Hamt.
  rewrite app_nil_r, <- !app_assoc in Hamt. rewrite Hamt by (rewrite ?length_app, ?length_z2be; done).
  rewrite obind_Some, Hv, obind_Some. by destruct (dst =? caller).
Qed.

Lemma on_transfer_from_spec caller t src dst amount h s value s' :
  is_address src → is_address dst → is_u256 amount → usd_value_from_addr t amount s = Some (Some value, s') →
  on_transfer_from caller t (encode_token_call (TransferFrom src dst amount)) h s =
  Some (account caller value (TransferFrom src dst amount) h, s').
Proof.
  intros Hs Hd Ha Hv. unfold on_transfer_from. cbn [encode_token_call account].
  pose proof (address_at_spec (sel_transfer_from ++ replicate 12 x00) src
    (replicate 12 x00 ++ z2be 20 dst ++ z2be 32 amount) 16 36 Hs) as Hsrc.
  rewrite <- !app_assoc in Hsrc. rewrite Hsrc by done. rewrite obind_Some.
  pose proof (address_at_spec (sel_transfer_from ++ replicate 12 x00 ++ z2be 20 src ++ replicate 12 x00) dst
    (z2be 32 amount) 48 68 Hd) as Hdst.
  rewrite <- !app_assoc in Hdst. rewrite Hdst by (rewrite ?length_app, ?length_z2be; done). rewrite obind_Some.
  pose proof (amount_at_spec (sel_transfer_from ++ replicate 12 x00 ++ z2be 20 src ++ replicate 12 x00 ++ z2be 20 dst)
    amount [] 68 100 Ha) as Hamt.
  rewrite app_nil_r, <- !app_assoc in Hamt. rewrite Hamt by (rewrite ?length_app, ?length_z2be; done).
  rewrite obind_Some, Hv, obind_Some.
  destruct (src =? caller); [done|]. by destruct (dst =? caller).
Qed.

Lemma token_call_selector c :
  slice (encode_token_call c) 0 4 =
  Some (match c with Transfer _ _ => sel_transfer | TransferFrom _ _ _ => sel_transfer_from end).
Proof. destruct c; unfold slice; (rewrite decide_True by (cbn [encode_token_call]; rewrite length_app; simpl; lia)); done. Qed.

(** Flash-loan accounting: at a CALL of a priced token with the call data of a
    [transfer] or [transferFrom], the middleware adds the token's value to what the
    caller earned when the tokens go to the caller, adds it to what the caller owes and
    answers the call when they come from the caller, and otherwise touches neither
    amount; ether sent to the caller is earned as well, and nothing else of the state
    changes. *)
Theorem flashloan_accounts i h s gas target value off size rest c v s' :
  opcode (view i) = 0xf1 → stack (view i) = gas :: target :: value :: off :: size :: rest →
  Forall is_u256 (stack (view i)) → token_call_ok c →
  slice (it_memory i) (as_u64 off) (as_u64 off + as_u64 size) = Some (encode_token_call c) → 4 ≤ size →
  usd_value_from_addr (target mod 2 ^ 160) (token_amount c) s = Some (Some v, s') →
  let caller := cc_caller (ct_context (contract i)) in
  flashloan_on_step i h s =
  Some (i, account caller v c
             (if (0 <? value) && (target mod 2 ^ 160 =? caller) then host_earned (scaled value) h else h), s').
Proof.
  intros Hop Hst Hw Hc Hdata Hsize Hv caller. unfold flashloan_on_step.
  assert (∀ l, is_op (view i) l = existsb (Z.eqb 0xf1) l) as Hisop by (intros l; unfold is_op; by rewrite Hop).
  rewrite !Hisop, Hst. cbn [existsb lookup list_lookup Nat.add]. change (0xf1 =? 0xf1) with true. cbn [orb].
  cbn [lookup list_lookup]. rewrite !obind_Some.
  rewrite Hst in Hw. apply Forall_cons in Hw as [_ Hw]. apply Forall_cons in Hw as [Ht _].
  rewrite convert_u256_to_h160_spec, !obind_Some by done.
  change (_ !! (3 + 1)%nat) with (Some size). rewrite obind_Some.
  destruct (Z.ltb_spec size 4); [lia|]. rewrite Hdata, obind_Some, token_call_selector, obind_Some. fold caller.
  set (h1 := if _ && _ then _ else h).
  destruct c as [dst amount|src dst amount]; cbn [token_call_ok token_amount] in *.
  - destruct Hc as [Hd Ha]. rewrite decide_False by (by intros [?|?]). rewrite decide_True by done.
    by rewrite (on_transfer_spec _ _ _ _ _ _ v s') by done.
  - destruct Hc as (Hs & Hd & Ha). rewrite decide_False by (by intros [?|?]). rewrite decide_False by done.
    rewrite decide_True by done. by rewrite (on_transfer_from_spec _ _ _ _ _ _ _ v s') by done.
Qed.
End flashloan.

(** The toy configuration with the flash-loan middleware and the dummy price oracle. *)
Definition flashloan_config : Config unit Z :=
  mkConfig _ _ (λ c, c) (λ _, 0) (λ s, (s, s + 1)) (Some (flashloan_mw false (λ _ s, (Some (10000, 18), s))))
    (λ _, no_middleware) (2 ^ 32 - 1) false.

#[export] Instance flashloan_config_laws : MiddlewareLaws flashloan_config.
Proof.
  split; [intros m [= <-]; apply flashloan_mw_ok|]. intros ty. apply (registered_ok (cfg := toy_config) ty).
Qed.

(** Contract [8] sends 5 tokens of [7] to its caller [9]. *)
Definition transfer_interp : Interpreter :=
  mkInterpreter 0 Continue (encode_token_call (Transfer 9 5)) (reverse [0; 7; 0; 0; 68; 0; 0]) [] (0, 0) false
    (mkContract [] [xf1] (mkCallContext 8 9 8 0 SchemeCall)).

Lemma flashloan_accounts_witness :
  flashloan_on_step (S := Z) false (λ _ s, (Some (10000, 18), s)) transfer_interp toy_host 0 =
  Some (transfer_interp, push_action transfer_success (host_earned 50000 toy_host), 0).
Proof.
  apply (flashloan_accounts (S := Z) false (λ _ s, (Some (10000, 18), s)) transfer_interp toy_host 0
           0 7 0 0 68 [0; 0] (Transfer 9 5) 50000 0).
  - reflexivity.
  - reflexivity.
  - repeat constructor; simpl; lia.
  - split; (split; [lia|reflexivity]).
  - vm_compute. reflexivity.
  - lia.
  - vm_compute. reflexivity.
Defined.
