(* ===== verification/Coverage.v ===== *)
(** * Instruction coverage ([src/src/evm/middlewares/instruction_coverage.rs])

    The middleware that records the program counters of every contract, the instructions a
    contract has, and the report.  The instruction pointer of a frame is always at the
    start of an instruction of its code, or at one place after it, so what is recorded is
    what the report counts, up to that place. *)
From stdpp Require Import sorting.
From S2P Require Import Prelude Types F64 Expr Abi AbiParse Tracer I256 Evm Host HostCall HostCallProps Bytecode Revm RevmProps Concolic Vm FlashloanMw.
#[local] Open Scope Z_scope.

(** ** The instructions of a code *)

(** The [while] of [instructions_pc]; every round moves forward. *)
Fixpoint instructions_loop (fuel : nat) (bytes : list byte) (i : nat) (complete_bytes : list nat) : list nat :=
  match fuel with
  | O => complete_bytes
  | S fuel =>
      match bytes !! i with
      | None => complete_bytes
      | Some op =>
          let complete_bytes := complete_bytes ++ [i] in
          let i := (i + 1)%nat in
          let i := if is_push op then (i + Z.to_nat (b2z op - 0x5f))%nat else i in
          instructions_loop fuel bytes i complete_bytes
      end
  end.
Definition instructions_pc (bytecode : list byte) : gset nat :=
  list_to_set (instructions_loop (length bytecode) bytecode 0 []).

(** ** The middleware *)

Record InstructionCoverage := mkInstructionCoverage {
  pc_coverage : gmap Z (gset nat);
  total_instr : gmap Z nat;
  total_instr_set : gmap Z (gset nat);
  edge_coverage : gmap Z (gset nat)
}.
Definition InstructionCoverage_new : InstructionCoverage := mkInstructionCoverage ∅ ∅ ∅ ∅.

(** [entry(k).or_default().insert(x)] *)
Definition entry_insert (k : Z) (x : nat) (m : gmap Z (gset nat)) : gmap Z (gset nat) :=
  <[k := {[x]} ∪ default ∅ (m !! k)]> m.

Definition coverage_on_step (i : Interpreter) (c : InstructionCoverage) : InstructionCoverage :=
  let address := cc_address (ct_context (contract i)) in
  let pc := Z.to_nat (instruction_pointer i) in
  mkInstructionCoverage (entry_insert address pc (pc_coverage c)) (total_instr c) (total_instr_set c) (edge_coverage c).

Definition coverage_on_insert (bytecode : list byte) (address : EVMAddress) (c : InstructionCoverage) : InstructionCoverage :=
  let pcs := instructions_pc bytecode in
  mkInstructionCoverage (pc_coverage c) (<[address := size pcs]> (total_instr c))
    (<[address := pcs]> (total_instr_set c)) (edge_coverage c).

(** The middleware as the host runs it, beside other state *)
Definition coverage_middleware {E T} : Middleware E (T * InstructionCoverage) :=
  mkMiddleware _ _ (λ i h s, Some (i, h, (s.1, coverage_on_step i s.2)))
    (λ code a h s, Some (code, h, (s.1, coverage_on_insert code a s.2))).

(** ** The report *)

(** The loops that collect what is not covered *)
Definition not_covered_pc (c : InstructionCoverage) (addr : Z) (nc : gmap Z (gset nat)) (pc : nat) : gmap Z (gset nat) :=
  match pc_coverage c !! addr with
  | Some covs => if decide (pc ∈ covs) then nc else entry_insert addr pc nc
  | None => entry_insert addr pc nc
  end.
Definition not_covered (c : InstructionCoverage) : gmap Z (gset nat) :=
  fold_left (λ nc '(addr, covs), fold_left (not_covered_pc c addr) (elements covs) nc)
    (map_to_list (total_instr_set c)) ∅.

Section report.
Context `{Formats} (percent : f64 → str) (order : ∀ {A}, gmap Z A → list (Z * A)).

Fixpoint join_text (sep : str) (l : list str) : str :=
  match l with
  | [] => []
  | [x] => x
  | x :: l => x ++ sep ++ join_text sep l
  end.
Definition newline : str := [ascii_of_N 10].

(** A line of the report; [percent] is [{:.2}]. *)
Definition coverage_line (c : InstructionCoverage) (k : Z) (total : nat) : str :=
  let cov := size (default ∅ (pc_coverage c !! k)) in
  lit "Contract: " ++ addr_debug k ++ lit ", Instruction Coverage: " ++ show_u64 (Z.of_nat cov) ++ lit " / " ++
  show_u64 (Z.of_nat total) ++ lit " (" ++
  percent (f64_mul (f64_div (f64_of_u64 (Z.of_nat cov)) (f64_of_u64 (Z.of_nat total))) (f64_of_u64 100)) ++ lit "%)".

(** [{:?}] of the sorted counters *)
Definition pcs_debug (pcs : gset nat) : str :=
  lit "[" ++ join_text (lit ", ") (map (λ n, show_u64 (Z.of_nat n)) (merge_sort le (elements pcs))) ++ lit "]".

Definition coverage_report (c : InstructionCoverage) : str :=
  lit "=================== Coverage Report =================== " ++ newline ++
  join_text newline (map (λ '(k, total), coverage_line c k total) (order _ (total_instr c))) ++
  newline ++ newline ++ newline ++ lit "not covered: " ++
  concat (map (λ '(addr, pcs), addr_debug addr ++ lit ": " ++ pcs_debug pcs ++ newline ++ newline) (order _ (not_covered c))).

(** [record_instruction_coverage], from the contents of the file to the new contents: it is
    opened without [truncate], and written from its start. *)
Definition record_instruction_coverage (c : InstructionCoverage) (file : str) : str :=
  let data := coverage_report c in data ++ drop (length data) file.

(** The file holds the report only if the one before was not longer; a report gets shorter
    when more is covered. *)
Lemma file_is_report c file :
  record_instruction_coverage c file = coverage_report c ↔ (length file ≤ length (coverage_report c))%nat.
Proof.
  unfold record_instruction_coverage. split.
  - intros E%(f_equal length). rewrite length_app, length_drop in E. lia.
  - intros Hlen. by rewrite drop_ge, app_nil_r by done.
Qed.
End report.

(** ** The instructions are found *)

(** The number of instructions of [assemble l ++ tail], where [tail] is a cut-off PUSH, and
    where they start *)
Definition count (l : list instruction) (tail : list byte) : nat :=
  (length l + match tail with [] => 0 | _ => 1 end)%nat.
Definition start_pcs (l : list instruction) (tail : list byte) : list nat :=
  map (code_start l) (seq 0 (count l tail)).

Lemma start_pcs_cons x l tail :
  start_pcs (x :: l) tail = 0%nat :: map (Nat.add (length (encode x))) (start_pcs l tail).
Proof.
  unfold start_pcs, count. cbn [length Nat.add seq map]. f_equal.
  rewrite <- seq_shift, !map_map. apply map_ext. intros k. apply code_start_S.
Qed.

Lemma instructions_step fuel pre x rest acc : instruction_ok x →
  instructions_loop (S fuel) (pre ++ encode x ++ rest) (length pre) acc =
  instructions_loop fuel (pre ++ encode x ++ rest) (length (pre ++ encode x)) (acc ++ [length pre]).
Proof.
  intros Hx. cbn [instructions_loop]. rewrite lookup_app_r, Nat.sub_diag by done.
  destruct x as [data|b]; cbn [encode app lookup list_lookup]; rewrite length_app; cbn [length].
  - destruct (push_byte (length data) Hx) as [Eb ->]. rewrite Eb. f_equal. lia.
  - by rewrite Hx.
Qed.

Lemma instructions_past fuel bytes i acc : (length bytes ≤ i)%nat → instructions_loop fuel bytes i acc = acc.
Proof. intros Hi. destruct fuel; [done|]. cbn [instructions_loop]. by rewrite lookup_ge_None_2. Qed.

Lemma instructions_loop_spec l tail : ∀ fuel pre acc,
  Forall instruction_ok l → truncated tail → (length (assemble l ++ tail) ≤ fuel)%nat →
  instructions_loop fuel (pre ++ assemble l ++ tail) (length pre) acc =
  acc ++ map (Nat.add (length pre)) (start_pcs l tail).
Proof.
  induction l as [|x l IH]; intros fuel pre acc Hl Ht Hf.
  { change (assemble [] ++ tail) with tail in *. destruct tail as [|b data].
    { rewrite instructions_past by (rewrite app_nil_r; lia). by rewrite app_nil_r. }
    destruct fuel as [|fuel]; [simpl in Hf; lia|]. cbn [instructions_loop].
    rewrite lookup_app_r, Nat.sub_diag by done. cbn [lookup list_lookup]. destruct Ht as [-> Hlt].
    rewrite instructions_past by (rewrite length_app; cbn [length]; lia). simpl. do 2 f_equal.
    unfold code_start. simpl. lia. }
  apply Forall_cons in Hl as [Hx Hl]. rewrite assemble_cons, <- app_assoc in *. rewrite length_app in Hf.
  pose proof (length_encode x). destruct fuel as [|fuel]; [lia|]. rewrite instructions_step by done.
  rewrite app_assoc, IH by (done || lia). rewrite <- app_assoc, start_pcs_cons, length_app. cbn [map app].
  rewrite map_map, Nat.add_0_r. do 2 f_equal. apply map_ext. intros k. lia.
Qed.

Lemma code_start_mono l j k : (j < k)%nat → (k ≤ length l)%nat → (code_start l j < code_start l k)%nat.
Proof.
  revert j k. induction l as [|x l IH]; intros j k Hj Hk; [simpl in Hk; lia|].
  destruct k as [|k]; [lia|]. rewrite code_start_S. pose proof (length_encode x).
  destruct j as [|j]; [unfold code_start at 1; simpl; lia|]. rewrite code_start_S. simpl in Hk.
  specialize (IH j k ltac:(lia) ltac:(lia)). lia.
Qed.

Lemma start_pcs_NoDup l tail : NoDup (start_pcs l tail).
Proof.
  unfold start_pcs. apply NoDup_fmap_2_strong; [|apply NoDup_seq]. intros j k Hj Hk E.
  apply elem_of_seq in Hj, Hk. assert (count l tail ≤ length l + 1)%nat by (unfold count; destruct tail; lia).
  destruct (Nat.lt_total j k) as [Hlt|[?|Hlt]]; [|done|]; apply (code_start_mono l) in Hlt; lia.
Qed.

Lemma instructions_pc_spec l tail : Forall instruction_ok l → truncated tail →
  (∀ pc, pc ∈ instructions_pc (assemble l ++ tail) ↔ pc ∈ start_pcs l tail) ∧
  size (instructions_pc (assemble l ++ tail)) = count l tail.
Proof.
  intros Hl Ht. unfold instructions_pc. rewrite (instructions_loop_spec l tail _ [] []) by done.
  cbn [app length]. rewrite (map_ext _ id), map_id by done. split.
  - intros pc. by rewrite elem_of_list_to_set.
  - rewrite size_list_to_set by apply start_pcs_NoDup. unfold start_pcs. by rewrite length_map, length_seq.
Qed.

(** ** What is not covered *)

Definition covered (c : InstructionCoverage) (a : Z) : gset nat := default ∅ (pc_coverage c !! a).
Definition pcs_of (m : gmap Z (gset nat)) (a : Z) : gset nat := default ∅ (m !! a).

Lemma pcs_of_entry_insert k x m a pc :
  pc ∈ pcs_of (entry_insert k x m) a ↔ (a = k ∧ pc = x) ∨ pc ∈ pcs_of m a.
Proof.
  unfold pcs_of, entry_insert. destruct (decide (a = k)) as [->|Hne].
  - rewrite lookup_insert_eq. simpl. set_solver.
  - rewrite lookup_insert_ne by done. naive_solver.
Qed.

Lemma not_covered_pc_spec c addr nc x a pc :
  pc ∈ pcs_of (not_covered_pc c addr nc x) a ↔ (a = addr ∧ pc = x ∧ x ∉ covered c addr) ∨ pc ∈ pcs_of nc a.
Proof.
  unfold not_covered_pc, covered. destruct (pc_coverage c !! addr) as [covs|]; simpl.
  - case_decide; [naive_solver|]. rewrite pcs_of_entry_insert. naive_solver.
  - rewrite pcs_of_entry_insert. set_solver.
Qed.

Lemma not_covered_contract c addr l : ∀ nc a pc,
  pc ∈ pcs_of (fold_left (not_covered_pc c addr) l nc) a ↔ (a = addr ∧ pc ∈ l ∧ pc ∉ covered c addr) ∨ pc ∈ pcs_of nc a.
Proof.
  induction l as [|x l IH]; intros nc a pc; cbn [fold_left]; [set_solver|].
  rewrite IH, not_covered_pc_spec, elem_of_cons. naive_solver.
Qed.

Lemma not_covered_loop c (l : list (Z * gset nat)) : ∀ nc a pc,
  pc ∈ pcs_of (fold_left (λ nc '(addr, covs), fold_left (not_covered_pc c addr) (elements covs) nc) l nc) a ↔
  (∃ covs, (a, covs) ∈ l ∧ pc ∈ covs ∧ pc ∉ covered c a) ∨ pc ∈ pcs_of nc a.
Proof.
  induction l as [|[k covs] l IH]; intros nc a pc; cbn [fold_left]; [set_solver|].
  rewrite IH, not_covered_contract, elem_of_elements. setoid_rewrite elem_of_cons. naive_solver.
Qed.

Lemma not_covered_spec c a pc :
  pc ∈ pcs_of (not_covered c) a ↔ pc ∈ pcs_of (total_instr_set c) a ∧ pc ∉ covered c a.
Proof.
  unfold not_covered. rewrite not_covered_loop. setoid_rewrite elem_of_map_to_list. unfold pcs_of at 1 2.
  rewrite lookup_empty. destruct (total_instr_set c !! a) as [t|] eqn:Et; simpl; [|set_solver]. naive_solver set_solver.
Qed.

Lemma fold_left_inv {A B} (P : A → Prop) (f : A → B → A) (l : list B) a :
  P a → (∀ a b, P a → P (f a b)) → P (fold_left f l a).
Proof. intros Ha Hf. revert a Ha. induction l as [|b l IH]; intros a Ha; [done|]. by apply IH, Hf. Qed.

(** The contracts of the report are those with something left. *)
Lemma not_covered_nonempty c a s : not_covered c !! a = Some s → s ≠ ∅.
Proof.
  set (P := λ m : gmap Z (gset nat), ∀ a s, m !! a = Some s → s ≠ ∅). revert a s. change (P (not_covered c)). unfold not_covered.
  apply (fold_left_inv P); [by intros a s; rewrite lookup_empty|]. intros m [addr covs] Hm.
  apply (fold_left_inv P); [done|]. clear m Hm. intros m pc Hm. unfold not_covered_pc.
  assert (P (entry_insert addr pc m)) as Hi.
  { intros a s. unfold entry_insert. intros [[<- <-]|[_ Ha]]%lookup_insert_Some; [set_solver|by eapply Hm]. }
  destruct (pc_coverage c !! addr); [by case_decide|done].
Qed.

(** The report tells exactly what was not executed.  After a contract is installed at
    [a], its total is the number of instructions of its code (operands of PUSH are not
    instructions; a cut-off PUSH at the end is one), and a program counter is listed as
    not covered exactly when it is the start of one of them and no step at [a] was
    recorded there; what other contracts have listed does not change, and a contract is
    listed only if something of it is left. *)
Theorem uncovered_exact c a code :
  let c' := coverage_on_insert code a c in
  ∃ l tail, code = assemble l ++ tail ∧ Forall instruction_ok l ∧ truncated tail ∧
    total_instr c' !! a = Some (count l tail) ∧
    (∀ pc, pc ∈ pcs_of (not_covered c') a ↔ pc ∈ start_pcs l tail ∧ pc ∉ covered c a) ∧
    (∀ b, b ≠ a → pcs_of (not_covered c') b = pcs_of (not_covered c) b) ∧
    ∀ b s, not_covered c' !! b = Some s → s ≠ ∅.
Proof.
  intros c'. destruct (disassemble (length code) code) as (l & tail & El & Hl & Ht); [done|].
  exists l, tail. split_and!; [done..| | | |intros b s; apply not_covered_nonempty].
  - unfold c'. simpl. rewrite lookup_insert_eq, El. f_equal. by apply instructions_pc_spec.
  - intros pc. rewrite not_covered_spec. unfold c', pcs_of, covered. simpl. rewrite lookup_insert_eq, El. simpl.
    by rewrite (proj1 (instructions_pc_spec l tail Hl Ht)).
  - intros b Hb. apply leibniz_equiv. intros pc. rewrite !not_covered_spec. unfold c', pcs_of, covered. simpl.
    by rewrite lookup_insert_ne by done.
Qed.

(** ** Where the instruction pointer is *)

Section place.
Context {E S : Type} `{EnvReads E} (keccak256 : list byte → Z) (panic_on_bug : bool).
Context (call_h : @call_handler E S) (create_h : @create_handler E S).

(** The contract and the instruction pointer stay. *)
Definition same_place (i i' : Interpreter) : Prop :=
  contract i' = contract i ∧ instruction_pointer i' = instruction_pointer i.
Definition stays {A} (m : Instr (@world E S) A) : Prop := ∀ w,
  match m w with
  | Next _ w' | Returned w' => same_place w.1.1 w'.1.1
  | Panicked | Undefined => True
  end.

Lemma stays_ret {A} (a : A) : stays (mret a).
Proof. by intros w. Qed.
Lemma stays_bind {A B} (m : Instr _ A) (f : A → Instr _ B) : stays m → (∀ a, stays (f a)) → stays (m ≫= f).
Proof.
  intros Hm Hf w. specialize (Hm w). unfold mbind, Instr_bind.
  destruct (m w) as [a w1|w1| |]; [|done..]. specialize (Hf a w1). unfold same_place in *.
  destruct (f a w1); try done; destruct Hm, Hf; split; congruence.
Qed.
Lemma stays_get_interp : stays get_interp.
Proof. by intros w. Qed.
Lemma stays_get_host : stays get_host.
Proof. by intros w. Qed.
Lemma stays_update f : (∀ i, same_place i (f i)) → stays (update f).
Proof. intros Hf [[i h] s]. apply Hf. Qed.
Lemma stays_fail {A} r : stays (fail (A := A) r).
Proof. by intros [[i h] s]. Qed.
Lemma stays_unwrap {A} (o : option A) : stays (unwrap o).
Proof. intros w. by destruct o. Qed.
Lemma stays_unchecked {A} (o : option A) : stays (unchecked o).
Proof. intros w. by destruct o. Qed.
Lemma stays_update_host f : stays (update_host f).
Proof. intros [[i h] s]. simpl. by destruct (f h). Qed.
Lemma stays_host_call x : stays (host_call call_h x).
Proof. intros [[i h] s]. simpl. by destruct (call_h x h s) as [[[r h'] s']|]. Qed.
Lemma stays_host_create x : stays (host_create create_h x).
Proof. intros [[i h] s]. simpl. by destruct (create_h x h s) as [[[r h'] s']|]. Qed.

Ltac stays_solve :=
  repeat first
    [ apply stays_ret | apply stays_get_interp | apply stays_get_host | apply stays_fail | apply stays_unwrap
    | apply stays_unchecked | apply stays_update_host | apply stays_host_call | apply stays_host_create
    | apply stays_update; intros ?; by split
    | apply stays_bind; [|intros ?]
    | match goal with |- stays (match ?x with _ => _ end) => destruct x end ].

Lemma stays_topics n : stays (pop_topics n).
Proof. induction n as [|n IH]; cbn [pop_topics]; unfold pop1; stays_solve. apply IH. Qed.

Ltac stays_auto :=
  unfold_instr; unfold pop1, pop2, pop3, pop4, push, write_top, as_usize_or_fail, resize_to, or_fatal;
  repeat first [apply stays_topics | progress stays_solve].

(** Every instruction but PUSH, JUMP and JUMPI goes on to the next byte. *)
Lemma stays_instr_eval opcode : is_push opcode = false → opcode ≠ x56 → opcode ≠ x57 →
  stays (instr_eval keccak256 panic_on_bug call_h create_h opcode).
Proof.
  intros Hp H1 H2. destruct opcode; try discriminate Hp; try congruence; cbn [instr_eval]; stays_auto.
Qed.

(** ** Steps *)

Abbreviation instr := (instr_eval keccak256 panic_on_bug call_h create_h).

(** The length of the operand *)
Definition operand_length (op : byte) : Z := if is_push op then b2z op - 0x5f else 0.

(** An instruction that does not end the frame moves past its operand, or to a valid
    destination. *)
Definition moves (n : Z) (i i' : Interpreter) : Prop :=
  contract i' = contract i ∧
  (instruction_result i' = Continue →
   instruction_pointer i' = instruction_pointer i + n ∨
   0 ≤ instruction_pointer i' ∧ is_valid_jump (contract i) (instruction_pointer i') = true).

Definition moves_by (n : Z) (m : Instr (@world E S) unit) : Prop := ∀ w,
  match m w with
  | Next _ w' | Returned w' => moves n w.1.1 w'.1.1
  | Panicked | Undefined => True
  end.

Lemma stays_moves m : stays m → moves_by 0 m.
Proof.
  intros Hm w. specialize (Hm w). destruct (m w); try done; destruct Hm as [Hc Hi]; split; auto; left; lia.
Qed.

Lemma stays_bind_moves {A} (m : Instr (@world E S) A) f :
  stays m → (∀ a, moves_by 0 (f a)) → moves_by 0 (m ≫= f).
Proof.
  intros Hm Hf w. specialize (Hm w). unfold mbind, Instr_bind.
  destruct (m w) as [a w1|w1| |]; [|by destruct Hm as [Hc Hi]; split; auto; left; lia|done..].
  specialize (Hf a w1). destruct Hm as [Hc Hi]. unfold moves in *. rewrite Hc, Hi in Hf. done.
Qed.

Lemma goto_moves dest : moves_by 0 (goto (E := E) (S := S) dest).
Proof.
  unfold goto, as_usize_or_fail. intros [[i h] s]. destruct (_ || _); [by split|].
  unfold mbind, Instr_bind, get_interp. simpl. destruct (is_valid_jump (contract i) (limb dest 0)) eqn:Ev; [|by split].
  split; [done|]. right. split; [apply limb_range|exact Ev].
Qed.

Lemma push_moves n : moves_by (Z.of_nat n) (instr_push (E := E) (S := S) n).
Proof.
  intros [[i h] s]. unfold instr_push, mbind, Instr_bind, get_interp. simpl.
  destruct (_ <? _)%nat; [by split|]. destruct (slice _ _ _); [|done]. split; [done|]. by left.
Qed.

Lemma eval_push op : is_push op = true → instr op = instr_push (Z.to_nat (b2z op - 0x5f)).
Proof.
  intros Hp. destruct op; try discriminate Hp; reflexivity.
Qed.

Lemma eval_moves op : moves_by (operand_length op) (instr op).
Proof.
  unfold operand_length. destruct (is_push op) eqn:Hp.
  - rewrite eval_push by done. unfold is_push in Hp. apply andb_prop in Hp as [Hp%Z.leb_le _].
    replace (b2z op - 95) with (Z.of_nat (Z.to_nat (b2z op - 95))) at 1 by lia. apply push_moves.
  - destruct (decide (op = x56)) as [->|H1]; [|destruct (decide (op = x57)) as [->|H2]].
    + cbn [instr_eval]. apply stays_bind_moves; [unfold pop1; stays_solve|intros d; apply goto_moves].
    + cbn [instr_eval]. apply stays_bind_moves; [unfold pop2; stays_solve|intros [d v]]. 
      destruct (v =? 0); [apply stays_moves, stays_ret|apply goto_moves].
    + apply stays_moves. by apply stays_instr_eval.
Qed.

(** ** The place of the pointer in the code *)

Context (l : list instruction) (tail : list byte) (Hl : Forall instruction_ok l) (Ht : truncated tail).

(** Where execution falls off the code: at its end, or after the padding of the cut-off
    PUSH *)
Definition fall_off : nat :=
  (length (assemble l) + match tail with [] => 0 | b :: _ => 1 + Z.to_nat (b2z b - 0x5f) end)%nat.
Definition on_code (i : Interpreter) : Prop :=
  ∃ pc, instruction_pointer i = Z.of_nat pc ∧ (pc ∈ start_pcs l tail ∨ pc = fall_off).

Lemma fall_off_range : (length (assemble l ++ tail) ≤ fall_off ≤ length (assemble l ++ tail) + 32)%nat.
Proof using Ht.
  rewrite length_app. unfold fall_off. destruct tail as [|b data]; [simpl; lia|]. destruct Ht as [Hp Hlt].
  unfold is_push in Hp. apply andb_prop in Hp as [? ?%Z.leb_le]. cbn [length]. lia.
Qed.

Lemma start_on_code k : (k ≤ length l)%nat → code_start l k ∈ start_pcs l tail ∨ code_start l k = fall_off.
Proof.
  clear Ht. intros Hk. destruct (decide (k < count l tail)%nat) as [Hlt|Hge].
  - left. apply list_elem_of_fmap. exists k. split; [done|]. apply elem_of_seq. lia.
  - right. unfold count in Hge. unfold fall_off. destruct tail; [|lia]. assert (k = length l) as -> by lia.
    unfold code_start. rewrite take_ge by done. lia.
Qed.

(** The byte at the start of an instruction *)
Lemma fetch_start k x rest : l !! k = Some x → (assemble l ++ rest) !! code_start l k = head (encode x) ∧
  code_start l (Datatypes.S k) = (code_start l k + length (encode x))%nat.
Proof.
  intros Hk. assert (assemble l = assemble (take k l) ++ encode x ++ assemble (drop (Datatypes.S k) l)) as El.
  { by rewrite <- assemble_cons, <- assemble_app, (take_drop_middle l k x Hk). }
  split.
  - rewrite El, <- !app_assoc. unfold code_start. rewrite lookup_app_r, Nat.sub_diag by done. by destruct x.
  - unfold code_start. rewrite (take_S_r _ _ _ Hk), assemble_app, length_app, assemble_cons.
    change (assemble []) with (@nil byte). by rewrite app_nil_r.
Qed.

(** One step from an instruction: the frame ends, or the pointer is at an instruction. *)
Lemma step_on_code i op n : ct_bytecode (contract i) = assemble l ++ tail → on_code i → fetch i = Some op →
  op ≠ x00 → n = instruction_pointer i + 1 + operand_length op → ∃ pc, n = Z.of_nat pc ∧ (pc ∈ start_pcs l tail ∨ pc = fall_off).
Proof.
  intros Ec (pc & Hpc & Hon) Hf Hop ->. unfold fetch, padded in Hf. rewrite Hpc, Nat2Z.id, Ec, <- app_assoc in Hf. rewrite Hpc.
  destruct Hon as [Hin| ->].
  - apply list_elem_of_fmap in Hin as (k & -> & Hk%elem_of_seq). destruct (l !! k) as [x|] eqn:Ex.
    + destruct (fetch_start k x (tail ++ replicate 33 x00) Ex) as [Ef Es]. rewrite Ef in Hf.
      pose proof (proj1 (Forall_forall _ _) Hl x (list_elem_of_lookup_2 _ _ _ Ex)) as Hx.
      exists (code_start l (Datatypes.S k)). split; [|apply start_on_code; apply lookup_lt_Some in Ex; lia].
      rewrite Es. unfold operand_length. destruct x as [data|b]; injection Hf as <-; cbn [encode length].
      * destruct (push_byte (length data) Hx) as [-> ->]. lia.
      * simpl in Hx. rewrite Hx. lia.
    + apply lookup_ge_None in Ex. unfold count in Hk. destruct tail as [|b data] eqn:Et; [lia|].
      assert (k = length l) as -> by lia. unfold code_start in Hf |- *. rewrite take_ge in Hf |- * by done.
      rewrite lookup_app_r, Nat.sub_diag in Hf by done. injection Hf as ->. destruct Ht as [Hp _].
      unfold operand_length. rewrite Hp. exists fall_off. split; [|by right]. unfold fall_off. rewrite Et.
      unfold is_push in Hp. apply andb_prop in Hp as [Hp%Z.leb_le _]. lia.
  - rewrite lookup_app_r in Hf by (unfold fall_off; lia). rewrite lookup_app_r in Hf.
    + by apply lookup_replicate in Hf as [-> _].
    + unfold fall_off. destruct tail as [|b data]; [simpl; lia|]. destruct Ht as [_ ?]. simpl. lia.
Qed.

Lemma jump_on_code i : ct_bytecode (contract i) = assemble l ++ tail → 0 ≤ instruction_pointer i →
  is_valid_jump (contract i) (instruction_pointer i) = true → on_code i.
Proof.
  intros Ec Hi Hj. apply (valid_jump_spec _ l tail) in Hj as (k & Hk & Ej); [|done..].
  exists (code_start l k). split; [lia|]. apply start_on_code. apply lookup_lt_Some in Hk. lia.
Qed.

Lemma interp_step_on_code i h s i' h' s' :
  ct_bytecode (contract i) = assemble l ++ tail → on_code i →
  interp_step keccak256 panic_on_bug call_h create_h i h s = Some (i', h', s') →
  contract i' = contract i ∧ (instruction_result i' = Continue → on_code i').
Proof.
  intros Ec Hon. unfold interp_step, instr_step, mbind, Instr_bind, get_interp, unchecked. simpl.
  destruct (fetch i) as [op|] eqn:Ef; [|done]. simpl. set (i1 := set_ip _ i).
  destruct (decide (op = x00)) as [->|Hne]; [by intros [= <- _ _]|].
  pose proof (eval_moves op (i1, h, s)) as Hm.
  assert (∀ w, moves (operand_length op) i1 w.1.1 → Some w = Some (i', h', s') →
    contract i' = contract i ∧ (instruction_result i' = Continue → on_code i')) as Hw.
  { intros w [Hc Hp] [= ->]. simpl in *. split; [done|]. intros Hr. destruct (Hp Hr) as [Hq|[Hq Hv]].
    - destruct (step_on_code i op (instruction_pointer i') Ec Hon Ef Hne) as (pc & ? & ?); [by rewrite Hq|]. by exists pc.
    - apply jump_on_code; [by rewrite Hc|done|by rewrite Hc]. }
  destruct (instr op (i1, h, s)); [by apply Hw|by apply Hw|done..].
Qed.
End place.

(** ** Frames *)

(** Middlewares leave the frame they observe where it is. *)
Class KeepsPlace {E S} (cfg : Config E S) : Prop :=
  mw_keeps_place m i h s i' h' s' :
    (flashloan_middleware cfg = Some m ∨ ∃ ty, m = middleware_of cfg ty) →
    mw_on_step m i h s = Some (i', h', s') → same_place i i'.

Section frames.
Context {E S : Type} `{EnvReads E} (keccak256 : list byte → Z) (panic_on_bug : bool) (cfg : Config E S) `{!KeepsPlace cfg}.

#[local] Instance same_place_preorder : PreOrder same_place.
Proof. split; [by intros i|]. intros i j k [H1 H2] [H3 H4]. split; congruence. Qed.

Lemma on_step_place l : ∀ i h s i' h' s',
  foldM (λ st ty, on_step_step st (middleware_of cfg ty)) (i, h, s) l = Some (i', h', s') → same_place i i'.
Proof.
  induction l as [|ty l IH]; intros i h s i' h' s'; cbn [foldM]; [by intros [= <- _ _]|].
  unfold on_step_step at 1. intros ([[i1 h1] s1] & E1 & E2)%bind_Some. etransitivity; [|by eapply IH].
  eapply mw_keeps_place; [|exact E1]. right. by eexists.
Qed.

Lemma host_step_place i h s i' h' s' : host_step cfg i h s = Some (i', h', s') → same_place i i'.
Proof.
  unfold host_step. intros ([[i1 h1] s1] & E1 & E2)%bind_Some. apply bind_Some in E2 as (c & _ & [= <- _ _]).
  destruct (middlewares_enabled h); [|by injection E1 as <- _ _]. unfold run_middlewares in E1.
  apply bind_Some in E1 as ([[i2 h2] s2] & E1 & E2). apply bind_Some in E2 as ([[i3 h3] s3] & E2 & E3).
  apply bind_Some in E3 as ([h4 s4] & _ & [= <- _ _]). apply on_step_place in E2. etransitivity; [|exact E2].
  destruct (flashloan_middleware cfg) as [m|] eqn:Em; [|by injection E1 as <- _ _].
  eapply mw_keeps_place; [|exact E1]. by left.
Qed.

(** The states of the interpreter loop on a contract, before each of its rounds; the host
    may change in between. *)
Inductive frame (c : Contract) : Interpreter → Prop :=
  | frame_new : frame c (Interpreter_new c)
  | frame_round fuel i h s i1 h1 s1 i2 h2 s2 :
      frame c i → instruction_result i = Continue →
      host_step cfg i h s = Some (i1, h1, s1) →
      revm_eval keccak256 panic_on_bug (call cfg (run_inspect cfg (revm_eval keccak256 panic_on_bug) fuel))
        (create cfg (run_inspect cfg (revm_eval keccak256 panic_on_bug) fuel)) i1 h1 s1 = Some (i2, h2, s2) →
      frame c i2.

Lemma frame_on_code c l tail i :
  ct_bytecode c = assemble l ++ tail → Forall instruction_ok l → truncated tail →
  frame c i → contract i = c ∧ (instruction_result i = Continue → on_code l tail i).
Proof.
  intros Ec Hl Ht Hf. induction Hf as [|fuel i h s i1 h1 s1 i2 h2 s2 Hf [Hc IH] Hr E1 E2].
  - split; [done|]. intros _. exists 0%nat. split; [done|].
    destruct (start_on_code l tail 0) as [Hs|Hs]; [lia|by left|by right].
  - apply host_step_place in E1 as [Hc1 Hp1]. specialize (IH Hr).
    eapply (interp_step_on_code keccak256 panic_on_bug _ _ l tail) in E2 as [Hc2 Hon2]; [|done|done|by rewrite Hc1, Hc|].
    + split; [congruence|done].
    + destruct IH as (pc & Hpc & Hin). exists pc. split; [congruence|done].
Qed.

(** Recorded program counters are instructions.  For every contract there is one place
    after its code, at most 32 bytes away, such that every step of a frame that runs the
    contract, whatever the handlers and middlewares of the host do in between, records in
    the coverage of its address the start of an instruction of the code, or that place; so
    that coverage stays within these, and is at most the total plus one.  The coverage of
    other addresses does not change. *)
Theorem covered_within_code c :
  let code := ct_bytecode c in
  let a := cc_address (ct_context c) in
  ∃ end_pc, (length code ≤ end_pc ≤ length code + 32)%nat ∧
    ∀ i cov, frame c i → instruction_result i = Continue →
      covered cov a ⊆ instructions_pc code ∪ {[end_pc]} →
      let cov' := coverage_on_step i cov in
      covered cov' a ⊆ instructions_pc code ∪ {[end_pc]} ∧
      (size (covered cov' a) ≤ size (instructions_pc code) + 1)%nat ∧
      Z.to_nat (instruction_pointer i) ∈ covered cov' a ∧
      ∀ b, b ≠ a → covered cov' b = covered cov b.
Proof.
  intros code a. destruct (disassemble (length code) code) as (l & tail & El & Hl & Ht); [done|].
  exists (fall_off l tail). split; [by rewrite El; apply fall_off_range|]. intros i cov Hf Hr Hcov cov'.
  destruct (frame_on_code c l tail i El Hl Ht Hf) as [Hc Hon]. destruct (Hon Hr) as (pc & Hpc & Hin).
  assert (covered cov' a = {[pc]} ∪ covered cov a) as Ea.
  { unfold cov', covered, coverage_on_step, entry_insert. rewrite Hc, Hpc, Nat2Z.id. simpl. by rewrite lookup_insert_eq. }
  assert (covered cov' a ⊆ instructions_pc code ∪ {[fall_off l tail]}) as Hsub.
  { rewrite Ea, El. rewrite <- El. apply union_subseteq. split; [|done]. apply singleton_subseteq_l. apply elem_of_union.
    destruct Hin as [Hin| ->]; [left|right; by apply elem_of_singleton]. rewrite El. by apply instructions_pc_spec. }
  split; [done|]. split; [|split].
  - apply subseteq_size in Hsub. rewrite size_union_alt in Hsub.
    assert (size ({[fall_off l tail]} ∖ instructions_pc code) ≤ 1)%nat; [|lia].
    rewrite <- (size_singleton (C := gset nat) (fall_off l tail)). apply subseteq_size. set_solver.
  - rewrite Ea, Hpc, Nat2Z.id. set_solver.
  - intros b Hb. unfold cov', covered, coverage_on_step, entry_insert. rewrite Hc. simpl. by rewrite lookup_insert_ne.
Qed.
End frames.

(** The middlewares of the fuzzer observe frames without moving them. *)
Lemma coverage_keeps_place {E T} i (h : VMHost E) (s : T * InstructionCoverage) i' h' s' :
  mw_on_step coverage_middleware i h s = Some (i', h', s') → same_place i i'.
Proof. by intros [= <- _ _]. Qed.
Lemma concolic_keeps_place {E} `{Z3} i (h : VMHost E) s i' h' s' :
  mw_on_step concolic_middleware i h s = Some (i', h', s') → same_place i i'.
Proof. simpl. intros ([c sol] & _ & [= <- _ _])%bind_Some. done. Qed.
Lemma flashloan_keeps_place {E S} b (price : EVMAddress → S → option (Z * Z) * S) i (h : VMHost E) s i' h' s' :
  mw_on_step (flashloan_mw b price) i h s = Some (i', h', s') → same_place i i'.
Proof.
  simpl. unfold flashloan_on_step. destruct (is_op _ _); [|by intros [= <- _ _]]. cbv zeta.
  intros (v & _ & (t & _ & (ct & _ & (o & _ & (sz & _ & Hs)%bind_Some)%bind_Some)%bind_Some)%bind_Some)%bind_Some.
  destruct (_ <? 4); [by injection Hs as <- _ _|].
  apply bind_Some in Hs as (data & _ & (sel & _ & ([h1 s1] & _ & [= <- _ _])%bind_Some)%bind_Some). done.
Qed.

(** ** Examples *)

#[export] Instance revm_config_place : KeepsPlace revm_config.
Proof. intros m i h s i' h' s' [?|[ty ->]]; [done|]. by intros [= <- _ _]. Qed.

(** One round of the frame, on the host of the examples *)
Definition toy_round (i : Interpreter) : option Interpreter :=
  '(i, h, s) ← host_step revm_config i toy_host 0;
  '(i, _, _) ← revm_eval (λ _, 0) false (call revm_config (run_inspect revm_config (revm_eval (λ _, 0) false) 5))
    (create revm_config (run_inspect revm_config (revm_eval (λ _, 0) false) 5)) i h s;
  Some i.

Lemma toy_round_frame c i i' : frame (λ _, 0) false revm_config c i → instruction_result i = Continue →
  toy_round i = Some i' → frame (λ _, 0) false revm_config c i'.
Proof.
  intros Hf Hr. unfold toy_round. intros ([[i1 h1] s1] & E1 & E2)%bind_Some.
  apply bind_Some in E2 as ([[i2 h2] s2] & E2 & [= <-]). exact (frame_round _ _ _ _ 5 i _ _ _ _ _ _ _ _ Hf Hr E1 E2).
Qed.

(** A contract of one instruction: after it, execution stops on the padding. *)
Definition one_jumpdest : Contract := mkContract [] [x5b] (mkCallContext 7 1 7 0 SchemeCall).
Definition after_jumpdest : Interpreter := set_ip 1 (Interpreter_new one_jumpdest).

Lemma after_jumpdest_frame : frame (λ _, 0) false revm_config one_jumpdest after_jumpdest.
Proof. apply (toy_round_frame _ (Interpreter_new one_jumpdest)); [constructor|reflexivity|vm_compute; reflexivity]. Qed.

(** The coverage of its two steps *)
Definition jumpdest_coverage : InstructionCoverage :=
  coverage_on_step (Interpreter_new one_jumpdest) (coverage_on_insert [x5b] 7 InstructionCoverage_new).

(** Two counters are covered of one instruction: the place after the code counts. *)
Lemma coverage_exceeds_total :
  total_instr (coverage_on_step after_jumpdest jumpdest_coverage) !! 7 = Some 1%nat ∧
  size (covered (coverage_on_step after_jumpdest jumpdest_coverage) 7) = 2%nat.
Proof. split; vm_compute; reflexivity. Qed.

Lemma covered_within_code_witness :
  ∃ end_pc, covered (coverage_on_step after_jumpdest jumpdest_coverage) 7 ⊆ instructions_pc [x5b] ∪ {[end_pc]} ∧ (1 ≤ end_pc)%nat.
Proof.
  destruct (covered_within_code (λ _, 0) false revm_config one_jumpdest) as (end_pc & Hr & Hc). exists end_pc.
  destruct (Hc (Interpreter_new one_jumpdest) (coverage_on_insert [x5b] 7 InstructionCoverage_new)) as (H1 & _);
    [constructor|reflexivity|vm_compute; set_solver|].
  destruct (Hc after_jumpdest jumpdest_coverage after_jumpdest_frame eq_refl H1) as (H2 & _).
  split; [exact H2|]. exact (proj1 Hr).
Defined.
