(* ===== verification/InputMutate.v ===== *)
(** * Mutation of inputs ([src/src/evm/input.rs], [src/src/evm/mutator.rs])

    [EVMInput::mutate], the mutators of the environment, and [FuzzMutator::mutate], which
    also swaps VM states and turns an input into a resumption of a suspended execution. *)
From S2P Require Import Prelude Types Expr Abi AbiLayout AbiTypes State MutationUtils AbiMutate F64 Corpus Scheduler Evm Host HostCall Vm.
#[local] Open Scope Z_scope.

(** ** Inputs *)

(** The fields of revm's [Env] that are mutated. *)
Record Env := mkEnv {
  basefee : EVMU256;
  timestamp : EVMU256;
  coinbase : EVMAddress;
  gas_limit : EVMU256;
  number : EVMU256;
  chain_id : EVMU256
}.

(** [struct EVMInput] *)
Record EVMInput := mkEVMInput {
  ei_caller : EVMAddress;
  ei_contract : EVMAddress;
  ei_data : option BoxedABI;
  ei_sstate : StagedVMState;
  ei_sstate_idx : Z;
  ei_txn_value : option EVMU256;
  ei_step : bool;
  ei_env : Env;
  ei_access_pattern : AccessPattern;
  ei_direct_data : list byte;
  ei_repeat : Z;
  ei_is_cuda : bool
}.

Definition with_caller (x : EVMInput) v := mkEVMInput v (ei_contract x) (ei_data x) (ei_sstate x)
  (ei_sstate_idx x) (ei_txn_value x) (ei_step x) (ei_env x) (ei_access_pattern x) (ei_direct_data x)
  (ei_repeat x) (ei_is_cuda x).
Definition with_data (x : EVMInput) v := mkEVMInput (ei_caller x) (ei_contract x) v (ei_sstate x)
  (ei_sstate_idx x) (ei_txn_value x) (ei_step x) (ei_env x) (ei_access_pattern x) (ei_direct_data x)
  (ei_repeat x) (ei_is_cuda x).
Definition set_staged_state (x : EVMInput) s idx := mkEVMInput (ei_caller x) (ei_contract x) (ei_data x) s
  idx (ei_txn_value x) (ei_step x) (ei_env x) (ei_access_pattern x) (ei_direct_data x)
  (ei_repeat x) (ei_is_cuda x).
Definition with_txn_value (x : EVMInput) v := mkEVMInput (ei_caller x) (ei_contract x) (ei_data x) (ei_sstate x)
  (ei_sstate_idx x) v (ei_step x) (ei_env x) (ei_access_pattern x) (ei_direct_data x)
  (ei_repeat x) (ei_is_cuda x).
(** [set_step] also clears the value. *)
Definition set_step (x : EVMInput) gate := mkEVMInput (ei_caller x) (ei_contract x) (ei_data x) (ei_sstate x)
  (ei_sstate_idx x) None gate (ei_env x) (ei_access_pattern x) (ei_direct_data x)
  (ei_repeat x) (ei_is_cuda x).
Definition with_env (x : EVMInput) v := mkEVMInput (ei_caller x) (ei_contract x) (ei_data x) (ei_sstate x)
  (ei_sstate_idx x) (ei_txn_value x) (ei_step x) v (ei_access_pattern x) (ei_direct_data x)
  (ei_repeat x) (ei_is_cuda x).

(** [set_as_post_exec] *)
Definition set_as_post_exec (x : EVMInput) (out_size : Z) : EVMInput :=
  with_data x (Some (BoxedABI_new (AUnknown (BoxedABI_new AEmpty) (Z.to_nat out_size)))).

(** What the executor reads. *)
Definition vm_input (x : EVMInput) : VMInput Env :=
  mkVMInput _ (ss_state (ei_sstate x)) (ei_step x) (ei_caller x) (ei_contract x) (ei_data x) (ei_direct_data x)
    (ei_txn_value x) (ei_repeat x) (ei_env x) (ei_access_pattern x).

(** [self.get_state().get(&self.get_contract())], as the entries in iteration order. *)
Definition vm_slots_of (x : EVMInput) : option (list (EVMU256 * EVMU256)) :=
  map_to_list <$> (es_state (ss_state (ei_sstate x)) !! ei_contract x).

Section mutate.
Context {R : Type} `{Libafl R}.
Implicit Types (st : FuzzState R) (x : EVMInput).

Definition ires : Type := option (MutationResult * FuzzState R * EVMInput).

(** ** The environment *)

(** [impl_env_mutator_u256!] *)
Definition mutate_u256 x (v : EVMU256) (set : EVMU256 → EVMInput) st : ires :=
  '(res, st, bytes) ← byte_mutator (vm_slots_of x) st (to_be_bytes v);
  if decide (res = Skipped) then Some (res, st, x)
  else v ← try_from_be_slice bytes; Some (res, st, set v).

(** [EVMInput::caller] *)
Definition mutate_caller x st : ires :=
  '(caller, st) ← get_rand_caller st;
  if caller =? ei_caller x then Some (Skipped, st, x) else Some (Mutated, st, with_caller x caller).

(** [impl_env_mutator_h160!(coinbase, block)]: compared with the caller *)
Definition mutate_coinbase x st : ires :=
  '(addr, st) ← get_rand_caller st;
  if addr =? ei_caller x then Some (Skipped, st, x)
  else
    let e := ei_env x in
    Some (Mutated, st, with_env x (mkEnv (basefee e) (timestamp e) addr (gas_limit e) (number e) (chain_id e))).

(** [EVMInput::call_value]: the first sixteen bytes are cleared. *)
Definition mutate_call_value x st : ires :=
  '(res, st, bytes) ← byte_mutator (vm_slots_of x) st (to_be_bytes (default 0 (ei_txn_value x)));
  if decide (res = Skipped) then Some (res, st, x)
  else
    bytes ← copy_at bytes 0 (replicate 16 x00);
    v ← try_from_be_slice bytes;
    Some (res, st, with_txn_value x (Some v)).

(** The mutators that [mutate_env_with_access_pattern] may pick. *)
Inductive env_mutator :=
| MCaller | MBalance | MCallValue | MGasPrice | MBasefee | MTimestamp | MCoinbase | MGasLimit | MNumber
| MChainId | MPrevrandao.

Definition env_mutators x : list env_mutator :=
  let ap := ei_access_pattern x in
  let add (b : bool) m := if b then [m] else [] in
  add (ap_caller ap) MCaller ++
  add (bool_decide (0 < length (ap_balance ap))%nat) MBalance ++
  add (ap_call_value ap || bool_decide (is_Some (ei_txn_value x))) MCallValue ++
  add (ap_gas_price ap) MGasPrice ++
  add (ap_basefee ap) MBasefee ++
  add (ap_timestamp ap) MTimestamp ++
  add (ap_coinbase ap) MCoinbase ++
  add (ap_gas_limit ap) MGasLimit ++
  add (ap_number ap) MNumber ++
  add (ap_chain_id ap) MChainId ++
  add (ap_prevrandao ap) MPrevrandao.

Definition run_env_mutator (m : env_mutator) x st : ires :=
  let e := ei_env x in
  match m with
  | MCaller => mutate_caller x st
  | MCallValue => mutate_call_value x st
  | MBasefee => mutate_u256 x (basefee e) (λ v, with_env x
      (mkEnv v (timestamp e) (coinbase e) (gas_limit e) (number e) (chain_id e))) st
  | MTimestamp => mutate_u256 x (timestamp e) (λ v, with_env x
      (mkEnv (basefee e) v (coinbase e) (gas_limit e) (number e) (chain_id e))) st
  | MCoinbase => mutate_coinbase x st
  | MGasLimit => mutate_u256 x (gas_limit e) (λ v, with_env x
      (mkEnv (basefee e) (timestamp e) (coinbase e) v (number e) (chain_id e))) st
  | MNumber => mutate_u256 x (number e) (λ v, with_env x
      (mkEnv (basefee e) (timestamp e) (coinbase e) (gas_limit e) v (chain_id e))) st
  | MChainId => mutate_u256 x (chain_id e) (λ v, with_env x
      (mkEnv (basefee e) (timestamp e) (coinbase e) (gas_limit e) (number e) v)) st
  | MBalance | MGasPrice | MPrevrandao => Some (Skipped, st, x)
  end.

(** [mutate_env_with_access_pattern] *)
Definition mutate_env_with_access_pattern x st : ires :=
  let mutators := env_mutators x in
  if decide (mutators = []) then Some (Skipped, st, x)
  else
    let '(idx, st) := st_below st (Z.of_nat (length mutators)) in
    m ← mutators !! Z.to_nat idx;
    run_env_mutator m x st.

(** ** The input *)

(** [EVMInput::mutate]; the generator is drawn only when the input is not from the GPU. *)
Definition input_mutate x st : ires :=
  let '(draw, st) := if ei_is_cuda x then (0, st) else st_next st in
  if negb (ei_is_cuda x) && ((87 <? draw mod 100) || bool_decide (ei_data x = None))
  then mutate_env_with_access_pattern x st
  else
    match ei_data x with
    | Some d =>
        '(res, st, d) ← boxed_mutate_with_vm_slots st d (vm_slots_of x);
        Some (res, st, with_data x (Some d))
    | None => Some (Skipped, st, x)
    end.

(** ** The fuzz mutator *)

(** The fuzzing state: the pools and the corpus of VM states with its scheduler. *)
Record MutState := mkMutState { ms_fuzz : FuzzState R; ms_infant : InfantStateState StagedVMState R }.
Definition mres' : Type := option (MutationResult * MutState * EVMInput).

Definition with_fuzz (ms : MutState) (st : FuzzState R) : MutState := mkMutState st (ms_infant ms).

Definition mutate_bytes (ms : MutState) x : mres' :=
  '(res, st, x) ← input_mutate x (ms_fuzz ms); Some (res, with_fuzz ms st, x).

(** Swapping the VM state for another one of the corpus. *)
Definition cross_over (ms : MutState) x : mres' :=
  '(idx, s, infant) ← get_infant_state (ms_infant ms);
  let ms := mkMutState (ms_fuzz ms) infant in
  if idx =? ei_sstate_idx x then Some (Skipped, ms, x)
  else Some (Mutated, ms, set_staged_state x s idx).

(** [for _ in 0..n { input.mutate(state); }] *)
Fixpoint mutate_times (n : nat) (ms : MutState) x : option (MutState * EVMInput) :=
  match n with
  | O => Some (ms, x)
  | S n => '(_, ms, x) ← mutate_bytes ms x; mutate_times n ms x
  end.

(** Bytes or VM state, by default. *)
Definition mutate_default (ms : MutState) x : mres' :=
  let '(v, st) := st_below (ms_fuzz ms) 100 in
  let ms := with_fuzz ms st in
  if v <=? 20 then cross_over ms x else mutate_bytes ms x.

(** The closure [mutator]. *)
Definition mutate_once (havoc_times : nat) (ms : MutState) x : mres' :=
  if ei_step x then mutate_bytes ms x
  else if has_post_execution (ss_state (ei_sstate x)) then
    let '(v, st) := st_below (ms_fuzz ms) 100 in
    let ms := with_fuzz ms st in
    if v <? 60 then
      let x := set_step x true in
      len ← get_post_execution_needed_len (ss_state (ei_sstate x));
      '(ms, x) ← mutate_times (havoc_times - 1) ms (set_as_post_exec x len);
      Some (Mutated, ms, x)
    else mutate_default ms x
  else mutate_default ms x.

(** [for _ in 0..havoc_times { if mutator() == Mutated { res = Mutated; } }] *)
Fixpoint havoc (f : MutState → EVMInput → mres') (n : nat) (res : MutationResult) (ms : MutState) x : mres' :=
  match n with
  | O => Some (res, ms, x)
  | S n =>
      '(r, ms, x) ← f ms x;
      havoc f n (if decide (r = Mutated) then Mutated else res) ms x
  end.

(** [while res != Mutated && tries < 20]: [n] tries are left. *)
Fixpoint retry (round : MutState → EVMInput → mres') (n : nat) (ms : MutState) x : mres' :=
  match n with
  | O => Some (Skipped, ms, x)
  | S n =>
      '(r, ms, x) ← round ms x;
      if decide (r = Mutated) then Some (Mutated, ms, x) else retry round n ms x
  end.

(** [FuzzMutator::mutate] *)
Definition fuzz_mutate (stage_idx : Z) (ms : MutState) x : mres' :=
  '(ms, x) ← (if ss_initialized (ei_sstate x) then Some (ms, x)
              else
                '(idx, s, infant) ← get_infant_state (ms_infant ms);
                Some (mkMutState (ms_fuzz ms) infant, set_staged_state x s idx));
  let '(v, st) := st_below (ms_fuzz ms) 100 in
  let '(havoc_times, st) := if v <? 60 then let '(n, st) := st_below st 10 in (Z.to_nat (n + 1), st)
                            else (1%nat, st) in
  let ms := with_fuzz ms st in
  if stage_idx =? -1 then retry mutate_bytes 20 ms x
  else retry (havoc (mutate_once havoc_times) havoc_times Skipped) 20 ms x.
End mutate.
