(* ===== verification/InputMutateProps.v ===== *)
(** * What mutation of an input keeps *)
From S2P Require Import Prelude Types Expr Abi AbiLayout AbiTypes State MutationUtils AbiMutate F64 Corpus Scheduler SchedulerInv Evm Host HostProps HostCall HostCallProps Vm InputMutate.
#[local] Open Scope Z_scope.

(** The transaction value fits in sixteen bytes. *)
Definition value_ok (x : EVMInput) : Prop := ∀ v, ei_txn_value x = Some v → 0 ≤ v < 2 ^ 128.

(** A step input has something to resume. *)
Definition step_ok (x : EVMInput) : Prop :=
  ei_step x = true → has_post_execution (ss_state (ei_sstate x)) = true.

(** How mutation may change an input, with a corpus [c] of VM states. *)
Record evolves (c : IndexedInMemoryCorpus StagedVMState) (x x' : EVMInput) : Prop := mkEvolves {
  ev_contract : ei_contract x' = ei_contract x;
  ev_step : ei_step x = true → ei_step x' = true ∧ ei_sstate x' = ei_sstate x ∧ ei_sstate_idx x' = ei_sstate_idx x;
  ev_state : (ei_sstate x' = ei_sstate x ∧ ei_sstate_idx x' = ei_sstate_idx x) ∨
             corpus_get c (ei_sstate_idx x') = Ok (ei_sstate x');
  ev_new_step : ei_step x = false → step_ok x';
  ev_value : value_ok x → value_ok x'
}.

#[export] Instance evolves_preorder c : PreOrder (evolves c).
Proof.
  split.
  - intros x. split; try done; [by left|]. intros Hs Ht. by rewrite Hs in Ht.
  - intros x y z [C1 S1 T1 N1 V1] [C2 S2 T2 N2 V2]. split.
    + congruence.
    + intros Hs. destruct (S1 Hs) as (Hs' & E1 & I1). destruct (S2 Hs') as (Hs2 & E2 & I2).
      split; [done|]. split; congruence.
    + destruct T2 as [[E2 I2]|?]; [|by right]. destruct T1 as [[E1 I1]|T1]; [left; split; congruence|right; congruence].
    + intros Hs. destruct (ei_step y) eqn:Ey; [|by apply N2].
      destruct (S2 eq_refl) as (_ & E2 & _). intros _. rewrite E2. by apply (N1 Hs).
    + auto.
Qed.

(** Changes that leave state, step and contract alone. *)
Record same_state (x x' : EVMInput) : Prop := mkSameState {
  same_contract : ei_contract x' = ei_contract x;
  same_step : ei_step x' = ei_step x;
  same_sstate : ei_sstate x' = ei_sstate x;
  same_idx : ei_sstate_idx x' = ei_sstate_idx x;
  same_value : value_ok x → value_ok x';
  same_paid : is_Some (ei_txn_value x) → is_Some (ei_txn_value x')
}.

Lemma same_state_evolves c x x' : same_state x x' → evolves c x x'.
Proof.
  intros [C S T I V _]. split; [done| |by left| |done].
  - intros Hs. by rewrite S.
  - intros Hs Ht. congruence.
Qed.

Section props.
Context {R : Type} `{Libafl R} `{!RandLaws R} `{!LibaflLaws R} `{HashOrder}.
Implicit Types (st : FuzzState R) (x : EVMInput) (ms : @MutState R).

Lemma call_value_bounded bytes cleared v :
  length bytes = 32%nat → copy_at bytes 0 (replicate 16 x00) = Some cleared →
  try_from_be_slice cleared = Some v → 0 ≤ v < 2 ^ 128.
Proof.
  intros Hl Hc. unfold copy_at in Hc. rewrite length_replicate in Hc. case_decide; [|done].
  assert (cleared = replicate 16 x00 ++ drop 16 bytes) as -> by (by injection Hc).
  unfold try_from_be_slice. case_decide; [|done]. intros Hv. apply (inj Some) in Hv. subst v.
  rewrite be2z_app, be2z_zeros. pose proof (be2z_range (drop 16 bytes)) as Hr.
  rewrite length_drop, Hl in Hr. exact Hr.
Qed.

Lemma run_env_mutator_same m x st r st' x' :
  run_env_mutator m x st = Some (r, st', x') → same_state x x'.
Proof.
  assert (same_state x x) as Hrefl by done.
  assert (∀ v e, mutate_u256 x v (λ v, with_env x (e v)) st = Some (r, st', x') → same_state x x') as Hu.
  { intros v e. unfold mutate_u256. intros ([[r1 st1] b] & _ & E2)%bind_Some.
    case_decide; [by injection E2 as _ _ <-|]. apply bind_Some in E2 as (w & _ & [= _ _ <-]). done. }
  destruct m; cbn [run_env_mutator]; try (by intros [= _ _ <-]); try apply Hu.
  - unfold mutate_caller. intros ([a st1] & _ & E2)%bind_Some. by destruct (a =? _); injection E2 as _ _ <-.
  - unfold mutate_call_value. intros ([[r1 st1] b] & E1 & E2)%bind_Some.
    assert (length b = 32%nat) as Hlen.
    { refine (byte_mutator_stays (vm_slots_of x) 32 _ _ _ _ _ _ E1). apply length_z2be. }
    case_decide; [by injection E2 as _ _ <-|]. apply bind_Some in E2 as (b1 & Eb & E2).
    apply bind_Some in E2 as (v & Ev & [= _ _ <-]). split; try done.
    intros _ w [= <-]. by apply (call_value_bounded b b1 v).
  - unfold mutate_coinbase. intros ([a st1] & _ & E2)%bind_Some. by destruct (a =? _); injection E2 as _ _ <-.
Qed.

Lemma input_mutate_same x st r st' x' : input_mutate x st = Some (r, st', x') → same_state x x'.
Proof.
  unfold input_mutate. destruct (if ei_is_cuda x then _ else _) as [draw st1].
  destruct (_ && _).
  - unfold mutate_env_with_access_pattern. case_decide; [by intros [= _ _ <-]|].
    destruct (st_below st1 _) as [idx st2]. intros (m & _ & E2)%bind_Some. by apply run_env_mutator_same in E2.
  - destruct (ei_data x); [|by intros [= _ _ <-]].
    by intros ([[r1 st2] d] & _ & [= _ _ <-])%bind_Some.
Qed.

(** A selected state is in the corpus, which the selection leaves alone. *)
Lemma get_infant_state_corpus (st st' : InfantStateState StagedVMState R) idx s :
  get_infant_state st = Some (idx, s, st') →
  infant_state st' = infant_state st ∧ corpus_get (infant_state st) idx = Ok s.
Proof.
  unfold get_infant_state. intros ([i st1] & En & E2)%bind_Some.
  assert (infant_state st1 = infant_state st) as Hc.
  { unfold next in En. destruct (rand_below _ _) as [v rd]. apply bind_Some in En as (d & _ & En).
    apply bind_Some in En as (j & _ & En). apply bind_Some in En as (k & _ & En).
    apply bind_Some in En as (w & _ & [= _ <-]). done. }
  rewrite Hc in E2. destruct (corpus_get (infant_state st) i) eqn:Eg; try done.
  injection E2 as <- <- <-. done.
Qed.

(** Steps of the fuzz mutator: the corpus stays, the scheduler only makes its own steps, the
    input evolves. *)
Record mutates (ms : MutState) (x : EVMInput) (ms' : MutState) (x' : EVMInput) : Prop := mkMutates {
  mu_corpus : infant_state (ms_infant ms') = infant_state (ms_infant ms);
  mu_sched : rtc sched_step (ms_infant ms) (ms_infant ms');
  mu_evolves : evolves (infant_state (ms_infant ms)) x x'
}.

Lemma mutates_trans ms1 x1 ms2 x2 ms3 x3 :
  mutates ms1 x1 ms2 x2 → mutates ms2 x2 ms3 x3 → mutates ms1 x1 ms3 x3.
Proof.
  intros [C1 S1 E1] [C2 S2 E2]. rewrite C1 in C2, E2.
  split; [done|by etransitivity|by etransitivity].
Qed.

(** A step that leaves the scheduler alone *)
Lemma mutates_quiet ms x ms' x' :
  ms_infant ms' = ms_infant ms → evolves (infant_state (ms_infant ms)) x x' → mutates ms x ms' x'.
Proof. intros E Hev. split; [by rewrite E|by rewrite E|done]. Qed.

Definition sound (f : MutState → EVMInput → mres') : Prop := ∀ ms x r ms' x',
  f ms x = Some (r, ms', x') → mutates ms x ms' x'.

Lemma mutate_bytes_sound : sound mutate_bytes.
Proof.
  intros ms x r ms' x'. unfold mutate_bytes. intros ([[r1 st1] x1] & E1 & [= _ <- <-])%bind_Some.
  apply mutates_quiet; [done|]. apply same_state_evolves. by apply input_mutate_same in E1.
Qed.

Lemma mutate_times_sound n : ∀ ms x ms' x', mutate_times n ms x = Some (ms', x') → mutates ms x ms' x'.
Proof.
  induction n as [|n IH]; intros ms x ms' x'; cbn [mutate_times]; [intros [= <- <-]; by apply mutates_quiet|].
  intros ([[r ms1] x1] & E1%mutate_bytes_sound & E2%IH)%bind_Some. by eapply mutates_trans.
Qed.

(** Swapping the state of an input that is not a resumption. *)
Lemma swap_evolves c x s idx :
  ei_step x = false → corpus_get c idx = Ok s → evolves c x (set_staged_state x s idx).
Proof.
  intros Hs Hc. split.
  - done.
  - by rewrite Hs.
  - by right.
  - intros _ Ht. cbn in Ht. by rewrite Hs in Ht.
  - done.
Qed.

(** Selecting a state for an input *)
Lemma select_mutates (ms : MutState) fuzz x idx s infant x' :
  get_infant_state (ms_infant ms) = Some (idx, s, infant) →
  (corpus_get (infant_state (ms_infant ms)) idx = Ok s → evolves (infant_state (ms_infant ms)) x x') →
  mutates ms x (mkMutState fuzz infant) x'.
Proof.
  intros E Hev. destruct (get_infant_state_corpus _ _ _ _ E) as [Hc Hg].
  split; [done|eapply rtc_once, step_get; exact E|by apply Hev].
Qed.

Lemma mutate_default_sound ms x r ms' x' :
  ei_step x = false → mutate_default ms x = Some (r, ms', x') → mutates ms x ms' x'.
Proof.
  intros Hs. unfold mutate_default. destruct (st_below _ _) as [v st]. destruct (v <=? 20).
  - unfold cross_over. intros ([[idx s] infant] & E1 & E2)%bind_Some.
    destruct (idx =? _); injection E2 as _ <- <-; (eapply select_mutates; [exact E1|]); intros Hg;
      [reflexivity|by apply swap_evolves].
  - intros E1%mutate_bytes_sound. by destruct E1.
Qed.

Lemma mutate_once_sound n : sound (mutate_once n).
Proof.
  intros ms x r ms' x'. unfold mutate_once. destruct (ei_step x) eqn:Hs; [apply mutate_bytes_sound|].
  destruct (has_post_execution _) eqn:Hp; [|by apply mutate_default_sound].
  destruct (st_below _ _) as [v st].
  destruct (v <? 60); [|intros E1; by apply mutate_default_sound in E1 as [C1 S1 E1]].
  intros (len & _ & E2)%bind_Some. apply bind_Some in E2 as ([ms1 x1] & [C1 S1 E1]%mutate_times_sound & [= _ <- <-]).
  split; [done|done|]. etransitivity; [|exact E1]. split.
  - done.
  - by rewrite Hs.
  - by left.
  - by intros _ _.
  - by intros _ w Hw.
Qed.

Lemma havoc_sound f n : sound f → ∀ res, sound (havoc f n res).
Proof.
  intros Hf. induction n as [|n IH]; intros res ms x r ms' x'; cbn [havoc];
    [intros [= _ <- <-]; by apply mutates_quiet|].
  intros ([[r1 ms1] x1] & E1%Hf & E2%IH)%bind_Some. by eapply mutates_trans.
Qed.

Lemma retry_sound f n : sound f → sound (retry f n).
Proof.
  intros Hf. induction n as [|n IH]; intros ms x r ms' x'; cbn [retry]; [intros [= _ <- <-]; by apply mutates_quiet|].
  intros ([[r1 ms1] x1] & E1%Hf & E2)%bind_Some. case_decide; [by injection E2 as _ <- <-|].
  apply IH in E2. by eapply mutates_trans.
Qed.

(** The state of an input is the one of the corpus under its index, unless none was chosen
    yet; resumptions have something to resume. *)
Record input_ok (c : IndexedInMemoryCorpus StagedVMState) (x : EVMInput) : Prop := mkInputOk {
  io_state : ss_initialized (ei_sstate x) = true → corpus_get c (ei_sstate_idx x) = Ok (ei_sstate x);
  io_fresh : ss_initialized (ei_sstate x) = false → ei_step x = false;
  io_step : step_ok x
}.

Lemma fuzz_mutate_spec stage ms x r ms' x' :
  let c := infant_state (ms_infant ms) in
  fuzz_mutate stage ms x = Some (r, ms', x') → input_ok c x →
  mutates ms x ms' x' ∧ corpus_get c (ei_sstate_idx x') = Ok (ei_sstate x') ∧ step_ok x'.
Proof.
  intros c E [Hin Hun Hstep]. unfold fuzz_mutate in E. apply bind_Some in E as ([ms1 x1] & E1 & E2).
  assert (mutates ms x ms1 x1 ∧ corpus_get c (ei_sstate_idx x1) = Ok (ei_sstate x1) ∧ step_ok x1) as (M1 & Hg1 & Hs1).
  { destruct (ss_initialized (ei_sstate x)) eqn:Hi.
    - injection E1 as <- <-. split; [by apply mutates_quiet|]. split; [by apply Hin|done].
    - apply bind_Some in E1 as ([[idx s] inf] & Eg & [= <- <-]).
      destruct (get_infant_state_corpus _ _ _ _ Eg) as [_ Hg].
      pose proof (swap_evolves c x s idx (Hun eq_refl) Hg) as Hev.
      split; [by eapply select_mutates|]. split; [done|]. by apply (ev_new_step _ _ _ Hev), Hun. }
  destruct (st_below (ms_fuzz ms1) 100) as [v st]. destruct (if v <? 60 then _ else _) as [n st2].
  assert (mutates (with_fuzz ms1 st2) x1 ms' x') as M2.
  { destruct (stage =? -1); [by eapply (retry_sound _ _ mutate_bytes_sound)|].
    by eapply (retry_sound _ _ (havoc_sound _ _ (mutate_once_sound n) Skipped)). }
  assert (mutates ms1 x1 ms' x') as M2' by (by destruct M2).
  pose proof (mu_evolves _ _ _ _ M2') as Ev2. rewrite (mu_corpus _ _ _ _ M1) in Ev2. fold c in Ev2.
  split; [by eapply mutates_trans|]. split.
  - destruct (ev_state _ _ _ Ev2) as [[Es Ei]|?]; [congruence|done].
  - destruct (ei_step x1) eqn:Hst; [|by apply (ev_new_step _ _ _ Ev2)].
    destruct (ev_step _ _ _ Ev2 Hst) as (_ & Es & _). intros _. rewrite Es. by apply Hs1.
Qed.

(** C18. Mutation keeps inputs executable: from an input whose VM state is a state of the
    corpus (or not yet chosen), [FuzzMutator::mutate] yields one whose VM state is a state
    of the corpus under the input's index, for the same contract; an input that resumes a
    suspended execution keeps its state and stays one, and only an input whose state has a
    suspended execution becomes one, so the executor always finds a frame to resume; the
    value sent stays below 2^128; and the corpus is unchanged. *)
Theorem fuzz_mutate_keeps_executable stage ms x r ms' x' :
  let c := infant_state (ms_infant ms) in
  fuzz_mutate stage ms x = Some (r, ms', x') →
  (ss_initialized (ei_sstate x) = true → corpus_get c (ei_sstate_idx x) = Ok (ei_sstate x)) →
  (ss_initialized (ei_sstate x) = false → ei_step x = false) → step_ok x → value_ok x →
  infant_state (ms_infant ms') = c ∧
  corpus_get c (ei_sstate_idx x') = Ok (ei_sstate x') ∧ ei_contract x' = ei_contract x ∧
  step_ok x' ∧ value_ok x' ∧
  (ei_step x = true → ei_step x' = true ∧ ei_sstate_idx x' = ei_sstate_idx x) ∧
  (in_step (vm_input x') = true → is_Some (last (post_execution (in_state (vm_input x'))))).
Proof.
  intros c E Hin Hun Hstep Hval. destruct (fuzz_mutate_spec stage ms x r ms' x' E) as ([Hc _ Hev] & Hg & Hs'); [by split|].
  split; [done|]. split; [done|]. split; [apply Hev|]. split; [done|]. split; [by apply Hev|]. split.
  - intros Hst. by destruct (ev_step _ _ _ Hev Hst) as (? & _ & ?).
  - intros Hst. apply Hs' in Hst. unfold has_post_execution in Hst. apply bool_decide_eq_true in Hst.
    apply last_is_Some. cbn [vm_input in_state]. by destruct (post_execution _); [simpl in Hst; lia|].
Qed.
End props.

(** A corpus with one state, which has a suspended execution, and an input on it. *)
Definition leaked_state : StagedVMState :=
  new_with_state (set_post_execution EVMState_new [mkPostExec [3] [] 15 0 32 [] 8 9 8 0]).
Definition example_mut_state : @MutState Z :=
  mkMutState (add_caller (FuzzState_new 3) 9)
    (default (mkInfant corpus_new None 7 0)
       (snd <$> add_infant_state (mkInfant corpus_new None 7 0) leaked_state)).
Definition example_input : EVMInput :=
  mkEVMInput 9 8 None leaked_state 0 (Some 5) false (mkEnv 0 0 0 0 0 0) AccessPattern_new [] 1 false.

Lemma fuzz_mutate_keeps_executable_witness :
  ∃ r ms' x', fuzz_mutate 0 example_mut_state example_input = Some (r, ms', x') ∧
    ei_step x' = true ∧ step_ok x' ∧ value_ok x' ∧ ei_contract x' = 8 ∧
    is_Some (last (post_execution (in_state (vm_input x')))).
Proof.
  destruct (fuzz_mutate 0 example_mut_state example_input) as [[[r ms'] x']|] eqn:E.
  - assert (option_map (λ y, ei_step y.2) (fuzz_mutate 0 example_mut_state example_input) = Some true) as Hs
      by (vm_compute; reflexivity).
    rewrite E in Hs. injection Hs as Hs.
    destruct (fuzz_mutate_keeps_executable 0 example_mut_state example_input r ms' x' E)
      as (_ & _ & Hc & Hst & Hv & _ & Hl).
    + intros _. vm_compute. reflexivity.
    + intros Hf. vm_compute in Hf. discriminate Hf.
    + intros Hf. vm_compute in Hf. discriminate Hf.
    + intros v [= <-]. lia.
    + exists r, ms', x'. split; [reflexivity|]. split; [exact Hs|]. split; [exact Hst|]. split; [exact Hv|].
      split; [exact Hc|]. apply Hl. exact Hs.
  - exfalso.
    assert (option_map (λ y, ei_step y.2) (fuzz_mutate 0 example_mut_state example_input) = Some true) as Hs
      by (vm_compute; reflexivity).
    rewrite E in Hs. discriminate Hs.
Defined.
