(* ===== verification/Replay.v ===== *)
(** * Recording and replaying transactions

    [build_basic_txn] ([src/src/tracer.rs]) and [pretty_txn] ([src/src/evm/input.rs]) turn an
    executed input into the transaction of a trace; the replay of
    [src/src/fuzzers/evm_fuzzer.rs] reads the lines that [to_file_str] wrote back into
    inputs.  Features [flashloan_v2] off, [full_trace] on. *)
From S2P Require Import Prelude Types Expr Abi AbiLayout AbiParse SrcMap Tracer F64 Evm Host HostCall Vm InputMutate.
#[local] Open Scope Z_scope.

Section record.
Context `{Formats} (function_sig : sel4 → option str).

(** [{:?}] of an [Option<U256>] *)
Definition option_debug (v : option EVMU256) : str :=
  match v with Some v => lit "Some(" ++ u256_debug v ++ lit ")" | None => lit "None" end.

(** [EVMInput::pretty_txn] *)
Definition pretty_txn (x : EVMInput) : option (option str) :=
  match ei_data x with
  | Some d =>
      bytes ← boxed_get_bytes d;
      Some (Some (boxed_to_string function_sig d ++ lit " with " ++ option_debug (ei_txn_value x) ++ lit " ETH (" ++
        hex_encode bytes ++ lit ")"))
  | None => Some (Some (lit "ABI with " ++ option_debug (ei_txn_value x) ++ lit " ETH"))
  end.

(** [EVMState::get_flashloan] *)
Definition get_flashloan (s : EVMState) : str :=
  lit "earned: " ++ u512_debug (earned (flashloan_data s)) ++ lit ", owed: " ++ u512_debug (owed (flashloan_data s)).

(** [build_basic_txn] *)
Definition build_basic_txn (v : EVMInput) (res : ExecutionResult) : option BasicTxn :=
  data ← pretty_txn v;
  Some (mkTxn (ei_caller v) (ei_contract v) data (ei_data v) (ei_txn_value v)
    (get_flashloan (ss_state (er_new_state res))) (ei_direct_data v)
    (get_post_execution_len (ss_state (ei_sstate v))) (er_additional_info res)).

(** ** Replay *)

(** [parse::<u32>()] *)
Definition parse_u32 (s : str) : option Z := v ← parse_usize s; if v <? 2 ^ 32 then Some v else None.

(** The environment of a replayed input *)
Definition replay_env (warp_to : Z) : Env := mkEnv 0 (u64 (warp_to * 1000)) 0 0 warp_to 1.

Definition nonzero (v : EVMU256) : option EVMU256 := if decide (v = 0) then None else Some v.

(** The arm ["abi"]: the input and [CALL_UNTIL] *)
Definition replay_abi (vm_state : StagedVMState) (splitter : list str) : option (EVMInput * Z) :=
  caller ← (s ← splitter !! 1%nat; addr_from_str s);
  contract ← (s ← splitter !! 2%nat; addr_from_str s);
  input ← (s ← splitter !! 3%nat; hex_decode s);
  value ← (s ← splitter !! 4%nat; u256_from_dec s);
  _ ← splitter !! 5%nat;
  warp_to ← splitter !! 6%nat;
  repeat ← splitter !! 7%nat;
  reentrancy_call_limits ← splitter !! 8%nat;
  is_step ← splitter !! 9%nat;
  let direct_data := if decide (input = [x00]) then [] else input in
  Some (mkEVMInput caller contract None vm_state 0 (nonzero value) (default false (parse_bool is_step))
          (replay_env (default 0 (parse_usize warp_to))) AccessPattern_new direct_data
          (default 0 (parse_usize repeat)) false,
        default (2 ^ 32 - 1) (parse_u32 reentrancy_call_limits)).

(** The arm ["borrow"] *)
Definition replay_borrow (vm_state : StagedVMState) (splitter : list str) : option (EVMInput * Z) :=
  caller ← (s ← splitter !! 1%nat; addr_from_str s);
  contract ← (s ← splitter !! 2%nat; addr_from_str s);
  randomness ← (s ← splitter !! 3%nat; hex_decode s);
  value ← (s ← splitter !! 4%nat; u256_from_str s);
  _ ← splitter !! 5%nat;
  warp_to ← splitter !! 6%nat;
  Some (mkEVMInput caller contract None vm_state 0 (nonzero value) false
          (replay_env (default 0 (parse_usize warp_to))) AccessPattern_new [] 1 false, 2 ^ 32 - 1).

(** A line of the file: a panic is [None], a line that is skipped [Some None]. *)
Definition replay_line (vm_state : StagedVMState) (txn : str) : option (option (EVMInput * Z)) :=
  let splitter := split_on " " txn in
  if (length splitter <? 4)%nat then Some None
  else
    kind ← splitter !! 0%nat;
    if decide (kind = lit "abi") then x ← replay_abi vm_state splitter; Some (Some x)
    else if decide (kind = lit "borrow") then x ← replay_borrow vm_state splitter; Some (Some x)
    else None.

(** [for txn in transactions.split("\n")]; [execute] evaluates the input and yields the
    state of the next one. *)
Fixpoint replay_lines {W} (execute : EVMInput → Z → W → option (StagedVMState * W)) (vm_state : StagedVMState)
    (lines : list str) (w : W) : option (StagedVMState * W) :=
  match lines with
  | [] => Some (vm_state, w)
  | l :: lines =>
      x ← replay_line vm_state l;
      match x with
      | None => replay_lines execute vm_state lines w
      | Some (inp, call_until) =>
          '(vm_state, w) ← execute inp call_until w;
          replay_lines execute vm_state lines w
      end
  end.
Definition replay_file {W} (execute : EVMInput → Z → W → option (StagedVMState * W)) (vm_state : StagedVMState)
    (file : str) (w : W) : option (StagedVMState * W) :=
  replay_lines execute vm_state (split_on "010" file) w.
End record.
