(* ===== verification/ReplayProps.v ===== *)
(** * Recorded transactions replay *)
From S2P Require Import Prelude Types Expr Abi AbiLayout AbiParse SrcMap Tracer F64 Evm Host HostCall Vm InputMutate Replay.
#[local] Open Scope Z_scope.

(** What the tracer and the replay rely on of the formatting crates: parsing inverts
    printing, hexadecimal text consists of digits and lower-case letters up to [f], and no
    printed hash or number contains a space, a newline or one of the letters [u] and [r]. *)
Definition plain (s : str) : Prop := (" "%char ∉ s) ∧ ("010"%char ∉ s).
Class FormatLaws `{Formats} := {
  hex_round l : hex_decode (hex_encode l) = Some l;
  hex_plain l : plain (hex_encode l);
  hex_no_u l : "u"%char ∉ hex_encode l;
  zero_hex : hex_decode (lit "00") = Some [x00];
  addr_round a : is_address a → addr_from_str (addr_debug a) = Some a;
  addr_plain a : plain (addr_debug a);
  u256_round v : is_u256 v → u256_from_dec (u256_display v) = Some v;
  u256_plain v : plain (u256_display v);
  u256_no_u v : "u"%char ∉ u256_debug v;
  u256_no_r v : "r"%char ∉ u256_debug v
}.

(** ** Lines *)

Lemma plain_lit s : bool_decide (plain (lit s)) = true → plain (lit s).
Proof. apply bool_decide_eq_true_1. Qed.

Lemma plain_digits s : Forall is_digit s → plain s.
Proof.
  intros Hd. rewrite Forall_forall in Hd.
  split; intros Hin%Hd; [apply (is_digit_not _ " "%char Hin)|apply (is_digit_not _ "010"%char Hin)]; done.
Qed.

Lemma show_u64_plain n : 0 ≤ n → plain (show_u64 n).
Proof. intros Hn. apply plain_digits. by apply decimal_digits. Qed.

Lemma split_fields fs :
  Forall (λ f : str, " "%char ∉ f) fs → split_on " " (concat (map (λ f, f ++ lit " ") fs)) = fs ++ [[]].
Proof.
  induction 1 as [|f fs Hf _ IH]; [done|]. cbn [map concat]. rewrite <- app_assoc.
  change (lit " " ++ ?x) with (" "%char :: x). rewrite split_on_app by done. by rewrite IH.
Qed.

Lemma fields_no_newline fs : Forall plain fs → "010"%char ∉ concat (map (λ f, f ++ lit " ") fs).
Proof.
  induction 1 as [|f fs [_ Hf] _ IH]; [apply not_elem_of_nil|]. cbn [map concat]. rewrite !elem_of_app.
  intros [[?|Hs]|?]; [done| |done]. apply list_elem_of_singleton in Hs. discriminate Hs.
Qed.

Lemma split_lines ls :
  Forall (λ l : str, "010"%char ∉ l) ls → split_on "010" (concat (map (λ l, l ++ ["010"%char]) ls)) = ls ++ [[]].
Proof.
  induction 1 as [|l ls Hl _ IH]; [done|]. cbn [map concat]. rewrite <- app_assoc. cbn [app].
  rewrite split_on_app by done. by rewrite IH.
Qed.

Lemma parse_usize_nonneg s n : parse_usize s = Some n → 0 ≤ n.
Proof.
  unfold parse_usize. case_decide; [done|].
  generalize (match s with [] => [] | x :: s' => if decide (x = "+"%char) then s' else s end) as l.
  assert (∀ (l : str) acc m, 0 ≤ acc → foldM parse_digit acc l = Some m → 0 ≤ m) as Hl; [|intros l; by apply Hl].
  induction l as [|c l IH]; intros acc m Hacc; cbn [foldM]; [by intros [= <-]|].
  intros (acc' & E1 & E2)%bind_Some. eapply IH; [|exact E2].
  unfold parse_digit, digit_value in E1. apply bind_Some in E1 as (d & Ed & E1).
  destruct (_ && _) eqn:Hd; [|done]. injection Ed as <-. apply andb_true_iff in Hd as [Hd _].
  destruct (_ <? _); [|done]. injection E1 as <-. lia.
Qed.

Lemma liq_percent_nonneg d : 0 ≤ liq_percent d.
Proof.
  unfold liq_percent. destruct d as [d|]; [|done].
  destruct (parse_usize _) eqn:E; [|done]. by apply parse_usize_nonneg in E.
Qed.

Lemma parse_show n : 0 ≤ n < 256 → parse_u32 (show_u64 n) = Some n.
Proof.
  intros Hn. unfold parse_u32, parse_usize, show_u64.
  assert (Forall is_digit (decimal 20 n)) as Hd by (apply decimal_digits; lia).
  assert (foldM parse_digit 0 (decimal 20 n) = Some n) as Hp.
  { apply parse_decimal; [|unfold USIZE; lia]. assert (10 ^ Z.of_nat 20 > 256) by done. lia. }
  destruct (decimal 20 n) as [|c s] eqn:El; [by apply app_nil in El as [_ ?]|].
  rewrite Forall_cons in Hd. destruct Hd as [Hd _].
  rewrite (decide_False (P := c = "+"%char)) by (by apply (is_digit_not _ _ Hd)).
  rewrite decide_False by done. rewrite Hp, obind_Some. by rewrite (proj2 (Z.ltb_lt _ _)) by lia.
Qed.

(** ** The step flag *)

Lemma starts_with_spec p s : starts_with p s = true ↔ ∃ t, s = p ++ t.
Proof.
  revert s. induction p as [|x p IH]; intros s; [split; [by exists s|done]|].
  destruct s as [|y s]; cbn [starts_with].
  { split; [done|]. by intros [t Ht]. }
  rewrite andb_true_iff, bool_decide_eq_true, IH. split.
  - intros [-> [t ->]]. by exists t.
  - intros [t [= -> ->]]. split; [done|]. by exists t.
Qed.

Lemma contains_spec p s : contains p s = true ↔ ∃ a b, s = a ++ p ++ b.
Proof.
  induction s as [|x s IH]; cbn [contains]; rewrite orb_true_iff, starts_with_spec.
  - split.
    + intros [[t Ht]|?]; [|done]. by exists [], t.
    + intros (a & b & E). left. apply eq_sym, app_nil in E as [-> E]. apply app_nil in E as [-> ->]. by exists [].
  - rewrite IH. split.
    + intros [[t ->]|(a & b & ->)]; [by exists [], t|by exists (x :: a), b].
    + intros ([|y a] & b & E); [left; by exists b|]. injection E as -> ->. right. by exists a, b.
Qed.

(** A name without a space, followed by text without [u], does not contain the marker. *)
Lemma no_marker name rest :
  " "%char ∉ name → "u"%char ∉ rest → contains (lit "Stepping with return") (name ++ rest) = false.
Proof.
  intros Hn Hr. apply not_true_iff_false. rewrite contains_spec. intros (a & b & E).
  change (lit "Stepping with return") with (lit "Stepping" ++ lit " " ++ lit "with ret" ++ lit "u" ++ lit "rn") in E.
  assert (∃ p, name = (a ++ lit "Stepping" ++ lit " " ++ lit "with ret") ++ p) as [p ->].
  { assert (name ++ rest = (a ++ lit "Stepping" ++ lit " " ++ lit "with ret") ++ lit "u" ++ lit "rn" ++ b) as E2
      by (by rewrite E, <- !app_assoc).
    apply app_eq_inv in E2 as [(k & E1 & E2)|(k & E1 & E2)].
    - by exists k.
    - exfalso. apply Hr. rewrite E2. apply elem_of_app. right. by left. }
  apply Hn. rewrite !elem_of_app. left. right. right. left. by left.
Qed.

Lemma elem_of_join_comma c l : c ∈ join_comma l → c = ","%char ∨ ∃ s, s ∈ l ∧ c ∈ s.
Proof.
  induction l as [|x [|y l] IH]; cbn [join_comma].
  - by intros ?%elem_of_nil.
  - intros Hc. right. exists x. split; [by left|done].
  - rewrite !elem_of_app. intros [Hc|[Hc%list_elem_of_singleton|Hc]].
    + right. exists x. split; [by left|done].
    + by left.
    + destruct (IH Hc) as [?|(s & Hs & ?)]; [by left|]. right. exists s. split; [by right|done].
Qed.

(** A character that is not in a literal *)
Ltac not_in_lit H := exfalso; revert H; apply (bool_decide_eq_true_1 (_ ∉ _)); reflexivity.

Lemma vec_to_hex_no_u v : "u"%char ∉ vec_to_hex v.
Proof.
  unfold vec_to_hex. rewrite elem_of_app. intros [Hu|Hu].
  - not_in_lit Hu.
  - induction v as [|b v IH]; [by apply elem_of_nil in Hu|]. cbn [map concat] in Hu.
    rewrite elem_of_app in Hu. destruct Hu as [Hu|Hu]; [|by apply IH]. revert Hu. apply (bool_decide_eq_true_1 (_ ∉ _)).
    destruct b; reflexivity.
Qed.

Lemma abi_to_string_no_u : ∀ b, "u"%char ∉ abi_to_string b.
Proof.
  fix IH 1. intros [|data a d i|data m|data d|c s]; cbn [abi_to_string].
  - apply not_elem_of_nil.
  - apply vec_to_hex_no_u.
  - apply vec_to_hex_no_u.
  - rewrite !elem_of_app. intros [Hu|[Hu|Hu]]; try (apply list_elem_of_singleton in Hu; discriminate Hu).
    apply elem_of_join_comma in Hu as [?|(s & Hs & Hu)]; [done|]. revert s Hs Hu.
    induction data as [|[b f] data IHd]; intros s Hs; cbn [map] in Hs; [by apply elem_of_nil in Hs|].
    apply elem_of_cons in Hs as [->|Hs]; [apply IH|by apply IHd].
  - destruct c as [b f]. apply IH.
Qed.

Section replay.
Context `{FormatLaws} (function_sig : sel4 → option str).
Hypothesis names_plain : ∀ f s, function_sig f = Some s → " "%char ∉ s.

(** What an input asks the executor to do: caller, contract, call data, value, and whether
    a suspended execution is resumed.  The call data are those of [execute_abi]. *)
Definition calldata (x : EVMInput) : option (list byte) :=
  data ← to_bytes (vm_input x);
  Some (if decide (data = []) then ei_direct_data x else data).
Definition call_of (x : EVMInput) : option (EVMAddress * EVMAddress * list byte * EVMU256 * bool) :=
  data ← calldata x; Some (ei_caller x, ei_contract x, data, default 0 (ei_txn_value x), ei_step x).

(** An executed input and its transaction: a call with arguments, which resumes an execution
    exactly when its selector is zero, or a plain transfer, which resumes nothing and has no
    call data.  The executor reports a byte, if anything. *)
Definition recorded (x : EVMInput) (t : BasicTxn) : Prop :=
  ∃ res r, build_basic_txn function_sig x res = Some t ∧ default [0] (er_additional_info res) !! 0%nat = Some r ∧ 0 ≤ r < 256 ∧
    is_address (ei_caller x) ∧ is_address (ei_contract x) ∧ is_u256 (default 0 (ei_txn_value x)) ∧
    match ei_data x with
    | Some d => ei_step x = true ↔ boxed_function d = sel_zero
    | None => ei_step x = false ∧ ei_direct_data x = []
    end.

Lemma option_debug_no_u v : "u"%char ∉ option_debug v.
Proof.
  destruct v as [v|]; unfold option_debug; [|by apply (bool_decide_eq_true_1 (_ ∉ _))].
  rewrite !elem_of_app. intros [Hu|[Hu|Hu]]; [|by apply u256_no_u in Hu|].
  - not_in_lit Hu.
  - not_in_lit Hu.
Qed.

(** The flag of a line is the flag of the input. *)
Lemma step_flag x res t d :
  build_basic_txn function_sig x res = Some t → ei_data x = Some d →
  data_contains "Stepping with return" t = bool_decide (boxed_function d = sel_zero).
Proof.
  unfold build_basic_txn, pretty_txn. intros (o & E1 & E2)%bind_Some Hd. rewrite Hd in E1.
  apply Some_inj in E2 as <-.
  apply bind_Some in E1 as (bytes & _ & E1). apply Some_inj in E1 as <-. unfold data_contains. cbn [bt_data]. unfold boxed_to_string.
  case_decide as Hf.
  - rewrite bool_decide_true by done. apply contains_spec. exists [].
    eexists. cbn [app]. rewrite <- !app_assoc. change (lit "Stepping with return: ") with (lit "Stepping with return" ++ lit ": ").
    by rewrite <- !app_assoc.
  - rewrite bool_decide_false by done. rewrite <- app_assoc. apply no_marker.
    + destruct (function_sig _) eqn:Hn; cbn [default]; [by eapply names_plain|apply hex_plain].
    + rewrite !elem_of_app. intros [Hu|[Hu|[Hu|[Hu|[Hu|Hu]]]]].
      * by apply abi_to_string_no_u in Hu.
      * not_in_lit Hu.
      * by apply option_debug_no_u in Hu.
      * not_in_lit Hu.
      * by apply hex_no_u in Hu.
      * not_in_lit Hu.
Qed.

(** The text of a transfer has the marker of transfers, and not the one of purchases. *)
Lemma transfer_text v : let text := lit "ABI with " ++ option_debug v ++ lit " ETH" in
  contains (lit "ABI") text = true ∧ contains (lit "Borrow") text = false.
Proof.
  intros text. split; [apply contains_spec; exists [], (lit " with " ++ option_debug v ++ lit " ETH"); unfold text; by rewrite app_assoc|].
  apply not_true_iff_false. rewrite contains_spec. intros (a & b & E). assert ("r"%char ∈ text) as Hr.
  { rewrite E, !elem_of_app. right. left. change (lit "Borrow") with (lit "Bo" ++ lit "r" ++ lit "row"). rewrite !elem_of_app. right. left. by left. }
  unfold text in Hr. rewrite !elem_of_app in Hr. destruct Hr as [Hr|[Hr|Hr]]; [not_in_lit Hr| |not_in_lit Hr].
  destruct v as [v|]; unfold option_debug in Hr; [|not_in_lit Hr]. rewrite !elem_of_app in Hr.
  destruct Hr as [Hr|[Hr|Hr]]; [not_in_lit Hr|by apply u256_no_r in Hr|not_in_lit Hr].
Qed.

Lemma default_nonzero v : default 0 (nonzero v) = v.
Proof. unfold nonzero. case_decide; by subst. Qed.

(** The fields of a recorded transaction, and the input they are read back as *)
Definition reads_back (x : EVMInput) (t : BasicTxn) : Prop :=
  ∃ fs r, txn_fields t = Some fs ∧ Forall plain fs ∧ fs !! 0%nat = Some (lit "abi") ∧ (4 ≤ length fs)%nat ∧
    ∃ mk : StagedVMState → EVMInput, ∀ vm,
      replay_abi vm (fs ++ [[]]) = Some (mk vm, r) ∧ call_of (mk vm) = call_of x ∧ ei_sstate (mk vm) = vm.

(** Fields are plain. *)
Ltac plain_fields :=
  repeat (apply Forall_cons; split); try apply Forall_nil; try done; try (by apply plain_lit);
    try apply addr_plain; try apply hex_plain; try apply u256_plain; apply show_u64_plain; [apply liq_percent_nonneg|lia].

(** A transfer *)
Lemma transfer_fields x t : recorded x t → ei_data x = None → reads_back x t.
Proof.
  intros (res & r & Hb & Hi & Hr & Hc & Ht & Hv & Hs) Hd. rewrite Hd in Hs. destruct Hs as [Hs Hdir].
  unfold build_basic_txn, pretty_txn in Hb. rewrite Hd, obind_Some in Hb. apply Some_inj in Hb as <-.
  destruct (transfer_text (ei_txn_value x)) as [HA HB].
  eexists _, r. unfold txn_fields, reentrancy_info, data_contains.
  cbn [bt_data_abi bt_data bt_caller bt_contract bt_value bt_additional_info]. rewrite HA, HB, Hi, obind_Some. split; [done|].
  split; [plain_fields|]. split; [done|]. split; [simpl; lia|].
  exists (λ vm, mkEVMInput (ei_caller x) (ei_contract x) None vm 0 (nonzero (default 0 (ei_txn_value x))) false
    (replay_env 0) AccessPattern_new [] 1 false). intros vm. split; [|split; [|done]].
  - unfold replay_abi. cbn [app lookup list_lookup]. rewrite !obind_Some, !addr_round, u256_round by done.
    rewrite zero_hex, !obind_Some, (decide_True (P := [x00] = [x00])) by done. by rewrite parse_show.
  - unfold call_of, calldata, to_bytes, vm_input. cbn [in_data ei_data ei_direct_data ei_caller ei_contract ei_txn_value ei_step].
    rewrite Hd, Hdir, Hs, !obind_Some. by rewrite default_nonzero.
Qed.

Lemma recorded_fields x t : recorded x t → reads_back x t.
Proof.
  intros Hrec. destruct (ei_data x) as [d|] eqn:Hd; [|by apply transfer_fields].
  destruct Hrec as (res & r & Hb & Hi & Hr & Hc & Ht & Hv & Hs). rewrite Hd in Hs. pose proof (step_flag x res t d Hb Hd) as Hflag.
  unfold build_basic_txn, pretty_txn in Hb. rewrite Hd in Hb.
  apply bind_Some in Hb as (o & (bytes & Eb & E1)%bind_Some & E2). apply Some_inj in E1 as <-. apply Some_inj in E2 as <-.
  cbn [bt_data_abi bt_data bt_caller bt_contract bt_value bt_additional_info] in *.
  assert (bytes ≠ [] ∧ bytes ≠ [x00]) as [Hnil Hone].
  { unfold boxed_get_bytes in Eb. apply bind_Some in Eb as (e & _ & [= <-]). done. }
  eexists _, r. unfold txn_fields, reentrancy_info. cbn [bt_data_abi bt_data bt_caller bt_contract bt_value bt_additional_info].
  rewrite Hflag, Eb, Hi. rewrite !obind_Some. split; [done|].
  assert (plain (show_bool (bool_decide (boxed_function d = sel_zero)))) as Hb.
  { unfold show_bool. destruct (bool_decide _); by apply plain_lit. }
  split.
  { plain_fields. }
  split; [done|]. split; [simpl; lia|].
  exists (λ vm, mkEVMInput (ei_caller x) (ei_contract x) None vm 0 (nonzero (default 0 (ei_txn_value x))) (ei_step x)
    (replay_env 0) AccessPattern_new bytes 1 false). intros vm. split; [|split; [|done]].
  - unfold replay_abi. cbn [app lookup list_lookup]. rewrite !obind_Some, !addr_round, hex_round, u256_round by done.
    rewrite !obind_Some. rewrite (decide_False (P := bytes = [x00])) by done. rewrite parse_show by done.
    replace (default false (parse_bool _)) with (ei_step x); [done|].
    unfold show_bool. destruct (ei_step x) eqn:Es.
    + rewrite bool_decide_true by (by apply Hs). done.
    + rewrite bool_decide_false; [done|]. intros Hz. apply Hs in Hz. done.
  - unfold call_of, calldata, to_bytes, vm_input. cbn [in_data ei_data ei_direct_data ei_caller ei_contract ei_txn_value ei_step].
    rewrite Hd, Eb, !obind_Some. rewrite (decide_True (P := [] = [])) by done. rewrite (decide_False (P := bytes = [])) by done.
    by rewrite default_nonzero.
Qed.

Lemma replay_recorded_line t fs r vm :
  txn_fields t = Some fs → Forall plain fs → ∀ mk : EVMInput, replay_abi vm (fs ++ [[]]) = Some (mk, r) →
  fs !! 0%nat = Some (lit "abi") → (4 ≤ length fs)%nat →
  replay_line vm (concat (map (λ f, f ++ lit " ") fs)) = Some (Some (mk, r)).
Proof.
  intros Hf Hp mk Hr Hz Hl. unfold replay_line. rewrite split_fields.
  - rewrite (proj2 (Nat.ltb_ge _ _)) by (rewrite length_app; simpl; lia).
    rewrite lookup_app_l by lia. rewrite Hz, obind_Some, decide_True by done. by rewrite Hr.
  - eapply Forall_impl; [exact Hp|]. by intros f [? _].
Qed.


(** The lines of the transactions, and what they are read back as *)
Definition lines_replay (xs : list EVMInput) (ls : list str) (mks : list (StagedVMState → EVMInput * Z)) : Prop :=
  Forall (λ l : str, "010"%char ∉ l) ls ∧
  Forall2 (λ l mk, ∀ s, replay_line s l = Some (Some (mk s))) ls mks ∧
  Forall2 (λ x mk, ∀ s, call_of (mk s).1 = call_of x ∧ ei_sstate (mk s).1 = s) xs mks.

Lemma lines_replay_nil : lines_replay [] [] [].
Proof. repeat split; constructor. Qed.

Lemma lines_replay_app xs ls mks xs' ls' mks' :
  lines_replay xs ls mks → lines_replay xs' ls' mks' → lines_replay (xs ++ xs') (ls ++ ls') (mks ++ mks').
Proof. intros (? & ? & ?) (? & ? & ?). split; [by apply Forall_app|]. split; by apply Forall2_app. Qed.

Abbreviation with_newlines := (map (λ l : str, l ++ ["010"%char])).

Lemma recorded_lines xs ts : Forall2 recorded xs ts →
  ∃ ls mks, mapM_opt txn_line ts = Some (with_newlines ls) ∧ lines_replay xs ls mks.
Proof.
  induction 1 as [|x t xs ts Hx _ (ls & mks & Hl & Hn & Hr & Hc)]; [exists [], []; split; [done|apply lines_replay_nil]|].
  destruct (recorded_fields x t Hx) as (fs & r & Hf & Hp & Hz & H4 & mk & Hmk).
  exists (concat (map (λ f, f ++ lit " ") fs) :: ls), ((λ s, (mk s, r)) :: mks). split.
  { assert (txn_line t = Some (concat (map (λ f, f ++ lit " ") fs) ++ ["010"%char])) as Et by (unfold txn_line; by rewrite Hf).
    cbn [mapM_opt]. rewrite Et, obind_Some, Hl. done. }
  split; [by apply Forall_cons; split; [apply fields_no_newline|]|]. split; apply Forall2_cons; (split; [|done]).
  - intros s. eapply replay_recorded_line; try done. by apply Hmk.
  - intros s. apply Hmk.
Qed.

(** Reading lines back executes their inputs in order; the empty text after the last newline
    is skipped. *)
Lemma replay_lines_run {W} (execute : EVMInput → Z → W → option (StagedVMState * W)) xs ls mks vm w : lines_replay xs ls mks →
  replay_file execute vm (concat (with_newlines ls)) w = foldM (λ s mk, execute (mk s.1).1 (mk s.1).2 s.2) (vm, w) mks.
Proof.
  intros (Hn & Hr & _). unfold replay_file. rewrite split_lines by done.
  clear Hn. revert vm w. induction Hr as [|l mk ls mks Hl _ IH]; intros vm w; [done|].
  cbn [app replay_lines foldM]. rewrite Hl, obind_Some. destruct (mk vm) as [y u] eqn:Ey. cbn [fst snd]. rewrite Ey. cbn [fst snd].
  destruct (execute y u w) as [[vm' w']|]; [|done]. rewrite !obind_Some. apply IH.
Qed.

(** The executed inputs that led to the state of a trace, along a chain of [n] stored states *)
Inductive history (get : Z → option TxnTrace) : nat → TxnTrace → list EVMInput → Prop :=
| history_begin t : from_idx t = None → history get 0 t []
| history_from n t idx t' xs ys : from_idx t = Some idx → get idx = Some t' → history get n t' xs →
    Forall2 recorded ys (transactions t) → history get (S n) t (xs ++ ys).

(** C15. What the fuzzer records can be replayed.  Take the trace of a VM state whose chain of
    earlier states is in the corpus, each made from the one before by transactions that
    [build_basic_txn] made of executed inputs: calls with arguments, resumptions, and plain
    transfers.  [to_file_str] writes a file for it (the fuel is the length of the chain), and
    reading the file back executes, in order from the first state, exactly one input per
    transaction, each on the state the one before it left, and each with the caller, the
    contract, the call data, the value and the step flag of the recorded input; no field
    makes the reader panic. *)
Theorem recorded_traces_replay {W} (execute : EVMInput → Z → W → option (StagedVMState * W)) get n t xs fuel vm w :
  history get n t xs → (n <= fuel)%nat →
  ∃ file (mks : list (StagedVMState → EVMInput * Z)),
    to_file_str get fuel t = Some file ∧
    replay_file execute vm file w = foldM (λ s mk, execute (mk s.1).1 (mk s.1).2 s.2) (vm, w) mks ∧
    Forall2 (λ x mk, ∀ s, call_of (mk s).1 = call_of x ∧ ei_sstate (mk s).1 = s) xs mks.
Proof.
  intros Hh Hfuel.
  assert (∃ ls mks, to_file_str get fuel t = Some (concat (with_newlines ls)) ∧ lines_replay xs ls mks) as (ls & mks & E & Hl).
  { revert fuel Hfuel. induction Hh as [t Hf|n t idx t' xs ys Hf Hg _ IH Hrec]; intros fuel Hfuel.
    - exists [], []. split; [destruct fuel; cbn [to_file_str]; by rewrite Hf|apply lines_replay_nil].
    - destruct fuel as [|fuel]; [lia|]. cbn [to_file_str]. rewrite Hf, Hg. destruct (IH fuel ltac:(lia)) as (ls & mks & -> & Hl).
      destruct (recorded_lines ys _ Hrec) as (ls' & mks' & -> & Hl'). exists (ls ++ ls'), (mks ++ mks'). rewrite !obind_Some.
      split; [by rewrite map_app, concat_app|by apply lines_replay_app]. }
  eexists _, mks. split; [exact E|]. split; [by eapply replay_lines_run|apply Hl].
Qed.
End replay.

(** ** Examples *)

Definition read_decimal (s : str) : option Z := foldM (λ acc c, d ← digit_value c; Some (acc * 10 + d)) 0 s.

Lemma read_decimal_decimal k n : 0 ≤ n < 10 ^ Z.of_nat k → read_decimal (decimal k n) = Some n.
Proof.
  unfold read_decimal. revert n. induction k as [|k IH]; intros n Hn.
  { simpl in *. f_equal. lia. }
  cbn [decimal]. rewrite foldM_app. pose proof (Z.mod_pos_bound n 10 ltac:(lia)). pose proof (Z.div_mod n 10 ltac:(lia)).
  replace (foldM _ 0 (if n <? 10 then [] else decimal k (n / 10))) with (Some (n / 10)).
  - cbn [foldM]. rewrite obind_Some, digit_value_char by lia. rewrite !obind_Some. f_equal. lia.
  - destruct (Z.ltb_spec n 10); [simpl; by rewrite Z.div_small by lia|]. symmetry. apply IH.
    split; [by apply Z.div_pos; lia|]. apply Z.div_lt_upper_bound; [lia|].
    replace (Z.of_nat (S k)) with (1 + Z.of_nat k) in Hn by lia. rewrite Z.pow_add_r in Hn by lia. lia.
Qed.

Definition hex_value (c : ascii) : Z :=
  let n := Z.of_N (N_of_ascii c) in if n <? 58 then n - 48 else n - 87.
Fixpoint read_hex (s : str) : option (list byte) :=
  match s with
  | [] => Some []
  | a :: b :: s => l ← read_hex s; Some (z2b (hex_value a * 16 + hex_value b) :: l)
  | _ => None
  end.

(** Addresses and words in decimal *)
#[export] Instance toy_formats : Formats := {|
  hex_encode l := concat (map hex_byte l); hex_decode := read_hex;
  addr_debug a := decimal 80 (Z.max 0 a); addr_from_str := read_decimal;
  u256_display v := decimal 80 (Z.max 0 v); u256_from_dec := read_decimal; u256_from_str := read_decimal;
  u256_debug v := decimal 80 (Z.max 0 v); u512_debug v := decimal 160 (Z.max 0 v);
  u512_display v := decimal 160 (Z.max 0 v)
|}.

Lemma hex_byte_round b s : read_hex (hex_byte b ++ s) = (l ← read_hex s; Some (b :: l)).
Proof. cbn [app hex_byte read_hex]. destruct (read_hex s); [|done]. by destruct b. Qed.

Lemma not_in_hex c l : (∀ b, c ∉ hex_byte b) → c ∉ concat (map hex_byte l).
Proof.
  intros Hc. induction l as [|b l IH]; [apply not_elem_of_nil|]. cbn [map concat]. rewrite elem_of_app.
  intros [?|?]; [by apply (Hc b)|done].
Qed.

#[export] Instance toy_format_laws : FormatLaws.
Proof.
  assert (∀ v, Forall is_digit (decimal 80 (Z.max 0 v))) as Hd by (intros v; apply decimal_digits; lia).
  assert (10 ^ Z.of_nat 80 > U256_MOD) by done.
  split; cbn [toy_formats hex_encode hex_decode addr_debug addr_from_str u256_display u256_from_dec u256_debug].
  - intros l. induction l as [|b l IH]; [done|]. cbn [map concat]. by rewrite hex_byte_round, IH.
  - intros l. split; apply not_in_hex; intros b; apply (bool_decide_eq_true_1 (_ ∉ _)); by destruct b.
  - intros l. apply not_in_hex. intros b. apply (bool_decide_eq_true_1 (_ ∉ _)). by destruct b.
  - done.
  - intros a [H1 H2]. rewrite Z.max_r by done. apply read_decimal_decimal. split; [done|].
    eapply Z.lt_trans; [exact H2|]. done.
  - intros a. by apply plain_digits.
  - intros v [H1 H2]. rewrite Z.max_r by done. apply read_decimal_decimal. lia.
  - intros a. by apply plain_digits.
  - intros v Hu. specialize (Hd v). rewrite Forall_forall in Hd. by apply (is_digit_not _ "u"%char (Hd _ Hu)).
  - intros v Hu. specialize (Hd v). rewrite Forall_forall in Hd. by apply (is_digit_not _ "r"%char (Hd _ Hu)).
Qed.

(** A transfer on the first state; a call with one argument on the state it left, and the
    resumption of what the call leaked *)
Definition recorded_transfer : EVMInput :=
  mkEVMInput 9 8 None new_uninitialized 0 (Some 11) false (mkEnv 0 0 0 0 0 0) AccessPattern_new [] 1 false.
Definition recorded_call : EVMInput :=
  mkEVMInput 9 8 (Some (mkBoxedABI (A256 [x05] false false false) (Sel xa9 x05 x9c xbb))) new_uninitialized 0 (Some 7)
    false (mkEnv 0 0 0 0 0 0) AccessPattern_new [] 37 false.
Definition recorded_step : EVMInput :=
  mkEVMInput 9 8 (Some (BoxedABI_new (AUnknown (BoxedABI_new AEmpty) 32))) new_uninitialized 1 None
    true (mkEnv 0 0 0 0 0 0) AccessPattern_new [] 1 false.
Definition recorded_result : ExecutionResult := mkExecutionResult [] false new_uninitialized (Some [2]) 0.
Definition recorded_txn (x : EVMInput) : BasicTxn :=
  default (mkTxn 0 0 None None None [] [] 0 None) (build_basic_txn (λ _, None) x recorded_result).
Definition recorded_corpus (idx : Z) : option TxnTrace :=
  if decide (idx = 0) then Some TxnTrace_new
  else if decide (idx = 1) then Some (mkTrace [recorded_txn recorded_transfer] (Some 0)) else None.
Definition recorded_trace : TxnTrace := mkTrace [recorded_txn recorded_call; recorded_txn recorded_step] (Some 1).

Lemma recorded_traces_replay_witness :
  ∃ file mks,
    to_file_str recorded_corpus 2 recorded_trace = Some file ∧
    length file = 154%nat ∧
    replay_file (λ x u w, Some (ei_sstate x, w ++ [(call_of x, u)])) new_uninitialized file [] =
      foldM (λ s mk, Some (ei_sstate (mk s.1).1, s.2 ++ [(call_of (mk s.1).1, (mk s.1).2)])) (new_uninitialized, []) mks ∧
    Forall2 (λ x mk, ∀ s, call_of (mk s).1 = call_of x ∧ ei_sstate (mk s).1 = s) [recorded_transfer; recorded_call; recorded_step] mks.
Proof.
  destruct (recorded_traces_replay (λ _, None) ltac:(done) (λ x u w, Some (ei_sstate x, w ++ [(call_of x, u)]))
    recorded_corpus 2 recorded_trace [recorded_transfer; recorded_call; recorded_step] 2 new_uninitialized []) as (file & mks & Hl & Hr & Hc).
  - apply (history_from _ _ 1 recorded_trace 1 (mkTrace [recorded_txn recorded_transfer] (Some 0)) [recorded_transfer] [recorded_call; recorded_step]);
      [reflexivity|reflexivity| |].
    + apply (history_from _ _ 0 _ 0 TxnTrace_new [] [recorded_transfer]); [reflexivity|reflexivity|by constructor|].
      apply Forall2_cons; split; [|by apply Forall2_nil]. exists recorded_result, 2. split; [vm_compute; reflexivity|].
      split; [vm_compute; reflexivity|]. repeat split; done.
    + apply Forall2_cons; split; [|apply Forall2_cons; split; [|by apply Forall2_nil]];
        (exists recorded_result, 2; split; [vm_compute; reflexivity|]; split; [vm_compute; reflexivity|]; repeat split; done).
  - done.
  - exists file, mks. split; [exact Hl|]. split; [|split; [exact Hr|exact Hc]].
    assert (option_map (@length ascii) (to_file_str recorded_corpus 2 recorded_trace) = Some 154%nat) as Hlen
      by (vm_compute; reflexivity).
    rewrite Hl in Hlen. by injection Hlen.
Defined.
