(* ===== verification/FuzzerLoop.v ===== *)
(** * The fuzzer ([src/src/fuzzer.rs])

    [ItyFuzzer::evaluate_input_events] runs an input, asks the feedbacks and the objective
    about the result, and files the VM state, the input and the solution; the minimizer
    replaces an input of the corpus by one with the same coverage and a higher factor.
    The corpora of inputs and their scheduler, the observers, the events and the coverage
    feedback are libafl's; feedbacks are generic in the source.  They are the parameters
    of a [Campaign].  Features [print_txn_corpus] and [full_trace] are on; dumping the
    corpus to files is left out. *)
From S2P Require Import Prelude Types State F64 Expr Abi AbiLayout AbiParse Corpus Scheduler I256 Tracer Evm Host HostCall Vm InputMutate Replay.
#[local] Open Scope Z_scope.

(** ** Results *)

(** A [Result], a panic, or [exit(0)] after a report was printed *)
Inductive fresult (A : Type) := Done (a : A) | Failed | Panics | Exited (report : str).
Arguments Done {A}.
Arguments Failed {A}.
Arguments Panics {A}.
Arguments Exited {A}.

#[export] Instance fresult_ret : MRet fresult := λ A a, Done a.
#[export] Instance fresult_bind : MBind fresult := λ A B f x,
  match x with Done a => f a | Failed => Failed | Panics => Panics | Exited r => Exited r end.
(** [unwrap] *)
Definition or_panic {A} (x : option A) : fresult A := match x with Some a => Done a | None => Panics end.

(** [enum ExecuteInputResult] *)
Inductive ExecuteInputResult := RNone | RCorpus | RSolution.
#[export] Instance ExecuteInputResult_eq_dec : EqDecision ExecuteInputResult.
Proof. solve_decision. Defined.

(** ** The favour of an input *)

(** [f64::MAX], and [powi] as compiled (by repeated squaring) *)
Definition f64_MAX : f64 := SpecFloat.S754_finite false (2 ^ 53 - 1) 971.
Fixpoint powi_loop (r a : f64) (n : positive) : f64 :=
  match n with
  | xH => f64_mul r a
  | xO n => powi_loop r (f64_mul a a) n
  | xI n => powi_loop (f64_mul r a) (f64_mul a a) n
  end.
Definition powi (a : f64) (n : Z) : f64 :=
  match n with
  | Z0 => f64_of_u64 1
  | Zpos p => powi_loop (f64_of_u64 1) a p
  | Zneg p => f64_div (f64_of_u64 1) (powi_loop (f64_of_u64 1) a p)
  end.

(** [EVMInput::fav_factor] *)
Definition fav_factor (x : EVMInput) : f64 :=
  let d := flashloan_data (ss_state (ei_sstate x)) in
  if owed d <? earned d then f64_MAX
  else
    let owed_amount := owed d - earned d in
    if owed_amount =? 0 then f64_MAX
    else
      fold_left (λ res idx, f64_add res (f64_mul (f64_of_u64 (limb owed_amount (Z.of_nat idx)))
                                          (powi (f64_of_u64 (2 ^ 64 - 1)) (Z.of_nat idx - 4))))
        (seq 0 8) f64_zero.

(** ** Corpora of inputs *)

(** libafl's trait [Corpus], as far as it is used *)
Class TxnCorpus (C : Type) := {
  tc_add : C → EVMInput → fresult (Z * C);
  tc_remove : C → Z → fresult C;
  tc_get : C → Z → option EVMInput
}.

(** [ItyFuzzer::minimizer_map]: the index and the favour of the input with a coverage *)
Abbreviation Minimizer := (gmap Z (Z * f64)).

Section fuzzer.
Context {R C D X : Type} `{Rand R} `{HashOrder} `{TxnCorpus C} `{TxnCorpus D} `{Formats}.

(** The state of the campaign.  [other] is what only the parameters see: the maps of the
    host, the metadata of feedbacks and observers. *)
Record FzState := mkFz {
  fs_corpus : C;
  fs_solutions : D;
  fs_infant : InfantStateState StagedVMState R;
  fs_result : ExecutionResult;
  fs_executions : Z;
  fs_other : X
}.
Implicit Types st : FzState.

Definition set_corpus c st := mkFz c (fs_solutions st) (fs_infant st) (fs_result st) (fs_executions st) (fs_other st).
Definition set_solutions d st := mkFz (fs_corpus st) d (fs_infant st) (fs_result st) (fs_executions st) (fs_other st).
Definition set_infant i st := mkFz (fs_corpus st) (fs_solutions st) i (fs_result st) (fs_executions st) (fs_other st).
Definition set_execution_result r st := mkFz (fs_corpus st) (fs_solutions st) (fs_infant st) r (fs_executions st) (fs_other st).
Definition set_executions n st := mkFz (fs_corpus st) (fs_solutions st) (fs_infant st) (fs_result st) n (fs_other st).

(** libafl's trait [Feedback] *)
Record Feedback := mkFeedback {
  is_interesting : EVMInput → FzState → fresult (bool * FzState);
  append_metadata : FzState → fresult FzState;
  discard_metadata : EVMInput → FzState → fresult FzState
}.

(** The parameters of [ItyFuzzer] and of its environment *)
Record Campaign := mkCampaign {
  pre_exec_all : EVMInput → FzState → fresult FzState;
  execute : EVMInput → FzState → option (ExecutionResult * FzState);
  post_exec_all : EVMInput → FzState → fresult FzState;
  feedback : Feedback;
  infant_feedback : Feedback;
  objective : Feedback;
  scheduler_on_add : Z → FzState → fresult FzState;
  fire_event : FzState → fresult FzState;
  jmp_map_of : FzState → list Z;
  branch_distance_interesting : FzState → bool;
  run_forever : bool;
  coverage_hash : list Z → Z;
  function_sig : sel4 → option str;
  json : BasicTxn → str
}.
Context (cp : Campaign).

(** [on_add_corpus] *)
Definition on_add_corpus (m : Minimizer) (input : EVMInput) (coverage : list Z) (testcase_idx : Z) : Minimizer :=
  <[coverage_hash cp coverage := (testcase_idx, fav_factor input)]> m.

(** [on_replace_corpus] *)
Definition on_replace_corpus (m : Minimizer) (r : Z * f64 * Z) (new_testcase_idx : Z) : option Minimizer :=
  let '(hash, new_fav_factor, _) := r in
  _ ← m !! hash; Some (<[hash := (new_testcase_idx, new_fav_factor)]> m).

(** [should_replace] *)
Definition should_replace (m : Minimizer) (input : EVMInput) (coverage : list Z) : option (Z * f64 * Z) :=
  let hash := coverage_hash cp coverage in
  '(testcase_idx, old_fav_factor) ← m !! hash;
  let new_fav_factor := fav_factor input in
  if f64_gt new_fav_factor old_fav_factor then Some (hash, new_fav_factor, testcase_idx) else None.

(** [FuzzExecutor::run_target] ([src/src/executor.rs]) *)
Definition run_target (input : EVMInput) st : fresult FzState :=
  '(res, st) ← or_panic (execute cp input st); Done (set_execution_result res st).

(** The trace of the new state gets the input's transaction. *)
Definition record_txn (input : EVMInput) st : fresult FzState :=
  let r := fs_result st in
  txn ← or_panic (build_basic_txn (function_sig cp) input r);
  let s := er_new_state r in
  let trace := add_txn (mkTrace (transactions (ss_trace s)) (Some (ei_sstate_idx input))) txn in
  Done (set_execution_result
    (mkExecutionResult (er_output r) (er_reverted r) (mkStaged (ss_state s) (ss_stage s) (ss_initialized s) trace)
       (er_additional_info r) (er_distance r)) st).

(** The trace of a state of the corpus *)
Definition trace_at (c : IndexedInMemoryCorpus StagedVMState) (idx : Z) : option TxnTrace :=
  ss_trace <$> entries c !! idx.
(** What is printed for a solution.  A chain of states has at most as many members as
    indices were handed out. *)
Definition solution_report st : option str :=
  let c := infant_state (fs_infant st) in
  trace_to_string (trace_at c) (json cp) (S (Z.to_nat (current_idx c))) (ss_trace (er_new_state (fs_result st))).

(** The new VM state goes to the infant corpus. *)
Definition keep_infant (is_infant_interesting reverted : bool) st : fresult FzState :=
  if is_infant_interesting && negb reverted then
    '(_, infant) ← or_panic (add_infant_state (fs_infant st) (er_new_state (fs_result st)));
    Done (set_infant infant st)
  else Done st.

(** The verdict *)
Definition first_verdict (input : EVMInput) (is_solution reverted : bool) st : fresult (ExecuteInputResult * FzState) :=
  if is_solution && negb reverted then Done (RSolution, st)
  else
    '(is_corpus, st) ← is_interesting (feedback cp) input st;
    Done (if (is_corpus : bool) then RCorpus else RNone, st).
Definition judge (input : EVMInput) (is_solution reverted : bool) st : fresult (ExecuteInputResult * FzState) :=
  '(res, st) ← first_verdict input is_solution reverted st;
  Done (if bool_decide (res = RNone) && branch_distance_interesting cp st then RCorpus else res, st).

(** Adding an input to the corpus *)
Definition add_testcase (input : EVMInput) st : fresult (Z * FzState) :=
  st ← append_metadata (feedback cp) st;
  '(idx, c) ← tc_add (fs_corpus st) input;
  st ← scheduler_on_add cp idx (set_corpus c st);
  Done (idx, st).

Definition evaluation : Type := ExecuteInputResult * option Z * Minimizer * FzState.

(** The arms of [match res] *)
Definition arm_none (m : Minimizer) (input : EVMInput) st : fresult evaluation :=
  st ← discard_metadata (objective cp) input st;
  match should_replace m input (jmp_map_of cp st) with
  | Some (hash, new_fav_factor, old_testcase_idx) =>
      c ← tc_remove (fs_corpus st) old_testcase_idx;
      '(idx, st) ← add_testcase input (set_corpus c st);
      m ← or_panic (on_replace_corpus m (hash, new_fav_factor, old_testcase_idx) idx);
      Done (RNone, Some idx, m, st)
  | None =>
      st ← discard_metadata (feedback cp) input st;
      Done (RNone, None, m, st)
  end.

Definition arm_corpus (m : Minimizer) (input : EVMInput) (send_events : bool) st : fresult evaluation :=
  st ← discard_metadata (objective cp) input st;
  '(idx, st) ← add_testcase input st;
  let m := on_add_corpus m input (jmp_map_of cp st) idx in
  st ← (if send_events then fire_event cp st else Done st);
  Done (RCorpus, Some idx, m, st).

Definition arm_solution (m : Minimizer) (input : EVMInput) (send_events : bool) st : fresult evaluation :=
  report ← or_panic (solution_report st);
  if negb (run_forever cp) then Exited report
  else
    st ← discard_metadata (feedback cp) input st;
    st ← append_metadata (objective cp) st;
    '(_, d) ← tc_add (fs_solutions st) input;
    st ← (if send_events then fire_event cp (set_solutions d st) else Done (set_solutions d st));
    Done (RSolution, None, m, st).

(** The part of [evaluate_input_events] up to the verdict *)
Definition run_and_judge (input : EVMInput) st : fresult (ExecuteInputResult * FzState) :=
  st ← pre_exec_all cp input st;
  st ← run_target input st;
  let st := set_executions (u64 (fs_executions st + 1)) st in
  st ← post_exec_all cp input st;
  let reverted := er_reverted (fs_result st) in
  '(is_infant_interesting, st) ← is_interesting (infant_feedback cp) input st;
  '(is_solution, st) ← is_interesting (objective cp) input st;
  st ← record_txn input st;
  st ← keep_infant is_infant_interesting reverted st;
  judge input is_solution reverted st.

(** [evaluate_input_events] *)
Definition evaluate_input_events (m : Minimizer) (input : EVMInput) (send_events : bool) st : fresult evaluation :=
  '(res, st) ← run_and_judge input st;
  match res with
  | RNone => arm_none m input st
  | RCorpus => arm_corpus m input send_events st
  | RSolution => arm_solution m input send_events st
  end.
End fuzzer.
