(* ===== verification/FuzzerProps.v ===== *)
(** * Properties of the fuzzer *)
From S2P Require Import Prelude Types State F64 Expr Abi AbiLayout AbiParse Corpus Scheduler SchedulerInv I256 Tracer Evm Host HostCall Vm InputMutate Replay FuzzerLoop.
#[local] Open Scope Z_scope.

(** ** Histories *)

(** The transactions that built the state at [idx], from an initial state on *)
Inductive history (c : IndexedInMemoryCorpus StagedVMState) : Z → list BasicTxn → Prop :=
| history_init idx s : entries c !! idx = Some s → from_idx (ss_trace s) = None → history c idx []
| history_txns idx s j l : entries c !! idx = Some s → from_idx (ss_trace s) = Some j → history c j l →
    history c idx (l ++ transactions (ss_trace s)).

(** Every state comes from an older one that is still there. *)
Definition traces_ok (c : IndexedInMemoryCorpus StagedVMState) : Prop :=
  ∀ idx s j, entries c !! idx = Some s → from_idx (ss_trace s) = Some j → 0 ≤ j < idx ∧ is_Some (entries c !! j).

Definition BEGIN : str := lit "Begin" ++ ["010"%char].

Lemma history_exists c json idx :
  traces_ok c → corpus_ok c → is_Some (entries c !! idx) →
  ∃ l, history c idx l ∧ ∀ fuel t, (Z.to_nat idx < fuel)%nat → from_idx t = Some idx →
    trace_to_string (trace_at c) json fuel t = Some (BEGIN ++ concat (map (txn_text json) (l ++ transactions t))).
Proof.
  intros Ht Hc. remember (Z.to_nat idx) as k eqn:Ek. revert idx Ek.
  induction k as [k IH] using lt_wf_ind. intros idx -> [s Hs].
  assert (0 ≤ idx) as Hidx. { destruct Hc as [_ Hc]. assert (is_Some (entries c !! idx)) as Hi by (by eexists). apply Hc in Hi. lia. }
  destruct (from_idx (ss_trace s)) as [j|] eqn:Ef.
  - destruct (Ht idx s j Hs Ef) as [Hj Hlive].
    destruct (IH (Z.to_nat j) ltac:(lia) j eq_refl Hlive) as (l & Hl & Hp).
    exists (l ++ transactions (ss_trace s)). split; [by eapply history_txns|]. intros [|fuel] t Hfuel Et; [lia|].
    cbn [trace_to_string]. rewrite Et. unfold trace_at at 1. rewrite Hs. cbn [fmap option_fmap option_map].
    rewrite (Hp fuel (ss_trace s)) by (done || lia). rewrite obind_Some. f_equal.
    by rewrite <- app_assoc, <- concat_app, <- map_app.
  - exists []. split; [by eapply history_init|]. intros [|fuel] t Hfuel Et; [lia|].
    cbn [trace_to_string]. rewrite Et. unfold trace_at at 1. rewrite Hs. cbn [fmap option_fmap option_map].
    assert (trace_to_string (trace_at c) json fuel (ss_trace s) = Some BEGIN) as ->; [|done].
    destruct fuel; cbn [trace_to_string]; by rewrite Ef.
Qed.

Lemma history_mono c c' idx l : (∀ j s, entries c !! j = Some s → entries c' !! j = Some s) →
  history c idx l → history c' idx l.
Proof.
  intros Hm. induction 1 as [idx s Hs Ef|idx s j l Hs Ef _ IH]; [by eapply history_init; [apply Hm|]|].
  by eapply history_txns; [apply Hm| |].
Qed.

Lemma history_functional c idx l : history c idx l → ∀ l', history c idx l' → l' = l.
Proof.
  induction 1 as [idx s Hs Ef|idx s j l Hs Ef _ IH]; intros l' Hl'; inversion Hl'; subst; try congruence.
  assert (s0 = s) as -> by congruence. assert (j0 = j) as -> by congruence. f_equal. by apply IH.
Qed.

(** ** The infant corpus *)

Section infant.
Context {R : Type} `{Rand R} `{HashOrder}.
Implicit Types st : InfantStateState StagedVMState R.

Lemma prune_one_corpus st st' idx : prune_one st idx = Some st' → infant_state st' = infant_state st.
Proof.
  unfold prune_one, on_remove. intros (st1 & E1 & [= <-])%bind_Some. apply bind_Some in E1 as (d & _ & E1).
  apply bind_Some in E1 as (d' & _ & [= <-]). done.
Qed.

Lemma prune_loop_corpus l : ∀ st st', foldM prune_one st l = Some st' → infant_state st' = infant_state st.
Proof.
  induction l as [|x l IH]; intros st st'; cbn [foldM]; [by intros [= <-]|].
  intros (s1 & <-%prune_one_corpus & E2%IH)%bind_Some. done.
Qed.

Lemma on_add_corpus_same st st' idx : on_add st idx = Some st' → infant_state st' = infant_state st.
Proof.
  unfold on_add. destruct (_ <? _); [|by intros [= <-]]. by intros (sorted & _ & ->%prune_loop_corpus)%bind_Some.
Qed.

(** A new state gets a fresh index; its predecessor is older. *)
Lemma add_infant_traces st st' s idx j :
  let c := infant_state st in
  add_infant_state st s = Some (idx, st') → corpus_ok c → current_idx c + 1 < 2 ^ 64 →
  traces_ok c → from_idx (ss_trace s) = Some j → is_Some (entries c !! j) →
  corpus_ok (infant_state st') ∧ traces_ok (infant_state st') ∧
  current_idx c ≤ current_idx (infant_state st') ≤ current_idx c + 1 ∧
  ∀ i x, entries c !! i = Some x → entries (infant_state st') !! i = Some x.
Proof.
  intros c E Hok Hroom Htr Hj Hlive. unfold add_infant_state in E. fold c in E.
  rewrite (corpus_add_spec c s Hok Hroom) in E.
  apply bind_Some in E as (st1 & E1%on_add_corpus_same & [= _ <-]).
  rewrite E1. cbn [infant_state]. pose proof (corpus_fresh c Hok) as Hfresh.
  assert (∀ i x, entries c !! i = Some x → i ≠ current_idx c) as Hne by (intros i x Hi ->; congruence).
  split; [|split; [|split; [simpl; lia|]]].
  - pose proof (corpus_add_ok c s Hok Hroom) as Ha. by rewrite (corpus_add_spec c s Hok Hroom) in Ha.
  - intros i x k Hi Hk. cbn [entries] in *. destruct Hok as [_ Hok]. destruct (decide (i = current_idx c)) as [->|Hn].
    + rewrite lookup_insert_eq in Hi. injection Hi as <-. assert (k = j) as -> by congruence.
      split; [by apply Hok|]. destruct Hlive as [y Hy]. rewrite lookup_insert_ne by (symmetry; by eapply Hne). by eexists.
    + rewrite lookup_insert_ne in Hi by done. destruct (Htr i x k Hi Hk) as [Hlt [y Hy]]. split; [done|].
      rewrite lookup_insert_ne by (symmetry; by eapply Hne). by eexists.
  - intros i x Hi. cbn [entries]. rewrite lookup_insert_ne; [done|]. symmetry. by eapply Hne.
Qed.

Lemma add_infant_entries st st' s idx i x :
  add_infant_state st s = Some (idx, st') → entries (infant_state st') !! i = Some x →
  entries (infant_state st) !! i = Some x ∨ x = s.
Proof.
  unfold add_infant_state, corpus_add. intros E. apply bind_Some in E as (st1 & E1%on_add_corpus_same & [= _ <-]).
  rewrite E1. cbn [infant_state entries]. intros [[_ <-]|[_ Hx]]%lookup_insert_Some; [by right|by left].
Qed.
End infant.

(** ** What the fuzzer relies on *)

(** libafl's in-memory corpus, which holds the inputs: a vector.  An input is added at the
    end, and removing one moves those behind it one place to the front, so that an index
    does not name the same input for ever; removing what is not there does nothing. *)
Class VecCorpus (C : Type) `{TxnCorpus C} := {
  tc_list : C → list EVMInput;
  tc_get_at c i : tc_get c i = if 0 <=? i then tc_list c !! Z.to_nat i else None;
  tc_add_end c x : ∃ c', tc_add c x = Done (Z.of_nat (length (tc_list c)), c') ∧ tc_list c' = tc_list c ++ [x];
  tc_remove_at c i : 0 ≤ i → ∃ c', tc_remove c i = Done c' ∧ tc_list c' = delete (Z.to_nat i) (tc_list c)
}.

(** An input that waits for a VM state *)
Definition waiting (y : EVMInput) : Prop := ss_initialized (ei_sstate y) = false ∧ ei_step y = false.

(** Only inputs that wait were added, behind the others. *)
Definition appended {C} `{VecCorpus C} (c c' : C) : Prop := ∃ new, tc_list c' = tc_list c ++ new ∧ Forall waiting new.

#[export] Instance appended_preorder {C} `{VecCorpus C} : PreOrder appended.
Proof.
  split.
  - intros c. exists []. by rewrite app_nil_r.
  - intros a b c (n1 & E1 & W1) (n2 & E2 & W2). exists (n1 ++ n2). rewrite E2, E1, <- app_assoc. split; [done|]. by apply Forall_app.
Qed.
Lemma appended_eq {C} `{VecCorpus C} (c c' : C) : tc_list c' = tc_list c → appended c c'.
Proof. intros E. exists []. by rewrite app_nil_r. Qed.

Lemma bind_Done {A B} (m : fresult A) (f : A → fresult B) b :
  (m ≫= f) = Done b ↔ ∃ a, m = Done a ∧ f a = Done b.
Proof. destruct m; split; [by eauto|by intros (? & [= <-] & ?)|..]; try done; by intros (? & ? & ?). Qed.

Lemma bind_Exited {A B} (m : fresult A) (f : A → fresult B) r :
  (m ≫= f) = Exited r ↔ m = Exited r ∨ ∃ a, m = Done a ∧ f a = Exited r.
Proof.
  destruct m; split; try done; try by intros [?|(? & ? & ?)].
  - intros E. right. by eexists.
  - by intros [?|(? & [= <-] & ?)].
  - intros [= ->]. by left.
  - intros [[= ->]|(? & ? & ?)]; done.
Qed.

Lemma or_panic_Done {A} (x : option A) a : or_panic x = Done a ↔ x = Some a.
Proof. destruct x; split; intros E; try done; by injection E as ->. Qed.
Lemma or_panic_Exited {A} (x : option A) r : or_panic x ≠ Exited r.
Proof. by destruct x. Qed.

Section campaign.
Context {R C D X : Type} `{Rand R} `{HashOrder} `{VecCorpus C} `{TxnCorpus D} `{Formats}.
Implicit Types st : @FzState R C D X.

Abbreviation infants st := (infant_state (fs_infant st)).
Abbreviation inputs st := (tc_list (fs_corpus st)).

(** What a callback may do: it leaves the stored inputs and VM states and the result of the
    execution alone, and moves the infant scheduler only by its own operations. *)
Record quiet st st' : Prop := {
  q_inputs : inputs st' = inputs st;
  q_infants : infants st' = infants st;
  q_sched : rtc sched_step (fs_infant st) (fs_infant st');
  q_result : fs_result st' = fs_result st
}.

#[export] Instance quiet_preorder : PreOrder quiet.
Proof. split; [done|]. intros a b c [] []. split; try congruence. by etransitivity. Qed.

(** What an execution may do, and all that schedulers and stages do between evaluations:
    the stored VM states stay, and inputs that wait for one may be added. *)
Record still st st' : Prop := mkStill {
  sl_inputs : appended (fs_corpus st) (fs_corpus st');
  sl_infants : infants st' = infants st;
  sl_sched : rtc sched_step (fs_infant st) (fs_infant st')
}.

Lemma quiet_still st st' : quiet st st' → still st st'.
Proof. intros [Hc Hi Hs _]. split; [by apply appended_eq|done..]. Qed.

#[export] Instance still_preorder : PreOrder still.
Proof.
  split; [by intros st; apply quiet_still|]. intros a b c [] []. split; [by etransitivity|congruence|by etransitivity].
Qed.

(** An input that resumes an execution has one to resume. *)
Definition resumable (x : EVMInput) : Prop :=
  ei_step x = true → has_post_execution (ss_state (ei_sstate x)) = true.

(** The callbacks only do that, never exit, and a new VM state is initialized and has an
    empty trace. *)
Class CampaignOk (cp : @Campaign R C D X) := {
  ok_pre x st st' : pre_exec_all cp x st = Done st' → quiet st st';
  ok_execute x st r st' : execute cp x st = Some (r, st') →
    still st st' ∧ ss_trace (er_new_state r) = TxnTrace_new ∧
    (resumable x → ss_initialized (er_new_state r) = true);
  ok_post x st st' : post_exec_all cp x st = Done st' → quiet st st';
  ok_interesting f x st b st' : f ∈ [feedback cp; infant_feedback cp; objective cp] →
    is_interesting f x st = Done (b, st') → quiet st st';
  ok_append f st st' : f ∈ [feedback cp; objective cp] → append_metadata f st = Done st' → quiet st st';
  ok_discard f x st st' : f ∈ [feedback cp; objective cp] → discard_metadata f x st = Done st' → quiet st st';
  ok_on_add idx st st' : scheduler_on_add cp idx st = Done st' → quiet st st';
  ok_fire st st' : fire_event cp st = Done st' → quiet st st';
  no_exit_pre x st r : pre_exec_all cp x st ≠ Exited r;
  no_exit_post x st r : post_exec_all cp x st ≠ Exited r;
  no_exit_interesting f x st r : f ∈ [feedback cp; infant_feedback cp; objective cp] → is_interesting f x st ≠ Exited r;
  no_exit_append f st r : f ∈ [feedback cp; objective cp] → append_metadata f st ≠ Exited r;
  no_exit_discard f x st r : f ∈ [feedback cp; objective cp] → discard_metadata f x st ≠ Exited r;
  no_exit_on_add idx st r : scheduler_on_add cp idx st ≠ Exited r;
  no_exit_fire st r : fire_event cp st ≠ Exited r;
  no_exit_solution (d : D) x r : tc_add d x ≠ Exited r
}.
Context (cp : @Campaign R C D X) `{!CampaignOk cp}.

(** ** The invariant *)

(** The minimizer only has indices of the corpus. *)
Definition in_range (m : Minimizer) (c : C) : Prop :=
  ∀ h idx f, m !! h = Some (idx, f) → 0 ≤ idx < Z.of_nat (length (tc_list c)).

Record fz_inv (m : Minimizer) st : Prop := {
  inv_range : in_range m (fs_corpus st);
  inv_corpus : corpus_ok (infants st);
  inv_traces : traces_ok (infants st)
}.

Lemma in_range_longer m c c' : (length (tc_list c) ≤ length (tc_list c'))%nat → in_range m c → in_range m c'.
Proof. intros Hl Hr h idx f Hm. specialize (Hr h idx f Hm). lia. Qed.
Lemma in_range_insert m c h i f : 0 ≤ i < Z.of_nat (length (tc_list c)) → in_range m c → in_range (<[h := (i, f)]> m) c.
Proof. intros Hi Hr h' idx f'. rewrite lookup_insert_Some. intros [[_ [= <- <-]]|[_ Hm]]; [done|by eapply Hr]. Qed.
Lemma appended_length c c' : appended c c' → (length (tc_list c) ≤ length (tc_list c'))%nat.
Proof. intros (new & -> & _). rewrite length_app. lia. Qed.

Lemma fz_inv_still m st st' : still st st' → fz_inv m st → fz_inv m st'.
Proof.
  intros [Hc Hi _] []. split; rewrite ?Hi; [|done..]. by eapply in_range_longer; [apply appended_length|].
Qed.
Lemma fz_inv_quiet m st st' : quiet st st' → fz_inv m st → fz_inv m st'.
Proof. intros Hq. by apply fz_inv_still, quiet_still. Qed.

(** ** Up to the verdict *)

(** The execution of an input in an evaluation from [st] *)
Definition executed (input : EVMInput) st (r : ExecutionResult) : Prop :=
  ∃ s s', pre_exec_all cp input st = Done s ∧ execute cp input s = Some (r, s').

(** The result, with the transaction in the trace of its VM state *)
Definition traced (input : EVMInput) (txn : BasicTxn) (r : ExecutionResult) : ExecutionResult :=
  let s := er_new_state r in
  mkExecutionResult (er_output r) (er_reverted r)
    (mkStaged (ss_state s) (ss_stage s) (ss_initialized s) (mkTrace [txn] (Some (ei_sstate_idx input))))
    (er_additional_info r) (er_distance r).

Lemma executed_functional input st r r' : executed input st r → executed input st r' → r' = r.
Proof. intros (s & s' & E1 & E2) (t & t' & E3 & E4). congruence. Qed.

Lemma run_target_spec x st st' : run_target cp x st = Done st' →
  still st st' ∧ ss_trace (er_new_state (fs_result st')) = TxnTrace_new ∧
  (resumable x → ss_initialized (er_new_state (fs_result st')) = true) ∧
  ∃ s', execute cp x st = Some (fs_result st', s').
Proof.
  unfold run_target. intros ([r st1] & E1%or_panic_Done & [= <-])%bind_Done.
  destruct (ok_execute x st r st1 E1) as ([Hc Hi Hs] & Ht & Hn). split; [by split|]. split_and!; try done. by exists st1.
Qed.

Lemma record_txn_spec x st st' :
  record_txn cp x st = Done st' → ss_trace (er_new_state (fs_result st)) = TxnTrace_new →
  ∃ txn, build_basic_txn (function_sig cp) x (fs_result st) = Some txn ∧
    st' = set_execution_result (traced x txn (fs_result st)) st.
Proof.
  unfold record_txn. intros (txn & E1%or_panic_Done & [= <-])%bind_Done Ht. exists txn. split; [done|].
  rewrite Ht. reflexivity.
Qed.

Lemma keep_infant_inputs b rv st st' : keep_infant b rv st = Done st' → fs_corpus st' = fs_corpus st ∧ fs_result st' = fs_result st.
Proof.
  unfold keep_infant. destruct (b && negb rv); [|by intros [= <-]]. by intros ([idx i'] & _ & [= <-])%bind_Done.
Qed.

Lemma keep_infant_spec b rv st st' j :
  keep_infant b rv st = Done st' → corpus_ok (infants st) → traces_ok (infants st) → current_idx (infants st) + 1 < 2 ^ 64 →
  from_idx (ss_trace (er_new_state (fs_result st))) = Some j → is_Some (entries (infants st) !! j) →
  corpus_ok (infants st') ∧ traces_ok (infants st') ∧ rtc sched_step (fs_infant st) (fs_infant st') ∧
  (∀ i s, entries (infants st) !! i = Some s → entries (infants st') !! i = Some s) ∧
  current_idx (infants st) ≤ current_idx (infants st') ≤ current_idx (infants st) + 1 ∧ (rv = true → infants st' = infants st) ∧
  (∀ i s, entries (infants st') !! i = Some s → entries (infants st) !! i = Some s ∨ s = er_new_state (fs_result st)).
Proof.
  unfold keep_infant. intros E Hok Htr Hroom Ht Hj. destruct (b && negb rv) eqn:Eb.
  - apply bind_Done in E as ([idx i'] & E1%or_panic_Done & [= <-]).
    destruct (add_infant_traces (fs_infant st) i' _ idx j E1) as (A & B & B' & M); try done.
    split; [done|]. split; [done|]. split; [eapply rtc_once, step_add, E1|]. split; [done|]. split; [done|]. split.
    + intros ->. by rewrite andb_false_r in Eb.
    + intros i s. by eapply add_infant_entries.
  - injection E as <-. split_and!; try done; [lia..|]. intros i s Hs. by left.
Qed.

Lemma judge_spec x s rv st st' res :
  judge cp x s rv st = Done (res, st') → quiet st st' ∧ (res = RSolution ↔ s = true ∧ rv = false).
Proof.
  unfold judge, first_verdict. intros ([r1 st1] & E1 & [= <- <-])%bind_Done. destruct (s && negb rv) eqn:Es.
  - injection E1 as <- <-. split; [done|]. apply andb_true_iff in Es as [-> Er%negb_true_iff]. by rewrite Er.
  - apply bind_Done in E1 as ([b st2] & E1 & [= <- <-]). apply (ok_interesting (feedback cp)) in E1; [|by left].
    split; [done|]. split.
    + by destruct b; simpl; [|destruct (branch_distance_interesting _ _)].
    + intros [-> ->]. done.
Qed.

(** The VM state of the input is the one the corpus has under its index, and the indices are
    not exhausted. *)
Definition ready (input : EVMInput) st : Prop :=
  entries (infants st) !! ei_sstate_idx input = Some (ei_sstate input) ∧ current_idx (infants st) + 1 < 2 ^ 64.

(** What holds between the run of an input and the filing of it *)
Record judged (input : EVMInput) st (r : ExecutionResult) (txn : BasicTxn) (res : ExecuteInputResult) st' : Prop := {
  j_executed : executed input st r;
  j_initialized : resumable input → ss_initialized (er_new_state r) = true;
  j_txn : build_basic_txn (function_sig cp) input r = Some txn;
  j_result : fs_result st' = traced input txn r;
  j_inputs : appended (fs_corpus st) (fs_corpus st');
  j_sched : rtc sched_step (fs_infant st) (fs_infant st');
  j_corpus_ok : corpus_ok (infants st');
  j_traces_ok : traces_ok (infants st');
  j_mono i s : entries (infants st) !! i = Some s → entries (infants st') !! i = Some s;
  j_idx : current_idx (infants st) ≤ current_idx (infants st') ≤ current_idx (infants st) + 1;
  j_new i s : entries (infants st') !! i = Some s →
    entries (infants st) !! i = Some s ∨ er_reverted r = false ∧ s = er_new_state (traced input txn r);
  j_reverted : er_reverted r = true → infants st' = infants st;
  j_verdict : ∃ s1 b s2, is_interesting (objective cp) input s1 = Done (b, s2) ∧ fs_result s1 = r ∧
    (res = RSolution ↔ b = true ∧ er_reverted r = false)
}.

Lemma judged_inv m input st r txn res st' : judged input st r txn res st' → fz_inv m st → fz_inv m st'.
Proof.
  intros Hj []. split; [|apply Hj..]. eapply in_range_longer; [|done]. apply appended_length, Hj.
Qed.

(** Whatever is stored, the inputs only grow by what the execution added. *)
Lemma run_and_judge_inputs input st res st' :
  run_and_judge cp input st = Done (res, st') → appended (fs_corpus st) (fs_corpus st').
Proof.
  unfold run_and_judge. intros (s1 & E1%ok_pre & E)%bind_Done.
  apply bind_Done in E as (s2 & [E2 _]%run_target_spec & E). set (s2' := set_executions _ s2) in E.
  apply bind_Done in E as (s3 & E3%ok_post & E). apply bind_Done in E as ([b4 s4] & E4%ok_interesting & E); [|set_solver].
  apply bind_Done in E as ([b5 s5] & E5%ok_interesting & E); [|set_solver].
  apply bind_Done in E as (s6 & E6 & E). apply bind_Done in E as (s7 & [C7 _]%keep_infant_inputs & [Q8 _]%judge_spec).
  assert (fs_corpus s6 = fs_corpus s5) as C6.
  { unfold record_txn in E6. by apply bind_Done in E6 as (txn & _ & [= <-]). }
  etransitivity; [apply appended_eq, (q_inputs _ _ E1)|]. etransitivity; [apply (sl_inputs _ _ E2)|].
  change (fs_corpus s2) with (fs_corpus s2'). apply appended_eq.
  by rewrite (q_inputs _ _ Q8), C7, C6, (q_inputs _ _ E5), (q_inputs _ _ E4), (q_inputs _ _ E3).
Qed.

Lemma run_and_judge_spec m input st res st' :
  run_and_judge cp input st = Done (res, st') → fz_inv m st → ready input st → ∃ r txn, judged input st r txn res st'.
Proof.
  intros E0 [_ Hok Htr] (Hlive & Hroom). pose proof (run_and_judge_inputs _ _ _ _ E0) as Hin. revert E0. unfold run_and_judge.
  intros (s1 & E1 & E)%bind_Done. pose proof (ok_pre _ _ _ E1) as Q1.
  apply bind_Done in E as (s2 & (Q2 & T2 & N2 & s' & Ex)%run_target_spec & E).
  set (s2' := set_executions _ s2) in E.
  apply bind_Done in E as (s3 & E3%ok_post & E).
  apply bind_Done in E as ([b4 s4] & E4%(ok_interesting (infant_feedback cp)) & E); [|set_solver].
  apply bind_Done in E as ([b5 s5] & O5 & E). pose proof (ok_interesting (objective cp) _ _ _ _ ltac:(set_solver) O5) as E5.
  pose proof (transitivity E3 E4) as Q4. pose proof (transitivity Q4 E5) as Q5. set (r := fs_result s2) in *.
  assert (fs_result s5 = r) as R5 by apply (q_result _ _ Q5). assert (fs_result s4 = r) as R4 by apply (q_result _ _ Q4).
  assert (fs_result s3 = r) as R3 by apply (q_result _ _ E3).
  apply bind_Done in E as (s6 & E6 & E). apply record_txn_spec in E6 as (txn & Eb & ->); [|by rewrite R5].
  rewrite R5 in Eb, E. set (s6 := set_execution_result _ s5) in E.
  assert (infants s6 = infants st) as Hinf.
  { change (infants s6) with (infants s5). rewrite (q_infants _ _ Q5). change (infants s2') with (infants s2).
    rewrite (sl_infants _ _ Q2). apply (q_infants _ _ Q1). }
  assert (rtc sched_step (fs_infant st) (fs_infant s6)) as Hs6.
  { etransitivity; [apply (q_sched _ _ Q1)|]. etransitivity; [apply (sl_sched _ _ Q2)|]. apply (q_sched _ _ Q5). }
  apply bind_Done in E as (s7 & E7 & [Q8 R8]%judge_spec). pose proof (keep_infant_inputs _ _ _ _ E7) as [_ F7].
  eapply keep_infant_spec in E7 as (Hok7 & Htr7 & S7 & M7 & L7 & R7 & A7);
    [|by rewrite Hinf..|reflexivity|rewrite Hinf; by eexists].
  rewrite Hinf in M7, L7, R7, A7. rewrite R3 in R7, R8. exists r, txn.
  split; rewrite ?(q_infants _ _ Q8); try done.
  - by exists s1, s'.
  - by rewrite (q_result _ _ Q8), F7.
  - etransitivity; [exact Hs6|]. etransitivity; [exact S7|]. apply (q_sched _ _ Q8).
  - intros i s Hs. destruct (er_reverted r) eqn:Erv; [left; by rewrite R7 in Hs|].
    apply A7 in Hs as [Hs| ->]; [by left|by right].
  - by exists s4, b5, s5.
Qed.

(** ** Filing the input *)

Lemma add_testcase_spec input st idx st' :
  add_testcase cp input st = Done (idx, st') →
  idx = Z.of_nat (length (inputs st)) ∧ inputs st' = inputs st ++ [input] ∧
  infants st' = infants st ∧ rtc sched_step (fs_infant st) (fs_infant st').
Proof.
  unfold add_testcase. intros E. apply bind_Done in E as (s1 & E1%ok_append & E); [|by left].
  apply bind_Done in E as ([i c] & E2 & E). apply bind_Done in E as (s3 & E3%ok_on_add & [= <- <-]).
  destruct E1 as [C1 I1 S1 _], E3 as [C3 I3 S3 _].
  destruct (tc_add_end (fs_corpus s1) input) as (c' & Ec & Hc). rewrite Ec in E2. injection E2 as <- <-.
  cbn [fs_corpus set_corpus fs_infant] in *. rewrite C3, I3, Hc, C1. split_and!; [done..|]. by etransitivity.
Qed.

(** The inputs and the minimizer stay. *)
Definition kept (m : Minimizer) (l : list EVMInput) (idx : option Z) (m' : Minimizer) (l' : list EVMInput) : Prop :=
  idx = None ∧ m' = m ∧ l' = l.

(** The new input under the last index, after [l] *)
Definition pushed (m : Minimizer) (input : EVMInput) (h : Z) (l : list EVMInput) (idx : option Z) (m' : Minimizer) (l' : list EVMInput) : Prop :=
  idx = Some (Z.of_nat (length l)) ∧ m' = <[h := (Z.of_nat (length l), fav_factor input)]> m ∧ l' = l ++ [input].

(** The filing of an input with a verdict, on the coverage of the run *)
Definition filed (m : Minimizer) (input : EVMInput) st (v : ExecuteInputResult) (idx : option Z) (m' : Minimizer) st' : Prop :=
  match v with
  | RNone =>
      ∃ s, discard_metadata (objective cp) input st = Done s ∧
      let h := coverage_hash cp (jmp_map_of cp s) in
      match m !! h with
      | Some (i, f) =>
          if f64_gt (fav_factor input) f
          then pushed m input h (delete (Z.to_nat i) (inputs st)) idx m' (inputs st')
          else kept m (inputs st) idx m' (inputs st')
      | None => kept m (inputs st) idx m' (inputs st')
      end
  | RCorpus =>
      ∃ s i s', discard_metadata (objective cp) input st = Done s ∧ add_testcase cp input s = Done (i, s') ∧
      pushed m input (coverage_hash cp (jmp_map_of cp s')) (inputs st) idx m' (inputs st')
  | RSolution => kept m (inputs st) idx m' (inputs st')
  end.

Lemma arm_none_spec m input st v idx m' st' :
  arm_none cp m input st = Done (v, idx, m', st') → in_range m (fs_corpus st) →
  v = RNone ∧ filed m input st RNone idx m' st' ∧ infants st' = infants st ∧ rtc sched_step (fs_infant st) (fs_infant st').
Proof.
  unfold arm_none. intros E Hr. apply bind_Done in E as (s1 & E1 & E). pose proof (ok_discard _ _ _ _ ltac:(by right; left) E1) as [C1 I1 S1 _].
  destruct (should_replace _ _ _ _) as [[[h f] old_idx]|] eqn:Es; unfold should_replace in Es.
  - apply bind_Some in Es as ([i old] & Hm & Es). destruct (f64_gt _ _) eqn:Eg; [|done]. injection Es as <- <- <-.
    destruct (tc_remove_at (fs_corpus s1) i) as (c & Ec & Hc); [by apply Hr in Hm; lia|].
    apply bind_Done in E as (c' & E2 & E). rewrite Ec in E2. injection E2 as <-.
    apply bind_Done in E as ([k s2] & E2 & E). apply bind_Done in E as (m2 & E3%or_panic_Done & [= <- <- <- <-]).
    apply add_testcase_spec in E2 as (-> & L2 & I2 & S2). cbn [fs_corpus set_corpus fs_infant] in *.
    unfold on_replace_corpus in E3. rewrite Hm in E3. injection E3 as <-.
    split; [done|]. rewrite Hc, C1 in *. split; [|split; [by rewrite I2|by etransitivity]].
    exists s1. split; [done|]. cbv zeta. rewrite Hm, Eg. done.
  - apply bind_Done in E as (s2 & E2%ok_discard & [= <- <- <- <-]); [|by left]. destruct E2 as [C2 I2 S2 _].
    split; [done|]. split; [|split; [by rewrite I2|by etransitivity]]. exists s1. split; [done|]. cbv zeta.
    assert (kept m (inputs st) None m (inputs s2)) as Hk by (by rewrite C2, C1).
    destruct (m !! _) as [[i f]|]; [|done]. cbn in Es. by destruct (f64_gt _ _).
Qed.

Lemma arm_corpus_spec m input se st v idx m' st' :
  arm_corpus cp m input se st = Done (v, idx, m', st') →
  v = RCorpus ∧ filed m input st RCorpus idx m' st' ∧ infants st' = infants st ∧ rtc sched_step (fs_infant st) (fs_infant st').
Proof.
  unfold arm_corpus. intros E. apply bind_Done in E as (s1 & E1 & E). pose proof (ok_discard _ _ _ _ ltac:(by right; left) E1) as [C1 I1 S1 _].
  apply bind_Done in E as ([i s2] & E2 & E). apply bind_Done in E as (s3 & E3 & [= <- <- <- <-]).
  assert (quiet s2 s3) as [C3 I3 S3 _]. { destruct se; [by apply ok_fire in E3|]. by injection E3 as <-. }
  pose proof (add_testcase_spec _ _ _ _ E2) as (-> & L2 & I2 & S2). rewrite C1 in *.
  split; [done|]. split; [|split; [by rewrite I3, I2|etransitivity; [exact S1|]; by etransitivity]].
  exists s1, (Z.of_nat (length (inputs st))), s2. split; [done|]. split; [done|]. by rewrite C3, L2.
Qed.

Lemma arm_solution_spec m input se st v idx m' st' :
  arm_solution cp m input se st = Done (v, idx, m', st') →
  v = RSolution ∧ filed m input st RSolution idx m' st' ∧ infants st' = infants st ∧ rtc sched_step (fs_infant st) (fs_infant st').
Proof.
  unfold arm_solution. intros (rep & _ & E)%bind_Done. destruct (negb _); [done|].
  apply bind_Done in E as (s1 & E1%ok_discard & E); [|by left].
  apply bind_Done in E as (s2 & E2%ok_append & E); [|by right; left].
  apply bind_Done in E as ([i d] & _ & E). apply bind_Done in E as (s3 & E3 & [= <- <- <- <-]).
  assert (quiet (set_solutions d s2) s3) as [C3 I3 S3 _]. { destruct se; [by apply ok_fire in E3|]. by injection E3 as <-. }
  destruct (transitivity E1 E2) as [C2 I2 S2 _]. cbn [fs_corpus fs_infant set_solutions] in *.
  split; [done|]. split; [split; [done|]; by rewrite C3, C2|]. split; [by rewrite I3, I2|by etransitivity].
Qed.

Lemma evaluate_filed m input se st v idx m' st' :
  evaluate_input_events cp m input se st = Done (v, idx, m', st') → in_range m (fs_corpus st) →
  ∃ s, run_and_judge cp input st = Done (v, s) ∧ appended (fs_corpus st) (fs_corpus s) ∧
    filed m input s v idx m' st' ∧ infants st' = infants s ∧ rtc sched_step (fs_infant s) (fs_infant st').
Proof.
  unfold evaluate_input_events. intros ([res s] & E1 & E2)%bind_Done Hr. pose proof (run_and_judge_inputs _ _ _ _ E1) as Ha.
  apply (in_range_longer m _ (fs_corpus s)) in Hr; [|by apply appended_length]. exists s. destruct res.
  - by apply arm_none_spec in E2 as (-> & ? & ? & ?).
  - by apply arm_corpus_spec in E2 as (-> & ? & ? & ?).
  - by apply arm_solution_spec in E2 as (-> & ? & ? & ?).
Qed.

(** C19. An input is filed as its verdict says, and the minimizer with it.  A solution
    changes neither the stored inputs nor the minimizer.  An interesting input is added
    behind the others, and the minimizer records its index and favour for the coverage of
    the run, whatever it had before.  An input that is nothing new is dropped, unless the
    minimizer knows an input of the same coverage whose favour is strictly lower: then
    the testcase at the recorded index is removed, the input is added at the end, and the
    minimizer has its index and favour for that coverage.  No other entry of the minimizer
    changes, and nothing else happens to the inputs, but that the execution may have added
    some that wait for a VM state. *)
Theorem minimizer_files_exactly m input se st v idx m' st' :
  in_range m (fs_corpus st) → evaluate_input_events cp m input se st = Done (v, idx, m', st') →
  ∃ s, run_and_judge cp input st = Done (v, s) ∧ appended (fs_corpus st) (fs_corpus s) ∧ filed m input s v idx m' st'.
Proof. intros Hr E. destruct (evaluate_filed _ _ _ _ _ _ _ _ E Hr) as (s & ? & ? & ? & _). by exists s. Qed.

(** What filing keeps *)
Lemma filed_cases m input st v idx m' st' : filed m input st v idx m' st' →
  kept m (inputs st) idx m' (inputs st') ∨ ∃ h l, pushed m input h l idx m' (inputs st') ∧
    (l = inputs st ∨ v = RNone ∧ ∃ i f, m !! h = Some (i, f) ∧ l = delete (Z.to_nat i) (inputs st)).
Proof.
  destruct v; cbn [filed]; [|intros (s & i & s' & _ & _ & Hp); right; eauto|by left].
  intros (s & _ & Hf). cbv zeta in Hf. destruct (m !! _) as [[i f]|] eqn:Em; [|by left]. destruct (f64_gt _ _); [|by left].
  right. eexists _, _. split; [exact Hf|]. right. eauto.
Qed.

Lemma filed_in_range m input st v idx m' st' : filed m input st v idx m' st' → in_range m (fs_corpus st) →
  in_range m' (fs_corpus st') ∧ (length (inputs st) ≤ length (inputs st'))%nat.
Proof.
  intros Hf Hr. destruct (filed_cases _ _ _ _ _ _ _ Hf) as [(_ & -> & Hl)|(h & l & (_ & -> & Hl) & Hk)].
  { rewrite Hl. split; [|lia]. eapply in_range_longer; [|done]. by rewrite Hl. }
  assert (length (inputs st) ≤ length (inputs st') ∧ length (inputs st') = S (length l))%nat as [Hlen Hlast].
  { rewrite Hl, length_app. cbn [length]. destruct Hk as [->|(_ & i & f & Hm & ->)]; [lia|].
    apply Hr in Hm. rewrite length_delete; [lia|]. apply lookup_lt_is_Some. lia. }
  split; [|done]. apply in_range_insert; [lia|]. by eapply in_range_longer.
Qed.

Lemma filed_members m input st v idx m' st' : filed m input st v idx m' st' → ∀ y, y ∈ inputs st' → y ∈ inputs st ∨ y = input.
Proof.
  intros Hf y. destruct (filed_cases _ _ _ _ _ _ _ Hf) as [(_ & _ & ->)|(h & l & (_ & _ & ->) & Hk)]; [by left|].
  rewrite elem_of_app, list_elem_of_singleton. intros [Hy|Hy]; [left|by right].
  destruct Hk as [->|(_ & i & f & _ & ->)]; [done|]. by eapply elem_of_submseteq, sublist_submseteq, sublist_delete.
Qed.

Lemma evaluate_spec m input se st v idx m' st' :
  evaluate_input_events cp m input se st = Done (v, idx, m', st') → fz_inv m st → ready input st →
  ∃ s r txn, judged input st r txn v s ∧ filed m input s v idx m' st' ∧ fz_inv m' st' ∧ infants st' = infants s ∧
    rtc sched_step (fs_infant s) (fs_infant st').
Proof.
  intros E Hinv Hready. destruct (evaluate_filed _ _ _ _ _ _ _ _ E (inv_range _ _ Hinv)) as (s & E1 & _ & Hf & Hi & Hs).
  destruct (run_and_judge_spec m input st v s E1 Hinv Hready) as (r & txn & Hj). exists s, r, txn.
  split; [done|]. split; [done|]. destruct (judged_inv m _ _ _ _ _ _ Hj Hinv) as [Hr Hok Htr].
  split; [|done]. split; rewrite ?Hi; [|done..]. by eapply filed_in_range.
Qed.

(** ** Campaigns *)

(** A campaign: evaluations of inputs whose VM state is in the corpus, and whatever the
    stages do in between. *)
Inductive campaign_step : Minimizer * FzState → Minimizer * FzState → Prop :=
| campaign_evaluate m st input se v idx m' st' :
    ready input st → evaluate_input_events cp m input se st = Done (v, idx, m', st') → campaign_step (m, st) (m', st')
| campaign_stage m st st' : still st st' → campaign_step (m, st) (m, st').

(** The same without replacements *)
Inductive plain_step : Minimizer * FzState → Minimizer * FzState → Prop :=
| plain_evaluate m st input se v idx m' st' :
    ready input st → evaluate_input_events cp m input se st = Done (v, idx, m', st') → (v = RNone → idx = None) →
    plain_step (m, st) (m', st')
| plain_stage m st st' : still st st' → plain_step (m, st) (m, st').

(** The minimizer names testcases: each entry has the index of an input with the favour that
    is recorded, a different one for every coverage. *)
Record names (m : Minimizer) (l : list EVMInput) : Prop := {
  na_favour h idx f : m !! h = Some (idx, f) → 0 ≤ idx ∧ ∃ x, l !! Z.to_nat idx = Some x ∧ fav_factor x = f;
  na_inj h h' idx f f' : m !! h = Some (idx, f) → m !! h' = Some (idx, f') → h = h'
}.

Lemma names_app m l l' : names m l → names m (l ++ l').
Proof.
  intros [Hf Hi]. split; [|exact Hi]. intros h idx f Hm. destruct (Hf _ _ _ Hm) as (? & x & Hx & ?). split; [done|].
  exists x. by rewrite (lookup_app_l_Some _ _ _ _ Hx).
Qed.
Lemma names_pushed m input h l idx m' l' : names m l → pushed m input h l idx m' l' → names m' l'.
Proof.
  intros [Hf Hi] (_ & -> & ->). split.
  - intros h' i f. rewrite lookup_insert_Some. intros [[<- [= <- <-]]|[_ Hm]].
    + split; [lia|]. exists input. split; [|done]. rewrite Nat2Z.id. by apply list_lookup_middle.
    + by apply (names_app m l [input] (Build_names _ _ Hf Hi)) in Hm.
  - assert (∀ h i f, m !! h = Some (i, f) → i ≠ Z.of_nat (length l)) as Hn.
    { intros h1 i f Hm ->. destruct (Hf _ _ _ Hm) as (_ & x & Hx & _). apply lookup_lt_Some in Hx. lia. }
    intros h1 h2 i f1 f2. rewrite !lookup_insert_Some. intros [[<- E1]|[N1 M1]] [[<- E2]|[N2 M2]]; [done|..|by eapply Hi].
    + injection E1 as <- <-. by apply Hn in M2.
    + injection E2 as <- <-. by apply Hn in M1.
Qed.

Lemma plain_names m st m' st' : plain_step (m, st) (m', st') → in_range m (fs_corpus st) →
  names m (inputs st) → in_range m' (fs_corpus st') ∧ names m' (inputs st').
Proof.
  intros Hstep Hr Hn. inversion Hstep as [? ? input se v idx ? ? _ E Hp|? ? ? Hq]; subst.
  - destruct (evaluate_filed _ _ _ _ _ _ _ _ E Hr) as (s & _ & Ha & Hf & _).
    apply (in_range_longer m _ (fs_corpus s)) in Hr; [|by apply appended_length]. destruct Ha as (new & Hs & _).
    apply (names_app m (inputs st) new) in Hn. rewrite <- Hs in Hn. split; [by eapply filed_in_range|].
    destruct (filed_cases _ _ _ _ _ _ _ Hf) as [(_ & -> & ->)|(h & l & Hpush & Hk)]; [done|].
    destruct Hk as [->|(-> & _)]; [by eapply names_pushed|]. destruct Hpush as (Hidx & _). by rewrite Hp in Hidx.
  - destruct (sl_inputs _ _ Hq) as (new & Hs & _). rewrite Hs. split; [|by apply names_app].
    eapply in_range_longer; [|done]. by apply appended_length, Hq.
Qed.
Lemma plain_names_rtc a b : rtc plain_step a b → in_range a.1 (fs_corpus a.2) → names a.1 (inputs a.2) → names b.1 (inputs b.2).
Proof.
  induction 1 as [|[m st] [m' st'] c Hstep _ IH]; [done|]. intros Hr Hn. destruct (plain_names _ _ _ _ Hstep Hr Hn). by apply IH.
Qed.

(** What an evaluation or a stage keeps *)
Lemma campaign_step_spec m st m' st' : campaign_step (m, st) (m', st') → fz_inv m st →
  fz_inv m' st' ∧ (length (inputs st) ≤ length (inputs st'))%nat ∧
  (∀ i s, entries (infants st) !! i = Some s → entries (infants st') !! i = Some s) ∧
  rtc sched_step (fs_infant st) (fs_infant st').
Proof.
  intros Hstep Hinv. inversion Hstep as [? ? input se v idx ? ? Hready E|? ? ? Hq]; subst.
  - destruct (evaluate_spec _ _ _ _ _ _ _ _ E Hinv Hready) as (s & r & txn & Hj & Hf & Hinv' & Hi & Hs).
    pose proof (judged_inv m _ _ _ _ _ _ Hj Hinv) as Hinvs. pose proof (appended_length _ _ (j_inputs _ _ _ _ _ _ Hj)).
    destruct (filed_in_range _ _ _ _ _ _ _ Hf (inv_range _ _ Hinvs)) as [_ ?].
    split; [done|]. split; [lia|]. split; [|by etransitivity; [apply (j_sched _ _ _ _ _ _ Hj)|]].
    intros i w Hw. rewrite Hi. by apply (j_mono _ _ _ _ _ _ Hj).
  - split; [by eapply fz_inv_still|]. split; [by apply appended_length, Hq|]. split; [|apply Hq]. by rewrite (sl_infants _ _ Hq).
Qed.

(** C4. The bookkeeping of a campaign.  In every state a campaign reaches, every stored VM
    state either is an initial one or names an older VM state that is still stored; no VM
    state is ever lost; and the infant scheduler has only been moved by its own
    operations.  Every index that the minimizer has is one of the corpus of inputs, which
    is a vector, so that a replacement always removes exactly one input, and the number
    of inputs never falls.  As long as no input has been replaced, each entry of the
    minimizer names a testcase that has the recorded favour, and no two entries the same
    one.  (The first replacement moves the testcases behind the removed one, and the
    minimizer does not follow: see [EvmCampaign.minimizer_goes_stale].) *)
Theorem campaign_invariant m0 st0 m st :
  fz_inv m0 st0 → rtc campaign_step (m0, st0) (m, st) →
  traces_ok (infants st) ∧
  (∀ i s, entries (infants st0) !! i = Some s → entries (infants st) !! i = Some s) ∧
  rtc sched_step (fs_infant st0) (fs_infant st) ∧
  in_range m (fs_corpus st) ∧ (length (inputs st0) ≤ length (inputs st))%nat ∧
  (names m0 (inputs st0) → rtc plain_step (m0, st0) (m, st) → names m (inputs st)).
Proof.
  intros Hinv Hsteps. assert (names m0 (inputs st0) → rtc plain_step (m0, st0) (m, st) → names m (inputs st)) as Hn.
  { intros Hn Hp. exact (plain_names_rtc _ _ Hp (inv_range _ _ Hinv) Hn). }
  cut (fz_inv m st ∧ (length (inputs st0) ≤ length (inputs st))%nat ∧
    (∀ i s, entries (infants st0) !! i = Some s → entries (infants st) !! i = Some s) ∧
    rtc sched_step (fs_infant st0) (fs_infant st)); [by intros ([] & ? & ? & ?)|]. clear Hn.
  remember (m0, st0) as a eqn:Ea. remember (m, st) as b eqn:Eb. revert m0 st0 m st Hinv Ea Eb.
  induction Hsteps as [a|a [m1 st1] c Hstep _ IH]; intros m0 st0 m st Hinv -> Eb; [by injection Eb as <- <-|].
  destruct (campaign_step_spec _ _ _ _ Hstep Hinv) as (Hinv1 & Hl1 & Hm1 & Hs1).
  destruct (IH m1 st1 m st Hinv1 eq_refl Eb) as (? & ? & Hm & ?). split; [done|]. split; [lia|]. split; [|by etransitivity].
  intros i w Hw. by apply Hm, Hm1.
Qed.

(** ** Exits *)

Lemma run_and_judge_no_exit input st r : run_and_judge cp input st ≠ Exited r.
Proof.
  unfold run_and_judge. intros E.
  apply bind_Exited in E as [E|(s1 & _ & E)]; [by apply no_exit_pre in E|].
  apply bind_Exited in E as [E|(s2 & _ & E)].
  { unfold run_target in E. apply bind_Exited in E as [E|([? ?] & _ & E)]; [by apply or_panic_Exited in E|done]. }
  apply bind_Exited in E as [E|(s3 & _ & E)]; [by apply no_exit_post in E|].
  apply bind_Exited in E as [E|([b4 s4] & _ & E)]; [apply no_exit_interesting in E; [done|set_solver]|].
  apply bind_Exited in E as [E|([b5 s5] & _ & E)]; [apply no_exit_interesting in E; [done|set_solver]|].
  apply bind_Exited in E as [E|(s6 & _ & E)].
  { unfold record_txn in E. apply bind_Exited in E as [E|(? & _ & E)]; [by apply or_panic_Exited in E|done]. }
  apply bind_Exited in E as [E|(s7 & _ & E)].
  { unfold keep_infant in E. destruct (_ && _); [|done].
    apply bind_Exited in E as [E|([? ?] & _ & E)]; [by apply or_panic_Exited in E|done]. }
  unfold judge in E. apply bind_Exited in E as [E|([? ?] & _ & E)]; [|done].
  unfold first_verdict in E. destruct (_ && _); [done|].
  apply bind_Exited in E as [E|([? ?] & _ & E)]; [apply no_exit_interesting in E; [done|set_solver]|done].
Qed.

Lemma add_testcase_no_exit input st r : add_testcase cp input st ≠ Exited r.
Proof.
  unfold add_testcase. intros E. apply bind_Exited in E as [E|(s1 & E1 & E)]; [apply no_exit_append in E; [done|by left]|].
  destruct (tc_add_end (fs_corpus s1) input) as (c & Ec & _). rewrite Ec in E.
  apply bind_Exited in E as [E|([? ?] & [= <- <-] & E)]; [done|].
  apply bind_Exited in E as [E|(? & _ & E)]; [by apply no_exit_on_add in E|done].
Qed.

Lemma arm_none_no_exit m input st r : in_range m (fs_corpus st) → arm_none cp m input st ≠ Exited r.
Proof.
  intros Hr E. unfold arm_none in E.
  apply bind_Exited in E as [E|(s1 & Q1 & E)]; [apply no_exit_discard in E; [done|set_solver]|].
  destruct (should_replace _ _ _ _) as [[[h f] i]|] eqn:Es.
  - unfold should_replace in Es. apply bind_Some in Es as ([j old] & Hm & Es). destruct (f64_gt _ _); [|done]. injection Es as <- <- <-.
    destruct (tc_remove_at (fs_corpus s1) j) as (c & Ec & _); [by apply Hr in Hm; lia|].
    rewrite Ec in E. apply bind_Exited in E as [E|(? & [= <-] & E)]; [done|].
    apply bind_Exited in E as [E|([? ?] & _ & E)]; [by apply add_testcase_no_exit in E|].
    apply bind_Exited in E as [E|(? & _ & E)]; [by apply or_panic_Exited in E|done].
  - apply bind_Exited in E as [E|(? & _ & E)]; [apply no_exit_discard in E; [done|set_solver]|done].
Qed.

Lemma arm_corpus_no_exit m input se st r : arm_corpus cp m input se st ≠ Exited r.
Proof.
  unfold arm_corpus. intros E. apply bind_Exited in E as [E|(s1 & Q1 & E)]; [apply no_exit_discard in E; [done|set_solver]|].
  apply bind_Exited in E as [E|([? ?] & _ & E)]; [by apply add_testcase_no_exit in E|].
  apply bind_Exited in E as [E|(? & _ & E)]; [|done]. destruct se; [by apply no_exit_fire in E|done].
Qed.

(** The only exit is the report of a solution. *)
Lemma exit_is_solution m input se st report :
  evaluate_input_events cp m input se st = Exited report → fz_inv m st → ready input st →
  ∃ s r txn, judged input st r txn RSolution s ∧ solution_report cp s = Some report.
Proof.
  unfold evaluate_input_events. intros [E|([res s] & E1 & E)]%bind_Exited Hinv Hr; [by apply run_and_judge_no_exit in E|].
  destruct (run_and_judge_spec m input st res s E1 Hinv Hr) as (r & txn & Hj). exists s, r, txn. destruct res.
  - apply arm_none_no_exit in E; [done|]. by eapply inv_range, judged_inv.
  - by apply arm_corpus_no_exit in E.
  - split; [done|]. unfold arm_solution in E.
    apply bind_Exited in E as [E|(rep & Er%or_panic_Done & E)]; [by apply or_panic_Exited in E|].
    destruct (negb _); [by injection E as ->|]. exfalso.
    apply bind_Exited in E as [E|(? & _ & E)]; [apply no_exit_discard in E; [done|set_solver]|].
    apply bind_Exited in E as [E|(? & _ & E)]; [apply no_exit_append in E; [done|set_solver]|].
    apply bind_Exited in E as [E|([? ?] & _ & E)]; [by apply no_exit_solution in E|].
    apply bind_Exited in E as [E|(? & _ & E)]; [|done]. destruct se; [by apply no_exit_fire in E|done].
Qed.

(** The report is the history of the input's VM state and the transaction of the input. *)
Lemma solution_report_text input st r txn res s report :
  judged input st r txn res s → fz_inv ∅ st → ready input st → solution_report cp s = Some report →
  ∃ l, history (infants st) (ei_sstate_idx input) l ∧ report = BEGIN ++ concat (map (txn_text (json cp)) (l ++ [txn])).
Proof.
  intros Hj [_ Hok Htr] (Hlive & _) Hrep. pose proof (j_corpus_ok _ _ _ _ _ _ Hj) as Hok'. pose proof (j_traces_ok _ _ _ _ _ _ Hj) as Htr'.
  destruct (history_exists (infants st) (json cp) (ei_sstate_idx input) Htr Hok) as (l & Hl & _); [by eexists|].
  assert (is_Some (entries (infants s) !! ei_sstate_idx input)) as Hi by (eexists; by apply (j_mono _ _ _ _ _ _ Hj)).
  destruct (history_exists (infants s) (json cp) (ei_sstate_idx input) Htr' Hok' Hi) as (l' & Hl' & Hp).
  assert (l' = l) as ->.
  { eapply history_functional; [|exact Hl']. eapply history_mono; [|exact Hl]. apply (j_mono _ _ _ _ _ _ Hj). }
  exists l. split; [done|]. unfold solution_report in Hrep. rewrite (j_result _ _ _ _ _ _ Hj) in Hrep. cbn [traced er_new_state ss_trace] in Hrep.
  rewrite Hp in Hrep; [by injection Hrep as <-| |done]. destruct Hok' as [_ Hok']. apply Hok' in Hi. lia.
Qed.

Lemma fz_inv_empty m st : fz_inv m st → fz_inv ∅ st.
Proof. intros []. split; [|done..]. intros h idx f Hm. by rewrite lookup_empty in Hm. Qed.

(** A reported solution can be followed from the beginning.  When the fuzzer stops with a
    report, the report is the complete list of transactions that leads from an initial VM
    state to the bug: the history of the VM state the input ran on, in order and without
    gaps, and then the input's own transaction.  In particular following the chain of
    states terminates and never meets a state that was discarded. *)
Theorem solution_report_complete m input se st report :
  fz_inv m st → ready input st → evaluate_input_events cp m input se st = Exited report →
  ∃ l r txn, history (infants st) (ei_sstate_idx input) l ∧ executed input st r ∧
    build_basic_txn (function_sig cp) input r = Some txn ∧
    report = BEGIN ++ concat (map (txn_text (json cp)) (l ++ [txn])).
Proof.
  intros Hinv Hr E. destruct (exit_is_solution m input se st report E Hinv Hr) as (s & r & txn & Hj & Hrep).
  destruct (solution_report_text _ _ _ _ _ _ _ Hj (fz_inv_empty _ _ Hinv) Hr Hrep) as (l & Hl & Ht).
  exists l, r, txn. split; [done|]. split; [apply Hj|]. split; [apply Hj|done].
Qed.

(** ** What VM states and reports stand for *)

(** [reached_by start init s l]: the transactions [l], one after the other and none of them
    reverted, lead from [init] to [s].  Each was executed by the campaign from [start], in a
    state that the campaign reaches, on the VM state that the transactions before it left
    and that is stored there. *)
Inductive reached_by (start : Minimizer * FzState) (init : EVMState) : EVMState → list BasicTxn → Prop :=
| reached_start : reached_by start init init []
| reached_txn l m st input r txn :
    reached_by start init (ss_state (ei_sstate input)) l →
    rtc campaign_step start (m, st) → ready input st → executed input st r → er_reverted r = false →
    build_basic_txn (function_sig cp) input r = Some txn →
    reached_by start init (ss_state (er_new_state r)) (l ++ [txn]).

(** Every stored VM state is what its history leads to. *)
Definition attacks_ok (start : Minimizer * FzState) (init : EVMState) st : Prop :=
  ∀ i s, entries (infants st) !! i = Some s → ∃ l, history (infants st) i l ∧ reached_by start init (ss_state s) l.

Lemma judged_attacks start init m input st r txn v s :
  attacks_ok start init st → rtc campaign_step start (m, st) → ready input st → judged input st r txn v s → attacks_ok start init s.
Proof.
  intros Ha Hstart Hr Hj i w Hw. pose proof (history_mono (infants st) (infants s)) as Hmono. specialize (Hmono) with (1 := j_mono _ _ _ _ _ _ Hj).
  destruct (j_new _ _ _ _ _ _ Hj i w Hw) as [Hw'|[Hrev ->]].
  - destruct (Ha _ _ Hw') as (l & Hl & ?). exists l. split; [by apply Hmono|done].
  - pose proof Hr as (Hlive & _). destruct (Ha _ _ Hlive) as (l & Hl & Hreach). exists (l ++ [txn]). split.
    + exact (history_txns _ _ _ _ _ Hw eq_refl (Hmono _ _ Hl)).
    + refine (reached_txn _ _ l m st input r txn Hreach Hstart Hr _ Hrev _); apply Hj.
Qed.

Lemma campaign_attacks init start m st :
  fz_inv start.1 start.2 → attacks_ok start init start.2 → rtc campaign_step start (m, st) → fz_inv m st ∧ attacks_ok start init st.
Proof.
  intros Hinv Ha Hsteps. change (fz_inv (m, st).1 (m, st).2 ∧ attacks_ok start init (m, st).2). revert Hsteps.
  generalize (m, st). clear m st. apply (rtc_ind_r _ start); [done|]. intros [m1 st1] [m st] Hpre Hstep [Hinv1 Ha1].
  cbn [fst snd] in *. split; [by eapply campaign_step_spec|].
  inversion Hstep as [? ? input se v idx ? ? Hr E|? ? ? Hq]; subst.
  - destruct (evaluate_spec _ _ _ _ _ _ _ _ E Hinv1 Hr) as (s & r & txn & Hj & _ & _ & Hi & _).
    unfold attacks_ok. rewrite Hi. by eapply judged_attacks.
  - unfold attacks_ok. by rewrite (sl_infants _ _ Hq).
Qed.

(** The report of an exit is the text of such a run, whose last execution is the one the
    objective judged. *)
Lemma exit_is_attack start init m input se st report :
  evaluate_input_events cp m input se st = Exited report → fz_inv m st → attacks_ok start init st →
  rtc campaign_step start (m, st) → ready input st →
  ∃ l r s1 s2, reached_by start init (ss_state (er_new_state r)) l ∧ er_reverted r = false ∧
    is_interesting (objective cp) input s1 = Done (true, s2) ∧ fs_result s1 = r ∧
    report = BEGIN ++ concat (map (txn_text (json cp)) l).
Proof.
  intros E Hinv Ha Hstart Hr. destruct (exit_is_solution m input se st report E Hinv Hr) as (s & r & txn & Hj & Hrep).
  destruct (solution_report_text _ _ _ _ _ _ _ Hj (fz_inv_empty _ _ Hinv) Hr Hrep) as (l & Hl & Ht).
  pose proof Hr as (Hlive & _). destruct (Ha _ _ Hlive) as (l' & Hl' & Hreach).
  assert (l' = l) as -> by (by eapply history_functional).
  destruct (j_verdict _ _ _ _ _ _ Hj) as (s1 & b & s2 & Hobj & Hs1 & Hv). destruct (proj1 Hv eq_refl) as [-> Hrev].
  exists (l ++ [txn]), r, s1, s2. split; [|done].
  refine (reached_txn _ _ l m st input r txn Hreach Hstart Hr _ Hrev _); apply Hj.
Qed.

(** Reverted executions count for nothing: if the execution of the input reverts, its VM
    state is not stored, it is no solution whatever the oracles say, and the fuzzer does
    not stop. *)
Theorem reverted_is_no_solution m input se st :
  fz_inv m st → ready input st → (∀ r, executed input st r → er_reverted r = true) →
  match evaluate_input_events cp m input se st with
  | Done (v, _, _, st') => v ≠ RSolution ∧ infants st' = infants st
  | Exited _ => False
  | Failed | Panics => True
  end.
Proof.
  intros Hinv Hr Hrev. destruct (evaluate_input_events _ _ _ _ _) as [[[[v idx] m'] st']| | |rep] eqn:E; try done.
  - destruct (evaluate_spec _ _ _ _ _ _ _ _ E Hinv Hr) as (s & r & txn & Hj & _ & _ & -> & _).
    pose proof (Hrev r (j_executed _ _ _ _ _ _ Hj)) as Hf. destruct (j_verdict _ _ _ _ _ _ Hj) as (s1 & b & s2 & _ & _ & Hv). split.
    + intros [_ ?]%Hv. congruence.
    + by apply (j_reverted _ _ _ _ _ _ Hj).
  - destruct (exit_is_solution _ _ _ _ _ E Hinv Hr) as (s & r & txn & Hj & _).
    pose proof (Hrev r (j_executed _ _ _ _ _ _ Hj)) as Hf. destruct (j_verdict _ _ _ _ _ _ Hj) as (s1 & b & s2 & _ & _ & Hv).
    destruct (proj1 Hv eq_refl) as [_ ?]. congruence.
Qed.
End campaign.

(** ** A vector *)

#[export] Instance list_corpus : TxnCorpus (list EVMInput) := {|
  tc_add l x := Done (Z.of_nat (length l), l ++ [x]);
  tc_remove l i := Done (if 0 <=? i then delete (Z.to_nat i) l else l);
  tc_get l i := if 0 <=? i then l !! Z.to_nat i else None
|}.
#[export] Instance list_corpus_vec : VecCorpus (list EVMInput).
Proof.
  refine {| tc_list l := l |}; [done| |].
  - intros l x. by eexists.
  - intros l i Hi. exists (delete (Z.to_nat i) l). cbn. by rewrite (proj2 (Z.leb_le 0 i) Hi).
Defined.

(** The executor hands out states with an empty trace. *)
Lemma execute_abi_trace {E S} run (input : VMInput E) h s r h' s' :
  execute_abi (S := S) run input h s = Some (r, h', s') →
  ss_trace (er_new_state r) = TxnTrace_new ∧
  ((in_step input = true → has_post_execution (in_state input) = true) → ss_initialized (er_new_state r) = true).
Proof.
  assert (∀ vm i (h : VMHost E) (s : S), finish vm i h s = Some (r, h', s') →
    ss_trace (er_new_state r) = TxnTrace_new ∧ ss_initialized (er_new_state r) = true) as Hfin.
  { unfold finish. by intros vm i ? ? (new & _ & [= <- _ _])%bind_Some. }
  unfold execute_abi. intros (data & _ & E1)%bind_Some. destruct (in_step input).
  - destruct (last _) as [p|] eqn:El.
    + apply bind_Some in E1 as ([[i h1] s1] & _ & E1). apply Hfin in E1 as [? ?]. done.
    + injection E1 as <- _ _. split; [done|]. intros Hp. specialize (Hp eq_refl). unfold has_post_execution in Hp.
      apply bool_decide_eq_true in Hp. apply last_None in El. rewrite El in Hp. simpl in Hp. lia.
  - apply bind_Some in E1 as ([[i h1] s1] & _ & E1). apply Hfin in E1 as [? ?]. done.
Qed.

(** ** The favour of a debt *)

(** An input on a VM state with a flash-loan debt *)
Definition in_debt (amount : EVMU512) : EVMInput :=
  mkEVMInput 9 7 None (new_with_state (mkEVMState ∅ [] (mkFlashloan amount 0) false)) 0 None false
    (mkEnv 0 0 0 0 0 0) AccessPattern_new [] 1 false.

(** Without a debt the favour is the highest, but with one it grows with the debt, so the
    minimizer replaces an input by one that owes more. *)
Lemma larger_debt_is_favoured :
  f64_gt (fav_factor (in_debt (10 ^ 20))) (fav_factor (in_debt 5)) = true ∧
  f64_gt (fav_factor (in_debt 0)) (fav_factor (in_debt (10 ^ 20))) = true.
Proof. split; vm_compute; reflexivity. Qed.
