(* ===== verification/Feedback.v ===== *)
(** * Feedbacks ([src/src/feedback.rs])

    [DataflowFeedback], [CmpFeedback] and [OracleFeedback]: whether an execution was
    interesting, and what they remember of it. *)
From S2P Require Import Prelude Types State F64 Corpus Scheduler Host.
#[local] Open Scope Z_scope.

(** ** Data flow *)

(** [struct DataflowFeedback]; the read and write maps are the host's. *)
Record DataflowFeedback := mkDataflow {
  global_write_map : list (list bool);
  df_read_map : list bool;
  df_write_map : list Z
}.

(** [DataflowFeedback::new] *)
Definition DataflowFeedback_new (read : list bool) (write : list Z) : DataflowFeedback :=
  mkDataflow (replicate map_size (replicate 4 false)) read write.

(** The bucket of a written value ([2 << 2], [2 << 4], [2 << 6] on [u8]). *)
Definition category (w : Z) : nat :=
  if w <? Z.shiftl 2 2 then 0
  else if w <? Z.shiftl 2 4 then 1
  else if w <? Z.shiftl 2 6 then 2
  else 3.

(** The body of the loop: [interesting], [seq] and the global map. *)
Definition dataflow_step (read : list bool) (write : list Z)
    (st : bool * Z * list (list bool)) (i : nat) : option (bool * Z * list (list bool)) :=
  let '(interesting, sq, g) := st in
  r ← read !! i;
  w ← write !! i;
  if (r : bool) && negb (w =? 0) then
    let sq := u64 (sq + Z.of_nat i) in
    let slot := Z.to_nat (sq mod MAP_SIZE) in
    row ← g !! slot;
    b ← row !! category w;
    if (b : bool) then Some (interesting, sq, g)
    else Some (true, sq, <[slot := <[category w := true]> row]> g)
  else Some (interesting, sq, g).

(** [DataflowFeedback::is_interesting] *)
Definition dataflow_is_interesting (fb : DataflowFeedback) : option (bool * DataflowFeedback) :=
  st ← foldM (dataflow_step (df_read_map fb) (df_write_map fb)) (false, 0, global_write_map fb)
         (seq 0 map_size);
  let '(interesting, _, g) := st in
  Some (interesting, mkDataflow g (df_read_map fb) (replicate (length (df_write_map fb)) 0)).

(** ** Comparisons *)

(** [struct CmpFeedback], with the statics [DF_MAP], [BRANCH_DISTANCE_CHANGED] and
    [BRANCH_DISTANCE_INTERESTING]. *)
Record CmpFeedback := mkCmp {
  min_map : list EVMU256;
  known_states : gset Z;
  df_map : list Z;
  branch_distance_changed : bool;
  branch_distance_interesting : bool
}.

(** [CmpFeedback::new] *)
Definition CmpFeedback_new : CmpFeedback :=
  mkCmp (replicate map_size (2 ^ 128 - 1)) ∅ (replicate map_size 0) false false.

(** The first loop: the minima, and whether one got smaller. *)
Fixpoint update_min (current minima : list EVMU256) : bool * list EVMU256 :=
  match current, minima with
  | c :: cs, m :: ms =>
      let '(b, r) := update_min cs ms in
      if c <? m then (true, c :: r) else (b, m :: r)
  | _, _ => (false, minima)
  end.

(** The loop with [break]: the first slot both read and written. *)
Fixpoint first_flow (read : list bool) (write : list Z) (i : nat) : option nat :=
  match read, write with
  | r :: rs, w :: ws => if r && negb (w =? 0) then Some i else first_flow rs ws (S i)
  | _, _ => None
  end.

(** What the feedback reads of the execution. *)
Record cmp_input := mkCmpInput {
  ci_current : list EVMU256;
  ci_read : list bool;
  ci_write : list Z;
  ci_state_changed : bool;
  ci_post_execution_pc : Z;
  ci_hash : Z;
  ci_state_idx : Z
}.

Section cmp.
Context {I R : Type}.

(** [CmpFeedback::is_interesting]: the verdict, the feedback, the scheduler state and
    the write map of the VM. *)
Definition cmp_is_interesting (fb0 : CmpFeedback) (st : InfantStateState I R) (x : cmp_input)
  : option (bool * CmpFeedback * InfantStateState I R * list Z) :=
  let '(cmp_interesting, minima) := update_min (ci_current x) (min_map fb0) in
  st ← (if (cmp_interesting : bool) then vote st (ci_state_idx x) else Some st);
  let fb known df := mkCmp minima known df false cmp_interesting in
  let known := known_states fb0 in
  let df := df_map fb0 in
  let pc_interesting := negb (ci_post_execution_pc x =? 0) in
  if ci_state_changed x || pc_interesting then
    if decide (ci_hash x ∈ known) then Some (false, fb known df, st, ci_write x)
    else
      let flow := first_flow (ci_read x) (ci_write x) 0 in
      let df := match flow with Some i => <[i := 1]> df | None => df end in
      let write := replicate (length (ci_write x)) 0 in
      if bool_decide (is_Some flow) || pc_interesting
      then Some (true, fb ({[ci_hash x]} ∪ known) df, st, write)
      else Some (false, fb known df, st, write)
  else Some (false, fb known df, st, ci_write x).
End cmp.

(** ** Oracles *)

(** [struct OracleFeedback]: producers and oracles act on the oracle context [C],
    which holds the fuzzing state. *)
Section oracle.
Context {C : Type}.

Record Producer := mkProducer { produce : C → C; notify_end : C → C }.
Definition Oracle : Type := C → Z → bool * C.

(** The loop over the oracles from index [idx]: whether one was violated. *)
Fixpoint run_oracles (oracles : list Oracle) (stages : list Z) (idx : nat) (c : C) : bool * C :=
  match oracles with
  | [] => (false, c)
  | o :: os =>
      let original_stage := default 0 (stages !! idx) in
      let '(violated, c) := o c original_stage in
      if (violated : bool) then (true, c) else run_oracles os stages (S idx) c
  end.

(** [OracleFeedback::is_interesting]; [has_post_execution] is read after the producers
    were notified. *)
Definition oracle_is_interesting (producers : list Producer) (oracles : list Oracle)
    (stages : list Z) (has_post_execution : C → bool) (c : C) : bool * C :=
  let c := fold_left (λ c p, produce p c) producers c in
  let '(violated, c) := run_oracles oracles stages 0 c in
  let c := fold_left (λ c p, notify_end p c) producers c in
  (if (violated : bool) then negb (has_post_execution c) else false, c).
End oracle.
