(* ===== verification/FeedbackProps.v ===== *)
(** * Properties of the feedbacks *)
From S2P Require Import Prelude Types State F64 Corpus Scheduler SchedulerInv Host HostProps Feedback.
#[local] Open Scope Z_scope.

(** ** Data flow *)

(** The marks an execution leaves: slot and bucket of every slot that is both read
    and written, the slot being the running sum of the indices. *)
Fixpoint marks (read : list bool) (write : list Z) (l : list nat) (sq : Z) : list (nat * nat) :=
  match l with
  | [] => []
  | i :: l' =>
      match read !! i, write !! i with
      | Some true, Some w =>
          if w =? 0 then marks read write l' sq
          else let sq := u64 (sq + Z.of_nat i) in
               (Z.to_nat (sq mod MAP_SIZE), category w) :: marks read write l' sq
      | _, _ => marks read write l' sq
      end
  end.

(** An entry of the global map. *)
Definition gget (g : list (list bool)) (x : nat * nat) : option bool := row ← g !! x.1; row !! x.2.

Definition global_ok (g : list (list bool)) : Prop :=
  length g = map_size ∧ Forall (λ row, length row = 4%nat) g.

Lemma category_lt w : (category w < 4)%nat.
Proof. unfold category. repeat case_match; lia. Qed.

Lemma slot_lt z : (Z.to_nat (z mod MAP_SIZE) < map_size)%nat.
Proof.
  pose proof map_size_Z as Hs. pose proof (Z.mod_pos_bound z MAP_SIZE ltac:(done)). lia.
Qed.

Lemma gget_total g z w :
  global_ok g → ∃ row b, g !! Z.to_nat (z mod MAP_SIZE) = Some row ∧ row !! category w = Some b.
Proof.
  intros [Hl Hr]. destruct (lookup_lt_is_Some_2 g (Z.to_nat (z mod MAP_SIZE))) as [row Erow].
  { rewrite Hl. apply slot_lt. }
  exists row. rewrite Forall_forall in Hr.
  assert (length row = 4%nat) as Hrow by (apply Hr; by eapply list_elem_of_lookup_2).
  destruct (lookup_lt_is_Some_2 row (category w)) as [b Eb]; [rewrite Hrow; apply category_lt|].
  by exists b.
Qed.

Lemma gget_set g slot cat row b :
  g !! slot = Some row → row !! cat = Some b → ∀ x,
  gget (<[slot := <[cat := true]> row]> g) x = if decide (x = (slot, cat)) then Some true else gget g x.
Proof.
  intros Hs Hc [s c]. unfold gget. cbn [fst snd].
  assert (slot < length g)%nat by (by eapply lookup_lt_Some).
  assert (cat < length row)%nat by (by eapply lookup_lt_Some).
  destruct (decide (s = slot)) as [->|Hne].
  - rewrite list_lookup_insert_eq by done. rewrite Hs, !obind_Some.
    destruct (decide (c = cat)) as [->|Hc'].
    + rewrite list_lookup_insert_eq by done. by rewrite decide_True.
    + rewrite list_lookup_insert_ne by done. rewrite decide_False; [done|congruence].
  - rewrite list_lookup_insert_ne by done. rewrite decide_False; [done|congruence].
Qed.

Lemma global_ok_set g slot cat row :
  global_ok g → g !! slot = Some row → global_ok (<[slot := <[cat := true]> row]> g).
Proof.
  intros [Hl Hr] Hs. split; [by rewrite length_insert|]. apply Forall_insert; [done|].
  rewrite length_insert. rewrite Forall_forall in Hr. apply Hr. by eapply list_elem_of_lookup_2.
Qed.

(** A round of the loop on slots that exist. *)
Lemma dataflow_step_eq read write b sq g i r w :
  read !! i = Some r → write !! i = Some w →
  dataflow_step read write (b, sq, g) i =
  if (r : bool) && negb (w =? 0) then
    let sq := u64 (sq + Z.of_nat i) in
    row ← g !! Z.to_nat (sq mod MAP_SIZE);
    c ← row !! category w;
    if (c : bool) then Some (b, sq, g)
    else Some (true, sq, <[Z.to_nat (sq mod MAP_SIZE) := <[category w := true]> row]> g)
  else Some (b, sq, g).
Proof. intros Er Ew. unfold dataflow_step. by rewrite Er, obind_Some, Ew, obind_Some. Qed.

(** Everything the loop does. *)
Lemma dataflow_loop read write l : ∀ b sq g,
  (∀ i, i ∈ l → (i < length read)%nat ∧ (i < length write)%nat) → global_ok g →
  ∃ b' sq' g', foldM (dataflow_step read write) (b, sq, g) l = Some (b', sq', g') ∧ global_ok g' ∧
    (∀ x, gget g' x = if decide (x ∈ marks read write l sq) then Some true else gget g x) ∧
    (b' = true ↔ b = true ∨ ∃ x, x ∈ marks read write l sq ∧ gget g x ≠ Some true).
Proof.
  induction l as [|i l IH]; intros b sq g Hl Hg.
  { exists b, sq, g. cbn [marks foldM]. split; [done|]. split; [done|]. split.
    - intros x. case_decide as Hx; [by apply not_elem_of_nil in Hx|done].
    - split; [by left|]. intros [?|(x & Hx & _)]; [done|by apply not_elem_of_nil in Hx]. }
  assert (∀ i0, i0 ∈ l → (i0 < length read)%nat ∧ (i0 < length write)%nat) as Hl' by (intros; apply Hl; by right).
  destruct (Hl i ltac:(left)) as [Hr Hw].
  destruct (lookup_lt_is_Some_2 read i Hr) as [r Er]. destruct (lookup_lt_is_Some_2 write i Hw) as [w Ew].
  cbn [foldM marks]. rewrite (dataflow_step_eq _ _ _ _ _ _ r w Er Ew), Er, Ew. cbv zeta.
  destruct r; cbn [andb]; [|rewrite obind_Some; apply IH; done].
  destruct (Z.eqb_spec w 0) as [->|Hw0]; cbn [negb]; [rewrite obind_Some; apply IH; done|].
  set (sq1 := u64 (sq + Z.of_nat i)).
  destruct (gget_total g sq1 w Hg) as (row & c & Erow & Ec). rewrite Erow, obind_Some, Ec, obind_Some.
  assert (gget g (Z.to_nat (sq1 mod MAP_SIZE), category w) = Some c) as Eg.
  { unfold gget. cbn [fst snd]. by rewrite Erow, obind_Some. }
  destruct c; rewrite obind_Some.
  - destruct (IH b sq1 g Hl' Hg) as (b' & sq' & g' & E & Hok & Hget & Hb). exists b', sq', g'.
    split; [done|]. split; [done|]. split.
    + intros x. rewrite Hget. destruct (decide (x ∈ marks read write l sq1)) as [Hx|Hx].
      * by rewrite decide_True by (by right).
      * case_decide as Hx'; [|done]. apply elem_of_cons in Hx' as [->|?]; done.
    + rewrite Hb. split.
      * intros [?|(x & Hx & Hn)]; [by left|right]. exists x. split; [by right|done].
      * intros [?|(x & Hx & Hn)]; [by left|right]. apply elem_of_cons in Hx as [->|Hx]; [done|].
        by exists x.
  - destruct (IH true sq1 (<[Z.to_nat (sq1 mod MAP_SIZE) := <[category w := true]> row]> g) Hl')
      as (b' & sq' & g' & E & Hok & Hget & Hb); [by apply global_ok_set|]. exists b', sq', g'.
    split; [done|]. split; [done|]. split.
    + intros x. rewrite Hget, (gget_set g _ _ row false) by done.
      destruct (decide (x ∈ marks read write l sq1)) as [Hx|Hx].
      * by rewrite decide_True by (by right).
      * destruct (decide (x = (Z.to_nat (sq1 mod MAP_SIZE), category w))) as [->|Hne].
        -- by rewrite decide_True by left.
        -- rewrite decide_False; [done|]. rewrite elem_of_cons. naive_solver.
    + split; [intros _|intros _; apply Hb; by left]. right.
      exists (Z.to_nat (sq1 mod MAP_SIZE), category w). split; [left|]. by rewrite Eg.
Qed.

Definition dataflow_ok (fb : DataflowFeedback) : Prop :=
  global_ok (global_write_map fb) ∧ length (df_read_map fb) = map_size ∧ length (df_write_map fb) = map_size.

(** Data-flow feedback reports exactly the new flows: [is_interesting] is true iff the
    execution left a mark (a slot that is both read and written, with the bucket of
    the written value) that the global map did not have; afterwards the global map has
    all its old marks and the new ones and nothing else, and the write map is cleared.
    In particular the same read and write maps are never interesting twice. *)
Theorem dataflow_reports_new_flows fb :
  dataflow_ok fb →
  let ms := marks (df_read_map fb) (df_write_map fb) (seq 0 map_size) 0 in
  ∃ b fb', dataflow_is_interesting fb = Some (b, fb') ∧
    (b = true ↔ ∃ x, x ∈ ms ∧ gget (global_write_map fb) x ≠ Some true) ∧
    (∀ x, gget (global_write_map fb') x = if decide (x ∈ ms) then Some true else gget (global_write_map fb) x) ∧
    df_write_map fb' = replicate map_size 0 ∧ df_read_map fb' = df_read_map fb ∧
    ∃ fb'', dataflow_is_interesting (mkDataflow (global_write_map fb') (df_read_map fb) (df_write_map fb)) =
            Some (false, fb'').
Proof.
  intros (Hg & Hr & Hw) ms.
  assert (∀ i, i ∈ seq 0 map_size → (i < length (df_read_map fb))%nat ∧ (i < length (df_write_map fb))%nat) as Hl.
  { intros i Hi%elem_of_seq. lia. }
  destruct (dataflow_loop (df_read_map fb) (df_write_map fb) (seq 0 map_size) false 0 (global_write_map fb) Hl Hg)
    as (b & sq & g & E & Hok & Hget & Hb). fold ms in Hget, Hb.
  exists b, (mkDataflow g (df_read_map fb) (replicate map_size 0)).
  unfold dataflow_is_interesting. rewrite E, obind_Some, Hw. split; [done|].
  cbn [global_write_map df_write_map df_read_map]. split.
  { rewrite Hb. split; [intros [?|?]; [done|done]|by right]. }
  split; [done|]. split; [done|]. split; [done|].
  destruct (dataflow_loop (df_read_map fb) (df_write_map fb) (seq 0 map_size) false 0 g Hl Hok)
    as (b2 & sq2 & g2 & E2 & _ & _ & Hb2). fold ms in Hb2.
  rewrite E2, obind_Some. assert (b2 = false) as ->; [|by eexists].
  destruct b2; [|done]. destruct (proj1 Hb2 eq_refl) as [?|(x & Hx & Hn)]; [done|].
  rewrite Hget, decide_True in Hn by done. done.
Qed.

(** A load marks the slot of its key as read. *)
Lemma step_marks_read h i key st k h' :
  host_ok h → Forall is_u256 (stack i) → opcode i = 0x54 → stack i = key :: st →
  process_rw_key key = Some k → 0 ≤ k < MAP_SIZE →
  step (λ h _, h) h i = Some h' → read_map h' !! Z.to_nat k = Some true.
Proof.
  intros Hh Hs Eo Es Ek Hk. pose proof map_size_Z as Hms. unfold step.
  assert (step_maps_of h (maps_of h) i = step_sload (maps_of h) i) as ->.
  { unfold step_maps_of, is_op. by rewrite Eo. }
  destruct (step_sload_ok (maps_of h) i Hh Hs) as (m & key' & k' & -> & _ & _ & Ekey & Ek' & Hrd).
  { rewrite Es. simpl. lia. }
  rewrite obind_Some. unfold fast_peek in Ekey. rewrite Es in Ekey. simplify_eq/=.
  destruct (decode_instruction _ _); [|done]. rewrite obind_Some. intros [= <-]. cbn [read_map].
  rewrite Hrd, list_lookup_insert_eq; [done|]. pose proof (mo_read _ Hh) as Hlen. cbn in *. lia.
Qed.

(** A store marks the slot of its key as written, never with 0, and keeps the read marks. *)
Lemma step_marks_write h i key v st k h' :
  host_ok h → Forall is_u256 (stack i) → opcode i = 0x55 → stack i = key :: v :: st →
  process_rw_key key = Some k → 0 ≤ k < MAP_SIZE →
  step (λ h _, h) h i = Some h' →
  read_map h' = read_map h ∧ ∃ w, write_map h' !! Z.to_nat k = Some w ∧ w ≠ 0.
Proof.
  intros Hh Hs Eo Es Ek Hk. pose proof map_size_Z as Hms. unfold step.
  assert (step_maps_of h (maps_of h) i = step_sstore h (maps_of h) i) as ->.
  { unfold step_maps_of, is_op. by rewrite Eo. }
  destruct (step_sstore_ok h (maps_of h) i Hh Hs)
    as (m & key' & k' & v' & -> & _ & _ & Ekey & _ & Ek' & Hwr & _ & Hrd).
  { rewrite Es. simpl. lia. }
  rewrite obind_Some. unfold fast_peek in Ekey. rewrite Es in Ekey. simplify_eq/=.
  destruct (decode_instruction _ _); [|done]. rewrite obind_Some. intros [= <-]. cbn [read_map write_map].
  split; [done|]. exists (u256_to_u8 v' + 1). rewrite Hwr, list_lookup_insert_eq.
  - split; [done|]. pose proof (u256_to_u8_range v'). lia.
  - pose proof (mo_write _ Hh) as Hlen. cbn in *. lia.
Qed.

(** A slot both read and written leaves a mark. *)
Lemma marks_nonempty read write l w : ∀ sq i,
  i ∈ l → read !! i = Some true → write !! i = Some w → w ≠ 0 → ∃ x, x ∈ marks read write l sq.
Proof.
  induction l as [|j l IH]; intros sq i Hin Hread Hwrite Hw0; [by apply not_elem_of_nil in Hin|].
  apply elem_of_cons in Hin as [<-|Hin]; cbn [marks].
  - rewrite Hread, Hwrite. destruct (Z.eqb_spec w 0); [done|]. eexists. left.
  - destruct (read !! j) as [[]|]; [|by eapply IH|by eapply IH].
    destruct (write !! j) as [w'|]; [|by eapply IH].
    destruct (w' =? 0); [by eapply IH|]. eexists. left.
Qed.

(** C40. The host and the data-flow feedback compose: a slot that is loaded and stored in
    one execution is always reported the first time, whatever value is stored, since
    [step] never records a stored value as 0. *)
Theorem flow_through_host_is_reported h i_load i_store key v st1 st2 h1 h2 g :
  host_ok h → interp_ok i_load → interp_ok i_store → global_ok g →
  opcode i_load = 0x54 → stack i_load = key :: st1 →
  opcode i_store = 0x55 → stack i_store = key :: v :: st2 →
  step (λ h _, h) h i_load = Some h1 → step (λ h _, h) h1 i_store = Some h2 →
  (∀ x, gget g x ≠ Some true) →
  ∃ fb', dataflow_is_interesting (mkDataflow g (read_map h2) (write_map h2)) = Some (true, fb').
Proof.
  intros Hh Hi1 Hi2 Hg Eo1 Es1 Eo2 Es2 E1 E2 Hfresh.
  destruct (step_ok (λ h _, h) h i_load Hh Hi1) as (h1' & E1' & Hh1 & _).
  assert (h1' = h1) as -> by congruence.
  destruct (step_ok (λ h _, h) h1 i_store Hh1 Hi2) as (h2' & E2' & Hh2 & _).
  assert (h2' = h2) as -> by congruence.
  pose proof Hi1 as (_ & Hs1 & _). pose proof Hi2 as (_ & Hs2 & _).
  assert (is_u256 key) as Hkey by (rewrite Es1 in Hs1; by apply Forall_cons in Hs1 as [? _]).
  destruct (process_rw_key_spec key) as (k & Ek & Hk & _); [unfold is_u256 in Hkey; lia|].
  pose proof (step_marks_read h i_load key st1 k h1 Hh Hs1 Eo1 Es1 Ek Hk E1) as Hread.
  destruct (step_marks_write h1 i_store key v st2 k h2 Hh1 Hs2 Eo2 Es2 Ek Hk E2) as (Hr2 & w & Hwrite & Hw0).
  rewrite <- Hr2 in Hread.
  assert (∀ i, i ∈ seq 0 map_size → (i < length (read_map h2))%nat ∧ (i < length (write_map h2))%nat) as Hl.
  { intros i Hi%elem_of_seq. pose proof (mo_read _ Hh2). pose proof (mo_write _ Hh2). cbn in *. lia. }
  destruct (dataflow_loop (read_map h2) (write_map h2) (seq 0 map_size) false 0 g Hl Hg)
    as (b & sq & g' & E & _ & _ & Hb).
  unfold dataflow_is_interesting. cbn [df_read_map df_write_map global_write_map]. rewrite E, obind_Some.
  assert (b = true) as ->; [|by eexists]. apply Hb. right.
  assert (Z.to_nat k ∈ seq 0 map_size) as Hin by (apply elem_of_seq; pose proof map_size_Z; lia).
  destruct (marks_nonempty (read_map h2) (write_map h2) (seq 0 map_size) w 0 _ Hin Hread Hwrite Hw0) as [x Hx].
  by exists x.
Qed.

Lemma FuzzHost_new_dataflow_ok : dataflow_ok (DataflowFeedback_new (read_map FuzzHost_new) (write_map FuzzHost_new)).
Proof.
  unfold dataflow_ok, DataflowFeedback_new, global_ok. cbn [global_write_map df_read_map df_write_map].
  split; [split|].
  - apply length_replicate.
  - apply Forall_replicate. done.
  - split; apply length_replicate.
Qed.

Lemma dataflow_reports_new_flows_witness :
  let fb := DataflowFeedback_new (read_map FuzzHost_new) (write_map FuzzHost_new) in
  let ms := marks (df_read_map fb) (df_write_map fb) (seq 0 map_size) 0 in
  ∃ b fb', dataflow_is_interesting fb = Some (b, fb') ∧
    (b = true ↔ ∃ x, x ∈ ms ∧ gget (global_write_map fb) x ≠ Some true) ∧
    (∀ x, gget (global_write_map fb') x = if decide (x ∈ ms) then Some true else gget (global_write_map fb) x) ∧
    df_write_map fb' = replicate map_size 0 ∧ df_read_map fb' = df_read_map fb ∧
    ∃ fb'', dataflow_is_interesting (mkDataflow (global_write_map fb') (df_read_map fb) (df_write_map fb)) =
            Some (false, fb'').
Proof. intros fb. apply (dataflow_reports_new_flows fb). exact FuzzHost_new_dataflow_ok. Defined.

Lemma fresh_global x : gget (replicate map_size (replicate 4 false)) x ≠ Some true.
Proof.
  unfold gget. destruct (replicate map_size (replicate 4 false) !! x.1) as [row|] eqn:E; [|done].
  apply lookup_replicate in E as [-> _]. rewrite obind_Some. intros [? _]%lookup_replicate. done.
Qed.

Definition load_7 : Interp := mkInterp 0x54 70 [7] 3.
Definition store_7 : Interp := mkInterp 0x55 72 [7; 0] 3.

Lemma flow_through_host_is_reported_witness :
  ∃ h1 h2, step (λ h _, h) FuzzHost_new load_7 = Some h1 ∧ step (λ h _, h) h1 store_7 = Some h2 ∧
  ∃ fb', dataflow_is_interesting (mkDataflow (replicate map_size (replicate 4 false)) (read_map h2) (write_map h2)) =
         Some (true, fb').
Proof.
  assert (interp_ok load_7) as Hi1.
  { split; [simpl; lia|]. split; [repeat constructor; simpl; lia|]. vm_compute. lia. }
  assert (interp_ok store_7) as Hi2.
  { split; [simpl; lia|]. split; [repeat constructor; simpl; lia|]. vm_compute. lia. }
  destruct (step_ok (λ h _, h) FuzzHost_new load_7 FuzzHost_new_ok Hi1) as (h1 & E1 & Hh1 & _).
  destruct (step_ok (λ h _, h) h1 store_7 Hh1 Hi2) as (h2 & E2 & _).
  exists h1, h2. split; [exact E1|]. split; [exact E2|].
  apply (flow_through_host_is_reported FuzzHost_new load_7 store_7 7 0 [] [] h1 h2
           (replicate map_size (replicate 4 false)) FuzzHost_new_ok Hi1 Hi2).
  - split; [apply length_replicate|apply Forall_replicate; done].
  - reflexivity.
  - reflexivity.
  - reflexivity.
  - reflexivity.
  - exact E1.
  - exact E2.
  - exact fresh_global.
Defined.

(** ** Comparisons *)

Lemma update_min_spec current minima :
  length current = length minima →
  ∃ b, update_min current minima = (b, zip_with Z.min current minima) ∧
    (b = true ↔ ∃ i c m, current !! i = Some c ∧ minima !! i = Some m ∧ c < m).
Proof.
  revert minima. induction current as [|c current IH]; intros [|m minima] Hl; try done; simpl.
  { exists false. split; [done|]. split; [done|]. intros (i & ? & ? & Hi & _). by rewrite lookup_nil in Hi. }
  destruct (IH minima) as (b & -> & Hb); [by injection Hl|].
  destruct (Z.ltb_spec c m).
  - exists true. split; [by rewrite Z.min_l by lia|]. split; [intros _|done]. by exists 0%nat, c, m.
  - exists b. split; [by rewrite Z.min_r by lia|]. rewrite Hb. split.
    + intros (i & H'). by exists (S i).
    + intros ([|i] & c' & m' & Hc & Hm & Hlt); [simplify_eq/=; lia|]. by exists i, c', m'.
Qed.

Lemma first_flow_spec read write n :
  length read = length write →
  is_Some (first_flow read write n) ↔ ∃ i w, read !! i = Some true ∧ write !! i = Some w ∧ w ≠ 0.
Proof.
  revert write n. induction read as [|r read IH]; intros [|w write] n Hl; try done; simpl.
  { split; [by intros [? ?]|]. intros (i & ? & Hi & _). by rewrite lookup_nil in Hi. }
  destruct r; simpl.
  - destruct (Z.eqb_spec w 0) as [->|Hw]; simpl.
    + rewrite IH by (by injection Hl). split.
      * intros (i & H'). by exists (S i).
      * intros ([|i] & w' & Hr & Hw & H0); [by simplify_eq/=|]. by exists i, w'.
    + split; [intros _|by eexists]. by exists 0%nat, w.
  - rewrite IH by (by injection Hl). split.
    + intros (i & H'). by exists (S i).
    + intros ([|i] & w' & Hr & Hw & H0); [by simplify_eq/=|]. by exists i, w'.
Qed.

(** What a run of the comparison feedback observes: full-size maps. *)
Definition cmp_input_ok (fb : CmpFeedback) (x : cmp_input) : Prop :=
  length (ci_current x) = length (min_map fb) ∧ length (ci_read x) = length (ci_write x).

(** Some recorded distance is below its minimum. *)
Definition closer (fb : CmpFeedback) (x : cmp_input) : Prop :=
  ∃ i c m, ci_current x !! i = Some c ∧ min_map fb !! i = Some m ∧ c < m.

(** A slot was both read and written. *)
Definition has_flow (x : cmp_input) : Prop :=
  ∃ i w, ci_read x !! i = Some true ∧ ci_write x !! i = Some w ∧ w ≠ 0.

Section cmp_props.
Context {I : Type} `{HashOrder}.

(** Comparison feedback, with the scheduler it votes in: it never panics in a
    reachable scheduler state; the minima become the pointwise minimum with the
    execution's distances; it votes for the parent state exactly when some distance got
    smaller; it is interesting exactly for a state that changed or that is paused in a
    control leak, that was not known, and that is paused or has a data flow; exactly
    the interesting states become known, so no state is interesting twice. *)
Theorem cmp_feedback_reports rand k (st : InfantStateState I Z) d fb x :
  reachable rand k st → k < MAX_STEPS → vote_data st = Some d → cmp_input_ok fb x →
  ∃ b fb' st' write', cmp_is_interesting fb st x = Some (b, fb', st', write') ∧
    min_map fb' = zip_with Z.min (ci_current x) (min_map fb) ∧
    (branch_distance_interesting fb' = true ↔ closer fb x) ∧
    (closer fb x → vote st (ci_state_idx x) = Some st') ∧
    (¬ closer fb x → st' = st) ∧
    (b = true ↔ (ci_state_changed x = true ∨ ci_post_execution_pc x ≠ 0) ∧
                ci_hash x ∉ known_states fb ∧ (ci_post_execution_pc x ≠ 0 ∨ has_flow x)) ∧
    known_states fb' = (if b then {[ci_hash x]} ∪ known_states fb else known_states fb).
Proof.
  intros Hr Hk Ed [Hl1 Hl2].
  apply reachable_inv in Hr as [Hk0 Hinv]. specialize (Hinv Hk).
  destruct (vote_inv k st d (ci_state_idx x) ltac:(lia) Hinv Ed) as (d' & Ev & _).
  destruct (update_min_spec (ci_current x) (min_map fb) Hl1) as (c & Eu & Hc).
  fold (closer fb x) in Hc. unfold cmp_is_interesting. rewrite Eu.
  pose proof (first_flow_spec (ci_read x) (ci_write x) 0 Hl2) as Hf. fold (has_flow x) in Hf.
  assert (∃ st', (if c then vote st (ci_state_idx x) else Some st) = Some st' ∧
    (closer fb x → vote st (ci_state_idx x) = Some st') ∧ (¬ closer fb x → st' = st)) as (st' & Est & H1 & H2).
  { destruct c.
    - eexists. split; [exact Ev|]. split; [done|]. intros []. by apply Hc.
    - exists st. split; [done|]. split; [|done]. intros Hx. by apply Hc in Hx. }
  rewrite Est, obind_Some.
  destruct (Z.eqb_spec (ci_post_execution_pc x) 0) as [Hpc|Hpc]; cbn [negb];
    rewrite ?orb_true_r, ?orb_false_r.
  - destruct (ci_state_changed x).
    + case_decide.
      * eexists _, _, _, _. split; [reflexivity|]. split_and!; try done. naive_solver.
      * case_bool_decide as Hb; rewrite Hf in Hb;
          (eexists _, _, _, _; split; [reflexivity|]; split_and!; try done; naive_solver).
    + eexists _, _, _, _. split; [reflexivity|]. split_and!; try done. naive_solver.
  - case_decide; (eexists _, _, _, _; split; [reflexivity|]; split_and!; try done; naive_solver).
Qed.
End cmp_props.

Definition cmp_example : cmp_input := mkCmpInput [3; 9] [true; false] [4; 0] true 0 77 3.

Lemma cmp_feedback_reports_witness :
  ∃ (st st' : InfantStateState Z Z) fb' write', reachable 7 500 st ∧
    let fb := mkCmp [5; 5] ∅ [0; 0] false false in
    cmp_is_interesting fb st cmp_example = Some (true, fb', st', write') ∧
    min_map fb' = [3; 5] ∧ vote st 3 = Some st' ∧ known_states fb' = {[77]} ∪ ∅.
Proof.
  destruct (run_live_state 500 500 run_live_500) as (st & d & Hr & Hd & _).
  destruct (cmp_feedback_reports 7 500 st d (mkCmp [5; 5] ∅ [0; 0] false false) cmp_example Hr eq_refl Hd)
    as (b & fb' & st' & write' & E & Hm & _ & Hv & _ & Hb & Hk); [done|].
  assert (b = true) as Hbt.
  { apply Hb. split; [by left|]. split; [done|]. right. exists 0%nat, 4. done. }
  rewrite Hbt in E, Hk. exists st, st', fb', write'. split; [exact Hr|]. split; [exact E|]. split; [exact Hm|].
  split; [|exact Hk]. apply Hv. exists 0%nat, 3, 5. done.
Defined.

(** ** Oracles *)

Section oracle_props.
Context {C : Type}.
Implicit Types oracles : list (@Oracle C).

(** The context after the first [n] oracles ran from index [idx]. *)
Fixpoint after oracles (stages : list Z) (idx : nat) (c : C) (n : nat) : C :=
  match n, oracles with
  | S n', o :: os => after os stages (S idx) (o c (default 0 (stages !! idx))).2 n'
  | _, _ => c
  end.

(** Whether oracle [n] finds a violation. *)
Definition violated_at oracles (stages : list Z) (idx : nat) (c : C) (n : nat) : bool :=
  match oracles !! n with
  | Some o => (o (after oracles stages idx c n) (default 0 (stages !! (idx + n)%nat))).1
  | None => false
  end.

Lemma run_oracles_spec oracles stages : ∀ idx c,
  (∃ n, violated_at oracles stages idx c n = true ∧
     (∀ m, (m < n)%nat → violated_at oracles stages idx c m = false) ∧
     run_oracles oracles stages idx c = (true, after oracles stages idx c (S n))) ∨
  ((∀ n, violated_at oracles stages idx c n = false) ∧
     run_oracles oracles stages idx c = (false, after oracles stages idx c (length oracles))).
Proof.
  induction oracles as [|o os IH]; intros idx c; [by right|]. cbn [run_oracles].
  destruct (o c (default 0 (stages !! idx))) as [v c1] eqn:Eo.
  assert (∀ n, violated_at (o :: os) stages idx c (S n) = violated_at os stages (S idx) c1 n) as HS.
  { intros n. unfold violated_at. simpl. rewrite Eo. simpl. by rewrite Nat.add_succ_r. }
  assert (violated_at (o :: os) stages idx c 0 = v) as H0.
  { unfold violated_at. simpl. by rewrite Nat.add_0_r, Eo. }
  assert (∀ n, after (o :: os) stages idx c (S n) = after os stages (S idx) c1 n) as HA.
  { intros n. simpl. by rewrite Eo. }
  destruct v.
  { left. exists 0%nat. split; [done|]. split; [lia|]. rewrite HA. by destruct os. }
  destruct (IH (S idx) c1) as [(n & Hn & Hm & E)|[Hn E]].
  - left. exists (S n). rewrite HS. split; [done|]. split.
    + intros [|m] Hlt; [done|]. rewrite HS. apply Hm. lia.
    + by rewrite HA, E.
  - right. split; [|by cbn [length]; rewrite HA, E]. intros [|n]; [done|]. by rewrite HS.
Qed.

(** Oracle feedback: after all producers ran, the oracles run in order and stop at
    the first violation, each with its own stage and in the context its predecessors
    left; every producer is notified at the end exactly once, whether or not there was a
    violation; and the verdict is true exactly when some oracle is violated and the
    state the notified producers see is not paused in a control leak. *)
Theorem oracle_feedback_verdict (producers : list (@Producer C)) oracles stages has_post c :
  let c1 := fold_left (λ c p, produce p c) producers c in
  ∃ n, (n ≤ length oracles)%nat ∧
    (∀ m, (S m < n)%nat → violated_at oracles stages 0 c1 m = false) ∧
    let c2 := fold_left (λ c p, notify_end p c) producers (after oracles stages 0 c1 n) in
    oracle_is_interesting producers oracles stages has_post c =
      (existsb (violated_at oracles stages 0 c1) (seq 0 n) && negb (has_post c2), c2) ∧
    ((∀ m, violated_at oracles stages 0 c1 m = false) → n = length oracles).
Proof.
  intros c1. unfold oracle_is_interesting. fold c1.
  destruct (run_oracles_spec oracles stages 0 c1) as [(n & Hn & Hm & ->)|[Hn ->]].
  - exists (S n). split; [|split; [|split]].
    + unfold violated_at in Hn. destruct (oracles !! n) eqn:E; [|done]. by apply lookup_lt_Some in E.
    + intros m Hlt. apply Hm. lia.
    + replace (existsb _ _) with true; [done|]. symmetry. apply existsb_exists. exists n.
      rewrite in_seq. split; [lia|done].
    + intros Ha. by rewrite Ha in Hn.
  - exists (length oracles). split; [done|]. split; [done|]. split; [|done].
    replace (existsb _ _) with false; [done|]. symmetry. apply not_true_is_false.
    intros (m & _ & Hv)%existsb_exists. by rewrite Hn in Hv.
Qed.
End oracle_props.
