(* ===== verification/Oracles.v ===== *)
(** * Oracles and producers ([src/src/oracle.rs], [src/src/evm/oracles], [src/src/evm/producers])

    The oracles and producers of the build without [flashloan_v2], and the objective of the
    fuzzer, [OracleFeedback], over them.  The oracle on pairs of tokens panics in this
    build and is left out. *)
From S2P Require Import Prelude Types State F64 Expr Abi AbiLayout AbiParse Corpus Scheduler SchedulerInv I256 Tracer Evm Host HostCall Vm InputMutate Feedback Replay FuzzerLoop FuzzerProps.
#[local] Open Scope Z_scope.

Section oracles.
Context {R C D X : Type} `{Rand R} `{HashOrder} `{VecCorpus C} `{TxnCorpus D} `{Formats}.
Abbreviation state := (@FzState R C D X).

(** [struct OracleCtx], with the tables of the producers and the static [ORACLE_OUTPUT] *)
Record OracleCtx := mkOracleCtx {
  fuzz_state : state;
  pre_state : EVMState;
  post_state : EVMState;
  oc_input : EVMInput;
  balances : gmap (Z * Z) (EVMU256 * EVMU256);
  reserves : gmap Z (EVMU256 * EVMU256);
  oracle_output : str
}.

(** [OracleCtx::new] *)
Definition OracleCtx_new (st : state) (input : EVMInput) bal res out : OracleCtx :=
  mkOracleCtx st (ss_state (ei_sstate input)) (ss_state (er_new_state (fs_result st))) input bal res out.

Definition set_output (s : str) (c : OracleCtx) : OracleCtx :=
  mkOracleCtx (fuzz_state c) (pre_state c) (post_state c) (oc_input c) (balances c) (reserves c) s.

(** [BugOracle::oracle] *)
Definition bug_oracle : @Oracle OracleCtx := λ c _,
  let is_hit := es_bug_hit (post_state c) in
  (is_hit, if is_hit then set_output (lit "[bug] bug() hit at contract " ++ addr_debug (ei_contract (oc_input c))) c else c).

(** [IERC20OracleFlashloan::oracle] *)
Definition erc20_oracle : @Oracle OracleCtx := λ c _,
  let d := flashloan_data (ss_state (er_new_state (fs_result (fuzz_state c)))) in
  if owed d <? earned d
  then (true, set_output (lit "[Flashloan] Earned " ++ u512_display (earned d) ++ lit " more than owed " ++ u512_display (owed d)) c)
  else (false, c).

(** [FunctionHarnessOracle::oracle]: both branches are [false]. *)
Definition function_oracle : @Oracle OracleCtx := λ c stage, (if stage =? 99 then false else false, c).

(** [ERC20Producer] and [PairProducer]: nothing is produced in this build. *)
Definition erc20_producer : @Producer OracleCtx :=
  mkProducer (λ c, c)
    (λ c, mkOracleCtx (fuzz_state c) (pre_state c) (post_state c) (oc_input c) ∅ (reserves c) (oracle_output c)).
Definition pair_producer : @Producer OracleCtx :=
  mkProducer (λ c, c)
    (λ c, mkOracleCtx (fuzz_state c) (pre_state c) (post_state c) (oc_input c) (balances c) ∅ (oracle_output c)).

(** [OracleFeedback] as the objective of the fuzzer; its other methods do nothing. *)
Definition paused (c : OracleCtx) : bool := has_post_execution (ss_state (er_new_state (fs_result (fuzz_state c)))).
Definition OracleFeedback (producers : list (@Producer OracleCtx)) (oracles : list (@Oracle OracleCtx))
  : @FuzzerLoop.Feedback R C D X :=
  mkFeedback
    (λ input st,
      let '(b, c) := oracle_is_interesting producers oracles (ss_stage (ei_sstate input)) paused
                       (OracleCtx_new st input ∅ ∅ []) in
      Done (b, fuzz_state c))
    Done (λ _, Done).

(** ** Properties *)

(** The oracles a campaign can configure, any number of times and in any order *)
Definition oracles_of (bug erc20 : bool) (l : list (@Oracle OracleCtx)) : Prop :=
  (∀ o, o ∈ l → (bug = true ∧ o = bug_oracle) ∨ (erc20 = true ∧ o = erc20_oracle) ∨ o = function_oracle) ∧
  (bug = true → bug_oracle ∈ l) ∧ (erc20 = true → erc20_oracle ∈ l).

(** What they look for *)
Definition violation (bug erc20 : bool) (s : EVMState) : bool :=
  (bug && es_bug_hit s) || (erc20 && (owed (flashloan_data s) <? earned (flashloan_data s))).

(** Contexts that differ only in what the oracles print and the producers keep *)
Definition same_ctx (c c' : OracleCtx) : Prop := fuzz_state c' = fuzz_state c ∧ post_state c' = post_state c.

Lemma oracle_keeps_ctx bug erc20 l o c stage :
  oracles_of bug erc20 l → o ∈ l → same_ctx c (o c stage).2.
Proof.
  intros [Hl _] [[_ ->]|[[_ ->]| ->]]%Hl; [|unfold erc20_oracle; by destruct (_ <? _)|done].
  unfold bug_oracle. simpl. by destruct (es_bug_hit _).
Qed.

Lemma oracle_verdict bug erc20 l o c stage :
  oracles_of bug erc20 l → o ∈ l → post_state c = ss_state (er_new_state (fs_result (fuzz_state c))) →
  (o c stage).1 = true → violation bug erc20 (post_state c) = true.
Proof.
  intros [Hl _] Ho Hp. unfold violation. apply Hl in Ho as [[-> ->]|[[-> ->]| ->]].
  - simpl. by intros ->.
  - unfold erc20_oracle. rewrite <- Hp. destruct (owed _ <? _); [|done]. intros _. by rewrite orb_true_r.
  - simpl. by destruct (stage =? 99).
Qed.

Lemma run_oracles_verdict bug erc20 all l stages idx c :
  oracles_of bug erc20 all → (∀ o, o ∈ l → o ∈ all) → post_state c = ss_state (er_new_state (fs_result (fuzz_state c))) →
  let r := run_oracles l stages idx c in
  same_ctx c r.2 ∧ (r.1 = true → violation bug erc20 (post_state c) = true) ∧
  (r.1 = false → (bug_oracle ∈ l → es_bug_hit (post_state c) = false) ∧
                 (erc20_oracle ∈ l → (owed (flashloan_data (post_state c)) <? earned (flashloan_data (post_state c))) = false)).
Proof.
  intros Hall. revert idx c. induction l as [|o l IH]; intros idx c Hin Hp; cbn [run_oracles].
  { split; [done|]. split; [done|]. intros _. split; by intros ?%elem_of_nil. }
  set (stage := default 0 (stages !! idx)).
  pose proof (oracle_keeps_ctx bug erc20 all o c stage Hall (Hin o ltac:(by left))) as [Hf Hs].
  pose proof (oracle_verdict bug erc20 all o c stage Hall (Hin o ltac:(by left)) Hp) as Hv.
  destruct (o c stage) as [b c1] eqn:Eo. cbn [fst snd] in *. destruct b; [by split|].
  destruct (IH (Datatypes.S idx) c1) as (Hc & Ht & Hn); [intros o' Ho'; apply Hin; by right|by rewrite Hs, Hf|].
  rewrite Hs in Ht, Hn. destruct (run_oracles l stages _ c1) as [b c2]. cbn [fst snd] in *.
  destruct Hc as [Hf2 Hs2]. split; [split; congruence|]. split; [done|]. intros Hb. destruct (Hn Hb) as [Hb1 Hb2]. split.
  - intros [<-|?]%elem_of_cons; [|by apply Hb1]. by injection Eo.
  - intros [<-|?]%elem_of_cons; [|by apply Hb2]. unfold erc20_oracle in Eo. rewrite <- Hp in Eo.
    by destruct (owed _ <? _).
Qed.

Lemma notify_end_keeps l c : (∀ p, p ∈ l → p = erc20_producer ∨ p = pair_producer) →
  same_ctx c (fold_left (λ c p, notify_end p c) l c) ∧ fold_left (λ c p, produce p c) l c = c.
Proof.
  revert c. induction l as [|p l IH]; intros c Hp; [done|]. cbn [fold_left].
  assert (∀ p, p ∈ l → p = erc20_producer ∨ p = pair_producer) as Hl by (intros p' Hp'; apply Hp; by right).
  pose proof (IH (notify_end p c) Hl) as [[Ha Hb] _]. pose proof (IH c Hl) as [_ Hprod].
  destruct (Hp p) as [-> | ->]; [by left|by split; [split|]..].
Qed.

(** The objective is interested exactly in finished executions that violate an oracle. *)
Lemma oracle_feedback_spec bug erc20 producers oracles input st b st' :
  oracles_of bug erc20 oracles → (∀ p, p ∈ producers → p = erc20_producer ∨ p = pair_producer) →
  is_interesting (OracleFeedback producers oracles) input st = Done (b, st') →
  let s := ss_state (er_new_state (fs_result st)) in
  st' = st ∧ b = violation bug erc20 s && negb (has_post_execution s).
Proof.
  intros Ho Hp. simpl. unfold oracle_is_interesting. set (c := OracleCtx_new st input ∅ ∅ []).
  destruct (notify_end_keeps producers c Hp) as [_ ->].
  destruct (run_oracles_verdict bug erc20 oracles oracles (ss_stage (ei_sstate input)) 0 c Ho) as ([Hf Hs] & Ht & Hn); [done|done|].
  destruct (run_oracles _ _ _ _) as [v c1]. cbn [fst snd] in *.
  destruct (notify_end_keeps producers c1 Hp) as [[Hf2 _] _]. unfold paused. rewrite Hf2, Hf.
  change (fuzz_state c) with st. intros [= <- <-]. split; [done|].
  change (post_state c) with (ss_state (er_new_state (fs_result st))) in *.
  destruct v; [by rewrite Ht|]. destruct (Hn eq_refl) as [Hb He]. destruct Ho as (_ & Hbug & Herc). unfold violation.
  destruct bug; [rewrite Hb by auto|]; (destruct erc20; [rewrite He by auto|]); done.
Qed.

Context (cp : @Campaign R C D X) `{!CampaignOk cp}.

(** C7. The fuzzer stops on exactly the bugs its oracles describe.  Configure the oracles for
    [bug()] markers and for flash-loan profit, in any order and number, over the
    producers.  Evaluating an input executes it once, in the state that the observers were
    prepared in, and what that execution returned decides: the evaluation stops with a
    report, or files a solution, exactly when it did not revert, left no suspended frame,
    and hit a marker or earned more than it owes; any other evaluation that completes
    files no solution. *)
Theorem solutions_are_violations bug erc20 producers oracles m input se st :
  fz_inv m st → ready input st →
  oracles_of bug erc20 oracles → (∀ p, p ∈ producers → p = erc20_producer ∨ p = pair_producer) →
  objective cp = OracleFeedback producers oracles →
  let is_bug r := negb (er_reverted r) && violation bug erc20 (ss_state (er_new_state r)) &&
                  negb (has_post_execution (ss_state (er_new_state r))) in
  match evaluate_input_events cp m input se st with
  | Exited _ => ∃ r, executed cp input st r ∧ is_bug r = true
  | Done (v, _, _, _) => ∃ r, executed cp input st r ∧ (v = RSolution ↔ is_bug r = true)
  | Failed | Panics => True
  end.
Proof.
  intros Hinv Hr Ho Hp Hobj is_bug.
  assert (∀ r txn v s, judged cp input st r txn v s → executed cp input st r ∧ (v = RSolution ↔ is_bug r = true)) as Hj.
  { intros r txn v s Hj. split; [apply Hj|]. destruct (j_verdict _ _ _ _ _ _ _ Hj) as (s1 & b & s2 & Hi & Hs & Hv).
    rewrite Hobj in Hi. apply (oracle_feedback_spec bug erc20) in Hi as [_ ->]; [|done|done].
    rewrite Hv, Hs. unfold is_bug. destruct (er_reverted r); simpl; naive_solver. }
  destruct (evaluate_input_events _ _ _ _ _) as [[[[v idx] m'] st']| | |rep] eqn:E; try done.
  - destruct (evaluate_spec _ _ _ _ _ _ _ _ _ E Hinv Hr) as (s & r & txn & Hs & _). exists r. by eapply Hj.
  - destruct (exit_is_solution _ _ _ _ _ _ E Hinv Hr) as (s & r & txn & Hs & _).
    destruct (Hj _ _ _ _ Hs) as [Hx Hv]. exists r. split; [done|]. by apply Hv.
Qed.
End oracles.
