(* ===== verification/EvmCampaign.v ===== *)
(** * A campaign on the EVM

    The fuzzer of [FuzzerLoop] with the parts of this development in the places of its
    parameters: the executor of [Vm] on the interpreter of [Revm], the corpus of [Corpus]
    and the infant scheduler of [Scheduler].  Every execution is kept, and an execution
    that hits the bug marker is a solution.  It satisfies what the fuzzer relies on, and a
    bug behind two transactions is found and reported. *)
From S2P Require Import Prelude Types State F64 Expr Abi AbiLayout AbiParse Corpus Scheduler SchedulerInv I256 Tracer Evm Host HostCall HostCallProps Bytecode Revm RevmProps Vm InputMutate Replay ReplayProps Feedback FuzzerLoop FuzzerProps Oracles.
#[local] Open Scope Z_scope.

#[export] Instance evm_env : EnvReads Env := {
  env_chain_id := chain_id; env_coinbase := coinbase; env_timestamp := timestamp; env_number := number;
  env_prevrandao _ := Some 0; env_gas_limit := gas_limit; env_basefee := basefee; env_gas_price _ := 0;
  env_gas_priority_fee _ := None; env_tx_caller _ := 0
}.

Section evm.
Context {R S : Type} `{Rand R} `{HashOrder} `{Formats} (cfg : Config Env S) (keccak256 : list byte → Z) (fuel : nat).
Abbreviation inputs := (list EVMInput).
Abbreviation state := (@FzState R inputs inputs (VMHost Env * S)).

(** The executor, on the host kept in [other] *)
Definition evm_execute (x : EVMInput) (st : state) : option (ExecutionResult * state) :=
  let '(h, s) := fs_other st in
  '(r, h, s) ← execute_abi (run_inspect cfg (revm_eval keccak256 false) fuel) (vm_input x) h s;
  Some (r, mkFz (fs_corpus st) (fs_solutions st) (fs_infant st) (fs_result st) (fs_executions st) (h, s)).

(** A feedback that reads the result of the execution *)
Definition result_feedback (f : ExecutionResult → bool) : @FuzzerLoop.Feedback R inputs inputs (VMHost Env * S) :=
  mkFeedback (λ _ st, Done (f (fs_result st), st)) Done (λ _, Done).

(** The oracles and producers of the command line *)
Definition evm_oracles : list (@Oracle (@OracleCtx R inputs inputs (VMHost Env * S))) := [erc20_oracle; bug_oracle].
Definition evm_producers : list (@Producer (@OracleCtx R inputs inputs (VMHost Env * S))) := [pair_producer; erc20_producer].

Lemma evm_oracles_ok : oracles_of true true evm_oracles.
Proof. split; [|split; intros _; set_solver]. intros o. unfold evm_oracles. rewrite !elem_of_cons, elem_of_nil. naive_solver. Qed.
Lemma evm_producers_ok p : p ∈ evm_producers → p = erc20_producer ∨ p = pair_producer.
Proof. unfold evm_producers. rewrite !elem_of_cons, elem_of_nil. naive_solver. Qed.

(** The campaign on an executor *)
Definition campaign_on (execute : EVMInput → state → option (ExecutionResult * state)) (run_forever : bool)
  : @Campaign R inputs inputs (VMHost Env * S) :=
  mkCampaign (λ _, Done) execute (λ _, Done)
    (result_feedback (λ _, false)) (result_feedback (λ _, true))
    (OracleFeedback evm_producers evm_oracles)
    (λ _, Done) Done (λ st, jmp_map (core (fs_other st).1)) (λ _, false) run_forever
    (λ m, Z.of_nat (length (filter (λ x, x ≠ 0) m))) (λ _, None) (λ t, addr_debug (bt_caller t)).

Lemma campaign_on_ok execute run_forever :
  (∀ x st r st', execute x st = Some (r, st') →
    still st st' ∧ ss_trace (er_new_state r) = TxnTrace_new ∧
    (resumable x → ss_initialized (er_new_state r) = true)) →
  CampaignOk (campaign_on execute run_forever).
Proof.
  intros Hex. assert (∀ a b : state, Done a = Done b → quiet a b) as Hd by (by intros a b [= <-]).
  split; try (intros; by apply Hd); try done.
  - intros f x st b st'. rewrite !elem_of_cons, elem_of_nil. intros [->|[->|[->|[]]]]; [by intros [= _ <-]..|].
    intros Ho. by apply (oracle_feedback_spec true true) in Ho as [-> _]; [|apply evm_oracles_ok|apply evm_producers_ok].
  - intros f st st'. rewrite !elem_of_cons, elem_of_nil. by intros [->|[->|[]]] [= <-].
  - intros f x st st'. rewrite !elem_of_cons, elem_of_nil. by intros [->|[->|[]]] [= <-].
  - intros f x st r. rewrite !elem_of_cons, elem_of_nil. intros [->|[->|[->|[]]]]; [done..|].
    simpl. by destruct (oracle_is_interesting _ _ _ _ _).
  - intros f st r. rewrite !elem_of_cons, elem_of_nil. by intros [->|[->|[]]].
  - intros f x st r. rewrite !elem_of_cons, elem_of_nil. by intros [->|[->|[]]].
Qed.

#[export] Instance evm_campaign_ok run_forever : CampaignOk (campaign_on evm_execute run_forever).
Proof.
  apply campaign_on_ok. intros x st r st'. unfold evm_execute. destruct (fs_other st) as [h s] eqn:Eo.
  intros ([[r1 h1] s1] & E1 & [= <- <-])%bind_Some. split; [by apply quiet_still|]. exact (execute_abi_trace _ _ _ _ _ _ _ E1).
Qed.
End evm.

(** ** A bug behind two transactions *)

(** The first call stores 1 at slot 0, the second finds it and hits the marker. *)
Definition two_step : list byte :=
  [x5f; x54; x60; x0b; x57; x60; x01; x5f; x55; x00; x00; x5b; x60; x37; x5f; x5f; xa1; x00].
Definition two_step_config : Config Env Z :=
  mkConfig _ _ (λ c, c) (λ _, 0) (λ s, (s mod 2 ^ 160, s + 1)) None
    (λ _, mkMiddleware _ _ (λ i h s, Some (i, h, s)) (λ c _ h s, Some (c, h, s))) (2 ^ 32 - 1) false.
Definition two_step_host : VMHost Env :=
  mkVMHost FuzzHost_new (mkEnv 0 0 0 0 0 1) {[7 := two_step]} ∅ ∅ ∅ ∅ false [] [] 9 false 0 ∅
    None (replicate map_size 0) false 0 false.
Definition two_step_call (idx : Z) (s : StagedVMState) : EVMInput :=
  mkEVMInput 9 7 (Some (mkBoxedABI (A256 [x05] false false false) (Sel xa9 x05 x9c xbb))) s idx None false
    (mkEnv 0 0 0 0 0 1) AccessPattern_new [] 1 false.

Definition initial_state : StagedVMState := new_with_state EVMState_new.
Definition two_step_start : @FzState Z (list EVMInput) (list EVMInput) (VMHost Env * Z) :=
  mkFz [] [] (default (mkInfant corpus_new None 7 0) (snd <$> add_infant_state (mkInfant corpus_new None 7 0) initial_state))
    (mkExecutionResult [] false new_uninitialized None 0) 0 (two_step_host, 0).
Abbreviation two_step_campaign run_forever := (campaign_on (R := Z) (evm_execute two_step_config (λ _, 0) 60) run_forever).

(** The first call, and the state it leaves *)
Abbreviation first_call run_forever :=
  (evaluate_input_events (two_step_campaign run_forever) ∅ (two_step_call 0 initial_state) false two_step_start).

Definition second_call (run_forever : bool) : option (str + Z * Z * Z) :=
  match first_call run_forever with
  | Done (_, _, m, st) =>
      s ← entries (infant_state (fs_infant st)) !! 1;
      match evaluate_input_events (two_step_campaign run_forever) m (two_step_call 1 s) false st with
      | Exited r => Some (inl r)
      | Done (_, _, _, st) => Some (inr (Z.of_nat (length (fs_solutions st)), corpus_count (infant_state (fs_infant st)), fs_executions st))
      | _ => None
      end
  | _ => None
  end.

Lemma two_steps_found :
  second_call false = Some (inl (BEGIN ++ lit "9" ++ ["010"%char; "010"%char] ++ lit "9" ++ ["010"%char; "010"%char])).
Proof. vm_compute. reflexivity. Qed.

Lemma two_step_inv : fz_inv ∅ two_step_start.
Proof.
  split.
  - by intros h idx f Hm.
  - change (infant_state (fs_infant two_step_start)) with (snd (corpus_add corpus_new initial_state)).
    by apply corpus_add_ok; [apply corpus_new_ok|].
  - intros idx s j Hs. change (infant_state (fs_infant two_step_start)) with (snd (corpus_add corpus_new initial_state)) in Hs.
    rewrite corpus_add_spec in Hs by (apply corpus_new_ok || done). cbn [snd entries corpus_new current_idx] in Hs.
    rewrite lookup_insert_Some in Hs. by destruct Hs as [[_ <-]|[_ ?]].
Qed.

Lemma two_step_ready : ready (two_step_call 0 initial_state) two_step_start.
Proof. by split. Qed.

(** What is observed of an evaluation *)
Definition observe {R X} (e : fresult (@evaluation R (list EVMInput) (list EVMInput) X))
  : option (ExecuteInputResult * option Z * Z * Z) :=
  match e with
  | Done (v, idx, m, st) => Some (v, idx, Z.of_nat (length (fs_corpus st)), corpus_count (infant_state (fs_infant st)))
  | _ => None
  end.

Lemma observe_Done {R X} e v idx n k :
  observe (R := R) (X := X) e = Some (v, idx, n, k) →
  ∃ m st, e = Done (v, idx, m, st) ∧ Z.of_nat (length (fs_corpus st)) = n ∧ corpus_count (infant_state (fs_infant st)) = k.
Proof. destruct e as [[[[v' idx'] m] st]| | |]; [|done..]. intros [= -> -> <- <-]. by exists m, st. Qed.

Lemma first_call_observed : observe (first_call false) = Some (RNone, None, 0, 2).
Proof. vm_compute. reflexivity. Qed.

Lemma campaign_invariant_witness :
  ∃ m st, first_call false = Done (RNone, None, m, st) ∧ corpus_count (infant_state (fs_infant st)) = 2 ∧
    traces_ok (infant_state (fs_infant st)) ∧
    (∀ i s, entries (infant_state (fs_infant two_step_start)) !! i = Some s → entries (infant_state (fs_infant st)) !! i = Some s) ∧
    rtc sched_step (fs_infant two_step_start) (fs_infant st) ∧
    in_range m (fs_corpus st) ∧ (0 ≤ length (fs_corpus st))%nat ∧ names m (fs_corpus st).
Proof.
  destruct (observe_Done _ _ _ _ _ first_call_observed) as (m & st & E & _ & Hk).
  exists m, st. split; [exact E|]. split; [exact Hk|].
  destruct (campaign_invariant (two_step_campaign false) ∅ two_step_start m st two_step_inv
    (rtc_once _ _ (campaign_evaluate _ _ _ _ _ _ _ _ _ two_step_ready E))) as (Ht & Hm & Hs & Hr & Hl & Hn).
  split; [exact Ht|]. split; [exact Hm|]. split; [exact Hs|]. split; [exact Hr|]. split; [exact Hl|]. apply Hn.
  - split; [by intros h idx f Hx|by intros h h' idx f f' Hx].
  - apply rtc_once. exact (plain_evaluate _ _ _ _ _ _ _ _ _ two_step_ready E (λ _, eq_refl)).
Defined.

(** The second call, on the state the first one left *)
Definition found (m : Minimizer) st : option str :=
  s ← entries (infant_state (fs_infant st)) !! 1;
  match evaluate_input_events (two_step_campaign false) m (two_step_call 1 s) false st with Exited r => Some r | _ => None end.

Lemma second_call_found m st :
  first_call false = Done (RNone, None, m, st) →
  found m st = Some (BEGIN ++ lit "9" ++ ["010"%char; "010"%char] ++ lit "9" ++ ["010"%char; "010"%char]).
Proof.
  intros E. assert (match first_call false with Done (_, _, m, st) => found m st | _ => None end =
    Some (BEGIN ++ lit "9" ++ ["010"%char; "010"%char] ++ lit "9" ++ ["010"%char; "010"%char])) as Hf by (vm_compute; reflexivity).
  by rewrite E in Hf.
Qed.

Lemma ready_for_second m st s :
  first_call false = Done (RNone, None, m, st) → entries (infant_state (fs_infant st)) !! 1 = Some s →
  ready (two_step_call 1 s) st.
Proof.
  intros E Hs. split; [exact Hs|].
  assert (match first_call false with Done (_, _, _, st) => current_idx (infant_state (fs_infant st)) | _ => 0 end = 2) as Hi
    by (vm_compute; reflexivity). rewrite E in Hi. rewrite Hi. reflexivity.
Qed.

Lemma solution_report_complete_witness :
  ∃ m st s l txn, first_call false = Done (RNone, None, m, st) ∧
    history (infant_state (fs_infant st)) 1 l ∧ bt_caller txn = 9 ∧
    evaluate_input_events (two_step_campaign false) m (two_step_call 1 s) false st =
      Exited (BEGIN ++ concat (map (txn_text (λ t, addr_debug (bt_caller t))) (l ++ [txn]))).
Proof.
  destruct (observe_Done _ _ _ _ _ first_call_observed) as (m & st & E & _ & _).
  pose proof (second_call_found m st E) as Hf. unfold found in Hf. apply bind_Some in Hf as (s & Hs & Hf).
  destruct (evaluate_input_events _ m _ _ st) as [| | |report] eqn:E2; [done|done|done|].
  destruct (evaluate_spec _ _ _ _ _ _ _ _ _ E two_step_inv two_step_ready) as (s1 & r1 & txn1 & _ & _ & Hinv & _).
  destruct (solution_report_complete (two_step_campaign false) m (two_step_call 1 s) false st report Hinv
    (ready_for_second m st s E Hs) E2) as (l & r & txn & Hl & _ & Hb & ->).
  exists m, st, s, l, txn. split; [exact E|]. split; [exact Hl|]. split; [|exact E2].
  unfold build_basic_txn in Hb. apply bind_Some in Hb as (d & _ & Hb). apply Some_inj in Hb. rewrite <- Hb. reflexivity.
Defined.

(** A stored input with a debt, and the coverage of the call *)
Definition indebted : EVMInput :=
  two_step_call 0 (new_with_state (mkEVMState ∅ [] (mkFlashloan 5 0) false)).
Definition with_inputs (l : list EVMInput) : @FzState Z (list EVMInput) (list EVMInput) (VMHost Env * Z) := set_corpus l two_step_start.
Definition indebted_minimizer : Minimizer := {[2 := (0, fav_factor indebted)]}.

Abbreviation replacement m l :=
  (evaluate_input_events (two_step_campaign false) m (two_step_call 0 initial_state) false (with_inputs l)).

Lemma replacement_observed : observe (replacement indebted_minimizer [indebted]) = Some (RNone, Some 0, 1, 2).
Proof. vm_compute. reflexivity. Qed.

Lemma minimizer_files_exactly_witness :
  ∃ m st s, replacement indebted_minimizer [indebted] = Done (RNone, Some 0, m, st) ∧
    run_and_judge (two_step_campaign false) (two_step_call 0 initial_state) (with_inputs [indebted]) = Done (RNone, s) ∧
    filed (two_step_campaign false) indebted_minimizer (two_step_call 0 initial_state) s RNone (Some 0) m st.
Proof.
  destruct (observe_Done _ _ _ _ _ replacement_observed) as (m & st & E & _). exists m, st.
  assert (in_range indebted_minimizer (fs_corpus (with_inputs [indebted]))) as Hr.
  { intros h idx f. unfold indebted_minimizer. rewrite lookup_singleton_Some. intros [_ [Hi _]%pair_equal_spec]. subst idx. split; reflexivity. }
  destruct (minimizer_files_exactly (two_step_campaign false) indebted_minimizer (two_step_call 0 initial_state) false
    (with_inputs [indebted]) RNone (Some 0) m st Hr E) as (s & Hs & _ & Hf).
  exists s. split; [exact E|]. split; [exact Hs|exact Hf].
Defined.

(** The minimizer goes stale when it replaces: the corpus is a vector.  Two inputs are
    stored, the first with a debt, the second without; the minimizer knows both, each
    under its own coverage.  A better input with the first coverage takes the place of the
    first: it is added at the end and the second moves to its place, but the minimizer
    still has the second under the last index, where now the new one is, so that two
    coverages name one testcase and the other testcase has none. *)
Definition other_input : EVMInput := with_caller (two_step_call 0 initial_state) 8.
Definition two_minimizer : Minimizer := <[5 := (1, fav_factor other_input)]> indebted_minimizer.
Definition observe_names (e : fresult (@evaluation Z (list EVMInput) (list EVMInput) (VMHost Env * Z)))
  : option (option Z * list EVMAddress * list (Z * option EVMAddress)) :=
  match e with
  | Done (_, idx, m, st) => Some (idx, map ei_caller (fs_corpus st),
      map (λ h, match m !! h with Some (i, _) => (i, ei_caller <$> fs_corpus st !! Z.to_nat i) | None => (-1, None) end) [2; 5])
  | _ => None
  end.
Lemma minimizer_goes_stale :
  names two_minimizer [indebted; other_input] ∧
  observe_names (replacement two_minimizer [indebted; other_input]) = Some (Some 1, [8; 9], [(1, Some 9); (1, Some 9)]).
Proof.
  split; [|vm_compute; reflexivity]. unfold two_minimizer, indebted_minimizer. split.
  - intros h idx f. rewrite lookup_insert_Some, lookup_singleton_Some.
    intros [[_ [<- <-]%pair_equal_spec]|[_ [_ [<- <-]%pair_equal_spec]]].
    + split; [lia|]. exists other_input. split; reflexivity.
    + split; [lia|]. exists indebted. split; reflexivity.
  - intros h h' idx f f'. rewrite !lookup_insert_Some, !lookup_singleton_Some.
    intros [[<- [<- _]%pair_equal_spec]|[_ [<- [<- _]%pair_equal_spec]]] [[<- [E _]%pair_equal_spec]|[_ [<- [E _]%pair_equal_spec]]];
      [reflexivity|discriminate E..|reflexivity].
Qed.

(** An executor on which everything reverts, with the bug marker set *)
Definition reverting : ExecutionResult :=
  mkExecutionResult [] true (new_with_state (mkEVMState ∅ [] FlashloanData_new true)) None 0.
#[export] Instance reverting_ok : CampaignOk (campaign_on (R := Z) (S := Z) (λ _ st, Some (reverting, st)) false).
Proof. apply campaign_on_ok. intros x st r st' [= <- <-]. split; [by apply quiet_still|done]. Qed.

Lemma reverted_is_no_solution_witness :
  match evaluate_input_events (campaign_on (λ _ st, Some (reverting, st)) false) ∅ (two_step_call 0 initial_state) false two_step_start with
  | Done (v, _, _, st') => v ≠ RSolution ∧ infant_state (fs_infant st') = infant_state (fs_infant two_step_start)
  | Exited _ => False
  | Failed | Panics => True
  end.
Proof.
  apply (reverted_is_no_solution (campaign_on (λ _ st, Some (reverting, st)) false) ∅ (two_step_call 0 initial_state) false
    two_step_start two_step_inv two_step_ready).
  intros r (s & s' & _ & Hr). by injection Hr as <- _.
Defined.

Lemma solutions_are_violations_witness :
  ∃ m st x r, first_call false = Done (RNone, None, m, st) ∧ is_Some (found m st) ∧
    executed (two_step_campaign false) x st r ∧
      negb (er_reverted r) && violation true true (ss_state (er_new_state r)) &&
        negb (has_post_execution (ss_state (er_new_state r))) = true.
Proof.
  destruct (observe_Done _ _ _ _ _ first_call_observed) as (m & st & E & _ & _).
  pose proof (second_call_found m st E) as Hf. pose proof (λ s, ready_for_second m st s E) as Hr.
  exists m, st. unfold found in *. apply bind_Some in Hf as (s & Hs & Hf). exists (two_step_call 1 s).
  rewrite Hs. cbn [mbind option_bind].
  destruct (evaluate_spec _ _ _ _ _ _ _ _ _ E two_step_inv two_step_ready) as (s1 & r1 & txn1 & _ & _ & Hinv & _).
  pose proof (solutions_are_violations (two_step_campaign false) true true evm_producers evm_oracles m (two_step_call 1 s)
    false st Hinv (Hr s Hs) evm_oracles_ok evm_producers_ok eq_refl) as Hsol.
  destruct (evaluate_input_events _ m _ _ st) as [| | |report] eqn:E2; [discriminate Hf..|].
  destruct Hsol as (r & Hx & Hv). exists r. split; [exact E|]. split; [by eexists|]. split; [exact Hx|exact Hv].
Defined.
