(* ===== verification/GpuStage.v ===== *)
(** * The mutational stage on CPU and GPU ([src/src/gpu_stage.rs])

    A stage takes an input of the corpus, mutates copies of it and evaluates them.  With a
    GPU, every evaluated input is also loaded into the device, which mutates its call data
    in many threads; what the device reports as interesting is read back and evaluated
    again on the CPU.  The device is behind foreign functions, which are a class; the loop
    of the fuzzer runs a stage for every input the scheduler picks. *)
From S2P Require Import Prelude Types State MutationUtils F64 Expr Abi AbiLayout AbiParse Corpus Scheduler I256 Tracer Evm Host HostCall Vm InputMutate Replay FuzzerLoop.
#[local] Open Scope Z_scope.

(** ** The device *)

(** The foreign functions of the library [runner], on the state of the device.  [gainCov]
    writes a seed into the buffer it is given. *)
Class Gpu (G : Type) := {
  setEVMEnv : list byte → list byte → list byte → G → G;
  cuLoadStorage : list byte → Z → Z → G → G;
  cuLoadSeed : list byte → list byte → list byte → Z → Z → Z → G → G;
  cuPreMutate : list Z → Z → G → G;
  cuMutate : Z → G → G;
  cuEvalTxn : Z → G → G;
  getCudaExecRes : G → G;
  isCudaInteresting : Z → G → Z * G;
  gainCov : Z → list byte → G → Z * list byte * G
}.

Definition NJOBS : Z := 1024.
Definition SEED_SIZE : nat := 2048.
Definition STATS_CPU_DEFAULT : Z := 300.
Definition DEFAULT_MUTATIONAL_MAX_ITERATIONS : Z := 128.

(** [enum ExecuteCudaInputResult], and [std::mem::transmute] from a byte *)
Inductive ExecuteCudaInputResult := EXECNONE | EXECREVERTED | EXECINTERESTING | EXECBUGGY | EXECLESSDISTANCE.
Definition cuda_transmute (r : Z) : option ExecuteCudaInputResult :=
  match r with
  | 0 => Some EXECNONE
  | 1 => Some EXECREVERTED
  | 2 => Some EXECINTERESTING
  | 3 => Some EXECBUGGY
  | 4 => Some EXECLESSDISTANCE
  | _ => None
  end.

(** [to_le_bytes] of a word, and the reversed bytes of an address *)
Definition to_le_bytes (v : EVMU256) : list byte := reverse (to_be_bytes v).
Definition address_le (a : EVMAddress) : list byte := reverse (z2be 20 a).

Section input.
Context {G : Type} `{Gpu G}.

(** [EVMInput::to_bytes], [get_calldata] and [get_types_vec] *)
Definition input_to_bytes (x : EVMInput) : option (list byte) :=
  match ei_data x with Some d => boxed_get_bytes d | None => Some [] end.
Definition get_calldata (x : EVMInput) : option (list byte) :=
  match ei_data x with Some d => boxed_get_bytes d | None => Some (ei_direct_data x) end.
Definition get_types_vec (x : EVMInput) : option (list Z) :=
  match ei_data x with
  | Some d => t ← get_basic_types (boxed_b d); Some (map tv_as_u8 t)
  | None => Some []
  end.

(** [cu_load_evm_env] *)
Definition cu_load_evm_env (x : EVMInput) (g : G) : G :=
  setEVMEnv (address_le (ei_contract x)) (to_le_bytes (timestamp (ei_env x))) (to_le_bytes (number (ei_env x))) g.

(** [cu_load_input]; an input that is too long is only announced. *)
Definition cu_load_input (x : EVMInput) (tid : Z) (g : G) : option G :=
  calldata ← get_calldata x;
  Some (cuLoadSeed (address_le (ei_caller x)) (to_le_bytes (default 0 (ei_txn_value x))) calldata
          (Z.of_nat (length calldata)) 0 tid g).

(** The slots of the contract, loaded for the whole batch *)
Definition storage_bytes (slots : list (EVMU256 * EVMU256)) : list byte :=
  concat (map (λ '(key, value), to_le_bytes key ++ to_le_bytes value) slots).
Definition load_storage (x : EVMInput) (g : G) : G :=
  match vm_slots_of x with
  | Some slots => cuLoadStorage (storage_bytes slots) (Z.of_nat (length slots)) 0 g
  | None => cuLoadStorage [] 0 0 g
  end.
End input.

(** [for i in l { s = f(s, i)?; }] *)
Fixpoint for_each {A S} (f : S → A → fresult S) (s : S) (l : list A) : fresult S :=
  match l with
  | [] => Done s
  | x :: l => s ← f s x; for_each f s l
  end.

Section stage.
Context {R C D G Y : Type} `{Libafl R} `{HashOrder} `{TxnCorpus C} `{TxnCorpus D} `{Formats} `{Gpu G}.
(** The pools and the generator, and the device, are kept beside what the executor sees. *)
Abbreviation state := (@FzState R C D (FuzzState R * G * Y)).
Context (cp : @Campaign R C D (FuzzState R * G * Y)).
Implicit Types st : state.

Definition fuzz_of st : FuzzState R := fst (fst (fs_other st)).
Definition gpu_of st : G := snd (fst (fs_other st)).
Definition set_other x st : state :=
  mkFz (fs_corpus st) (fs_solutions st) (fs_infant st) (fs_result st) (fs_executions st) x.
Definition set_fuzz (f : FuzzState R) st : state := set_other (f, gpu_of st, snd (fs_other st)) st.
Definition on_gpu (f : G → G) st : state := set_other (fuzz_of st, f (gpu_of st), snd (fs_other st)) st.

(** [state.rand_mut().below(n)] *)
Definition draw (n : Z) st : Z * state :=
  let '(v, f) := st_below (fuzz_of st) n in (v, set_fuzz f st).

(** [self.mutator_mut().mutate(state, &mut input, i)?] *)
Definition run_mutator (i : Z) (x : EVMInput) st : fresult (EVMInput * state) :=
  '(_, ms, x) ← or_panic (fuzz_mutate i (mkMutState (fuzz_of st) (fs_infant st)) x);
  Done (x, set_fuzz (ms_fuzz ms) (set_infant (ms_infant ms) st)).

(** [state.corpus().get(corpus_idx)?...load_input()?.clone()] *)
Definition load_input (corpus_idx : Z) st : fresult EVMInput :=
  match tc_get (fs_corpus st) corpus_idx with Some x => Done x | None => Failed end.

(** [fuzzer.evaluate_input(..)?] *)
Definition evaluate_input (m : Minimizer) (x : EVMInput) st : fresult (Minimizer * state) :=
  '(_, _, m, st) ← evaluate_input_events cp m x true st; Done (m, st).

(** [iterations] *)
Definition iterations st : nat * state :=
  let '(v, st) := draw DEFAULT_MUTATIONAL_MAX_ITERATIONS st in (Z.to_nat (1 + v), st).

(** [perform_mutational] *)
Definition mutational_round (corpus_idx : Z) (s : Minimizer * state) (i : nat) : fresult (Minimizer * state) :=
  let '(m, st) := s in
  input ← load_input corpus_idx st;
  '(input, st) ← run_mutator (Z.of_nat i) input st;
  evaluate_input m input st.
Definition perform_mutational (corpus_idx : Z) (m : Minimizer) st : fresult (Minimizer * state) :=
  let '(num, st) := iterations st in
  for_each (mutational_round corpus_idx) (m, st) (seq 0 num).

(** ** One input for many threads *)

(** The loop that mutates, keeps and loads one input after the other *)
Definition load_round (s : EVMInput * list EVMInput * state) (i : nat) : fresult (EVMInput * list EVMInput * state) :=
  let '(input, input_vec, st) := s in
  '(input, st) ← run_mutator (Z.of_nat i) input st;
  g ← or_panic (cu_load_input input (Z.of_nat i) (gpu_of st));
  Done (input, input_vec ++ [input], on_gpu (λ _, g) st).

(** The verdict of the device on a thread *)
Definition one_verdict (s : Minimizer * state) (t : nat * EVMInput) : fresult (Minimizer * state) :=
  let '(m, st) := s in
  let '(thread_id, thread_input) := t in
  let '(r, g) := isCudaInteresting (Z.of_nat thread_id) (gpu_of st) in
  let st := on_gpu (λ _, g) st in
  hnb ← or_panic (cuda_transmute r);
  match hnb with
  | EXECNONE | EXECINTERESTING => evaluate_input m thread_input st
  | EXECREVERTED => Done (m, st)
  | EXECBUGGY =>
      '(m, st) ← evaluate_input m thread_input st;
      if negb (run_forever cp) then Exited [] else Done (m, st)
  | EXECLESSDISTANCE => Panics
  end.

(** [perform_one_mutational] *)
Definition perform_one_mutational (corpus_idx : Z) (m : Minimizer) st : fresult (Minimizer * state) :=
  input ← load_input corpus_idx st;
  let st := on_gpu (λ g, load_storage input (cu_load_evm_env input g)) st in
  '(_, input_vec, st) ← for_each load_round (input, [], st) (seq 0 (Z.to_nat NJOBS));
  let st := on_gpu (cuEvalTxn NJOBS) st in
  let st := set_executions (u64 (fs_executions st + NJOBS)) st in
  let st := on_gpu getCudaExecRes st in
  for_each one_verdict (m, st) (zip (seq 0 (length input_vec)) input_vec).

(** ** Mutation on the device *)

(** What the device reports is read back into a copy of the input.  The caller is reversed
    in the buffer. *)
Definition read_back (x : EVMInput) (tx_bytes : list byte) (size : Z) : option (EVMInput * list byte) :=
  new_caller ← slice tx_bytes 0 20;
  let tx_bytes := reverse new_caller ++ drop 20 tx_bytes in
  let x := with_caller x (be2z (reverse new_caller)) in
  value ← slice tx_bytes 32 64;
  v ← try_from_be_slice value;
  let x := with_txn_value x (Some v) in
  _ ← get_types_vec x;
  _ ← input_to_bytes x;
  d ← ei_data x;
  bytes ← slice tx_bytes 68 (68 + size);
  d ← boxed_set_bytes d bytes;
  Some (with_data x (Some d), tx_bytes).

(** [assert_eq!(thread_input.to_bytes(), ...)] *)
Definition bytes_match (x : EVMInput) (tx_bytes : list byte) (size : Z) : bool :=
  bool_decide (input_to_bytes x = slice tx_bytes 68 (68 + size)).

(** The verdict of the device on a thread, with the buffer *)
Definition device_verdict (cpu_input : EVMInput) (types : list Z) (size : Z)
    (s : Minimizer * state * list byte) (thread_id : nat) : fresult (Minimizer * state * list byte) :=
  let '(m, st, tx_bytes) := s in
  let '(r, tx_bytes, g) := gainCov (Z.of_nat thread_id) tx_bytes (gpu_of st) in
  let st := on_gpu (λ _, g) st in
  hnb ← or_panic (cuda_transmute r);
  match hnb with
  | EXECNONE | EXECREVERTED => Done (m, st, tx_bytes)
  | EXECBUGGY =>
      '(x, tx_bytes) ← or_panic (read_back cpu_input tx_bytes size);
      if negb (bytes_match x tx_bytes size) then Panics
      else '(m, st) ← evaluate_input m x st; Done (m, st, tx_bytes)
  | EXECINTERESTING =>
      '(x, tx_bytes) ← or_panic (read_back cpu_input tx_bytes size);
      t ← or_panic (get_types_vec x);
      if negb (bool_decide (types = t)) || negb (bytes_match x tx_bytes size) then Panics
      else '(m, st) ← evaluate_input m x st; Done (m, st, tx_bytes)
  | EXECLESSDISTANCE => Panics
  end.

Fixpoint times (n : nat) (f : G → G) (g : G) : G :=
  match n with O => g | S n => times n f (f g) end.

(** The batch: the device gets environment, storage and seed, mutates and executes. *)
Definition run_batch (cpu_input : EVMInput) (types : list Z) (size : Z) st : fresult state :=
  let st := on_gpu (λ g, load_storage cpu_input (cu_load_evm_env cpu_input g)) st in
  g ← or_panic (cu_load_input cpu_input 0 (gpu_of st));
  let st := on_gpu (λ _, cuPreMutate types (Z.of_nat (length types)) g) st in
  let '(v, st) := draw 100 st in
  let '(havoc_times, st) := if v <? 60 then let '(n, st) := draw 4 st in (Z.to_nat (n + 1), st) else (1%nat, st) in
  let st := on_gpu (λ g, getCudaExecRes (cuEvalTxn 0 (times havoc_times (cuMutate size) g))) st in
  Done (set_executions (u64 (fs_executions st + NJOBS)) st).

(** A round: the CPU first, then, unless the input is not worth it, the device *)
Definition multiple_round (corpus_idx : Z) (s : Minimizer * state * list byte) (i : nat)
  : fresult (Minimizer * state * list byte) :=
  let '(m, st, tx_bytes) := s in
  input ← load_input corpus_idx st;
  '(cpu_input, st) ← run_mutator (Z.of_nat i) input st;
  cpu_calldata ← or_panic (input_to_bytes cpu_input);
  let size := Z.of_nat (length cpu_calldata) in
  '(m, st) ← evaluate_input m cpu_input st;
  if ei_step cpu_input || (size <=? 4) then Done (m, st, tx_bytes)
  else
    let '(skip, st) := if negb (branch_distance_interesting cp st) then let '(v, st) := draw 100 st in (v <? 10, st)
                       else (false, st) in
    if (skip : bool) then Done (m, st, tx_bytes)
    else
      types ← or_panic (get_types_vec cpu_input);
      st ← run_batch cpu_input types size st;
      for_each (device_verdict cpu_input types size) (m, st, tx_bytes) (seq 0 (Z.to_nat NJOBS)).

(** [perform_multiple_mutational] *)
Definition perform_multiple_mutational (corpus_idx : Z) (m : Minimizer) st : fresult (Minimizer * state) :=
  let '(num, st) := iterations st in
  '(m, st, _) ← for_each (multiple_round corpus_idx) (m, st, replicate SEED_SIZE x00) (seq 0 num);
  Done (m, st).

(** [perform]; times are in nanoseconds. *)
Definition perform (gpu_enable : bool) (now start : Z) (corpus_idx : Z) (m : Minimizer) st : fresult (Minimizer * state) :=
  if gpu_enable && (now <? start) then Panics
  else if gpu_enable && (STATS_CPU_DEFAULT <? (now - start) / 10 ^ 9) then perform_multiple_mutational corpus_idx m st
  else perform_mutational corpus_idx m st.

(** ** The loop of the fuzzer *)

(** libafl's scheduler of inputs, its calibration stage and its event manager; and whether
    and when stages use the device *)
Record Loop := mkLoop {
  scheduler_next : state → fresult (Z * state);
  calibrate : Z → state → fresult state;
  manager_process : state → fresult state;
  maybe_report_progress : state → fresult state;
  enabled : bool;
  clock : state → Z;
  start_time : Z
}.
Context (lp : Loop).

(** [fuzz_one]: an error of a stage is a panic. *)
Definition perform_all (idx : Z) (m : Minimizer) st : fresult (Minimizer * state) :=
  st ← calibrate lp idx st;
  perform (enabled lp) (clock lp st) (start_time lp) idx m st.
Definition expect {A} (x : fresult A) : fresult A := match x with Failed => Panics | x => x end.
Definition fuzz_one (m : Minimizer) st : fresult (Minimizer * state) :=
  '(idx, st) ← scheduler_next lp st;
  '(m, st) ← expect (perform_all idx m st);
  st ← manager_process lp st;
  Done (m, st).

(** [fuzz_loop] never returns; [n] rounds of it. *)
Fixpoint fuzz_loop (n : nat) (m : Minimizer) st : fresult (Minimizer * state) :=
  match n with
  | O => Done (m, st)
  | S n =>
      '(m, st) ← fuzz_one m st;
      st ← maybe_report_progress lp st;
      fuzz_loop n m st
  end.
End stage.
