(* ===== verification/GpuStageProps.v ===== *)
(** * Stages are runs of the campaign

    Every stage, on the CPU or with the device, evaluates only inputs that the campaign
    accepts, and what is read back from the device is the transaction the device ran. *)
From S2P Require Import Prelude Types State MutationUtils F64 Expr Abi AbiLayout AbiTypes AbiRound AbiParse Corpus Scheduler SchedulerInv I256 Tracer Evm Host HostCall Vm InputMutate InputMutateProps Replay ReplayProps FuzzerLoop FuzzerProps GpuStage.
#[local] Open Scope Z_scope.

Section stage.
Context {R C D G Y : Type} `{Libafl R} `{!RandLaws R} `{!LibaflLaws R} `{HashOrder} `{VecCorpus C} `{TxnCorpus D} `{Formats} `{Gpu G}.
Abbreviation state := (@FzState R C D (FuzzState R * G * Y)).
Context (cp : @Campaign R C D (FuzzState R * G * Y)) `{!CampaignOk cp}.
Implicit Types (st : state) (m : Minimizer).
Abbreviation infants st := (infant_state (fs_infant st)).

(** ** The invariant of stages *)

(** The stored inputs run on stored states, and stored states are initialized. *)
Definition inputs_ok st : Prop := ∀ x, x ∈ tc_list (fs_corpus st) → input_ok (infants st) x.
Definition states_ok st : Prop := ∀ i s, entries (infants st) !! i = Some s → ss_initialized s = true.
(** The evaluations that the indices still allow *)
Definition spare st : Z := 2 ^ 64 - 1 - current_idx (infants st).

Record stage_inv m st : Prop := mkStageInv {
  si_fz : fz_inv m st;
  si_inputs : inputs_ok st;
  si_states : states_ok st
}.

(** A computation of a stage, from [s0], with at most [k] evaluations: it ends in a state of
    the campaign, or exits from an evaluation that the campaign allows. *)
Definition runs (k : Z) (s0 : Minimizer * state) {A} (state_of : A → Minimizer * state) (x : fresult A) (Q : A → Prop) : Prop :=
  match x with
  | Done a => rtc (campaign_step cp) s0 (state_of a) ∧ stage_inv (state_of a).1 (state_of a).2 ∧
                spare s0.2 - k ≤ spare (state_of a).2 ∧ Q a
  | Exited r => ∃ m st input, rtc (campaign_step cp) s0 (m, st) ∧ fz_inv m st ∧ ready input st ∧
                  evaluate_input_events cp m input true st = Exited r
  | Failed | Panics => True
  end.

Lemma runs_bind {A B} k k' s0 (sa : A → Minimizer * state) (sb : B → Minimizer * state) x (f : A → fresult B) Q T :
  runs k s0 sa x Q →
  (∀ a, stage_inv (sa a).1 (sa a).2 → spare s0.2 - k ≤ spare (sa a).2 → Q a → runs k' (sa a) sb (f a) T) →
  runs (k + k') s0 sb (x ≫= f) T.
Proof.
  intros Hx Hf. destruct x as [a| | |r]; simpl in *; try done. destruct Hx as (Hs & Hi & Hk & HQ). specialize (Hf a Hi Hk HQ).
  destruct (f a) as [b| | |r]; simpl in *; try done.
  - destruct Hf as (? & ? & ? & ?). split; [by etransitivity|]. split; [done|]. split; [lia|done].
  - destruct Hf as (m1 & st1 & input & ? & ?). exists m1, st1, input. split; [by etransitivity|done].
Qed.

Lemma runs_done {A} k s0 (sa : A → Minimizer * state) a (Q : A → Prop) :
  0 ≤ k → sa a = s0 → stage_inv s0.1 s0.2 → Q a → runs k s0 sa (Done a) Q.
Proof. intros Hk E Hi HQ. simpl. rewrite E. split; [reflexivity|]. split; [done|]. split; [lia|done]. Qed.

(** A panic is no obligation. *)
Lemma runs_or_panic {A B} k s0 (sb : B → Minimizer * state) (o : option A) (f : A → fresult B) T :
  (∀ a, o = Some a → runs k s0 sb (f a) T) → runs k s0 sb (or_panic o ≫= f) T.
Proof. intros Hf. destruct o as [a|]; [by apply Hf|done]. Qed.

Lemma runs_weaken {A} k k' s0 (sa : A → Minimizer * state) x (Q Q' : A → Prop) :
  k ≤ k' → (∀ a, Q a → Q' a) → runs k s0 sa x Q → runs k' s0 sa x Q'.
Proof.
  intros Hk HQ. destruct x as [a| | |r]; simpl; try done. intros (? & ? & ? & ?). split_and!; [done..|lia|by apply HQ].
Qed.

(** Loops *)
Lemma runs_for_each {A B} k (sb : B → Minimizer * state) (Q : B → Prop) (f : B → A → fresult B) l :
  0 ≤ k → (∀ b x, stage_inv (sb b).1 (sb b).2 → k ≤ spare (sb b).2 → Q b → runs k (sb b) sb (f b x) Q) →
  ∀ b, stage_inv (sb b).1 (sb b).2 → Z.of_nat (length l) * k ≤ spare (sb b).2 → Q b →
  runs (Z.of_nat (length l) * k) (sb b) sb (for_each f b l) Q.
Proof.
  intros Hk Hf. induction l as [|x l IH]; intros b Hb Hsp HQ; cbn [for_each]; [by apply runs_done; simpl; try lia|].
  cbn [length] in *. rewrite Nat2Z.inj_succ, Z.mul_succ_l in *. apply (runs_weaken (k + Z.of_nat (length l) * k) _ _ _ _ Q); [lia|done|].
  eapply runs_bind; [apply Hf; [done|lia|done]|]. intros a Ha Hspa HQa. apply IH; [done|lia|done].
Qed.

(** ** Changes that are not evaluations *)

Lemma still_spare st st' : still st st' → spare st' = spare st.
Proof. intros [_ Hi _]. unfold spare. by rewrite Hi. Qed.

Lemma waiting_input_ok c x : waiting x → input_ok c x.
Proof. intros [Hn Hs]. split; [congruence|done|]. unfold step_ok. congruence. Qed.

Lemma stage_inv_still m st st' : stage_inv m st → still st st' → stage_inv m st'.
Proof.
  intros Hi Hq. split; [by eapply fz_inv_still, Hi| |].
  - intros x. rewrite (sl_infants _ _ Hq). destruct (sl_inputs _ _ Hq) as (new & -> & Hw). rewrite Forall_forall in Hw.
    intros [Hx|Hx%Hw]%elem_of_app; [by apply (si_inputs _ _ Hi)|by apply waiting_input_ok].
  - intros i s. rewrite (sl_infants _ _ Hq). apply (si_states _ _ Hi).
Qed.

(** Only the device, the generator and the pools changed *)
Lemma set_other_still x st : still st (set_other x st).
Proof. apply quiet_still. by split. Qed.

Lemma runs_still {A} k m st st' (sa : A → Minimizer * state) x Q :
  stage_inv m st → still st st' → (stage_inv m st' → spare st' = spare st → runs k (m, st') sa x Q) → runs k (m, st) sa x Q.
Proof.
  intros Hi Hq Hx. pose proof (still_spare _ _ Hq) as Hsp. specialize (Hx (stage_inv_still m st st' Hi Hq) Hsp).
  assert (campaign_step cp (m, st) (m, st')) as Hs by (by apply campaign_stage).
  destruct x as [a| | |r]; simpl in *; try done.
  - destruct Hx as (? & ? & ? & ?). split; [by eapply rtc_l|]. split; [done|]. split; [lia|done].
  - destruct Hx as (m1 & st1 & y & ? & ?). exists m1, st1, y. split; [by eapply rtc_l|done].
Qed.

(** ** Evaluations *)

(** An input for the campaign: its state is stored under its index. *)
Record runnable st (x : EVMInput) : Prop := mkRunnable {
  ru_state : corpus_get (infants st) (ei_sstate_idx x) = Ok (ei_sstate x);
  ru_step : step_ok x
}.

(** Stored states are kept. *)
Definition keeps st st' : Prop := ∀ i s, entries (infants st) !! i = Some s → entries (infants st') !! i = Some s.

Lemma corpus_get_Ok {I} (c : IndexedInMemoryCorpus I) i x : corpus_get c i = Ok x ↔ entries c !! i = Some x.
Proof. unfold corpus_get. destruct (entries c !! i); split; intros E; try done; by injection E as ->. Qed.

Lemma runnable_input_ok st x : states_ok st → runnable st x → input_ok (infants st) x.
Proof.
  intros Hst [Hg Hs]. split; [done| |done]. intros Hi. apply corpus_get_Ok, Hst in Hg. congruence.
Qed.

Lemma input_ok_mono st st' x : keeps st st' → input_ok (infants st) x → input_ok (infants st') x.
Proof. intros Hm [Hs Hf Ht]. split; [|done|done]. intros Hi. apply corpus_get_Ok, Hm, corpus_get_Ok. by apply Hs. Qed.

Lemma runnable_mono st st' x : keeps st st' → runnable st x → runnable st' x.
Proof. intros Hm [Hg Hs]. split; [|done]. by apply corpus_get_Ok, Hm, corpus_get_Ok. Qed.

Lemma runnable_still st st' x : still st st' → runnable st x → runnable st' x.
Proof. intros Hq. apply runnable_mono. intros i s. by rewrite (sl_infants _ _ Hq). Qed.

Lemma evaluate_runs m x st : stage_inv m st → 1 ≤ spare st → runnable st x →
  runs 1 (m, st) id (evaluate_input cp m x st) (λ '(_, st'), keeps st st').
Proof.
  intros Hi Hsp Hx. pose proof (proj1 (corpus_get_Ok _ _ _) (ru_state _ _ Hx)) as Hlive.
  assert (ready x st) as Hr. { unfold spare in Hsp. split; [exact Hlive|]. lia. }
  unfold evaluate_input. destruct (evaluate_input_events cp m x true st) as [[[[v idx] m'] st']| | |r] eqn:E; try done; simpl.
  - destruct (evaluate_spec _ _ _ _ _ _ _ _ _ E (si_fz _ _ Hi) Hr) as (s & rr & txn & Hj & Hfile & Hz & Hinf & _).
    assert (keeps st st') as Hmono.
    { intros i s' Hs'. rewrite Hinf. by apply (j_mono _ _ _ _ _ _ _ Hj). }
    assert (states_ok st') as Hst'.
    { intros i s'. rewrite Hinf. intros [Hs'|[_ ->]]%(j_new _ _ _ _ _ _ _ Hj); [by apply (si_states _ _ Hi) in Hs'|].
      apply (j_initialized _ _ _ _ _ _ _ Hj), (ru_step _ _ Hx). }
    assert (campaign_step cp (m, st) (m', st')) as Hstep by (by eapply campaign_evaluate).
    split; [by apply rtc_once|]. split; [split; [done| |done]|].
    + intros y Hy. destruct (j_inputs _ _ _ _ _ _ _ Hj) as (new & Hnew & Hw). rewrite Forall_forall in Hw.
      apply (filed_members _ _ _ _ _ _ _ _ Hfile) in Hy as [Hy| ->]; [|apply runnable_input_ok; [done|by eapply runnable_mono]].
      rewrite Hnew in Hy. apply elem_of_app in Hy as [Hy|Hy%Hw]; [|by apply waiting_input_ok].
      eapply input_ok_mono; [exact Hmono|]. by apply (si_inputs _ _ Hi).
    + split; [|done]. pose proof (j_idx _ _ _ _ _ _ _ Hj). unfold spare. rewrite Hinf. lia.
  - exists m, st, x. split; [reflexivity|]. split; [apply Hi|done].
Qed.

(** ** Stages *)

Lemma run_mutator_runs m i x st : stage_inv m st → input_ok (infants st) x →
  runs 0 (m, st) (λ '(_, st'), (m, st')) (run_mutator i x st) (λ '(x', st'), runnable st' x').
Proof.
  intros Hi Hx. unfold run_mutator. apply runs_or_panic. intros [[r ms] x'] E.
  destruct (fuzz_mutate_spec _ _ _ _ _ _ E Hx) as ([Hc Hs _] & Hg & Hst). cbn [ms_infant] in *.
  eapply (runs_still _ m st); [exact Hi| |].
  - instantiate (1 := set_fuzz (ms_fuzz ms) (set_infant (ms_infant ms) st)). split; [reflexivity|exact Hc|exact Hs].
  - intros Hi' _. apply runs_done; [done..|]. split; [cbn; by rewrite Hc|done].
Qed.

Lemma runs_load {A} k m st idx (sa : A → Minimizer * state) f Q : stage_inv m st →
  (∀ x, input_ok (infants st) x → runs k (m, st) sa (f x) Q) → runs k (m, st) sa (load_input idx st ≫= f) Q.
Proof.
  intros Hi Hf. unfold load_input. destruct (tc_get _ _) as [x|] eqn:E; [|done]. apply Hf, (si_inputs _ _ Hi).
  rewrite tc_get_at in E. destruct (0 <=? idx); [|done]. by eapply list_elem_of_lookup_2.
Qed.

Lemma mutational_round_runs idx i m st : stage_inv m st → 1 ≤ spare st →
  runs 1 (m, st) id (mutational_round cp idx (m, st) i) (λ _, True).
Proof.
  intros Hi Hsp. unfold mutational_round. apply runs_load; [done|]. intros x Hx. apply (runs_bind 0 1 _ _ _ _ _ _ _ (run_mutator_runs m _ x st Hi Hx)).
  intros [x' st'] Hi' Hsp' Hx'. cbn [fst snd] in *. eapply runs_weaken; [reflexivity| |apply evaluate_runs; [done|lia|done]]. done.
Qed.

Lemma draw_still n st : still st (draw n st).2.
Proof. unfold draw. destruct (st_below _ _). apply set_other_still. Qed.

(** At most 128 iterations *)
Lemma iterations_still st : still st (iterations st).2 ∧ (1 ≤ (iterations st).1 ≤ 128)%nat.
Proof.
  unfold iterations. pose proof (draw_still DEFAULT_MUTATIONAL_MAX_ITERATIONS st) as Hq.
  assert (0 ≤ (draw DEFAULT_MUTATIONAL_MAX_ITERATIONS st).1 < DEFAULT_MUTATIONAL_MAX_ITERATIONS) as Hb.
  { unfold draw. pose proof (st_below_range (fuzz_of st) DEFAULT_MUTATIONAL_MAX_ITERATIONS eq_refl) as Hb. by destruct (st_below _ _). }
  destruct (draw _ st) as [v st1]. cbn [fst snd] in *. split; [done|]. unfold DEFAULT_MUTATIONAL_MAX_ITERATIONS in *. lia.
Qed.

Lemma perform_mutational_runs idx m st : stage_inv m st → 128 ≤ spare st →
  runs 128 (m, st) id (perform_mutational cp idx m st) (λ _, True).
Proof.
  intros Hi Hsp. unfold perform_mutational. destruct (iterations_still st) as [Hq Hn].
  destruct (iterations st) as [num st1]. cbn [fst snd] in *. eapply runs_still; [exact Hi|exact Hq|]. intros Hi1 Hsp1.
  apply (runs_weaken (Z.of_nat (length (seq 0 num)) * 1) _ _ _ _ (λ _, True)); [rewrite length_seq; lia|done|].
  apply (runs_for_each 1 id (λ _, True) (mutational_round cp idx) (seq 0 num)); [lia| |done|rewrite length_seq; simpl; lia|done].
  intros [m2 st2] i Hi2 Hsp2 _. by apply mutational_round_runs.
Qed.

(** ** With the device *)

(** What is read back runs on the same state. *)
Lemma read_back_state x tx size x' tx' : read_back x tx size = Some (x', tx') →
  ei_sstate x' = ei_sstate x ∧ ei_sstate_idx x' = ei_sstate_idx x ∧ ei_step x' = ei_step x.
Proof.
  unfold read_back. intros (c & _ & E)%bind_Some. cbv zeta in E. apply bind_Some in E as (val & _ & E).
  apply bind_Some in E as (v & _ & E). apply bind_Some in E as (t & _ & E). apply bind_Some in E as (b & _ & E).
  apply bind_Some in E as (d & _ & E). apply bind_Some in E as (bytes & _ & E).
  apply bind_Some in E as (d' & _ & [= <- _]). done.
Qed.

Lemma read_back_runnable st x tx size x' tx' :
  read_back x tx size = Some (x', tx') → runnable st x → runnable st x'.
Proof.
  intros (Es & Ei & Ep)%read_back_state [Hg Hs]. split; [by rewrite Es, Ei|]. unfold step_ok in *. by rewrite Es, Ep.
Qed.

(** Evaluating one candidate keeps the input of the batch runnable. *)
Lemma candidate_runs m st x y tx : stage_inv m st → 1 ≤ spare st → runnable st x → runnable st y →
  runs 1 (m, st) (fst : Minimizer * state * list byte → _) (evaluate_input cp m y st ≫= λ '(m, st), Done (m, st, tx))
    (λ '(_, st', _), runnable st' x).
Proof.
  intros Hi Hsp Hx Hy. apply (runs_bind 1 0 _ _ _ _ _ _ _ (evaluate_runs m y st Hi Hsp Hy)). intros [m' st'] Hi' _ Hm.
  apply runs_done; [done..|]. exact (runnable_mono st st' x Hm Hx).
Qed.

Lemma device_verdict_runs x types size s i : stage_inv s.1.1 s.1.2 → 1 ≤ spare s.1.2 → runnable s.1.2 x →
  runs 1 s.1 fst (device_verdict cp x types size s i) (λ '(_, st', _), runnable st' x).
Proof.
  destruct s as [[m st] tx]. cbn [fst snd]. intros Hi Hsp Hx. unfold device_verdict.
  destruct (gainCov _ _ _) as [[r tx1] g]. eapply runs_still; [exact Hi|apply set_other_still|]. intros Hi1 Hsp1.
  rewrite <- Hsp1 in Hsp. pose proof (runnable_still _ _ x (set_other_still (fuzz_of st, g, snd (fs_other st)) st) Hx) as Hx1.
  apply runs_or_panic. intros hnb _. destruct hnb; try done; try (by apply runs_done).
  - apply runs_or_panic. intros [y tx2] Eb. apply runs_or_panic. intros t _.
    destruct (_ || _); [done|]. apply candidate_runs; [done|done|done|]. by eapply read_back_runnable.
  - apply runs_or_panic. intros [y tx2] Eb. destruct (negb _); [done|].
    apply candidate_runs; [done|done|done|]. by eapply read_back_runnable.
Qed.

(** The batch only moves the device and the generator. *)
Lemma run_batch_cases x types size st :
  run_batch x types size st = Panics ∨ ∃ st', run_batch x types size st = Done st' ∧ still st st'.
Proof.
  unfold run_batch. destruct (cu_load_input _ _ _) as [g|]; [right|by left]. cbn [or_panic mbind fresult_bind].
  match goal with |- context [draw 100 ?s] => set (st1 := s) end.
  pose proof (draw_still 100 st1) as Hq. destruct (draw 100 st1) as [v st2]. simpl in Hq.
  assert (still st1 (if v <? 60 then let '(n, st) := draw 4 st2 in (Z.to_nat (n + 1), st) else (1%nat, st2)).2) as Hq2.
  { destruct (v <? 60); [|done]. pose proof (draw_still 4 st2) as Hq'. destruct (draw 4 st2) as [n st3]. by etransitivity. }
  destruct (if v <? 60 then _ else _) as [n st3]. eexists. split; [reflexivity|]. destruct Hq2. by split.
Qed.

Lemma multiple_round_runs idx s i : stage_inv s.1.1 s.1.2 → 1 + NJOBS ≤ spare s.1.2 →
  runs (1 + NJOBS) s.1 fst (multiple_round cp idx s i) (λ _, True).
Proof.
  destruct s as [[m st] tx]. cbn [fst snd]. intros Hi Hsp. unfold multiple_round. apply runs_load; [done|]. intros x Hx.
  apply (runs_bind 0 (1 + NJOBS) _ _ _ _ _ _ _ (run_mutator_runs m _ x st Hi Hx)). intros [y st1] Hi1 Hsp1 Hy. cbn [fst snd] in *.
  apply runs_or_panic. intros bytes _. cbv zeta.
  apply (runs_bind 1 NJOBS _ _ _ _ _ _ _ (evaluate_runs m y st1 Hi1 ltac:(unfold NJOBS in *; lia) Hy)).
  intros [m2 st2] Hi2 Hsp2 Hmono. cbn [id fst snd] in *. pose proof (runnable_mono _ _ _ Hmono Hy) as Hy2.
  destruct (_ || _); [by apply runs_done|].
  assert (still st2 (if negb (branch_distance_interesting cp st2) then let '(v, st) := draw 100 st2 in (v <? 10, st) else (false, st2)).2) as Hq.
  { destruct (negb _); [|done]. pose proof (draw_still 100 st2) as Hq. by destruct (draw 100 st2). }
  destruct (if negb _ then _ else _) as [skip st3]. simpl in Hq. eapply runs_still; [exact Hi2|exact Hq|]. intros Hi3 Hsp3.
  destruct skip; [by apply runs_done|]. apply runs_or_panic. intros types _.
  destruct (run_batch_cases y types (Z.of_nat (length bytes)) st3) as [-> |(st4 & -> & Hq4)]; [done|].
  eapply runs_still; [exact Hi3|exact Hq4|]. intros Hi4 Hsp4.
  assert (runnable st4 y) as Hy4 by (eapply runnable_still; [|exact Hy2]; by etransitivity).
  apply (runs_weaken (Z.of_nat (length (seq 0 (Z.to_nat NJOBS))) * 1) _ _ _ _ (λ '(_, st', _), runnable st' y)); [rewrite length_seq; done|done|].
  apply (runs_for_each 1 fst (λ '(_, st', _), runnable st' y) (device_verdict cp y types _) (seq 0 (Z.to_nat NJOBS)));
    [lia| |exact Hi4|rewrite length_seq; unfold NJOBS in *; cbn [fst snd]; lia|exact Hy4].
  intros [[m5 st5] tx5] j Hi5 Hsp5 Hy5. by apply device_verdict_runs.
Qed.

(** A stage evaluates at most this often. *)
Definition ROUND : Z := 128 * (1 + NJOBS).

Lemma perform_multiple_mutational_runs idx m st : stage_inv m st → ROUND ≤ spare st →
  runs ROUND (m, st) id (perform_multiple_mutational cp idx m st) (λ _, True).
Proof.
  intros Hi Hsp. unfold perform_multiple_mutational, ROUND in *. destruct (iterations_still st) as [Hq Hn].
  destruct (iterations st) as [num st1]. cbn [fst snd] in *. eapply runs_still; [exact Hi|exact Hq|]. intros Hi1 Hsp1.
  apply (runs_weaken (Z.of_nat (length (seq 0 num)) * (1 + NJOBS) + 0) _ _ _ _ (λ _, True)); [rewrite length_seq; unfold NJOBS in *; lia|done|].
  eapply (runs_bind _ 0 (m, st1) (fst : Minimizer * state * list byte → _)).
  - apply (runs_for_each (1 + NJOBS) fst (λ _, True) (multiple_round cp idx) (seq 0 num)) with (b := (m, st1, replicate SEED_SIZE x00));
      [done| |done|rewrite length_seq; cbn [fst snd]; unfold NJOBS in *; lia|done].
    intros s i Hi2 Hsp2 _. by apply multiple_round_runs.
  - intros [[m2 st2] tx2] Hi2 _ _. by apply runs_done.
Qed.

Lemma perform_runs b now start idx m st : stage_inv m st → ROUND ≤ spare st →
  runs ROUND (m, st) id (perform cp b now start idx m st) (λ _, True).
Proof.
  intros Hi Hsp. unfold perform. destruct (b && _); [done|]. destruct (b && _); [by apply perform_multiple_mutational_runs|].
  eapply runs_weaken; [| |apply perform_mutational_runs; [done|]]; unfold ROUND, NJOBS in *; [lia|done|lia].
Qed.

(** ** The loop *)

Context (lp : @Loop R C D G Y).

(** libafl's parts leave what is stored in place, and return. *)
Class LoopOk : Prop := {
  lo_next st : match scheduler_next lp st with Done (_, st') => still st st' | Exited _ => False | _ => True end;
  lo_calibrate i st : match calibrate lp i st with Done st' => still st st' | Exited _ => False | _ => True end;
  lo_process st : match manager_process lp st with Done st' => still st st' | Exited _ => False | _ => True end;
  lo_report st : match maybe_report_progress lp st with Done st' => still st st' | Exited _ => False | _ => True end
}.
Context `{!LoopOk}.

Lemma runs_part {A} k m st (x : fresult state) f (sa : A → Minimizer * state) Q :
  stage_inv m st → match x with Done st' => still st st' | Exited _ => False | _ => True end →
  (∀ st', stage_inv m st' → spare st' = spare st → runs k (m, st') sa (f st') Q) → runs k (m, st) sa (x ≫= f) Q.
Proof. intros Hi Hx Hf. destruct x as [st'| | |r]; try done. cbn [mbind fresult_bind]. eapply runs_still; [done|exact Hx|]. by apply Hf. Qed.

Lemma fuzz_one_runs m st : stage_inv m st → ROUND ≤ spare st → runs ROUND (m, st) id (fuzz_one cp lp m st) (λ _, True).
Proof.
  intros Hi Hsp. unfold fuzz_one. pose proof (lo_next st) as Hn. destruct (scheduler_next lp st) as [[idx st1]| | |r]; try done.
  cbn [mbind fresult_bind]. eapply runs_still; [exact Hi|exact Hn|]. intros Hi1 Hsp1.
  apply (runs_bind ROUND 0 _ id id _ _ (λ _, True)).
  - assert (runs ROUND (m, st1) id (perform_all cp lp idx m st1) (λ _, True)) as Hp.
    { unfold perform_all. apply runs_part; [done|apply lo_calibrate|]. intros st2 Hi2 Hsp2. apply perform_runs; [done|lia]. }
    by destruct (perform_all _ _ _ _ _).
  - intros [m2 st2] Hi2 _ _. apply runs_part; [done|apply lo_process|]. intros st3 Hi3 _. by apply runs_done.
Qed.

Lemma fuzz_loop_runs n m st : stage_inv m st → Z.of_nat n * ROUND ≤ spare st →
  runs (Z.of_nat n * ROUND) (m, st) id (fuzz_loop cp lp n m st) (λ _, True).
Proof.
  revert m st. induction n as [|n IH]; intros m st Hi Hsp; cbn [fuzz_loop]; [by apply runs_done|].
  rewrite Nat2Z.inj_succ, Z.mul_succ_l in *.
  apply (runs_weaken (ROUND + Z.of_nat n * ROUND) _ _ _ _ (λ _, True)); [lia|done|].
  eapply runs_bind; [apply fuzz_one_runs; [done|unfold ROUND, NJOBS in *; lia]|]. intros [m1 st1] Hi1 Hsp1 _. cbn [id fst snd] in *.
  apply runs_part; [done|apply lo_report|]. intros st2 Hi2 Hsp2. apply IH; [done|lia].
Qed.

(** C5. The loop of the fuzzer is a campaign.  Whatever the device answers and wherever
    the generator leads, as long as the indices of VM states last for [n] rounds of at
    most 128 iterations with one evaluation on the CPU and 1024 on the device, [n] rounds
    that return have only evaluated inputs whose VM state is stored under the index they
    name; the indices of the minimizer are those of stored inputs, every stored input
    still waits for a VM state or runs on a stored one, and every stored VM state is
    initialized and comes from an older one.  If the program exits, it does so from the
    evaluation of such an input. *)
Theorem fuzz_loop_is_campaign n m st :
  stage_inv m st → Z.of_nat n * ROUND ≤ spare st →
  match fuzz_loop cp lp n m st with
  | Done (m', st') =>
      rtc (campaign_step cp) (m, st) (m', st') ∧ stage_inv m' st' ∧ spare st - Z.of_nat n * ROUND ≤ spare st'
  | Exited r =>
      ∃ m' st' input, rtc (campaign_step cp) (m, st) (m', st') ∧ fz_inv m' st' ∧ ready input st' ∧
        evaluate_input_events cp m' input true st' = Exited r
  | Failed | Panics => True
  end.
Proof.
  intros Hi Hsp. pose proof (fuzz_loop_runs n m st Hi Hsp) as Hr.
  destruct (fuzz_loop cp lp n m st) as [[m' st']| | |r]; [|done..]. destruct Hr as (? & ? & ? & _). done.
Qed.

(** ** A seed that is replaced *)

Lemma for_each_app {A B} (f : B → A → fresult B) l k b : for_each f b (l ++ k) = for_each f b l ≫= λ b, for_each f b k.
Proof. revert b. induction l as [|x l IH]; intros b; [done|]. cbn [for_each app]. by destruct (f b x); simpl. Qed.

(** A stage whose own input is replaced goes on with another one.  Every iteration reads
    the input again by its index; when an evaluation of one of the first [k] iterations
    made the minimizer remove the testcase at the index and add the better one at the end,
    the next iteration mutates the testcase that was stored behind the removed one, or
    the new one, if there was none. *)
Lemma replaced_seed_moves_on idx m st1 k m1 st2 l y :
  for_each (mutational_round cp idx) (m, st1) (seq 0 k) = Done (m1, st2) →
  0 ≤ idx < Z.of_nat (length l) → tc_list (fs_corpus st2) = delete (Z.to_nat idx) l ++ [y] →
  for_each (mutational_round cp idx) (m, st1) (seq 0 (Datatypes.S k)) =
    ('(x, st) ← run_mutator (Z.of_nat k) (default y (l !! Datatypes.S (Z.to_nat idx))) st2; evaluate_input cp m1 x st).
Proof using Type.
  intros Hrounds Hidx Hl. assert (seq 0 (Datatypes.S k) = seq 0 k ++ [k]) as -> by (by rewrite seq_S).
  rewrite for_each_app, Hrounds. cbn [mbind fresult_bind for_each].
  unfold mutational_round, load_input. rewrite tc_get_at, (proj2 (Z.leb_le 0 idx)), Hl by lia.
  assert ((delete (Z.to_nat idx) l ++ [y]) !! Z.to_nat idx = Some (default y (l !! Datatypes.S (Z.to_nat idx)))) as ->.
  { assert (is_Some (l !! Z.to_nat idx)) as Hi by (apply lookup_lt_is_Some; lia).
    destruct (l !! Datatypes.S (Z.to_nat idx)) as [x|] eqn:Ex; cbn [default].
    - apply lookup_app_l_Some. by rewrite list_lookup_delete_ge by lia.
    - apply lookup_ge_None in Ex. rewrite lookup_app_r by (rewrite length_delete by done; lia).
      rewrite length_delete by done. by replace (Z.to_nat idx - _)%nat with 0%nat by lia. }
  cbn [mbind fresult_bind]. destruct (run_mutator _ _ _) as [[x st]| | |r]; cbn [mbind fresult_bind]; [|done..].
  by destruct (evaluate_input _ _ _ _).
Qed.
End stage.

(** ** What comes back from the device *)

Section device.
Context {R C D G Y : Type} `{Libafl R} `{HashOrder} `{TxnCorpus C} `{TxnCorpus D} `{Formats} `{Gpu G}.
Context (cp : @Campaign R C D (FuzzState R * G * Y)).
Implicit Types (st : @FzState R C D (FuzzState R * G * Y)) (x : EVMInput).

(** A seed in the buffer: the caller with its bytes reversed in the first word, the value
    in the second, and the call data at 68 *)
Definition seed (caller value : Z) (pad gap data rest : list byte) : list byte :=
  reverse (z2be 20 caller) ++ pad ++ z2be 32 value ++ gap ++ data ++ rest.

(** The transaction of a seed *)
Definition with_seed x (caller value : Z) (v : BoxedABI) : EVMInput :=
  with_data (with_txn_value (with_caller x caller) (Some value)) (Some v).

Lemma be2z_address caller : 0 ≤ caller < 2 ^ 160 → be2z (z2be 20 caller) = caller.
Proof. intros Hc. rewrite be2z_z2be. apply Z.mod_small. change (256 ^ Z.of_nat 20) with (2 ^ 160). done. Qed.
Lemma read_value value : 0 ≤ value < 2 ^ 256 → try_from_be_slice (z2be 32 value) = Some value.
Proof.
  intros Hv. unfold try_from_be_slice. rewrite be2z_z2be, Z.mod_small by exact Hv. by rewrite decide_True by apply Hv.
Qed.

(** The buffer, read field by field *)
Lemma read_back_fields x d v (cb vb pad gap data rest : list byte) value :
  length cb = 20%nat → length pad = 12%nat → length vb = 32%nat → length gap = 4%nat →
  try_from_be_slice vb = Some value → ei_data x = Some d → is_Some (get_basic_types (boxed_b d)) → is_Some (boxed_get_bytes d) →
  boxed_set_bytes d data = Some v →
  read_back x (reverse cb ++ pad ++ vb ++ gap ++ data ++ rest) (Z.of_nat (length data)) =
    Some (with_seed x (be2z cb) value v, cb ++ pad ++ vb ++ gap ++ data ++ rest) ∧
  slice (cb ++ pad ++ vb ++ gap ++ data ++ rest) 68 (68 + Z.of_nat (length data)) = Some data.
Proof.
  intros Hcb Hpad Hvb Hgap Hval Hd [t Ht] [bs Hbs] Hset.
  assert (slice (cb ++ pad ++ vb ++ gap ++ data ++ rest) 68 (68 + Z.of_nat (length data)) = Some data) as Hs.
  { rewrite (app_assoc cb), (app_assoc (cb ++ pad)), (app_assoc ((cb ++ pad) ++ _)).
    apply slice_app; rewrite ?length_app, ?Hcb, ?Hvb, ?Hpad, ?Hgap; done. }
  split; [|done]. unfold read_back.
  assert (slice (reverse cb ++ pad ++ vb ++ gap ++ data ++ rest) 0 20 = Some (reverse cb)) as ->.
  { apply (slice_app []); rewrite ?length_reverse, ?Hcb; done. }
  rewrite obind_Some, reverse_involutive, drop_app_length' by (by rewrite length_reverse).
  assert (slice (cb ++ pad ++ vb ++ gap ++ data ++ rest) 32 64 = Some vb) as ->.
  { rewrite (app_assoc cb). apply slice_app; rewrite ?length_app, ?Hcb, ?Hvb, ?Hpad; done. }
  rewrite obind_Some, Hval, obind_Some. unfold get_types_vec, input_to_bytes. cbn [with_txn_value with_caller ei_data].
  rewrite Hd, Ht, Hbs, !obind_Some, Hs, obind_Some, Hset, obind_Some. reflexivity.
Qed.

Lemma read_back_seed x d v caller value pad gap data rest :
  ei_data x = Some d → typed (boxed_b d) = true → fits_boxed d v → typed (boxed_b v) = true →
  boxed_get_bytes v = Some data → Z.of_nat (length data) < 2 ^ 64 →
  0 ≤ caller < 2 ^ 160 → 0 ≤ value < 2 ^ 256 → length pad = 12%nat → length gap = 4%nat →
  ∃ tx', read_back x (seed caller value pad gap data rest) (Z.of_nat (length data)) = Some (with_seed x caller value v, tx') ∧
    bytes_match (with_seed x caller value v) tx' (Z.of_nat (length data)) = true.
Proof.
  intros Hd Htd Hf Htv Hb Hlen Hc Hv Hpad Hgap.
  assert (boxed_set_bytes d data = Some v) as Hset.
  { destruct v as [b f]. inversion Hf as [b' ? ? Hbb]; subst. cbn [boxed_b] in *. unfold boxed_get_bytes in Hb. cbn [boxed_b boxed_function] in Hb.
    rewrite get_bytes_elem, obind_Some in Hb by eauto with mau. apply Some_inj in Hb as <-. rewrite length_app in Hlen.
    unfold boxed_set_bytes. cbn [boxed_b boxed_function]. rewrite slice_from_app, obind_Some by done.
    rewrite <- (app_nil_r (enc b)), (set_bytes_enc b' b Hbb Htv), obind_Some by lia. reflexivity. }
  destruct (read_back_fields x d v (z2be 20 caller) (z2be 32 value) pad gap data rest value) as [Hr Hs];
    [apply length_z2be|done|apply length_z2be|done|by apply read_value|done| | |done|].
  { rewrite (get_basic_types_typed _ Htd). by eexists. }
  { unfold boxed_get_bytes. rewrite get_bytes_elem by eauto with mau. by eexists. }
  rewrite (be2z_address _ Hc) in Hr. eexists. split; [exact Hr|]. unfold bytes_match. apply bool_decide_eq_true. by rewrite Hs.
Qed.
(** C21. A transaction the device reports is the one that is evaluated.  When the buffer
    that [gainCov] filled for a thread holds the reversed caller, a value and the encoding
    of any value [v] of the shape of the input's arguments, the thread's verdict is the
    evaluation of the input with exactly that caller, that value and the arguments [v], on
    the VM state and with the environment of the input: decoding does not fail, and the
    assertion that the arguments encode to the bytes of the device holds. *)
Theorem device_candidate_faithful x types m st tx thread_id d v caller value pad gap data rest r g :
  ei_data x = Some d → typed (boxed_b d) = true → fits_boxed d v → typed (boxed_b v) = true →
  boxed_get_bytes v = Some data → Z.of_nat (length data) < 2 ^ 64 →
  0 ≤ caller < 2 ^ 160 → 0 ≤ value < 2 ^ 256 → length pad = 12%nat → length gap = 4%nat →
  gainCov (Z.of_nat thread_id) tx (gpu_of st) = (r, seed caller value pad gap data rest, g) →
  r = 3 ∨ r = 2 ∧ get_types_vec (with_seed x caller value v) = Some types →
  ∃ tx', device_verdict cp x types (Z.of_nat (length data)) (m, st, tx) thread_id =
    ('(m', st') ← evaluate_input cp m (with_seed x caller value v) (on_gpu (λ _, g) st); Done (m', st', tx')).
Proof.
  intros Hd Htd Hf Htv Hb Hlen Hc Hv Hpad Hgap Hg Hr.
  destruct (read_back_seed x d v caller value pad gap data rest Hd Htd Hf Htv Hb Hlen Hc Hv Hpad Hgap) as (tx' & Hrb & Hm).
  exists tx'. unfold device_verdict. rewrite Hg. destruct Hr as [->|[-> Ht]]; cbn [cuda_transmute or_panic mbind fresult_bind].
  - rewrite Hrb. cbn [or_panic mbind fresult_bind]. by rewrite Hm.
  - rewrite Hrb. cbn [or_panic mbind fresult_bind]. rewrite Ht. cbn [or_panic mbind fresult_bind].
    by rewrite bool_decide_eq_true_2, Hm by done.
Qed.
End device.

(** The value of a seed is loaded with its least significant byte first and read back with
    its most significant byte first; the caller is reversed both ways. *)
Lemma loaded_value_reads_reversed : try_from_be_slice (to_le_bytes 1) = Some (2 ^ 248).
Proof. vm_compute. reflexivity. Qed.

(** ** A small campaign *)

(** A device that hands out one seed, to thread 0 *)
#[export] Instance one_seed_gpu : Gpu (list byte) := {|
  setEVMEnv _ _ _ g := g; cuLoadStorage _ _ _ g := g; cuLoadSeed _ _ _ _ _ _ g := g; cuPreMutate _ _ g := g;
  cuMutate _ g := g; cuEvalTxn _ g := g; getCudaExecRes g := g; isCudaInteresting _ g := (0, g);
  gainCov tid buf g := if tid =? 0 then (3, g, g) else (0, buf, g)
|}.

Abbreviation toy_inputs := (list EVMInput).
Abbreviation toy_stage_state := (@FzState Z toy_inputs toy_inputs (FuzzState Z * list byte * unit)).

Definition never : @Feedback Z toy_inputs toy_inputs (FuzzState Z * list byte * unit) :=
  mkFeedback (λ _ st, Done (false, st)) Done (λ _, Done).
Definition toy_result : ExecutionResult :=
  mkExecutionResult [] false (new_with_state EVMState_new) None 0.
Definition toy_stage_campaign : @Campaign Z toy_inputs toy_inputs (FuzzState Z * list byte * unit) :=
  mkCampaign (λ _, Done) (λ _ st, Some (toy_result, st)) (λ _, Done) never never never
    (λ _, Done) Done (λ _, []) (λ _, false) true (λ _, 0) (λ _, None) (λ _, []).

#[export] Instance toy_stage_campaign_ok : CampaignOk toy_stage_campaign.
Proof.
  assert (∀ a b : toy_stage_state, Done a = Done b → quiet a b) as Hd by (by intros a b [= <-]).
  split; try (intros; by apply Hd); try done; repeat intro; simpl in *; set_unfold; naive_solver.
Qed.

Definition toy_loop : @Loop Z toy_inputs toy_inputs (list byte) unit :=
  mkLoop (λ st, Done (0, st)) (λ _, Done) Done Done false (λ _, 0) 0.
#[export] Instance toy_loop_ok : LoopOk toy_loop.
Proof. split; repeat intro; simpl; reflexivity. Qed.

(** One stored input, without a VM state of its own yet but in debt, and one stored state *)
Definition toy_args : BoxedABI := mkBoxedABI (A256 [x05] false false false) (Sel xa9 x05 x9c xbb).
Definition toy_seed_input (debt : Z) : EVMInput :=
  mkEVMInput 9 7 (Some toy_args) (mkStaged (mkEVMState ∅ [] (mkFlashloan debt 0) false) [] false TxnTrace_new) 0 None false
    (mkEnv 0 0 0 0 0 1) AccessPattern_new [] 1 false.
Definition toy_infants : InfantStateState StagedVMState Z :=
  default (mkInfant corpus_new None 7 0) (snd <$> add_infant_state (mkInfant corpus_new None 7 0) (new_with_state EVMState_new)).
Definition toy_stage_start (debt : Z) (rand : Z) : toy_stage_state :=
  mkFz [toy_seed_input debt] [] toy_infants toy_result 0
    (add_caller (FuzzState_new rand) 9, [], ()).
Definition toy_minimizer (debt : Z) : Minimizer := {[0 := (0, fav_factor (toy_seed_input debt))]}.

Lemma toy_stage_inv debt r : stage_inv ∅ (toy_stage_start debt r).
Proof.
  assert (∀ i s, entries (infant_state toy_infants) !! i = Some s → s = new_with_state EVMState_new) as Hs.
  { intros i s. change (infant_state toy_infants) with (snd (corpus_add corpus_new (new_with_state EVMState_new))).
    rewrite corpus_add_spec by (apply corpus_new_ok || done). cbn [snd entries corpus_new current_idx].
    rewrite lookup_insert_Some. by intros [[_ <-]|[_ ?]]. }
  split; [split|..].
  - by intros h idx f Hm.
  - change (infant_state (fs_infant (toy_stage_start debt r))) with (snd (corpus_add corpus_new (new_with_state EVMState_new))).
    by apply corpus_add_ok; [apply corpus_new_ok|].
  - intros idx s j ->%Hs. done.
  - intros x [-> |[]%elem_of_nil]%elem_of_cons. by apply waiting_input_ok.
  - by intros i s ->%Hs.
Qed.

Lemma fuzz_loop_is_campaign_witness :
  ∃ m st, fuzz_loop toy_stage_campaign toy_loop 2 ∅ (toy_stage_start 0 2) = Done (m, st) ∧ fs_executions st = 9 ∧
    rtc (campaign_step toy_stage_campaign) (∅, toy_stage_start 0 2) (m, st) ∧ stage_inv m st.
Proof.
  pose proof (fuzz_loop_is_campaign toy_stage_campaign toy_loop 2 ∅ (toy_stage_start 0 2) (toy_stage_inv 0 2)) as Hw.
  assert (match fuzz_loop toy_stage_campaign toy_loop 2 ∅ (toy_stage_start 0 2) with Done (_, st) => fs_executions st | _ => 0 end = 9) as He
    by (vm_compute; reflexivity).
  destruct (fuzz_loop _ _ _ _ _) as [[m st]| | |r]; [|discriminate He..]. exists m, st. split; [done|]. split; [exact He|].
  destruct Hw as (? & ? & _); [|done]. vm_compute. discriminate.
Defined.

(** The seed in debt is replaced in the first iteration, by what it was mutated to. *)
Example seed_is_replaced :
  map (λ x, (ss_initialized (ei_sstate x), owed (flashloan_data (ss_state (ei_sstate x))))) [toy_seed_input 5] = [(false, 5)] ∧
  match for_each (mutational_round toy_stage_campaign 0) (toy_minimizer 5, (iterations (toy_stage_start 5 1)).2) (seq 0 1) with
  | Done (_, st) => map (λ x, (ss_initialized (ei_sstate x), owed (flashloan_data (ss_state (ei_sstate x))))) (fs_corpus st)
  | _ => []
  end = [(true, 0)].
Proof. split; vm_compute; reflexivity. Qed.

(** A seed of the device for the input: another caller, a value and the argument 7 *)
Definition toy_found : BoxedABI := mkBoxedABI (A256 [x07] false false false) (Sel xa9 x05 x9c xbb).
Definition toy_buffer : list byte :=
  seed 11 3 (replicate 12 x00) (replicate 4 x00) (default [] (boxed_get_bytes toy_found)) [].
Definition toy_gpu_state : toy_stage_state :=
  set_other (add_caller (FuzzState_new 2) 9, toy_buffer, ()) (toy_stage_start 0 2).

Lemma device_candidate_faithful_witness :
  ∃ tx', device_verdict toy_stage_campaign (toy_seed_input 0) [] 36 (∅, toy_gpu_state, []) 0 =
    ('(m', st') ← evaluate_input toy_stage_campaign ∅ (with_seed (toy_seed_input 0) 11 3 toy_found) toy_gpu_state; Done (m', st', tx')).
Proof.
  refine (device_candidate_faithful toy_stage_campaign (toy_seed_input 0) [] ∅ toy_gpu_state [] 0 toy_args toy_found 11 3
    (replicate 12 x00) (replicate 4 x00) (default [] (boxed_get_bytes toy_found)) [] 3 toy_buffer _ _ _ _ _ _ _ _ _ _ _ _);
    try (vm_compute; done); [by repeat constructor|by left].
Defined.
