(* ===== verification/Loader.v ===== *)
(** * Loading contracts ([src/src/evm/contract_utils.rs])

    Contracts come from pairs of [.abi] and [.bin] files, or from a chain ([Endpoints]).  The JSON parser,
    the file system and the hash function are parameters; what is read from the JSON values
    is translated. *)
From S2P Require Import Prelude Types State SrcMap Expr Abi AbiLayout AbiParse I256 Tracer.
#[local] Open Scope Z_scope.

(** ** [serde_json::Value] *)

(** Objects are lists of entries in the order of the map. *)
Inductive Value :=
| VNull
| VBool (b : bool)
| VNumber (n : str)
| VString (s : str)
| VArray (l : list Value)
| VObject (m : list (str * Value)).

Fixpoint entry (m : list (str * Value)) (k : str) : option Value :=
  match m with
  | [] => None
  | (k', v) :: m => if decide (k' = k) then Some v else entry m k
  end.

(** [v.get(k)], [v[k]], [as_str], [as_array], [as_object] and [v == k] *)
Definition value_get (v : Value) (k : str) : option Value :=
  match v with VObject m => entry m k | _ => None end.
Definition value_index (v : Value) (k : str) : Value := default VNull (value_get v k).
Definition as_str (v : Value) : option str := match v with VString s => Some s | _ => None end.
Definition as_array (v : Value) : option (list Value) := match v with VArray l => Some l | _ => None end.
Definition as_object (v : Value) : option (list (str * Value)) := match v with VObject m => Some m | _ => None end.
Definition is_text (v : Value) (s : string) : bool :=
  match v with VString t => bool_decide (t = lit s) | _ => false end.

(** ** Types *)

(** The recursion of [process_input] on the name, with [tuple] for the struct *)
Fixpoint strip_arrays (fuel : nat) (tuple : option str) (ty : str) : option str :=
  match fuel with
  | O => None
  | S fuel =>
      if decide (ty = lit "tuple") then tuple
      else if ends_with ty (lit "[]")
      then s ← strip_arrays fuel tuple (take (length ty - 2) ty); Some (s ++ lit "[]")
      else None
  end.

(** [process_input], with its arguments swapped; it panics on a name that is neither a struct
    nor a slice of one when there are components. *)
Fixpoint process_input (input : Value) : str → option str :=
  match input with
  | VObject m =>
      (fix find (m : list (str * Value)) : str → option str :=
         match m with
         | [] => λ ty, Some ty
         | (k, slot) :: m =>
             if decide (k = lit "components") then
               let tuple :=
                 match slot with
                 | VArray l =>
                     v ← (fix all (l : list Value) : option (list str) :=
                            match l with
                            | [] => Some []
                            | v :: l => ty ← as_str (value_index v (lit "type")); s ← process_input v ty; r ← all l; Some (s :: r)
                            end) l;
                     Some (lit "(" ++ join v ++ lit ")")
                 | _ => None
                 end in
               λ ty, strip_arrays (S (length ty)) tuple ty
             else find m
         end) m
  | _ => λ ty, Some ty
  end.

(** [Self::process_input(v["type"].as_str().unwrap().to_string(), v)] *)
Definition input_type (v : Value) : option str :=
  ty ← as_str (value_index v (lit "type")); process_input v ty.

(** The name of a struct *)
Definition tuple_name (slot : Value) : option str :=
  l ← as_array slot; v ← mapM_opt input_type l; Some (lit "(" ++ join v ++ lit ")").

Lemma process_input_slot input ty :
  process_input input ty =
  match value_get input (lit "components") with
  | Some slot => strip_arrays (S (length ty)) (tuple_name slot) ty
  | None => Some ty
  end.
Proof.
  destruct input as [| | | | |m]; try done. cbn [value_get]. induction m as [|[k slot] m IH]; [done|].
  cbn [process_input entry]. case_decide; [|exact IH]. f_equal. unfold tuple_name. destruct slot as [| | | |l|]; try done.
  cbn [as_array]. rewrite obind_Some. f_equal. induction l as [|v l IHl]; [done|].
  unfold mapM_opt. cbn [mapM]. fold (mapM_opt input_type). rewrite <- IHl. unfold input_type.
  destruct (as_str _); [|done]. by rewrite !obind_Some.
Qed.

Lemma strip_arrays_fuel n m tuple ty :
  (length ty < n)%nat → (length ty < m)%nat → strip_arrays n tuple ty = strip_arrays m tuple ty.
Proof.
  revert m ty. induction n as [|n IH]; intros m ty Hn Hm; [lia|]. destruct m as [|m]; [lia|].
  cbn [strip_arrays]. case_decide; [done|]. destruct (ends_with ty _) eqn:E; [|done]. apply ends_with_inv in E as [pre ->].
  rewrite length_app in *. cbn [length lit] in *. rewrite (IH m); [done| |]; rewrite length_take, length_app; simpl in *; lia.
Qed.

(** The equation of the source *)
Lemma process_input_unfold input ty :
  process_input input ty =
  match value_get input (lit "components") with
  | Some slot =>
      if decide (ty = lit "tuple") then l ← as_array slot; v ← mapM_opt input_type l; Some (lit "(" ++ join v ++ lit ")")
      else if ends_with ty (lit "[]") then s ← process_input input (take (length ty - 2) ty); Some (s ++ lit "[]")
      else None
  | None => Some ty
  end.
Proof.
  rewrite !process_input_slot. destruct (value_get input _) as [slot|]; [|done]. cbn [strip_arrays].
  case_decide; [done|]. destruct (ends_with ty _) eqn:E; [|done]. apply ends_with_inv in E as [pre ->].
  rewrite (strip_arrays_fuel (length (pre ++ lit "[]")) (S (length (take (length (pre ++ lit "[]") - 2) (pre ++ lit "[]"))))); [done| |lia].
  rewrite length_take, length_app. simpl. lia.
Qed.

(** ** Functions *)

Record ABIConfig := mkABIConfig {
  ac_abi : str;
  ac_function : sel4;
  ac_function_name : str;
  ac_is_static : bool;
  ac_is_payable : bool;
  ac_is_constructor : bool
}.

Record ContractInfo := mkContractInfo {
  ci_name : str;
  ci_abi : list ABIConfig;
  ci_code : list byte;
  ci_is_code_deployed : bool;
  ci_constructor_args : list byte;
  ci_deployed_address : EVMAddress;
  ci_source_map : option (gmap nat SourceMapLocation)
}.

(** What is read from outside: [serde_json::from_str], the paths of a pattern ([None] for a
    malformed one, and for a path that cannot be read), the text of a file, the generator
    of addresses, and the hash function *)
Class Outside := {
  json_from_str : str → option Value;
  glob : str → option (list (option str));
  read_file : str → option str;
  random_using : Z → EVMAddress;
  keccak256 : list byte → Z
}.

(** [str::replace(p, "")]: every occurrence, from the left *)
Fixpoint remove_all (skip : nat) (p s : str) : str :=
  match s with
  | [] => []
  | c :: s' =>
      match skip with
      | S k => remove_all k p s'
      | O => if AbiParse.starts_with s p then remove_all (length p - 1) p s' else c :: remove_all 0 p s'
      end
  end.
Definition replace_all (s p : str) : str := remove_all 0 p s.

Section load.
Context {R : Type} `{Rand R} `{Formats} `{Outside}.

(** [set_hash] into four bytes *)
Definition set_hash (name : str) : sel4 :=
  match to_be_bytes (keccak256 (map byte_of_ascii name)) with
  | a :: b :: c :: d :: _ => Sel a b c d
  | _ => sel_zero
  end.

(** The closure of [parse_abi_str]; the inner [None] is no function. *)
Definition parse_entry (abi : Value) : option (option ABIConfig) :=
  let type_ := value_index abi (lit "type") in
  if is_text type_ "function" || is_text type_ "constructor" then
    name ← if is_text type_ "function" then as_str (value_index abi (lit "name")) else Some (lit "constructor");
    inputs ← as_array (value_index abi (lit "inputs"));
    abi_name ← mapM_opt input_type inputs;
    mutability ← as_str (value_index abi (lit "stateMutability"));
    Some (Some (mkABIConfig (lit "(" ++ join abi_name ++ lit ")")
      (set_hash (name ++ lit "(" ++ join abi_name ++ lit ")")) name
      (bool_decide (mutability = lit "view")) (bool_decide (mutability = lit "payable")) (is_text type_ "constructor")))
  else Some None.

(** [flat_map] over options, and [parse_abi_str] *)
Definition somes {A} (l : list (option A)) : list A := omap (λ x, x) l.
Definition parse_abi_str (data : str) : option (list ABIConfig) :=
  json ← json_from_str data;
  abis ← as_array json;
  l ← mapM_opt parse_entry abis;
  Some (somes l).

(** [parse_abi] and [parse_hex_file] *)
Definition parse_abi (path : str) : option (list ABIConfig) := data ← read_file path; parse_abi_str data.
Definition parse_hex_file (path : str) : option (list byte) := data ← read_file path; hex_decode data.

(** ** Contracts *)

(** [fixed_address] and [generate_random_address] *)
Definition fixed_address (s : str) : option EVMAddress := l ← hex_decode s; address_from_slice l.
Definition generate_random_address (st : FuzzState R) : EVMAddress * FuzzState R :=
  let '(v, st) := st_next st in (random_using v, st).
Definition FIX_DEPLOYER : str := lit "8b21e662154b4bbc1ec0754d0238875fe3d22fa6".

(** The state of the fuzzer, and the global names of functions *)
Record Load := mkLoad { ld_state : FuzzState R; ld_sigs : gmap (list byte) str }.

(** [BoxedABI::set_func_with_name] *)
Definition set_func_with_name (x : BoxedABI) (function : sel4) (name : str) (sigs : gmap (list byte) str)
  : BoxedABI * gmap (list byte) str := (set_func x function, <[sel_bytes function := name]> sigs).

Abbreviation ContractsSourceMapInfo := (gmap str (gmap nat SourceMapLocation)).

(** A file of the pattern *)
Definition load_file (result : ContractInfo) (i : option str) : option ContractInfo :=
  match i with
  | None => Some result
  | Some path =>
      if ends_with path (lit ".abi") then
        abi ← parse_abi path;
        Some (mkContractInfo (ci_name result) abi (ci_code result) (ci_is_code_deployed result) (ci_constructor_args result)
          (ci_deployed_address result) (ci_source_map result))
      else if ends_with path (lit ".bin") then
        c ← parse_hex_file path;
        Some (mkContractInfo (ci_name result) (ci_abi result) c (ci_is_code_deployed result) (ci_constructor_args result)
          (ci_deployed_address result) (ci_source_map result))
      else if ends_with path (lit ".address") then
        a ← parse_hex_file path; a ← address_from_slice a;
        Some (mkContractInfo (ci_name result) (ci_abi result) (ci_code result) (ci_is_code_deployed result)
          (ci_constructor_args result) a (ci_source_map result))
      else Some result
  end.

(** The arguments of the constructor are appended to the code. *)
Definition load_constructor (result : ContractInfo) (s : Load) : option (ContractInfo * Load) :=
  match list_find (λ abi, ac_is_constructor abi = true) (ci_abi result) with
  | Some (_, abi) =>
      deployer ← fixed_address FIX_DEPLOYER;
      abi_instance ← get_abi_type_boxed_with_address (ac_abi abi) (z2be 20 deployer);
      let '(abi_instance, sigs) := set_func_with_name abi_instance (ac_function abi) (ac_function_name abi) (ld_sigs s) in
      args ← get_bytes (boxed_b abi_instance);
      Some (mkContractInfo (ci_name result) (ci_abi result) (ci_code result ++ args) (ci_is_code_deployed result) args
              (ci_deployed_address result) (ci_source_map result), mkLoad (ld_state s) sigs)
  | None => Some (result, s)
  end.

(** [from_prefix] *)
Definition from_prefix (prefix : str) (source_map_info : option ContractsSourceMapInfo) (s : Load)
  : option (list ContractInfo * Load) :=
  let '(a, st) := generate_random_address (ld_state s) in
  source_map ← match source_map_info with Some info => m ← info !! prefix; Some (Some m) | None => Some None end;
  let result := mkContractInfo prefix [] [] false [] a source_map in
  paths ← glob prefix;
  result ← foldM load_file result paths;
  '(result, s) ← load_constructor result (mkLoad st (ld_sigs s));
  Some (if (0 <? length (ci_code result))%nat then [result] else [], s).

(** [parse_combined_json] *)
Definition file_names (map_json : Value) : option (list str) :=
  l ← as_array (value_index map_json (lit "sourceList")); mapM_opt as_str l.
Definition add_contract (file_list : list str) (result : ContractsSourceMapInfo) (c : str * Value)
  : option ContractsSourceMapInfo :=
  let '(contract_name, contract_info) := c in
  contract_name ← last (split_on ":"%char contract_name);
  bin_runtime ← as_str (value_index contract_info (lit "bin-runtime"));
  bin_runtime_bytes ← hex_decode bin_runtime;
  srcmap_runtime ← as_str (value_index contract_info (lit "srcmap-runtime"));
  m ← decode_instructions bin_runtime_bytes srcmap_runtime file_list;
  Some (<[contract_name := m]> result).
Definition parse_combined_json (json : str) : option ContractsSourceMapInfo :=
  map_json ← json_from_str json;
  contracts ← as_object (value_index map_json (lit "contracts"));
  file_list ← file_names map_json;
  foldM (add_contract file_list) ∅ contracts.

(** A path of the folder: the number of files of every contract, and the combined file *)
Definition count_file (m : gmap str Z) (prefix : str) : gmap str Z := <[prefix := u8z (default 0 (m !! prefix) + 1)]> m.
Definition scan_file (acc : gmap str Z * option str) (i : option str) : gmap str Z * option str :=
  let '(prefix_file_count, combined) := acc in
  match i with
  | None => acc
  | Some path =>
      if ends_with path (lit ".abi") then (count_file prefix_file_count (replace_all path (lit ".abi")), combined)
      else if ends_with path (lit ".bin") then (count_file prefix_file_count (replace_all path (lit ".bin")), combined)
      else if ends_with path (lit "combined.json") then (prefix_file_count, Some path)
      else acc
  end.

Definition load_prefix (info : option ContractsSourceMapInfo) (acc : list ContractInfo * Load) (c : str * Z)
  : option (list ContractInfo * Load) :=
  let '(contracts, s) := acc in
  let '(prefix, count) := c in
  if count =? 2 then '(new, s) ← from_prefix (prefix ++ lit "*") info s; Some (contracts ++ new, s)
  else Some (contracts, s).

(** [from_glob]; the counts are visited in the order of the hash map, [order]. *)
Definition from_glob (order : list (str * Z) → list (str * Z)) (p : str) (s : Load) : option (list ContractInfo * Load) :=
  paths ← glob p;
  let '(prefix_file_count, combined) := fold_left scan_file paths (∅, None) in
  parsed_contract_info ← match combined with
                         | None => Some None
                         | Some file_name => buf ← read_file file_name; m ← parse_combined_json buf; Some (Some m)
                         end;
  foldM (load_prefix parsed_contract_info) ([], s) (order (map_to_list prefix_file_count)).
End load.
