(* ===== verification/LoaderProps.v ===== *)
(** * What is loaded

    The types that Solidity's JSON describes are read as their canonical names, from which
    the arguments are built and the selectors hashed. *)
From S2P Require Import Prelude Types State SrcMap Expr Abi AbiLayout AbiParse I256 Tracer ReplayProps Loader.
#[local] Open Scope Z_scope.

(** ** Solidity's descriptions of types *)

(** The field [type]: structs are called [tuple]. *)
Fixpoint json_type (t : sol_type) : str :=
  match t with
  | TyTuple _ => lit "tuple"
  | TySlice t => json_type t ++ lit "[]"
  | TyFixed t n => json_type t ++ "["%char :: show_nat n ++ ["]"%char]
  | t => type_name t
  end.

(** The members of the struct that arrays are of, if there is one *)
Fixpoint struct_of (t : sol_type) : option (list sol_type) :=
  match t with
  | TyTuple l => Some l
  | TySlice t | TyFixed t _ => struct_of t
  | _ => None
  end.

(** Structs have a field [components], other types have none. *)
Inductive described : sol_type → Value → Prop :=
| described_plain t v : struct_of t = None → value_get v (lit "components") = None → described t v
| described_struct t l v vs :
    struct_of t = Some l → value_get v (lit "components") = Some (VArray vs) → Forall2 described_input l vs → described t v
with described_input : sol_type → Value → Prop :=
| described_as t v : value_index v (lit "type") = VString (json_type t) → described t v → described_input t v.

(** No arrays of a fixed length of structs *)
Fixpoint loadable (t : sol_type) : bool :=
  match t with
  | TyTuple l => forallb loadable l
  | TySlice t => loadable t
  | TyFixed t _ => match struct_of t with Some _ => false | None => true end
  | _ => true
  end.

Lemma described_slice t v : described (TySlice t) v ↔ described t v.
Proof. split; inversion 1; subst; by econstructor. Qed.

Lemma plain_name t : struct_of t = None → json_type t = type_name t.
Proof.
  induction t as [t Ht Hs Hf|l _|t IH|t n IH] using sol_type_nested_ind; cbn [struct_of json_type type_name]; try done.
  - destruct t; try done; exfalso; naive_solver.
  - intros E. by rewrite IH.
  - intros E. by rewrite IH.
Qed.

Lemma plain_loadable t : struct_of t = None → loadable t = true.
Proof.
  induction t as [t Ht Hs Hf|l _|t IH|t n IH] using sol_type_nested_ind; cbn [struct_of loadable]; try done.
  - destruct t; try done; exfalso; naive_solver.
  - intros ->. done.
Qed.

Lemma process_plain t v : struct_of t = None → described t v → process_input v (json_type t) = Some (type_name t).
Proof.
  intros Hs. inversion 1 as [? ? _ Hv|? ? ? ? Hl]; subst; [|congruence]. rewrite process_input_slot, Hv. by rewrite plain_name.
Qed.

Lemma take_suffix (s : str) : take (length (s ++ lit "[]") - 2) (s ++ lit "[]") = s.
Proof. rewrite length_app. cbn [length lit]. rewrite Nat.add_sub. apply take_app_length. Qed.

Lemma mapM_opt_cons {A B} (f : A → option B) x l : mapM_opt f (x :: l) = (y ← f x; ys ← mapM_opt f l; Some (y :: ys)).
Proof. done. Qed.

Lemma mapM_opt_all {T A B} (f : A → option B) (ok : T → bool) (g : T → B) ts vs :
  Forall2 (λ t v, f v = if ok t then Some (g t) else None) ts vs → mapM_opt f vs = if forallb ok ts then Some (map g ts) else None.
Proof.
  induction 1 as [|t v ts vs Hx _ IH]; [done|]. rewrite mapM_opt_cons, Hx. cbn [forallb map]. destruct (ok t); [|done].
  rewrite obind_Some, IH. by destruct (forallb ok ts).
Qed.

Lemma not_tuple (s t : str) : ends_with (s ++ t) (lit "[]") = true ∨ last (s ++ t) = Some "]"%char → s ++ t ≠ lit "tuple".
Proof. intros [E|E] Hn; rewrite Hn in E; vm_compute in E; discriminate E. Qed.

(** [process_input] gives the canonical name, or panics. *)
Lemma process_described t : ∀ v, described t v → process_input v (json_type t) = if loadable t then Some (type_name t) else None.
Proof.
  induction t as [t Ht Hs Hf|l IH|t IH|t n IH] using sol_type_nested_ind; intros v Hd.
  - assert (struct_of t = None) as Hn by (destruct t; try done; exfalso; naive_solver).
    by rewrite process_plain, plain_loadable.
  - inversion Hd as [|? ? ? vs Hl Hv HF]; subst; [done|]. injection Hl as <-. cbn [json_type type_name loadable].
    rewrite process_input_unfold, Hv, decide_True by done. cbn [as_array].
    rewrite obind_Some, (mapM_opt_all input_type loadable type_name l vs); [by destruct (forallb loadable l)|].
    clear Hv Hd. induction HF as [|u w l vs Hw _ IHF]; [done|]. apply Forall_cons in IH as [IHu IH]. constructor; [|by apply IHF].
    inversion Hw as [? ? Hty Hdw]; subst. unfold input_type. rewrite Hty. cbn [as_str]. rewrite obind_Some. by apply IHu.
  - cbn [loadable json_type type_name]. apply (proj1 (described_slice t v)) in Hd. pose proof (IH v Hd) as E. rewrite process_input_unfold.
    inversion Hd as [? ? Hn Hv|? l ? vs Hl Hv HF]; subst; rewrite Hv.
    + rewrite plain_name, plain_loadable by done. done.
    + rewrite decide_False by (apply not_tuple; left; apply ends_with_app). rewrite ends_with_app, take_suffix, E. by destruct (loadable t).
  - destruct (struct_of t) as [l|] eqn:Hs; [|by rewrite process_plain, plain_loadable].
    cbn [json_type loadable]. rewrite Hs. inversion Hd as [? ? Hn|? l' ? vs Hl Hv HF]; subst; [simpl in Hn; congruence|].
    rewrite process_input_unfold, Hv.
    replace (json_type t ++ "["%char :: show_nat n ++ ["]"%char]) with ((json_type t ++ "["%char :: show_nat n) ++ ["]"%char])
      by (by rewrite <- app_assoc).
    rewrite decide_False by (apply not_tuple; right; apply last_snoc).
    destruct (last_show ["["%char] n) as (c & Hc & Hdig). cbn [app] in Hc. apply last_Some in Hc as [pre Hc].
    rewrite Hc, app_assoc, <- app_assoc. cbn [app]. rewrite ends_with_snoc2, bool_decide_eq_false_2; [done|].
    intros [-> _]. by apply (is_digit_not _ "["%char Hdig).
Qed.

Lemma input_type_described t v : described_input t v → input_type v = if loadable t then Some (type_name t) else None.
Proof. intros Hi. inversion Hi as [? ? Hty Hd]; subst. unfold input_type. rewrite Hty. cbn [as_str]. rewrite obind_Some. by apply process_described. Qed.

Section load.
Context `{Formats} `{Outside}.

(** The entry of a function or of the constructor in the JSON of a contract *)
Record function_entry (constructor : bool) (name mutability : str) (ts : list sol_type) (v : Value) : Prop := mkFunctionEntry {
  fe_type : value_index v (lit "type") = VString (if constructor then lit "constructor" else lit "function");
  fe_name : if constructor then name = lit "constructor" else value_index v (lit "name") = VString name;
  fe_inputs : ∃ vs, value_index v (lit "inputs") = VArray vs ∧ Forall2 described_input ts vs;
  fe_mutability : value_index v (lit "stateMutability") = VString mutability
}.

(** The signature that is hashed *)
Definition signature (name : str) (ts : list sol_type) : str := name ++ type_name (TyTuple ts).

Lemma parse_entry_function constructor name mutability ts v :
  function_entry constructor name mutability ts v →
  parse_entry v = if forallb loadable ts then
    Some (Some (mkABIConfig (type_name (TyTuple ts)) (set_hash (signature name ts)) name
      (bool_decide (mutability = lit "view")) (bool_decide (mutability = lit "payable")) constructor))
  else None.
Proof.
  intros [Ht Hn (vs & Hi & HF) Hm]. unfold parse_entry. rewrite Ht, Hi, Hm. cbn [as_str as_array].
  assert (mapM_opt input_type vs = if forallb loadable ts then Some (map type_name ts) else None) as Hv.
  { apply mapM_opt_all. eapply Forall2_impl; [exact HF|]. apply input_type_described. }
  destruct constructor; cbn [is_text].
  - rewrite !bool_decide_decide. cbn. rewrite Hn, Hv. by destruct (forallb loadable ts).
  - rewrite !bool_decide_decide. cbn. rewrite Hn, Hv. by destruct (forallb loadable ts).
Qed.

(** ** A whole file *)

(** A function or constructor, as Solidity describes it *)
Record sol_function := mkSolFunction {
  sf_constructor : bool;
  sf_name : str;
  sf_mutability : str;
  sf_types : list sol_type
}.

(** Other entries are events, errors and the like. *)
Definition entry_of (f : option sol_function) (v : Value) : Prop :=
  match f with
  | Some f => function_entry (sf_constructor f) (sf_name f) (sf_mutability f) (sf_types f) v
  | None => is_text (value_index v (lit "type")) "function" = false ∧ is_text (value_index v (lit "type")) "constructor" = false
  end.

Definition config_of (f : sol_function) : ABIConfig :=
  mkABIConfig (type_name (TyTuple (sf_types f))) (set_hash (signature (sf_name f) (sf_types f))) (sf_name f)
    (bool_decide (sf_mutability f = lit "view")) (bool_decide (sf_mutability f = lit "payable")) (sf_constructor f).

Lemma somes_map {A B} (g : A → B) (l : list (option A)) : somes (map (option_map g) l) = map g (somes l).
Proof. unfold somes. induction l as [|[x|] l IH]; [done|..]; cbn; by rewrite IH. Qed.

(** C29. The functions of a contract are loaded as Solidity describes them.  An ABI file
    whose JSON lists functions, constructors and other entries is read as exactly these
    functions, in order: each with the canonical names of its arguments, however structs
    and arrays are nested, the selector hashed from its signature, and the flags of its
    mutability; from the names the default arguments are built.  An array of fixed length
    of structs anywhere in the file makes the whole file panic instead. *)
Theorem abi_file_loads_exactly data vs (fs : list (option sol_function)) :
  json_from_str data = Some (VArray vs) → Forall2 entry_of fs vs →
  parse_abi_str data =
    (if forallb (λ f, forallb loadable (sf_types f)) (somes fs) then Some (map config_of (somes fs)) else None) ∧
  ∀ f, f ∈ somes fs → forallb type_ok (sf_types f) = true →
    get_abi_type_boxed (ac_abi (config_of f)) = Some (mkBoxedABI (default_value None (TyTuple (sf_types f))) sel_zero).
Proof.
  intros Hj HF. split.
  - unfold parse_abi_str. rewrite Hj, obind_Some. cbn [as_array]. rewrite obind_Some.
    rewrite (mapM_opt_all parse_entry (λ f, match f with Some f => forallb loadable (sf_types f) | None => true end) (option_map config_of) fs vs).
    + assert (forallb (λ f, match f with Some f => forallb loadable (sf_types f) | None => true end) fs =
        forallb (λ f, forallb loadable (sf_types f)) (somes fs)) as ->.
      { clear. unfold somes. induction fs as [|[f|] fs IH]; [done|..]; cbn; by rewrite IH. }
      destruct (forallb _ _); [|done]. by rewrite obind_Some, somes_map.
    + eapply Forall2_impl; [exact HF|]. intros [f|] v Hv; [by apply parse_entry_function|].
      destruct Hv as [Hf Hc]. unfold parse_entry. by rewrite Hf, Hc.
  - intros f _ Hok. unfold get_abi_type_boxed. cbn [config_of ac_abi]. by rewrite parse_type_name, obind_Some.
Qed.

(** ** A folder with a combined file *)

Lemma foldM_None {A S} (f : S → A → option S) l x : x ∈ l → (∀ s, f s x = None) → ∀ s, foldM f s l = None.
Proof.
  intros Hx Hf. induction Hx as [x l|x y l _ IH]; intros s; cbn [foldM]; [by rewrite Hf|].
  destruct (f s y) as [s'|]; [|done]. rewrite obind_Some. by apply IH.
Qed.

(** A folder with a [combined.json] cannot be loaded.  [from_prefix] looks the source
    map up under the pattern of the files, which ends in a star, while the maps are stored
    under the names of the contracts; so whenever there is a contract to load and no name
    ends in a star, loading panics, in whatever order the contracts are visited. *)
Theorem combined_json_panics {R} `{Rand R} order p (s : @Load R) paths counts file buf info prefix :
  glob p = Some paths → fold_left scan_file paths (∅, None) = (counts, Some file) →
  read_file file = Some buf → parse_combined_json buf = Some info →
  (∀ name, is_Some (info !! name) → ends_with name (lit "*") = false) →
  counts !! prefix = Some 2 → (∀ l, Permutation (order l) l) →
  from_glob order p s = None.
Proof.
  intros Hg Hs Hr Hp Hstar Hc Ho. unfold from_glob. rewrite Hg, obind_Some, Hs, Hr, obind_Some, Hp, obind_Some. rewrite obind_Some.
  apply (foldM_None _ _ (prefix, 2)).
  - rewrite Ho. by apply elem_of_map_to_list.
  - intros [contracts s']. unfold load_prefix, from_prefix. destruct (generate_random_address _) as [a st].
    specialize (Hstar (prefix ++ lit "*")). rewrite ends_with_app in Hstar. change (2 =? 2) with true. cbv iota.
    match goal with |- ((?t ≫= _) ≫= _) ≫= _ = _ => destruct t as [m|]; [|done] end.
    discriminate (Hstar (mk_is_Some _ _ eq_refl)).
Qed.
End load.

(** ** A contract *)

(** [f(uint256,(address,bool)[])], payable, and an event *)
Definition example_function : sol_function :=
  mkSolFunction false (lit "f") (lit "payable") [TyUint 32; TySlice (TyTuple [TyAddress; TyBool])].
Definition plain_input (ty : string) : Value := VObject [(lit "name", VString []); (lit "type", VString (lit ty))].
Definition example_json (struct : string) : list Value :=
  [VObject [(lit "inputs", VArray [plain_input "uint256";
      VObject [(lit "components", VArray [plain_input "address"; plain_input "bool"]); (lit "type", VString (lit struct))]]);
    (lit "name", VString (lit "f")); (lit "stateMutability", VString (lit "payable")); (lit "type", VString (lit "function"))];
   VObject [(lit "name", VString (lit "Log")); (lit "type", VString (lit "event"))]].

(** A folder with the two files of a contract and a combined file *)
Definition example_combined : Value :=
  VObject [(lit "contracts", VObject [(lit "a.sol:a", VObject [(lit "bin-runtime", VString []); (lit "srcmap-runtime", VString [])])]);
           (lit "sourceList", VArray [])].
#[local] Instance example_outside : Outside := {|
  json_from_str s := Some (if decide (s = lit "abi") then VArray (example_json "tuple[]") else example_combined);
  glob _ := Some [Some (lit "d/a.abi"); Some (lit "d/a.bin"); Some (lit "d/combined.json")];
  read_file p := Some (if decide (p = lit "d/a.abi") then lit "abi" else if decide (p = lit "d/a.bin") then lit "00" else lit "map");
  random_using v := v;
  keccak256 l := Z.of_nat (length l)
|}.

Lemma abi_file_loads_exactly_witness :
  parse_abi_str (lit "abi") = Some [config_of example_function] ∧
  ac_abi (config_of example_function) = lit "(uint256,(address,bool)[])" ∧
  get_abi_type_boxed (lit "(uint256,(address,bool)[])") =
    Some (mkBoxedABI (default_value None (TyTuple (sf_types example_function))) sel_zero).
Proof.
  destruct (abi_file_loads_exactly (lit "abi") (example_json "tuple[]") [Some example_function; None]) as [Hp Hd].
  - reflexivity.
  - constructor; [|constructor; [by split|constructor]]. split; try reflexivity. eexists. split; [reflexivity|].
    constructor; [|constructor; [|constructor]].
    + constructor; [reflexivity|]. by apply described_plain.
    + constructor; [reflexivity|]. eapply described_struct; [reflexivity..|].
      constructor; [|constructor; [|constructor]]; (constructor; [reflexivity|by apply described_plain]).
  - split; [exact Hp|]. split; [reflexivity|]. exact (Hd example_function ltac:(by left) eq_refl).
Defined.

Lemma combined_json_panics_witness :
  from_glob id (lit "d/*") (mkLoad (FuzzState_new 3) ∅) = None.
Proof.
  refine (combined_json_panics id (lit "d/*") (mkLoad (FuzzState_new 3) ∅) _ _ (lit "d/combined.json") (lit "map")
    {[(lit "a" : str) := ∅]} (lit "d/a") eq_refl eq_refl eq_refl _ _ _ _).
  - vm_compute. reflexivity.
  - intros name [m [<- _]%lookup_singleton_Some]. reflexivity.
  - vm_compute. reflexivity.
  - done.
Defined.
