(* ===== verification/CorpusInit.v ===== *)
(** * Initialising the corpus ([src/src/evm/corpus_initializer.rs])

    Callers are set up, every loaded contract is deployed or installed, and for every
    function of it that may change state an input with default arguments is stored, beside
    a plain transfer.  The state of the chain after all deployments is the first VM state. *)
From S2P Require Import Prelude Types State SrcMap F64 Expr Abi AbiLayout AbiParse Corpus Scheduler I256 Tracer Evm Host HostCall Bytecode Vm InputMutate Replay FuzzerLoop Loader.
#[local] Open Scope Z_scope.

(** The parts of [EVMFuzzState] that the initialiser touches *)
Record EVMFuzzState (R C : Type) := mkEVMFuzzState {
  ef_fuzz : FuzzState R;
  ef_hash_to_address : gmap (list byte) (gset Z);
  ef_corpus : C;
  ef_infant : InfantStateState StagedVMState R
}.
Arguments mkEVMFuzzState {R C}.
Arguments ef_fuzz {R C}.
Arguments ef_hash_to_address {R C}.
Arguments ef_corpus {R C}.
Arguments ef_infant {R C}.

(** [Env::default()] *)
Definition Env_default : Env := mkEnv 0 1 0 (2 ^ 256 - 1) 0 1.

Section init.
Context {R C : Type} `{Rand R} `{HashOrder} `{TxnCorpus C} `{Formats} `{Outside}.
Abbreviation S := (EVMFuzzState R C).
Context (cfg : Config Env S).
Context (run : Interpreter → VMHost Env → S → option (InstructionResult * Interpreter * VMHost Env * S)).
(** [executor.deployer], [S::default()], the scheduler of inputs, [BLACKLIST_ADDR], and the
    order of a hash set *)
Context (deployer : EVMAddress) (dummy : S) (scheduler_on_add : Z → S → option S) (blacklist : option (gset Z))
  (set_order : list EVMAddress → list EVMAddress).

Definition on_fuzz (f : FuzzState R → FuzzState R) (s : S) : S :=
  mkEVMFuzzState (f (ef_fuzz s)) (ef_hash_to_address s) (ef_corpus s) (ef_infant s).
Definition set_constants (c : option (list (list byte))) (st : FuzzState R) : FuzzState R :=
  mkFuzzState (rand_generator st) (callers_pool st) (addresses_pool st) (max_size st) c.

(** What the initialiser works on: the state, the host and the global names of functions *)
Record Init := mkInit { i_state : S; i_host : VMHost Env; i_sigs : gmap (list byte) str }.
Definition on_state (f : S → S) (x : Init) : Init := mkInit (f (i_state x)) (i_host x) (i_sigs x).

(** [bytecode_analyzer::add_analysis_result_to_state] on the state *)
Definition analyse (c : list byte) (s : S) : S :=
  on_fuzz (λ f, set_constants (add_analysis_result_to_state c (constants f)) f) s.

(** [add_input_to_corpus!] *)
Definition add_input_to_corpus (input : EVMInput) (s : S) : option S :=
  match tc_add (ef_corpus s) input with
  | Done (idx, c) => scheduler_on_add idx (mkEVMFuzzState (ef_fuzz s) (ef_hash_to_address s) c (ef_infant s))
  | _ => None
  end.

(** [self.state.get_rand_caller()] *)
Definition rand_caller (s : S) : option (EVMAddress * S) :=
  '(a, f) ← get_rand_caller (ef_fuzz s); Some (a, on_fuzz (λ _, f) s).

(** The input of a function, and the plain transfer *)
Definition initial_input (caller contract : EVMAddress) (data : option BoxedABI) (value : option EVMU256) : EVMInput :=
  mkEVMInput caller contract data new_uninitialized 0 value false Env_default AccessPattern_new [] 1 false.

(** The update of [hash_to_address] *)
Definition note_hash (function : sel4) (address : EVMAddress) (s : S) : S :=
  mkEVMFuzzState (ef_fuzz s) (add_address_of_hash (ef_hash_to_address s) (sel_bytes function) address) (ef_corpus s) (ef_infant s).

(** [add_abi] *)
Definition add_abi (deployed_address : EVMAddress) (x : Init) (abi : ABIConfig) : option Init :=
  if ac_is_constructor abi then Some x
  else
    let x := on_state (note_hash (ac_function abi) deployed_address) x in
    if ac_is_static abi then Some x
    else
      abi_instance ← get_abi_type_boxed (ac_abi abi);
      let '(abi_instance, sigs) := set_func_with_name abi_instance (ac_function abi) (ac_function_name abi) (i_sigs x) in
      '(caller, s) ← rand_caller (i_state x);
      s ← add_input_to_corpus (initial_input caller deployed_address (Some abi_instance)
            (if ac_is_payable abi then Some 0 else None)) s;
      Some (mkInit s (i_host x) sigs).

(** The code of a contract: deployed, or installed; [None] inside when the deployment failed *)
Definition install (contract : ContractInfo) (x : Init) : option (option EVMAddress * Init) :=
  if negb (ci_is_code_deployed contract) then
    '(a, h, s) ← deploy cfg run deployer dummy analyse (ci_code contract) (Some (ci_constructor_args contract))
      (ci_deployed_address contract) (i_host x) (i_state x);
    Some (a, mkInit s h (i_sigs x))
  else
    let s := analyse (ci_code contract) (i_state x) in
    '(h, s) ← set_code cfg (ci_deployed_address contract) (ci_code contract) (i_host x) s;
    Some (Some (ci_deployed_address contract), mkInit s h (i_sigs x)).

Definition blacklisted (a : EVMAddress) : bool := match blacklist with Some l => bool_decide (a ∈ l) | None => false end.

(** The body of the loop of [initialize_corpus] *)
Definition add_contract_inputs (x : Init) (contract : ContractInfo) : option Init :=
  '(a, x) ← install contract x;
  match a with
  | None => Some x
  | Some deployed_address =>
      let x := on_state (on_fuzz (λ f, add_address f deployed_address)) x in
      if blacklisted deployed_address then Some x
      else
        x ← foldM (add_abi deployed_address) x (ci_abi contract);
        '(caller, s) ← rand_caller (i_state x);
        s ← add_input_to_corpus (initial_input caller deployed_address None (Some 1)) s;
        Some (mkInit s (i_host x) (i_sigs x))
  end.

(** [initialize_corpus] *)
Definition initialize_corpus (contracts : list ContractInfo) (x : Init) : option Init :=
  x ← foldM add_contract_inputs x contracts;
  let s := i_state x in
  '(_, infant) ← add_infant_state (ef_infant s) (new_with_state (evmstate (core (i_host x))));
  Some (mkInit (mkEVMFuzzState (ef_fuzz s) (ef_hash_to_address s) (ef_corpus s) infant) (i_host x) (i_sigs x)).

(** [setup_default_callers] and [setup_contract_callers] *)
Definition setup_default_callers (x : Init) : option Init :=
  callers ← mapM_opt fixed_address [lit "8EF508Aca04B32Ff3ba5003177cb18BfA6Cd79dd"; lit "35c9dfd76bf02107ff4f7128Bd69716612d31dDb"];
  Some (on_state (on_fuzz (λ f, fold_left add_caller (set_order callers) f)) x).
Definition setup_contract_caller (x : Init) (caller : EVMAddress) : option Init :=
  let x := on_state (on_fuzz (λ f, add_caller f caller)) x in
  '(h, s) ← set_code cfg caller [xfd; x00] (i_host x) (i_state x);
  Some (mkInit s h (i_sigs x)).
Definition setup_contract_callers (x : Init) : option Init :=
  callers ← mapM_opt fixed_address [lit "e1A425f1AC34A8a441566f93c82dD730639c8510"; lit "68Dd4F5AC792eAaa5e36f4f4e0474E0625dc9024"];
  foldM setup_contract_caller x (set_order callers).

(** [initialize] *)
Definition initialize (contracts : list ContractInfo) (x : Init) : option Init :=
  x ← setup_default_callers x;
  x ← setup_contract_callers x;
  initialize_corpus contracts x.
End init.
