(* ===== verification/CorpusInitProps.v ===== *)
(** * The initial corpus

    Every contract contributes exactly the inputs of its state-changing functions and a
    transfer, and the initialised state is one that the loop of the fuzzer can start from. *)
From S2P Require Import Prelude Types State MutationUtils SrcMap F64 Expr Abi AbiLayout AbiParse Corpus Scheduler SchedulerInv I256 Tracer Evm Host HostCall HostCallProps Bytecode Vm InputMutate InputMutateProps Replay ReplayProps FuzzerLoop FuzzerProps Loader CorpusInit GpuStage GpuStageProps.
#[local] Open Scope Z_scope.

(** The stored inputs, in order *)
Abbreviation stored s := (tc_list (ef_corpus s)).

(** What an execution may do to them: the VM states stay, and inputs that wait for one may
    be added. *)
Definition grows {R C} `{VecCorpus C} (s s' : EVMFuzzState R C) : Prop :=
  appended (ef_corpus s) (ef_corpus s') ∧ ef_infant s' = ef_infant s.
#[export] Instance grows_preorder {R C} `{VecCorpus C} : PreOrder (@grows R C _ _).
Proof. split; [done|]. intros a b c [Hc Hi] [Hc' Hi']. split; [by etransitivity|congruence]. Qed.

Section init.
Context {R C : Type} `{Libafl R} `{!RandLaws R} `{!LibaflLaws R} `{HashOrder} `{VecCorpus C} `{Formats} `{Outside}.
Abbreviation S := (EVMFuzzState R C).
Context (cfg : Config Env S).
Context (run : Interpreter → VMHost Env → S → option (InstructionResult * Interpreter * VMHost Env * S)).
Context (deployer : EVMAddress) (dummy : S) (scheduler_on_add : Z → S → option S) (blacklist : option (gset Z))
  (set_order : list EVMAddress → list EVMAddress).
Implicit Types s : S.

(** ** What is relied on *)

(** The callers and the VM states stay. *)
Record steady s s' : Prop := mkSteady {
  sd_callers : callers_pool (ef_fuzz s') = callers_pool (ef_fuzz s);
  sd_infant : ef_infant s' = ef_infant s
}.
#[export] Instance steady_preorder : PreOrder steady.
Proof. split; [done|]. intros a b c [] []. split; congruence. Qed.

(** The scheduler of inputs only keeps its own notes, and no middleware changes the state
    when code is inserted. *)
Class SchedOk : Prop := {
  io_on_add idx s s' : scheduler_on_add idx s = Some s' →
    steady s s' ∧ stored s' = stored s ∧ ef_hash_to_address s' = ef_hash_to_address s
}.
Class InitOk : Prop := {
  io_insert m c a h s c' h' s' :
    (flashloan_middleware cfg = Some m ∨ ∃ ty, m = middleware_of cfg ty) → mw_on_insert m c a h s = Some (c', h', s') → s' = s
}.
Context `{!SchedOk} `{!InitOk}.

Abbreviation add := (add_input_to_corpus scheduler_on_add).

Lemma add_input_stored y s s' : add y s = Some s' →
  stored s' = stored s ++ [y] ∧ steady s s' ∧ ef_hash_to_address s' = ef_hash_to_address s.
Proof.
  unfold add_input_to_corpus. destruct (tc_add_end (ef_corpus s) y) as (c & -> & Hc). intros (Hst & Hl & Hh)%io_on_add.
  cbn [ef_corpus ef_fuzz ef_infant ef_hash_to_address] in *. rewrite Hl. split; [done|]. split; [|done]. destruct Hst. by split.
Qed.

(** ** Code *)

Lemma set_code_state a c h s h' s' : set_code cfg a c h s = Some (h', s') → s' = s.
Proof.
  unfold set_code. intros ([[c1 h1] s1] & E & E2)%bind_Some.
  assert (s1 = s) as ->. 2: { destruct (code h1 !! a); [done|]. by injection E2 as _ <-. }
  clear E2. destruct (middlewares_enabled h); [|by injection E as _ _ ->].
  apply bind_Some in E as ([[c0 h0] s0] & E0 & E).
  assert (s0 = s) as ->. { destruct (flashloan_middleware cfg) eqn:Em; [|by injection E0 as _ _ ->]. eapply io_insert; [by left|exact E0]. }
  clear E0. set (l := middlewares _) in E. clearbody l. revert c0 h0 E. induction l as [|ty l IH]; intros c0 h0; cbn [foldM]; [by intros [= _ _ ->]|].
  intros ([[c2 h2] s2] & E1 & E)%bind_Some. assert (s2 = s) as -> by (eapply io_insert; [right; by exists ty|exact E1]). by eapply IH.
Qed.

Lemma analyse_same c s : steady s (analyse c s) ∧ ef_corpus (analyse c s) = ef_corpus s ∧
  ef_hash_to_address (analyse c s) = ef_hash_to_address s.
Proof. done. Qed.

Lemma install_same contract x a x' : install cfg run deployer dummy contract x = Some (a, x') →
  steady (i_state x) (i_state x') ∧ ef_corpus (i_state x') = ef_corpus (i_state x) ∧
  ef_hash_to_address (i_state x') = ef_hash_to_address (i_state x) ∧
  (a = Some (ci_deployed_address contract) ∨ a = None).
Proof.
  unfold install. destruct (negb _).
  - intros ([[a1 h1] s1] & E & [= <- <-])%bind_Some. cbn [i_state]. unfold deploy in E.
    apply bind_Some in E as ([[[r i] h2] d] & _ & E). destruct (decide _); [|by injection E as <- _ <-; split_and!; auto].
    apply bind_Some in E as (v & _ & E). apply bind_Some in E as ([h3 s3] & E3%set_code_state & [= <- _ <-]). subst s3. split_and!; auto. done.
  - intros ([h1 s1] & E%set_code_state & [= <- <-])%bind_Some. cbn [i_state]. subst s1. split_and!; auto. done.
Qed.

(** ** The inputs of a contract *)

(** The functions that get an input: neither constructors nor views *)
Definition fuzzed (abi : ABIConfig) : bool := negb (ac_is_constructor abi) && negb (ac_is_static abi).
Definition targets (contract : ContractInfo) (a : option EVMAddress) : list (EVMAddress * option ABIConfig) :=
  match a with
  | Some a => if blacklisted blacklist a then [] else map (λ abi, (a, Some abi)) (filter (λ abi, fuzzed abi) (ci_abi contract)) ++ [(a, None)]
  | None => []
  end.

(** The input of a target, from some caller *)
Definition target_input (callers : list EVMAddress) (t : EVMAddress * option ABIConfig) (y : EVMInput) : Prop :=
  ∃ caller, caller ∈ callers ∧
  match t.2 with
  | Some abi => ∃ b, get_abi_type (ac_abi abi) None = Some b ∧
      y = initial_input caller t.1 (Some (mkBoxedABI b (ac_function abi))) (if ac_is_payable abi then Some 0 else None)
  | None => y = initial_input caller t.1 None (Some 1)
  end.

Lemma rand_caller_pool s a s' : rand_caller s = Some (a, s') →
  a ∈ callers_pool (ef_fuzz s) ∧ steady s s' ∧ ef_corpus s' = ef_corpus s ∧ ef_hash_to_address s' = ef_hash_to_address s.
Proof.
  unfold rand_caller, get_rand_caller, pool_pick. intros ([a1 f] & E & [= <- <-])%bind_Some.
  pose proof (st_below_same (ef_fuzz s) (Z.of_nat (length (callers_pool (ef_fuzz s))))) as [r Er].
  destruct (st_below _ _) as [i f1]. apply bind_Some in E as (a2 & Ea & [= <- <-]). cbn [snd] in Er. subst f1.
  split; [by eapply list_elem_of_lookup_2|]. done.
Qed.

Lemma add_abi_spec a x abi x' : add_abi scheduler_on_add a x abi = Some x' →
  steady (i_state x) (i_state x') ∧ ∃ new, stored (i_state x') = stored (i_state x) ++ new ∧
    Forall2 (target_input (callers_pool (ef_fuzz (i_state x)))) (if fuzzed abi then [(a, Some abi)] else []) new.
Proof.
  unfold add_abi, fuzzed. intros E. destruct (ac_is_constructor abi).
  { injection E as <-. split; [done|]. exists []. by rewrite app_nil_r. }
  destruct (ac_is_static abi).
  { injection E as <-. split; [done|]. exists []. by rewrite app_nil_r. }
  apply bind_Some in E as (inst & Ei & E). cbv beta iota delta [set_func_with_name] in E.
  apply bind_Some in E as ([caller s1] & (Hin & Hst & Hc & _)%rand_caller_pool & E).
  apply bind_Some in E as (s2 & (Hl & Hst2 & _)%add_input_stored & [= <-]). cbn [i_state] in *. rewrite Hc in Hl.
  split; [etransitivity; [|exact Hst2]; destruct Hst; by split|].
  eexists. split; [exact Hl|]. constructor; [|constructor]. exists caller. split; [exact Hin|]. cbn [snd fst].
  unfold get_abi_type_boxed in Ei. apply bind_Some in Ei as (b & Hb & [= <-]). exists b. split; [done|]. done.
Qed.

Lemma add_abis_spec a abis x x' : foldM (add_abi scheduler_on_add a) x abis = Some x' →
  steady (i_state x) (i_state x') ∧ ∃ new, stored (i_state x') = stored (i_state x) ++ new ∧
    Forall2 (target_input (callers_pool (ef_fuzz (i_state x)))) (map (λ abi, (a, Some abi)) (filter (λ abi, fuzzed abi) abis)) new.
Proof.
  revert x. induction abis as [|abi abis IH]; intros x; cbn [foldM].
  { intros [= <-]. split; [done|]. exists []. by rewrite app_nil_r. }
  intros (x1 & (Hst & new1 & Hl1 & Hn1)%add_abi_spec & (Hst2 & new2 & Hl2 & Hn2)%IH)%bind_Some.
  split; [by etransitivity|]. exists (new1 ++ new2). rewrite Hl2, Hl1, app_assoc. split; [done|].
  rewrite (sd_callers _ _ Hst) in Hn2.
  assert (map (λ abi, (a, Some abi)) (filter (λ abi, fuzzed abi) (abi :: abis)) =
    (if fuzzed abi then [(a, Some abi)] else []) ++ map (λ abi, (a, Some abi)) (filter (λ abi, fuzzed abi) abis)) as ->.
  { rewrite filter_cons. destruct (fuzzed abi); [by rewrite decide_True by done|by rewrite decide_False by (intros [])]. }
  by apply Forall2_app.
Qed.

Abbreviation add_contract := (add_contract_inputs cfg run deployer dummy scheduler_on_add blacklist).
Abbreviation inst := (install cfg run deployer dummy).

Lemma add_contract_spec contract x a x1 x' : inst contract x = Some (a, x1) → add_contract x contract = Some x' →
  steady (i_state x) (i_state x') ∧ ∃ new, stored (i_state x') = stored (i_state x) ++ new ∧
    Forall2 (target_input (callers_pool (ef_fuzz (i_state x)))) (targets contract a) new.
Proof.
  intros Ei E. unfold add_contract_inputs in E. rewrite Ei, obind_Some in E.
  apply install_same in Ei as (Hst & Hc & _ & _). rewrite <- Hc.
  destruct a as [a|]; cbn [targets].
  2: { injection E as <-. split; [done|]. exists []. rewrite app_nil_r. split; [done|constructor]. }
  set (x2 := on_state _ x1) in E. assert (steady (i_state x) (i_state x2)) as Hst2.
  { destruct Hst as [Hcal Hinf]. split; [|exact Hinf]. rewrite <- Hcal. cbn. unfold add_address. by case_decide. }
  change (ef_corpus (i_state x1)) with (ef_corpus (i_state x2)) in *. clearbody x2. clear Hst Hc x1.
  destruct (blacklisted blacklist a).
  { injection E as <-. split; [done|]. exists []. rewrite app_nil_r. split; [done|constructor]. }
  apply bind_Some in E as (x3 & (Hst3 & new & Hl3 & Hn)%add_abis_spec & E).
  apply bind_Some in E as ([caller s4] & (Hin & Hst4 & Hc4 & _)%rand_caller_pool & E). apply bind_Some in E as (s5 & E5 & [= <-]).
  apply add_input_stored in E5 as (Hl5 & Hst5 & _). rewrite Hc4, Hl3 in Hl5. cbn [i_state].
  split; [etransitivity; [exact Hst2|]; etransitivity; [exact Hst3|]; by etransitivity|].
  exists (new ++ [initial_input caller a None (Some 1)]). rewrite app_assoc. split; [done|].
  rewrite (sd_callers _ _ Hst3), (sd_callers _ _ Hst2) in Hin. rewrite (sd_callers _ _ Hst2) in Hn.
  apply Forall2_app; [exact Hn|]. constructor; [|constructor]. exists caller. by split.
Qed.

(** C22. The inputs of a contract are exactly those it should have.  After a contract was
    installed at an address, the corpus holds what it held before and, behind it and in
    this order, for every function that is neither the constructor nor a view exactly one
    input with the default arguments and the selector of the function, with a value of 0
    if it is payable and none otherwise, and one plain transfer of 1; all of them from a
    known caller, to the address, without a VM state.  A contract whose deployment failed,
    or that is on the blacklist, contributes nothing. *)
Theorem contract_inputs_exact contract x a x1 x' :
  inst contract x = Some (a, x1) → add_contract x contract = Some x' →
  ∃ new, stored (i_state x') = stored (i_state x) ++ new ∧
    Forall2 (target_input (callers_pool (ef_fuzz (i_state x)))) (targets contract a) new ∧
    (a = Some (ci_deployed_address contract) ∨ a = None).
Proof.
  intros Ei E. destruct (add_contract_spec contract x a x1 x' Ei E) as (_ & new & Hl' & Hn).
  exists new. split; [done|]. split; [done|]. by apply install_same in Ei as (_ & _ & _ & ?).
Qed.

(** ** The start of a campaign *)

Lemma target_input_waiting callers t y : target_input callers t y → waiting y.
Proof. intros (caller & _ & Hy). destruct t as [a [abi|]]; cbn [snd] in Hy; [destruct Hy as (b & _ & ->)|subst y]; by split. Qed.
Lemma target_inputs_waiting callers l new : Forall2 (target_input callers) l new → Forall waiting new.
Proof. induction 1 as [|t y l new Ht _ IH]; constructor; [by eapply target_input_waiting|done]. Qed.

Lemma add_contracts_waiting contracts x x' : foldM add_contract x contracts = Some x' →
  ef_infant (i_state x') = ef_infant (i_state x) ∧ appended (ef_corpus (i_state x)) (ef_corpus (i_state x')).
Proof.
  revert x. induction contracts as [|c contracts IH]; intros x; cbn [foldM]; [by intros [= <-]|].
  intros (x1 & E1 & (Hinf & Hw)%IH)%bind_Some.
  destruct (inst c x) as [[a y]|] eqn:Ei; [|by unfold add_contract_inputs in E1; rewrite Ei in E1].
  destruct (add_contract_spec c x a y x1 Ei E1) as (Hst & new & Hl1 & Hn%target_inputs_waiting).
  split; [by rewrite Hinf, (sd_infant _ _ Hst)|]. etransitivity; [|exact Hw]. by exists new.
Qed.

(** Setting up callers *)
Lemma setup_callers_same x x1 x2 : setup_default_callers set_order x = Some x1 → setup_contract_callers cfg set_order x1 = Some x2 →
  ef_corpus (i_state x2) = ef_corpus (i_state x) ∧ ef_infant (i_state x2) = ef_infant (i_state x).
Proof.
  unfold setup_default_callers, setup_contract_callers. intros (l1 & _ & [= <-])%bind_Some (l2 & _ & E)%bind_Some.
  set (y := on_state _ x) in E. change (ef_corpus (i_state x)) with (ef_corpus (i_state y)).
  change (ef_infant (i_state x)) with (ef_infant (i_state y)). clearbody y. clear x. set (l := set_order l2) in E. clearbody l.
  revert y E. induction l as [|a l IH]; intros y; cbn [foldM]; [by intros [= <-]|]. intros (y1 & E1 & E)%bind_Some.
  apply IH in E as [-> ->]. unfold setup_contract_caller in E1. apply bind_Some in E1 as ([h s] & ->%set_code_state & [= <-]). done.
Qed.

(** An initialised campaign can start.  When [initialize] returns on an empty state, the
    one stored VM state is that of the host after all deployments, no stored input has a
    VM state of its own yet or resumes anything, and the invariant of the stages holds with
    an empty minimizer. *)
Lemma initialized_campaign_starts {D G Y} `{TxnCorpus D} contracts x x' (solutions : D) result n (g : G) (y : Y) :
  initialize cfg run deployer dummy scheduler_on_add blacklist set_order contracts x = Some x' →
  stored (i_state x) = [] → infant_state (ef_infant (i_state x)) = corpus_new →
  entries (infant_state (ef_infant (i_state x'))) = {[0 := new_with_state (evmstate (core (i_host x')))]} ∧
  current_idx (infant_state (ef_infant (i_state x'))) = 1 ∧
  stage_inv ∅ (mkFz (ef_corpus (i_state x')) solutions (ef_infant (i_state x')) result n (ef_fuzz (i_state x'), g, y)).
Proof.
  intros E Hempty Hinf. unfold initialize in E. apply bind_Some in E as (x1 & E1 & E). apply bind_Some in E as (x2 & E2 & E).
  destruct (setup_callers_same x x1 x2 E1 E2) as [Hc2 Hi2]. unfold initialize_corpus in E. apply bind_Some in E as (x3 & E3 & E).
  destruct (add_contracts_waiting contracts x2 x3 E3) as (Hi3 & l & Hl & Hwait). rewrite Hc2, Hempty in Hl. cbn [app] in Hl. subst l.
  apply bind_Some in E as ([idx infant] & E4 & [= <-]). cbn [i_state ef_corpus ef_infant ef_fuzz i_host].
  rewrite Hi3, Hi2 in E4. unfold add_infant_state in E4. rewrite Hinf in E4.
  rewrite (corpus_add_spec corpus_new) in E4 by (apply corpus_new_ok || done).
  apply bind_Some in E4 as (st & E4%on_add_corpus_same & [= _ <-]). cbn [infant_state corpus_new entries current_idx] in E4.
  rewrite E4. cbn [entries]. split; [done|]. split; [done|].
  assert (∀ i w, entries (infant_state st) !! i = Some w → w = new_with_state (evmstate (core (i_host x3)))) as Hs.
  { intros i w. rewrite E4. cbn [entries]. intros [[_ <-]|[_ Hx]]%lookup_insert_Some; [done|]. by rewrite lookup_empty in Hx. }
  split; [split|..]; cbn [fs_corpus fs_infant].
  - by intros h idx' f Hm.
  - rewrite E4. pose proof (corpus_add_ok corpus_new (new_with_state (evmstate (core (i_host x3)))) corpus_new_ok ltac:(done)) as Ha.
    by rewrite corpus_add_spec in Ha by (apply corpus_new_ok || done).
  - intros i s j ->%Hs. done.
  - intros z Hz. rewrite Forall_forall in Hwait. by apply waiting_input_ok, Hwait.
  - by intros i s ->%Hs.
Qed.
End init.

(** ** One contract *)

Abbreviation toy_fuzz_state := (EVMFuzzState Z (list EVMInput)).
Definition quiet_config : Config Env toy_fuzz_state :=
  mkConfig _ _ (λ c, c) (λ _, 0) (λ s, (7, s)) None
    (λ _, mkMiddleware _ _ (λ i h s, Some (i, h, s)) (λ c _ h s, Some (c, h, s))) (2 ^ 32 - 1) false.
Definition no_run (i : Interpreter) (h : VMHost Env) (s : toy_fuzz_state)
  : option (InstructionResult * Interpreter * VMHost Env * toy_fuzz_state) := None.
#[local] Instance quiet_sched_ok : SchedOk (λ _ (s : toy_fuzz_state), Some s).
Proof. split. by intros idx s s' [= <-]. Qed.
#[local] Instance quiet_init_ok : InitOk quiet_config.
Proof.
  split. intros m c a h s c' h' s' [Hm|[ty ->]]; [done|]. by intros [= _ _ <-].
Qed.

(** A view and a payable function *)
Definition toy_contract : ContractInfo :=
  mkContractInfo (lit "c") [mkABIConfig (lit "()") (Sel x01 x02 x03 x04) (lit "get") true false false;
    mkABIConfig (lit "(uint256)") (Sel x05 x06 x07 x08) (lit "set") false true false] [x00] true [] 7 None.
Definition toy_init : @Init Z (list EVMInput) :=
  mkInit (mkEVMFuzzState (add_caller (FuzzState_new 3) 9) ∅ [] (mkInfant corpus_new None 7 0))
    (mkVMHost FuzzHost_new Env_default ∅ ∅ ∅ ∅ ∅ false [] [] 9 false 0 ∅ None (replicate map_size 0) false 0 false) ∅.

Lemma contract_inputs_exact_witness :
  ∃ x', add_contract_inputs quiet_config no_run 1 (i_state toy_init) (λ _ s, Some s) None toy_init toy_contract = Some x' ∧
    Forall2 (target_input [9]) [(7, Some (mkABIConfig (lit "(uint256)") (Sel x05 x06 x07 x08) (lit "set") false true false)); (7, None)] (ef_corpus (i_state x')).
Proof.
  assert (fst <$> install quiet_config no_run 1 (i_state toy_init) toy_contract toy_init = Some (Some 7)) as E7 by (vm_compute; reflexivity).
  destruct (install quiet_config no_run 1 (i_state toy_init) toy_contract toy_init) as [[a x1]|] eqn:Ei; [|discriminate E7].
  apply Some_inj in E7. cbn [fst] in E7. subst a.
  assert ((λ _, tt) <$> add_contract_inputs quiet_config no_run 1 (i_state toy_init) (λ _ s, Some s) None toy_init toy_contract = Some tt) as E8
    by (vm_compute; reflexivity).
  destruct (add_contract_inputs quiet_config no_run 1 (i_state toy_init) (λ _ s, Some s) None toy_init toy_contract) as [x'|] eqn:E; [|discriminate E8].
  exists x'. split; [done|].
  destruct (contract_inputs_exact quiet_config no_run 1 (i_state toy_init) (λ _ s, Some s) None toy_contract toy_init (Some 7) x1 x' Ei E)
    as (new & Hf & Hn & Ha).
  change (ef_corpus (i_state x')) with (tc_list (ef_corpus (i_state x'))). rewrite Hf. exact Hn.
Defined.
