(* ===== verification/Presets.v ===== *)
(** * Presets ([src/src/evm/presets/presets.rs], [src/src/evm/presets/pair.rs])

    With the feature [use_presets] the initialiser of the corpus asks presets for more
    inputs of every function that it stores one for.  The only preset knows the function
    [skim(address)] of token pairs: it calls it on the pair itself, 37 times. *)
From S2P Require Import Prelude Types State MutationUtils SrcMap F64 Expr Abi AbiLayout AbiParse AbiMutate Corpus Scheduler I256 Tracer Evm Host HostCall Bytecode Vm InputMutate Replay FuzzerLoop FuzzerProps Loader CorpusInit CorpusInitProps.
#[local] Open Scope Z_scope.

(** The trait [Preset]; of the executor a preset can only read. *)
Definition Preset : Type := sel4 → EVMInput → VMHost Env → list EVMInput.

(** ** [PairPreset] *)

Definition skim_sel : sel4 := Sel xbc x25 xcf x77.

(** [input.clone()] with its repetitions and data replaced *)
Definition skim_input (input : EVMInput) : EVMInput :=
  let addr := replicate 12 x00 ++ z2be 20 (ei_contract input) in
  mkEVMInput (ei_caller input) (ei_contract input) (Some (mkBoxedABI (A256 addr true true false) skim_sel))
    (ei_sstate input) (ei_sstate_idx input) (ei_txn_value input) (ei_step input) (ei_env input)
    (ei_access_pattern input) (ei_direct_data input) 37 (ei_is_cuda input).

Definition PairPreset : Preset := λ function_sig input _,
  if decide (function_sig = skim_sel) then [skim_input input] else [].

(** ** The initialiser *)

Section init.
Context {R C : Type} `{Rand R} `{HashOrder} `{TxnCorpus C} `{Formats} `{Outside}.
Abbreviation S := (EVMFuzzState R C).
Context (cfg : Config Env S).
Context (run : Interpreter → VMHost Env → S → option (InstructionResult * Interpreter * VMHost Env * S)).
Context (deployer : EVMAddress) (dummy : S) (scheduler_on_add : Z → S → option S) (blacklist : option (gset Z))
  (set_order : list EVMAddress → list EVMAddress).
(** What [register_preset] was called with *)
Context (presets : list Preset).

(** The loop over the presets at the end of [add_abi] *)
Definition add_preset (function : sel4) (input : EVMInput) (x : Init) (p : Preset) : option Init :=
  s ← foldM (λ s preset, add_input_to_corpus scheduler_on_add preset s) (i_state x) (p function input (i_host x));
  Some (mkInit s (i_host x) (i_sigs x)).

(** [add_abi], [initialize_corpus] and [initialize] with this feature *)
Definition add_abi_presets (deployed_address : EVMAddress) (x : Init) (abi : ABIConfig) : option Init :=
  if ac_is_constructor abi then Some x
  else
    let x := on_state (note_hash (ac_function abi) deployed_address) x in
    if ac_is_static abi then Some x
    else
      abi_instance ← get_abi_type_boxed (ac_abi abi);
      let '(abi_instance, sigs) := set_func_with_name abi_instance (ac_function abi) (ac_function_name abi) (i_sigs x) in
      '(caller, s) ← rand_caller (i_state x);
      let input := initial_input caller deployed_address (Some abi_instance) (if ac_is_payable abi then Some 0 else None) in
      s ← add_input_to_corpus scheduler_on_add input s;
      foldM (add_preset (ac_function abi) input) (mkInit s (i_host x) sigs) presets.

Definition add_contract_inputs_presets (x : Init) (contract : ContractInfo) : option Init :=
  '(a, x) ← install cfg run deployer dummy contract x;
  match a with
  | None => Some x
  | Some deployed_address =>
      let x := on_state (on_fuzz (λ f, add_address f deployed_address)) x in
      if blacklisted blacklist deployed_address then Some x
      else
        x ← foldM (add_abi_presets deployed_address) x (ci_abi contract);
        '(caller, s) ← rand_caller (i_state x);
        s ← add_input_to_corpus scheduler_on_add (initial_input caller deployed_address None (Some 1)) s;
        Some (mkInit s (i_host x) (i_sigs x))
  end.

Definition initialize_presets (contracts : list ContractInfo) (x : Init) : option Init :=
  x ← setup_default_callers set_order x;
  x ← setup_contract_callers cfg set_order x;
  x ← foldM add_contract_inputs_presets x contracts;
  let s := i_state x in
  '(_, infant) ← add_infant_state (ef_infant s) (new_with_state (evmstate (core (i_host x))));
  Some (mkInit (mkEVMFuzzState (ef_fuzz s) (ef_hash_to_address s) (ef_corpus s) infant) (i_host x) (i_sigs x)).
End init.

(** ** The data of the preset *)

Lemma address_word a : 0 ≤ a < 2 ^ 160 → replicate 12 x00 ++ z2be 20 a = z2be 32 a.
Proof.
  intros Ha. rewrite <- (take_drop 12 (z2be 32 a)).
  rewrite (take_z2be 12 20 a : take 12 (z2be 32 a) = _), (drop_z2be 12 20 a : drop 12 (z2be 32 a) = _). f_equal.
  rewrite Z.div_small by exact Ha. by vm_compute.
Qed.

(** The preset sends the call [skim(pair)] to the pair, and mutation leaves its data alone,
    so that the call stays one of the pair on itself. *)
Lemma skim_data {R} `{Libafl R} input vm_slots (st : FuzzState R) : 0 ≤ ei_contract input < 2 ^ 160 →
  ∃ b, ei_data (skim_input input) = Some b ∧ boxed_get_bytes b = Some (sel_bytes skim_sel ++ z2be 32 (ei_contract input)) ∧
  boxed_mutate_with_vm_slots st b vm_slots = Some (Skipped, st, b).
Proof.
  intros Hc. eexists. split; [done|]. split; [|done].
  unfold boxed_get_bytes. cbn [boxed_b boxed_function get_bytes]. rewrite address_word by done.
  by rewrite a256_get_bytes_spec, length_z2be by (rewrite length_z2be; lia).
Qed.

(** ** What the initialiser adds *)

Section exact.
Context {R C : Type} `{Libafl R} `{!RandLaws R} `{!LibaflLaws R} `{HashOrder} `{VecCorpus C} `{Formats} `{Outside}.
Abbreviation S := (EVMFuzzState R C).
Context (cfg : Config Env S).
Context (run : Interpreter → VMHost Env → S → option (InstructionResult * Interpreter * VMHost Env * S)).
Context (deployer : EVMAddress) (dummy : S) (scheduler_on_add : Z → S → option S) (blacklist : option (gset Z))
  (set_order : list EVMAddress → list EVMAddress) `{!SchedOk scheduler_on_add}.

(** Without presets it is the initialiser of the default build. *)
Lemma add_abi_no_presets a x abi : add_abi_presets scheduler_on_add [] a x abi = add_abi scheduler_on_add a x abi.
Proof. done. Qed.
Lemma initialize_no_presets contracts x :
  initialize_presets cfg run deployer dummy scheduler_on_add blacklist set_order [] contracts x =
  initialize cfg run deployer dummy scheduler_on_add blacklist set_order contracts x.
Proof. done. Qed.

Lemma add_inputs_stored ys s s' : foldM (λ s y, add_input_to_corpus scheduler_on_add y s) s ys = Some s' →
  stored s' = stored s ++ ys ∧ steady s s'.
Proof.
  revert s. induction ys as [|y ys IH]; intros s; cbn [foldM].
  { intros [= <-]. by rewrite app_nil_r. }
  intros (s1 & E1 & (Hl2 & Hst2)%IH)%bind_Some. apply add_input_stored in E1 as (Hl1 & Hst1 & _); [|done].
  rewrite Hl2, Hl1, <- app_assoc. split; [done|by etransitivity].
Qed.

(** What the presets make of an input *)
Definition preset_inputs (presets : list Preset) (h : VMHost Env) (function : sel4) (y : EVMInput) : list EVMInput :=
  concat (map (λ p : Preset, p function y h) presets).

Lemma add_presets_stored presets function y x x' :
  foldM (add_preset scheduler_on_add function y) x presets = Some x' →
  stored (i_state x') = stored (i_state x) ++ preset_inputs presets (i_host x) function y ∧
  steady (i_state x) (i_state x') ∧ i_host x' = i_host x.
Proof.
  revert x. induction presets as [|p presets IH]; intros x; cbn [foldM].
  { intros [= <-]. unfold preset_inputs. cbn. by rewrite app_nil_r. }
  unfold preset_inputs. cbn [map concat]. fold (preset_inputs presets (i_host x) function y).
  intros (x1 & (s1 & (Hl1 & Hst1)%add_inputs_stored & [= <-])%bind_Some & (Hl2 & Hst2 & Hh)%IH)%bind_Some.
  cbn [i_state i_host] in *. rewrite Hl2, Hl1, app_assoc. split_and!; [done|by etransitivity|done].
Qed.

(** The inputs of a function are the one that the default build stores, and what each of
    the presets makes of it; of a constructor or a view there are none. *)
Theorem preset_inputs_exact presets a x abi x' :
  add_abi_presets scheduler_on_add presets a x abi = Some x' →
  ∃ new, stored (i_state x') = stored (i_state x) ++ new ∧
    if fuzzed abi
    then ∃ y, target_input (callers_pool (ef_fuzz (i_state x))) (a, Some abi) y ∧
         new = y :: preset_inputs presets (i_host x) (ac_function abi) y
    else new = [].
Proof.
  unfold fuzzed. intros E. unfold add_abi_presets in E. destruct (ac_is_constructor abi).
  { injection E as <-. exists []. by rewrite app_nil_r. }
  destruct (ac_is_static abi); [injection E as <-; exists []; by rewrite app_nil_r|].
  apply bind_Some in E as (inst & Ei & E). cbv beta iota delta [set_func_with_name] in E.
  apply bind_Some in E as ([caller s1] & (Hin & Hst & Hc & _)%rand_caller_pool & E).
  apply bind_Some in E as (s2 & E2 & E). apply add_input_stored in E2 as (Hl & Hst2 & _); [|done]. cbn [i_state] in *. rewrite Hc in Hl.
  unfold get_abi_type_boxed in Ei. apply bind_Some in Ei as (b & Hb & [= <-]).
  set (y := initial_input _ _ _ _) in *. apply add_presets_stored in E as (Hl' & _). cbn [i_state i_host on_state] in Hl'.
  rewrite Hl, <- app_assoc in Hl'. eexists. split; [exact Hl'|]. cbn [negb andb app]. exists y. split; [|done].
  exists caller. split; [exact Hin|]. cbn [snd fst]. by exists b.
Qed.

(** With the preset of pairs, [skim] of every contract that has it gets a second input. *)
Corollary skim_is_preset a x abi x' :
  add_abi_presets scheduler_on_add [PairPreset] a x abi = Some x' → fuzzed abi = true →
  ∃ y, target_input (callers_pool (ef_fuzz (i_state x))) (a, Some abi) y ∧
    stored (i_state x') = stored (i_state x) ++ y :: if decide (ac_function abi = skim_sel) then [skim_input y] else [].
Proof.
  intros E Hf. destruct (preset_inputs_exact [PairPreset] a x abi x' E) as (new & Hl' & Hy).
  rewrite Hf in Hy. destruct Hy as (y & Hy & ->). exists y. split; [done|].
  unfold preset_inputs, PairPreset in Hl'. cbn [map concat] in Hl'. by rewrite app_nil_r in Hl'.
Qed.
End exact.

(** ** Example: a pair gets [skim], the preset of it, and the transfer. *)

Definition toy_pair : ContractInfo :=
  mkContractInfo (lit "pair") [mkABIConfig (lit "(address)") skim_sel (lit "skim") false false false] [x00] true [] 7 None.
Example pair_inputs :
  (λ x', map (λ i, (λ y, (ei_repeat y, ei_contract y)) <$> tc_get (ef_corpus (i_state x')) i) [0; 1; 2; 3]) <$>
    add_contract_inputs_presets quiet_config no_run 1 (i_state toy_init) (λ _ s, Some s) None [PairPreset] toy_init toy_pair =
  Some [Some (1, 7); Some (37, 7); Some (1, 7); None].
Proof. vm_compute. reflexivity. Qed.
