(* ===== verification/Driver.v ===== *)
(** * The driver of the EVM fuzzer ([evm_fuzzer] of [src/src/fuzzers/evm_fuzzer.rs])

    The components are put together: middlewares and global switches by the command line,
    the initial corpus, the host, the campaign with its oracles, and then the loop of the
    fuzzer or the replay of recorded transactions. *)
From S2P Require Import Prelude Types State MutationUtils SrcMap F64 Expr Abi AbiLayout AbiParse Corpus Scheduler SchedulerInv I256 Tracer Evm Host HostCall HostCallProps Bytecode Revm RevmProps Vm VmState InputMutate InputMutateProps Replay ReplayProps Feedback FuzzerLoop FuzzerProps Oracles EvmCampaign Loader CorpusInit CorpusInitProps GpuStage GpuStageProps.
#[local] Open Scope Z_scope.

(** ** The command line and the global switches *)

(** The fields of [Config] that decide what the driver does; [dc_replay_file] has the texts
    of the files that the pattern names. *)
Record DriverConfig := mkDriverConfig {
  dc_onchain : bool;
  dc_flashloan : bool;
  dc_contract_info : list ContractInfo;
  dc_replay_file : option (list str);
  dc_ptx_path : str;
  dc_run_forever : bool
}.

(** The mutable statics that the driver and the command line write *)
Record Globals := mkGlobals {
  ACTIVE_MATCH_EXT_CALL : bool;
  RUN_FOREVER : bool;
  GPU_ENABLE : bool;
  DUMP_CORPUS : bool;
  CALL_UNTIL : Z;
  PANIC_ON_BUG : bool
}.
Definition Globals_new : Globals := mkGlobals false false false false (2 ^ 32 - 1) false.
Definition set_dump (b : bool) (g : Globals) : Globals :=
  mkGlobals (ACTIVE_MATCH_EXT_CALL g) (RUN_FOREVER g) (GPU_ENABLE g) b (CALL_UNTIL g) (PANIC_ON_BUG g).
Definition set_call_until (n : Z) (g : Globals) : Globals :=
  mkGlobals (ACTIVE_MATCH_EXT_CALL g) (RUN_FOREVER g) (GPU_ENABLE g) (DUMP_CORPUS g) n (PANIC_ON_BUG g).

Definition setup_globals (c : DriverConfig) (g : Globals) : Globals :=
  mkGlobals (ACTIVE_MATCH_EXT_CALL g || negb (dc_onchain c)) (RUN_FOREVER g || dc_run_forever c)
    (GPU_ENABLE g || negb (bool_decide (dc_ptx_path c = []))) (DUMP_CORPUS g) (CALL_UNTIL g) (PANIC_ON_BUG g).

(** [FuzzHost::new], with the maps of the process as they start *)
Definition host_new : VMHost Env :=
  mkVMHost FuzzHost_new Env_default ∅ ∅ ∅ ∅ ∅ false [] [] 0 false 0 ∅ None (replicate map_size 0) false 0 false.

(** [FuzzHost::add_middlewares]: an entry of a hash map, visited in the order [mw_order] *)
Section host.
Context (mw_order : list MiddlewareType → list MiddlewareType).
Definition add_middlewares (ty : MiddlewareType) (h : VMHost Env) : VMHost Env :=
  set_middlewares (mw_order (ty :: filter (λ t, t ≠ ty) (middlewares h))) (set_middlewares_enabled true h).

(** The host that the executor is built on; the coverage middleware is only for replays. *)
Definition setup_host (c : DriverConfig) : VMHost Env :=
  let h := host_new in
  let h := if dc_onchain c then add_middlewares OnChain h else h in
  let h := if dc_flashloan c then add_middlewares Flashloan h else h in
  match dc_replay_file c with Some _ => add_middlewares InstructionCoverage h | None => h end.
End host.

Section driver.
Context {R C D G : Type} `{Libafl R} `{HashOrder} `{VecCorpus C} `{TxnCorpus D} `{Formats} `{Gpu G}.
Abbreviation fuzz := (EVMFuzzState R C).
(** What only the parameters of the campaign see: the pools and the generator, the device,
    the host and the table of function hashes *)
Abbreviation hidden := (FuzzState R * G * (VMHost Env * gmap (list byte) (gset Z)))%type.
Abbreviation state := (@FzState R C D hidden).

(** The executor and its parameters, as in [CorpusInit] *)
Context (cfg : Globals → Config Env fuzz) (keccak256 : list byte → Z) (fuel : nat).
Context (deployer : EVMAddress) (dummy : fuzz) (sched_on_add : Z → fuzz → option fuzz) (blacklist : option (gset Z))
  (set_order : list EVMAddress → list EVMAddress) (mw_order : list MiddlewareType → list MiddlewareType).
(** libafl's parts, the feedbacks, and what the command line registers *)
Context (base : @Campaign R C D hidden) (lp : @Loop R C D G (VMHost Env * gmap (list byte) (gset Z))).
Context (producers : list (@Producer (@OracleCtx R C D hidden))) (oracles : list (@Oracle (@OracleCtx R C D hidden))).
(** The runner of the device: [InitCudaCtx] on a path, and [cuMallocAll] *)
Context (InitCudaCtx : str → G → G) (cuMallocAll : G → G).

Definition run (g : Globals) := run_inspect (cfg g) (revm_eval keccak256 (PANIC_ON_BUG g)) fuel.

(** [EVMExecutor::execute] on the host and the state of the fuzzer *)
Definition fuzz_state_of (st : state) : fuzz :=
  let '(f, _, (_, table)) := fs_other st in mkEVMFuzzState f table (fs_corpus st) (fs_infant st).
Definition driver_execute (g : Globals) (x : EVMInput) (st : state) : option (ExecutionResult * state) :=
  let '(_, gpu, (h, _)) := fs_other st in
  '(r, h, s) ← execute_abi (run g) (vm_input x) h (fuzz_state_of st);
  Some (r, mkFz (ef_corpus s) (fs_solutions st) (ef_infant s) (fs_result st) (fs_executions st)
             (ef_fuzz s, gpu, (h, ef_hash_to_address s))).

(** [ItyFuzzer::new] with [OracleFeedback::new] over what was registered *)
Definition campaign (g : Globals) : @Campaign R C D hidden :=
  mkCampaign (pre_exec_all base) (driver_execute g) (post_exec_all base) (feedback base) (infant_feedback base)
    (OracleFeedback producers oracles) (FuzzerLoop.scheduler_on_add base) (fire_event base)
    (λ st, jmp_map (core (fs_other st).2.1)) (branch_distance_interesting base) (RUN_FOREVER g) (coverage_hash base)
    (function_sig base) (json base).
Definition stages (g : Globals) : @Loop R C D G (VMHost Env * gmap (list byte) (gset Z)) :=
  mkLoop (scheduler_next lp) (calibrate lp) (manager_process lp) (maybe_report_progress lp) (GPU_ENABLE g) (clock lp) (start_time lp).

(** The device, when there is one *)
Definition setup_device (c : DriverConfig) (gpu : G) : G :=
  if bool_decide (dc_ptx_path c = []) then gpu else cuMallocAll (InitCudaCtx (dc_ptx_path c) gpu).

(** [corpus_initializer.initialize] *)
Definition deployed (c : DriverConfig) (g : Globals) (s : fuzz) (sigs : gmap (list byte) str) : option (@Init R C) :=
  CorpusInit.initialize (cfg g) (run g) deployer dummy sched_on_add blacklist set_order (dc_contract_info c)
    (mkInit s (setup_host mw_order c) sigs).

(** [evm_executor.host.initialize(state)], and the state that the loop starts on *)
Definition start (x : @Init R C) (solutions : D) (gpu : G) : state :=
  let s := i_state x in
  mkFz (ef_corpus s) solutions (ef_infant s) (mkExecutionResult [] false new_uninitialized None 0) 0
    (ef_fuzz s, gpu, (HostCall.initialize (ef_hash_to_address s) (i_host x), ef_hash_to_address s)).

(** A line of a replay file, the files, and [unwrap] of an evaluation *)
Definition replay_txn (g : Globals) (s : StagedVMState * Minimizer * state) (txn : str) : fresult (StagedVMState * Minimizer * state) :=
  let '(vm_state, m, st) := s in
  x ← or_panic (replay_line vm_state txn);
  match x with
  | None => Done s
  | Some (inp, call_until) =>
      '(_, _, m, st) ← expect (evaluate_input_events (campaign (set_call_until call_until g)) m inp false st);
      Done (er_new_state (fs_result st), m, st)
  end.
Definition replay_files (g : Globals) (files : list str) (s : StagedVMState * Minimizer * state) : fresult (StagedVMState * Minimizer * state) :=
  for_each (λ s file, for_each (replay_txn g) s (split_on "010" file)) s files.

(** [evm_fuzzer] on the statics [g], with [n] rounds of the loop, which never returns.
    [initial_evmstate] is the state of the host after all deployments. *)
Definition evm_fuzzer (g : Globals) (c : DriverConfig) (n : nat) (s : fuzz) (sigs : gmap (list byte) str) (solutions : D) (gpu : G)
  : fresult (Minimizer * state) :=
  let g := setup_globals c g in
  x ← or_panic (deployed c g s sigs);
  let st := start x solutions (setup_device c gpu) in
  match dc_replay_file c with
  | None => expect (fuzz_loop (campaign (set_dump true g)) (stages g) n ∅ st)
  | Some files =>
      let initial_evmstate := evmstate (core (i_host x)) in
      '(_, m, st) ← replay_files (set_dump false g) files (new_with_state initial_evmstate, ∅, st);
      Done (m, st)
  end.

(** ** What the parts promise *)

Context `{!CampaignOk base} `{!LoopOk lp} `{!∀ g, StateLaws (cfg g) grows} `{!∀ g, InitOk (cfg g)} `{!SchedOk sched_on_add}.
Context `{!RandLaws R} `{!LibaflLaws R}.
Context (bug erc20 : bool) (Horacles : oracles_of bug erc20 oracles)
  (Hproducers : ∀ p, p ∈ producers → p = erc20_producer ∨ p = pair_producer).

Lemma driver_execute_still g x st r st' : driver_execute g x st = Some (r, st') →
  still st st' ∧ ss_trace (er_new_state r) = TxnTrace_new ∧
  (resumable x → ss_initialized (er_new_state r) = true).
Proof using All.
  unfold driver_execute, fuzz_state_of. destruct (fs_other st) as [[f gpu] [h t]] eqn:Eo.
  intros ([[r1 h1] s1] & E1 & [= <- <-])%bind_Some.
  assert (grows (mkEVMFuzzState f t (fs_corpus st) (fs_infant st)) s1) as [Hc Hi].
  { revert E1. apply (execute_abi_keeps grows). intros i h0 s r0 i' h' s'.
    apply (run_inspect_keeps (cfg g) grows), revm_eval_laws. }
  cbn [ef_corpus ef_infant] in *. split; [|exact (execute_abi_trace _ _ _ _ _ _ _ E1)].
  split; cbn; [exact Hc|by rewrite Hi..].
Qed.

#[export] Instance campaign_ok g : CampaignOk (campaign g).
Proof using All.
  assert (∀ x st b st', is_interesting (OracleFeedback producers oracles) x st = Done (b, st') → quiet st st') as Ho.
  { intros x st b st' E. by apply (oracle_feedback_spec bug erc20) in E as [-> _]. }
  split; cbn [pre_exec_all execute post_exec_all FuzzerLoop.scheduler_on_add fire_event feedback infant_feedback objective campaign].
  - apply (ok_pre (cp := base)).
  - apply driver_execute_still.
  - apply (ok_post (cp := base)).
  - intros f x st b st'. rewrite !elem_of_cons, elem_of_nil. intros [->|[->|[->|[]]]]; [..|apply Ho].
    + apply (ok_interesting (cp := base)). by left.
    + apply (ok_interesting (cp := base)). by right; left.
  - intros f st st'. rewrite !elem_of_cons, elem_of_nil. intros [->|[->|[]]]; [apply (ok_append (cp := base)); by left|by intros [= <-]].
  - intros f x st st'. rewrite !elem_of_cons, elem_of_nil. intros [->|[->|[]]]; [apply (ok_discard (cp := base)); by left|by intros [= <-]].
  - apply (ok_on_add (cp := base)).
  - apply (ok_fire (cp := base)).
  - apply (no_exit_pre (cp := base)).
  - apply (no_exit_post (cp := base)).
  - intros f x st r. rewrite !elem_of_cons, elem_of_nil. intros [->|[->|[->|[]]]].
    + apply (no_exit_interesting (cp := base)). by left.
    + apply (no_exit_interesting (cp := base)). by right; left.
    + simpl. by destruct (oracle_is_interesting _ _ _ _ _).
  - intros f st r. rewrite !elem_of_cons, elem_of_nil. intros [->|[->|[]]]; [apply (no_exit_append (cp := base)); by left|done].
  - intros f x st r. rewrite !elem_of_cons, elem_of_nil. intros [->|[->|[]]]; [apply (no_exit_discard (cp := base)); by left|done].
  - apply (no_exit_on_add (cp := base)).
  - apply (no_exit_fire (cp := base)).
  - apply (no_exit_solution (cp := base)).
Qed.

#[export] Instance stages_ok g : LoopOk (stages g).
Proof using All. destruct LoopOk0 as [Hn Hc Hp Hr]. split; [exact Hn|exact Hc|exact Hp|exact Hr]. Qed.

(** ** The start *)

Lemma start_ok c g s sigs x solutions gpu :
  deployed c g s sigs = Some x → stored s = [] → infant_state (ef_infant s) = corpus_new →
  stage_inv ∅ (start x solutions gpu) ∧
  (∀ g' a, attacks_ok (campaign g') a (evmstate (core (i_host x))) (start x solutions gpu)) ∧
  spare (start x solutions gpu) = 2 ^ 64 - 2.
Proof using All.
  intros E Hempty Hinf.
  destruct (initialized_campaign_starts (cfg g) (run g) deployer dummy sched_on_add blacklist set_order (dc_contract_info c)
    (mkInit s (setup_host mw_order c) sigs) x solutions (mkExecutionResult [] false new_uninitialized None 0) 0 gpu
    (HostCall.initialize (ef_hash_to_address (i_state x)) (i_host x), ef_hash_to_address (i_state x)) E Hempty Hinf)
    as (He & Hi & Hs).
  split; [exact Hs|]. split.
  - intros g' a i w. cbn [start fs_infant]. rewrite He. intros [<- <-]%lookup_singleton_Some. exists []. split; [|constructor].
    eapply history_init; [cbn [start fs_infant]; rewrite He; apply lookup_singleton_eq|done].
  - unfold spare. cbn [start fs_infant fs_corpus]. rewrite Hi. done.
Qed.

(** What the fuzzer reports is an attack.  Start it with oracles for [bug()] markers and
    for flash-loan profit on an empty state, with middlewares that leave the stored VM
    states alone and add only inputs that wait for one, for no more than the [n] rounds
    that the indices of VM states last for.  If it stops, it stops with a report, and the
    report is, complete and in order, the text of transactions which, executed one after
    the other on the interpreter from the chain state that the deployments left, each in a
    state that this campaign reached and none of them reverted, lead to a VM state that
    violates an oracle and holds no suspended call.  If the [n] rounds return instead,
    every stored VM state is what its recorded history leads to from that chain state, and
    the bookkeeping of inputs, minimizer and VM states is intact. *)
Theorem reports_are_attacks g0 c n s sigs solutions gpu :
  dc_replay_file c = None → stored s = [] → infant_state (ef_infant s) = corpus_new → Z.of_nat n * ROUND ≤ 2 ^ 64 - 2 →
  let g := setup_globals c g0 in
  let cp := campaign (set_dump true g) in
  match evm_fuzzer g0 c n s sigs solutions gpu with
  | Done (m, st) => ∃ x, deployed c g s sigs = Some x ∧ stage_inv m st ∧
      attacks_ok cp (∅, start x solutions (setup_device c gpu)) (evmstate (core (i_host x))) st
  | Exited report => ∃ x l s', deployed c g s sigs = Some x ∧
      reached_by cp (∅, start x solutions (setup_device c gpu)) (evmstate (core (i_host x))) s' l ∧
      violation bug erc20 s' = true ∧ has_post_execution s' = false ∧ report = BEGIN ++ concat (map (txn_text (json base)) l)
  | Failed => False
  | Panics => True
  end.
Proof using All.
  intros Hreplay Hempty Hinf Hidx g cp. unfold evm_fuzzer. fold g. rewrite Hreplay.
  destruct (deployed c g s sigs) as [x|] eqn:E; [|done]. cbn [or_panic mbind fresult_bind].
  set (st0 := start x solutions (setup_device c gpu)).
  destruct (start_ok c g s sigs x solutions (setup_device c gpu) E Hempty Hinf) as (Hs & Ha & Hsp). fold st0 in Hs, Ha, Hsp.
  specialize (Ha (set_dump true g) (∅, st0)). fold cp in Ha |- *.
  pose proof (fuzz_loop_runs cp (stages g) n ∅ _ Hs ltac:(by rewrite Hsp)) as Hr.
  destruct (fuzz_loop _ _ _ _ _) as [[m st]| | |report]; try done; cbn [expect].
  - destruct Hr as (Hrun & Hi & _). exists x. split; [done|]. split; [exact Hi|].
    by apply (campaign_attacks cp _ (∅, st0) m st (si_fz _ _ Hs) Ha Hrun).
  - destruct Hr as (m & st & input & Hrun & Hi & Hready & Heval).
    destruct (campaign_attacks cp _ (∅, st0) m st (si_fz _ _ Hs) Ha Hrun) as [_ Ha'].
    destruct (exit_is_attack cp _ _ m input true st report Heval Hi Ha' Hrun Hready) as (l & r & s1 & s2 & Hl & _ & Hobj & Es & Er).
    exists x, l, (ss_state (er_new_state r)). split; [done|]. split; [exact Hl|].
    apply (oracle_feedback_spec bug erc20) in Hobj as [_ Hobj]; [|done|done]. rewrite Es in Hobj.
    symmetry in Hobj. apply andb_true_iff in Hobj as [Hv Hp]. split; [done|]. split; [by apply negb_true_iff|exact Er].
Qed.

(** ** Replays *)

(** Replaying is the reader of [Replay] on the evaluations of the campaign. *)
Definition replay_execute (g : Globals) (inp : EVMInput) (call_until : Z) (w : Minimizer * state) : option (StagedVMState * (Minimizer * state)) :=
  match evaluate_input_events (campaign (set_call_until call_until g)) w.1 inp false w.2 with
  | Done (_, _, m, st) => Some (er_new_state (fs_result st), (m, st))
  | _ => None
  end.

Lemma replay_file_lines g file vm_state m st vm_state' m' st' :
  for_each (replay_txn g) (vm_state, m, st) (split_on "010" file) = Done (vm_state', m', st') ↔
  replay_file (replay_execute g) vm_state file (m, st) = Some (vm_state', (m', st')).
Proof using Type.
  unfold replay_file. generalize (split_on "010" file). intros l. revert vm_state m st.
  induction l as [|t l IH]; intros vm_state m st; cbn [for_each replay_lines]; [split; by intros [= -> -> ->]|].
  assert (replay_txn g (vm_state, m, st) t = (x ← or_panic (replay_line vm_state t);
    match x with
    | None => Done (vm_state, m, st)
    | Some (inp, n) => '(_, _, m, st) ← expect (evaluate_input_events (campaign (set_call_until n g)) m inp false st);
                       Done (er_new_state (fs_result st), m, st)
    end)) as -> by done.
  destruct (replay_line vm_state t) as [[[inp n]|]|]; cbn [or_panic mbind fresult_bind option_bind]; [|apply IH|done].
  assert (replay_execute g inp n (m, st) = match evaluate_input_events (campaign (set_call_until n g)) m inp false st with
    | Done (_, _, m, st) => Some (er_new_state (fs_result st), (m, st)) | _ => None end) as -> by done.
  destruct (evaluate_input_events (campaign (set_call_until n g)) m inp false st) as [[[[v idx] m1] st1]| | |];
    cbn [expect mbind fresult_bind option_bind]; [apply IH|split; intros [=]..].
Qed.
End driver.

(** ** A run of the driver *)

Abbreviation toy_inputs := (list EVMInput).
Abbreviation toy_fuzz := (EVMFuzzState Z toy_inputs).
Abbreviation toy_hidden := (FuzzState Z * list byte * (VMHost Env * gmap (list byte) (gset Z)))%type.

Definition idle : @FuzzerLoop.Feedback Z toy_inputs toy_inputs toy_hidden :=
  mkFeedback (λ _ st, Done (false, st)) Done (λ _, Done).
Definition idle_parts : @Campaign Z toy_inputs toy_inputs toy_hidden :=
  mkCampaign (λ _, Done) (λ _ st, Some (toy_result, st)) (λ _, Done) idle (mkFeedback (λ _ st, Done (true, st)) Done (λ _, Done)) idle
    (λ _, Done) Done (λ _, []) (λ _, false) true (λ _, 0) (λ _, None) (λ t, addr_debug (bt_caller t)).
Definition first_seed : @Loop Z toy_inputs toy_inputs (list byte) (VMHost Env * gmap (list byte) (gset Z)) :=
  mkLoop (λ st, Done (0, st)) (λ _, Done) Done Done false (λ _, 0) 0.
Definition toy_config (g : Globals) : Config Env toy_fuzz :=
  mkConfig _ _ (λ c, c) (λ _, 0) (λ s, (7, s)) None
    (λ _, mkMiddleware _ _ (λ i h s, Some (i, h, s)) (λ c _ h s, Some (c, h, s))) (CALL_UNTIL g) (ACTIVE_MATCH_EXT_CALL g).

#[export] Instance idle_parts_ok : CampaignOk idle_parts.
Proof.
  assert (∀ a b : @FzState Z toy_inputs toy_inputs toy_hidden, Done a = Done b → quiet a b) as Hd by (by intros a b [= <-]).
  split; try (intros; by apply Hd); try done; repeat intro; simpl in *; set_unfold; naive_solver.
Qed.
#[export] Instance first_seed_ok : LoopOk first_seed.
Proof. split; repeat intro; simpl; reflexivity. Qed.
#[export] Instance toy_config_state g : StateLaws (toy_config g) grows.
Proof.
  split; [..|done].
  - intros m i h s i' h' s' [Hm|[ty ->]]; [done|]. by intros [= _ _ <-].
  - intros m c a h s c' h' s' [Hm|[ty ->]]; [done|]. by intros [= _ _ <-].
Qed.
#[export] Instance toy_config_init g : InitOk (toy_config g).
Proof. split. intros m c a h s c' h' s' [Hm|[ty ->]]; [done|]. by intros [= _ _ <-]. Qed.
#[export] Instance idle_sched_ok : SchedOk (λ _ (s : toy_fuzz), Some s).
Proof. split. by intros idx s s' [= <-]. Qed.

Definition both_oracles : list (@Oracle (@OracleCtx Z toy_inputs toy_inputs toy_hidden)) := [erc20_oracle; bug_oracle].
Definition both_producers : list (@Producer (@OracleCtx Z toy_inputs toy_inputs toy_hidden)) := [pair_producer; erc20_producer].
Lemma both_oracles_ok : oracles_of true true both_oracles.
Proof. split; [|split; intros _; set_solver]. intros o. unfold both_oracles. rewrite !elem_of_cons, elem_of_nil. naive_solver. Qed.
Lemma both_producers_ok p : p ∈ both_producers → p = erc20_producer ∨ p = pair_producer.
Proof. unfold both_producers. rewrite !elem_of_cons, elem_of_nil. naive_solver. Qed.

(** A contract that is known to the chain, whose code hits the bug marker when its storage
    has been set by a call before *)
Definition trap : ContractInfo :=
  mkContractInfo (lit "trap") [mkABIConfig (lit "(uint256)") (Sel x05 x06 x07 x08) (lit "set") false true false] (two_step ++ [x63; x12; x34; x56; x78; x00]) true [] 7 None.
Definition toy_command : DriverConfig := mkDriverConfig false false [trap] None [] false.
Definition toy_start : toy_fuzz := mkEVMFuzzState (FuzzState_new 13) ∅ [] (mkInfant corpus_new None 7 0).
Abbreviation toy_fuzzer n := (evm_fuzzer (G := list byte) toy_config (λ _, 0) 60 1 toy_start (λ _ s, Some s) None id id idle_parts first_seed
  both_producers both_oracles (λ _ g, g) id Globals_new toy_command n toy_start ∅ [] []).
Lemma reports_are_attacks_witness :
  ∃ report (x : @Init Z toy_inputs) st0 l s', toy_fuzzer 1 = Exited report ∧ length report = 106%nat ∧
    reached_by (campaign toy_config (λ _, 0) 60 idle_parts both_producers both_oracles (set_dump true (setup_globals toy_command Globals_new)))
      (∅, st0) (evmstate (core (i_host x))) s' l ∧
    violation true true s' = true ∧ report = BEGIN ++ concat (map (txn_text (λ t, addr_debug (bt_caller t))) l).
Proof.
  assert (match toy_fuzzer 1 with Exited r => length r | _ => O end = 106%nat) as Hlen by (vm_compute; reflexivity).
  pose proof (reports_are_attacks (G := list byte) toy_config (λ _, 0) 60 1 toy_start (λ _ s, Some s) None id id idle_parts first_seed
    both_producers both_oracles (λ _ g, g) id true true both_oracles_ok both_producers_ok Globals_new toy_command 1 toy_start ∅ [] []
    eq_refl eq_refl) as Hw.
  destruct (toy_fuzzer 1) as [[m st]| | |report]; [discriminate Hlen..|]. exists report.
  destruct Hw as (x & l & s' & _ & Hl & Hv & _ & Hr); [reflexivity|vm_compute; discriminate|].
  exists x, (start x [] (setup_device (λ _ g, g) id toy_command [])), l, s'. split; [done|]. split; [exact Hlen|]. split; [exact Hl|].
  split; [exact Hv|exact Hr].
Defined.
