(* ===== verification/Endpoints.v ===== *)
(** * Reading the chain ([src/src/evm/onchain/endpoints.rs], [src/src/cache.rs])

    [OnChainConfig] asks a node and a block explorer for code, storage and ABIs.  Answers
    are kept in a file and, decoded, in tables.  The network, the clock-free parts of the
    HTTP client and the number formats of libraries are a class; the number of tries, the
    caches, the requests and the decoding of answers are translated. *)
From S2P Require Import Prelude Types Revm State SrcMap Expr Abi AbiLayout AbiParse I256 Tracer Uniswap Loader.
#[local] Open Scope Z_scope.

(** The network [W] and what is used of libraries: one try of a request, the hash of a cache
    key, [rand::random::<usize>()], [{:x}] of addresses and words, and [EVMU256::from_str_radix(_, 16)] *)
Class Net (W : Type) := {
  http_get : str → W → option str * W;
  http_post : str → str → W → option str * W;
  hash_key : str → str;
  random_usize : W → Z * W;
  addr_lower_hex : EVMAddress → str;
  u256_lower_hex : EVMU256 → str;
  u256_from_hex : str → option EVMU256
}.

(** [struct OnChainConfig]; the client is the network, and the file of [rpc_cache] its contents. *)
Record OnChainConfig (W : Type) := mkOnChainConfig {
  endpoint_url : str;
  oc_chain_id : Z;
  block_number : str;
  block_hash : option str;
  etherscan_api_key : list str;
  etherscan_base : str;
  chain_name : str;
  slot_cache : gmap (Z * Z) EVMU256;
  code_cache : gmap Z (list byte);
  abi_cache : gmap Z (option str);
  storage_all_cache : gmap Z (option (gmap str EVMU256));
  storage_dump_cache : gmap Z (option (gmap Z EVMU256));
  uniswap_path_cache : gmap Z TokenContext;
  rpc_cache : gmap str str;
  net : W
}.
Arguments mkOnChainConfig {W}.
Arguments endpoint_url {W}.
Arguments oc_chain_id {W}.
Arguments block_number {W}.
Arguments block_hash {W}.
Arguments etherscan_api_key {W}.
Arguments etherscan_base {W}.
Arguments chain_name {W}.
Arguments slot_cache {W}.
Arguments code_cache {W}.
Arguments abi_cache {W}.
Arguments storage_all_cache {W}.
Arguments storage_dump_cache {W}.
Arguments uniswap_path_cache {W}.
Arguments rpc_cache {W}.
Arguments net {W}.

(** ** Computations on the configuration *)

Definition io (W A : Type) : Type := OnChainConfig W → option (A * OnChainConfig W).
#[export] Instance io_ret W : MRet (io W) := λ A a c, Some (a, c).
#[export] Instance io_bind W : MBind (io W) := λ A B f m c, '(a, c) ← m c; f a c.

Definition gets {W A} (f : OnChainConfig W → A) : io W A := λ c, Some (f c, c).
Definition modifies {W} (f : OnChainConfig W → OnChainConfig W) : io W unit := λ c, Some (tt, f c).
(** [unwrap] *)
Definition must {W A} (x : option A) : io W A := λ c, a ← x; Some (a, c).

Definition set_net {W} (w : W) (c : OnChainConfig W) : OnChainConfig W :=
  mkOnChainConfig (endpoint_url c) (oc_chain_id c) (block_number c) (block_hash c) (etherscan_api_key c) (etherscan_base c)
    (chain_name c) (slot_cache c) (code_cache c) (abi_cache c) (storage_all_cache c) (storage_dump_cache c)
    (uniswap_path_cache c) (rpc_cache c) w.
Definition set_rpc_cache {W} m (c : OnChainConfig W) : OnChainConfig W :=
  mkOnChainConfig (endpoint_url c) (oc_chain_id c) (block_number c) (block_hash c) (etherscan_api_key c) (etherscan_base c)
    (chain_name c) (slot_cache c) (code_cache c) (abi_cache c) (storage_all_cache c) (storage_dump_cache c)
    (uniswap_path_cache c) m (net c).
Definition set_block_hash {W} h (c : OnChainConfig W) : OnChainConfig W :=
  mkOnChainConfig (endpoint_url c) (oc_chain_id c) (block_number c) h (etherscan_api_key c) (etherscan_base c)
    (chain_name c) (slot_cache c) (code_cache c) (abi_cache c) (storage_all_cache c) (storage_dump_cache c)
    (uniswap_path_cache c) (rpc_cache c) (net c).
Definition set_slot_cache {W} m (c : OnChainConfig W) : OnChainConfig W :=
  mkOnChainConfig (endpoint_url c) (oc_chain_id c) (block_number c) (block_hash c) (etherscan_api_key c) (etherscan_base c)
    (chain_name c) m (code_cache c) (abi_cache c) (storage_all_cache c) (storage_dump_cache c)
    (uniswap_path_cache c) (rpc_cache c) (net c).
Definition set_code_cache {W} m (c : OnChainConfig W) : OnChainConfig W :=
  mkOnChainConfig (endpoint_url c) (oc_chain_id c) (block_number c) (block_hash c) (etherscan_api_key c) (etherscan_base c)
    (chain_name c) (slot_cache c) m (abi_cache c) (storage_all_cache c) (storage_dump_cache c)
    (uniswap_path_cache c) (rpc_cache c) (net c).
Definition set_abi_cache {W} m (c : OnChainConfig W) : OnChainConfig W :=
  mkOnChainConfig (endpoint_url c) (oc_chain_id c) (block_number c) (block_hash c) (etherscan_api_key c) (etherscan_base c)
    (chain_name c) (slot_cache c) (code_cache c) m (storage_all_cache c) (storage_dump_cache c)
    (uniswap_path_cache c) (rpc_cache c) (net c).
Definition set_storage_all_cache {W} m (c : OnChainConfig W) : OnChainConfig W :=
  mkOnChainConfig (endpoint_url c) (oc_chain_id c) (block_number c) (block_hash c) (etherscan_api_key c) (etherscan_base c)
    (chain_name c) (slot_cache c) (code_cache c) (abi_cache c) m (storage_dump_cache c)
    (uniswap_path_cache c) (rpc_cache c) (net c).
Definition set_storage_dump_cache {W} m (c : OnChainConfig W) : OnChainConfig W :=
  mkOnChainConfig (endpoint_url c) (oc_chain_id c) (block_number c) (block_hash c) (etherscan_api_key c) (etherscan_base c)
    (chain_name c) (slot_cache c) (code_cache c) (abi_cache c) (storage_all_cache c) m
    (uniswap_path_cache c) (rpc_cache c) (net c).
Definition set_uniswap_path_cache {W} m (c : OnChainConfig W) : OnChainConfig W :=
  mkOnChainConfig (endpoint_url c) (oc_chain_id c) (block_number c) (block_hash c) (etherscan_api_key c) (etherscan_base c)
    (chain_name c) (slot_cache c) (code_cache c) (abi_cache c) (storage_all_cache c) (storage_dump_cache c)
    m (rpc_cache c) (net c).

(** ** Strings *)

Definition quote : str := ["034"%char].
Definition quoted (s : str) : str := quote ++ s ++ quote.

(** [contains] and [trim_start_matches("0x")] *)
Fixpoint contains_str (s p : str) : bool :=
  AbiParse.starts_with s p || match s with [] => false | _ :: s => contains_str s p end.
Fixpoint trim_0x (s : str) : str :=
  match s with
  | a :: b :: s' => if decide (a = "0"%char ∧ b = "x"%char) then trim_0x s' else s
  | s => s
  end.

(** [FileSystemCache]: a file that cannot be parsed counts as empty. *)
Definition cache_save (m : gmap str str) (key value : str) : gmap str str := <[key := value]> m.
Definition cache_load (m : gmap str str) (key : str) : option str := m !! key.

Section endpoints.
Context {W : Type} `{Net W} `{Outside} `{Formats}.
Abbreviation IO := (io W).

(** ** Requests *)

(** [retry_with_index]: three tries *)
Fixpoint retry (n : nat) (try : W → option str * W) (w : W) : option str * W :=
  match n with
  | O => (None, w)
  | S n => match try w with (Some t, w) => (Some t, w) | (None, w) => retry n try w end
  end.

(** [get] and [post], which share their body; an answer that mentions an error is not kept. *)
Definition cached_request (key : str) (try : W → option str * W) : IO (option str) := λ c,
  let hash := hash_key key in
  match cache_load (rpc_cache c) hash with
  | Some t => Some (Some t, c)
  | None =>
      let '(r, w) := retry 3 try (net c) in
      let c := set_net w c in
      match r with
      | Some t => Some (Some t, if negb (contains_str t (lit "error")) then set_rpc_cache (cache_save (rpc_cache c) hash t) c else c)
      | None => Some (None, c)
      end
  end.
Definition get (url : str) : IO (option str) := cached_request (lit "post_" ++ url) (http_get url).
Definition post (url data : str) : IO (option str) := cached_request (lit "post_" ++ url ++ lit "_" ++ data) (http_post url data).

(** The body of a JSON-RPC request *)
Definition rpc_body (method params : str) (id : Z) : str :=
  lit "{" ++ quoted (lit "jsonrpc") ++ lit ":" ++ quoted (lit "2.0") ++ lit ", " ++ quoted (lit "method") ++ lit ": " ++ quoted method ++
  lit ", " ++ quoted (lit "params") ++ lit ": " ++ params ++ lit ", " ++ quoted (lit "id") ++ lit ": " ++ decimal 20 id ++ lit "}".

(** [_request_with_id] and [_request] *)
Definition _request_with_id (method params : str) (id : Z) : IO (option Value) :=
  url ← gets endpoint_url;
  resp ← post url (rpc_body method params id);
  mret (t ← resp; json ← json_from_str t; value_get json (lit "result")).
Definition _request (method params : str) : IO (option Value) :=
  id ← gets oc_chain_id; _request_with_id method params id.

(** The parameter list [["0x..", ..]] *)
Definition address_param (a : EVMAddress) : str := quoted (lit "0x" ++ addr_lower_hex a).
Definition slot_param (s : EVMU256) : str := quoted (lit "0x" ++ u256_lower_hex s).
Definition params_of (l : list str) : str := lit "[" ++ join l ++ lit "]".

(** The text of an answer, and an empty one if there is none *)
Definition text_of (resp : option Value) : IO str :=
  match resp with Some v => must (as_str v) | None => mret [] end.

(** ** Code and storage *)

(** [get_contract_code]; [to_analysed] appends the padding that is not part of the code. *)
Definition get_contract_code (address : EVMAddress) (force_cache : bool) : IO (list byte) :=
  cache ← gets code_cache;
  match cache !! address with
  | Some code => mret code
  | None =>
      if force_cache then mret []
      else
        block ← gets block_number;
        resp ← _request (lit "eth_getCode") (params_of [address_param address; quoted block]);
        resp_string ← text_of resp;
        let code := trim_0x resp_string in
        if (length code =? 0)%nat then
          modifies (λ c, set_code_cache (<[address := []]> (code_cache c)) c) ;; mret []
        else
          code ← must (hex_decode code);
          modifies (λ c, set_code_cache (<[address := code]> (code_cache c)) c) ;; mret code
  end.

(** [get_contract_slot] *)
Definition get_contract_slot (address : EVMAddress) (slot : EVMU256) (force_cache : bool) : IO EVMU256 :=
  cache ← gets slot_cache;
  match cache !! (address, slot) with
  | Some v => mret v
  | None =>
      if force_cache then mret 0
      else
        block ← gets block_number;
        resp ← _request (lit "eth_getStorageAt") (params_of [address_param address; slot_param slot; quoted block]);
        resp_string ← text_of resp;
        let slot_suffix := trim_0x resp_string in
        if (length slot_suffix =? 0)%nat then
          modifies (λ c, set_slot_cache (<[(address, slot) := 0]> (slot_cache c)) c) ;; mret 0
        else
          slot_value ← must (b ← hex_decode slot_suffix; try_from_be_slice b);
          modifies (λ c, set_slot_cache (<[(address, slot) := slot_value]> (slot_cache c)) c) ;; mret slot_value
  end.

(** An entry of [eth_getStorageAll], and [fetch_storage_all_uncached] *)
Definition storage_entry (m : gmap str EVMU256) (kv : str * Value) : option (gmap str EVMU256) :=
  s ← as_str kv.2; v ← u256_from_hex (trim_0x s); Some (<[trim_0x kv.1 := v]> m).
Definition fetch_storage_all_uncached (address : EVMAddress) : IO (option (gmap str EVMU256)) :=
  block ← gets block_number;
  if negb (bool_decide (block = lit "latest")) then must None
  else
    resp ← _request (lit "eth_getStorageAll") (params_of [address_param address; quoted block]);
    match resp with
    | Some resp => m ← must (kvs ← as_object resp; foldM storage_entry ∅ kvs); mret (Some m)
    | None => mret None
    end.
Definition fetch_storage_all (address : EVMAddress) : IO (option (gmap str EVMU256)) :=
  cache ← gets storage_all_cache;
  match cache !! address with
  | Some storage => mret storage
  | None =>
      storage ← fetch_storage_all_uncached address;
      modifies (λ c, set_storage_all_cache (<[address := storage]> (storage_all_cache c)) c) ;; mret storage
  end.

(** [fetch_blk_hash] *)
Definition fetch_blk_hash : IO str :=
  h ← gets block_hash;
  match h with
  | Some h => mret h
  | None =>
      block ← gets block_number;
      res ← _request (lit "eth_getBlockByNumber") (lit "[" ++ quoted block ++ lit ",false]");
      h ← must (res ← res; as_str (value_index res (lit "hash")));
      modifies (set_block_hash (Some h)) ;; mret h
  end.

(** An entry of [debug_storageRangeAt], and [fetch_storage_dump_uncached] *)
Definition dump_entry (m : gmap Z EVMU256) (kv : str * Value) : option (gmap Z EVMU256) :=
  key ← as_str (value_index kv.2 (lit "key"));
  value ← as_str (value_index kv.2 (lit "value"));
  k ← u256_from_hex (trim_0x key);
  v ← u256_from_hex (trim_0x value);
  Some (<[k := v]> m).
Definition fetch_storage_dump_uncached (address : EVMAddress) : IO (option (gmap Z EVMU256)) :=
  blk_hash ← fetch_blk_hash;
  resp ← _request (lit "debug_storageRangeAt")
    (lit "[" ++ quoted blk_hash ++ lit ",0," ++ address_param address ++ lit "," ++ quoted [] ++ lit ",1000000000000000]");
  match resp with
  | Some resp =>
      kvs ← must (as_object (value_index resp (lit "storage")));
      if (length kvs =? 0)%nat then mret None
      else m ← must (foldM dump_entry ∅ kvs); mret (Some m)
  | None => mret None
  end.
Definition fetch_storage_dump (address : EVMAddress) : IO (option (gmap Z EVMU256)) :=
  cache ← gets storage_dump_cache;
  match cache !! address with
  | Some storage => mret storage
  | None =>
      storage ← fetch_storage_dump_uncached address;
      modifies (λ c, set_storage_dump_cache (<[address := storage]> (storage_dump_cache c)) c) ;; mret storage
  end.

(** ** ABIs *)

(** A random key, or none *)
Definition pick_api_key : IO str := λ c,
  match etherscan_api_key c with
  | [] => Some ([], c)
  | keys => let '(v, w) := random_usize (net c) in
      k ← keys !! Z.to_nat (v mod Z.of_nat (length keys)); Some (k, set_net w c)
  end.

(** [fetch_abi_uncached] and [fetch_abi] *)
Definition fetch_abi_uncached (address : EVMAddress) : IO (option str) :=
  base ← gets etherscan_base;
  key ← pick_api_key;
  resp ← get (base ++ lit "?module=contract&action=getabi&address=" ++ addr_debug address ++ lit "&format=json&apikey=" ++ key);
  mret (t ← resp; json ← json_from_str t; result ← as_str (value_index json (lit "result"));
        if decide (result = lit "Contract source code not verified") then None else Some result).
Definition fetch_abi (address : EVMAddress) : IO (option str) :=
  cache ← gets abi_cache;
  match cache !! address with
  | Some abi => mret abi
  | None =>
      abi ← fetch_abi_uncached address;
      modifies (λ c, set_abi_cache (<[address := abi]> (abi_cache c)) c) ;; mret abi
  end.

(** ** Contracts by address ([contract_utils.rs]) *)

(** [Bytecode::bytes]: [Bytecode::new] holds a STOP, and [to_analysed] keeps the padding. *)
Definition bytecode_bytes (code : list byte) : list byte := if decide (code = []) then [x00] else padded code.

(** [from_address]; [addr_display] is [to_string] of an address. *)
Context (addr_display : EVMAddress → str).
Definition load_address (contracts : list ContractInfo) (addr : EVMAddress) : IO (list ContractInfo) :=
  abi ← fetch_abi addr;
  match abi with
  | None => mret contracts
  | Some abi =>
      abi ← must (parse_abi_str abi);
      code ← get_contract_code addr false;
      mret (contracts ++ [mkContractInfo (addr_display addr) abi (bytecode_bytes code) true [] addr None])
  end.
Fixpoint from_address (contracts : list ContractInfo) (address : list EVMAddress) : IO (list ContractInfo) :=
  match address with
  | [] => mret contracts
  | addr :: address => contracts ← load_address contracts addr; from_address contracts address
  end.
End endpoints.
