(* ===== verification/EndpointsProps.v ===== *)
(** * What is read of the chain

    A read of a slot or of code is, exactly, a cached value, the text of the file, or the
    answer of at most three tries; once read, a value stays, and a later run that has the
    file reads it again.  Every value in the tables was decoded from what the node said to
    a request for it: [sourced]. *)
From S2P Require Import Prelude Types State SrcMap Expr Abi AbiLayout AbiParse I256 Tracer ReplayProps Uniswap Loader LoaderProps Endpoints.
#[local] Open Scope Z_scope.

Section chain.
Context {W : Type} `{Net W} `{Outside} `{Formats}.
Implicit Types c : OnChainConfig W.

(** The key of a request in the file *)
Definition post_key (url data : str) : str := lit "post_" ++ url ++ lit "_" ++ data.

(** ** Requests *)

(** Tries of a request until one is answered, at most [n] of them *)
Inductive asked (try : W → option str * W) : nat → W → option str → W → Prop :=
| asked_answer n w t w' : try w = (Some t, w') → asked try (S n) w (Some t) w'
| asked_again n w w1 r w' : try w = (None, w1) → asked try n w1 r w' → asked try (S n) w r w'
| asked_enough w : asked try 0 w None w.

(** The text of the file, or three tries, of which an answer is kept in the file unless it
    mentions an error *)
Definition answered (key : str) (try : W → option str * W) c (r : option str) c' : Prop :=
  match rpc_cache c !! hash_key key with
  | Some t => r = Some t ∧ c' = c
  | None => ∃ w, asked try 3 (net c) r w ∧
      c' = match r with
           | Some t => if contains_str t (lit "error") then set_net w c
                       else set_rpc_cache (<[hash_key key := t]> (rpc_cache c)) (set_net w c)
           | None => set_net w c
           end
  end.

Lemma retry_asked n (try : W → option str * W) w r w' : retry n try w = (r, w') → asked try n w r w'.
Proof.
  revert w. induction n as [|n IH]; intros w; cbn [retry]; [intros [= <- <-]; constructor|].
  destruct (try w) as [[t|] w1] eqn:E; [intros [= <- <-]; by constructor|]. intros E2. by eapply asked_again, IH.
Qed.

Lemma cached_request_answered key try c : ∃ r c', cached_request key try c = Some (r, c') ∧ answered key try c r c'.
Proof.
  unfold cached_request, answered, cache_load, cache_save. destruct (rpc_cache c !! hash_key key) as [t|] eqn:E; [by exists (Some t), c|].
  destruct (retry 3 try (net c)) as [r w] eqn:Er. apply retry_asked in Er. destruct r as [t|]; eexists _, _; (split; [reflexivity|]); exists w.
  - split; [done|]. cbn [set_net rpc_cache]. by destruct (contains_str t (lit "error")).
  - by split.
Qed.

Lemma asked_functional (try : W → option str * W) n w r w' : asked try n w r w' → ∀ r2 w2, asked try n w r2 w2 → r2 = r ∧ w2 = w'.
Proof.
  induction 1 as [n w t w' E|n w w1 r w' E _ IH|w]; intros r2 w2 Ha.
  - inversion Ha as [? ? t2 ? E2|? ? w3 ? ? E2 Ha2|]; rewrite E in E2; [by injection E2 as <- <-|done].
  - inversion Ha as [? ? t2 ? E2|? ? w3 ? ? E2 Ha2|]; rewrite E in E2; [done|]. injection E2 as <-. by apply IH.
  - by inversion Ha.
Qed.

Lemma answered_functional key try c r c' r2 c2 : answered key try c r c' → answered key try c r2 c2 → r2 = r ∧ c2 = c'.
Proof.
  unfold answered. destruct (rpc_cache c !! hash_key key); [by intros [-> ->] [-> ->]|].
  intros (w & Ha & ->) (w2 & Ha2 & ->). by destruct (asked_functional _ _ _ _ _ Ha _ _ Ha2) as [-> ->].
Qed.

(** The result of a JSON-RPC request, and its text; [None] is a panic. *)
Definition json_result (r : option str) : option Value := t ← r; json ← json_from_str t; value_get json (lit "result").
Definition result_text (r : option str) : option str :=
  match json_result r with Some v => as_str v | None => Some [] end.

Definition slot_of_text (s : str) : option EVMU256 :=
  let suffix := trim_0x s in
  if (length suffix =? 0)%nat then Some 0 else b ← hex_decode suffix; try_from_be_slice b.
Definition code_of_text (s : str) : option (list byte) :=
  let suffix := trim_0x s in if (length suffix =? 0)%nat then Some [] else hex_decode suffix.

(** The request of a method to the node of [c] *)
Definition request_data c (method params : str) : str := rpc_body method params (oc_chain_id c).
Definition node_answers c (method params : str) (r : option str) c' : Prop :=
  answered (post_key (endpoint_url c) (request_data c method params)) (http_post (endpoint_url c) (request_data c method params)) c r c'.

Lemma request_answered method params c :
  ∃ r c', _request method params c = Some (json_result r, c') ∧ node_answers c method params r c'.
Proof.
  destruct (cached_request_answered (post_key (endpoint_url c) (request_data c method params))
    (http_post (endpoint_url c) (request_data c method params)) c) as (r & c' & E & Ha).
  exists r, c'. split; [|done]. unfold _request, _request_with_id, gets, mbind, io_bind. cbn [mbind option_bind].
  unfold post, post_key, request_data in *. by rewrite E.
Qed.

(** A read that decodes the text of an answer and notes the result *)
Lemma noted_read {A} method params (K : str → io W A) (decode : str → option A) (note : A → OnChainConfig W → OnChainConfig W) c :
  (∀ t c1, K t c1 = (v ← decode t; Some (v, note v c1))) →
  ∃ r c1, node_answers c method params r c1 ∧
    (resp ← _request method params; t ← text_of resp; K t) c = (t ← result_text r; v ← decode t; Some (v, note v c1)).
Proof.
  intros HK. destruct (request_answered method params c) as (r & c1 & E & Ha). exists r, c1. split; [done|].
  unfold mbind at 1, io_bind. rewrite E. cbn [mbind option_bind]. unfold result_text, mbind at 1, io_bind.
  destruct (json_result r) as [v|]; cbn [text_of].
  - unfold must. destruct (as_str v) as [t|]; [|done]. cbn [mbind option_bind]. apply HK.
  - cbn [mret io_ret mbind option_bind]. apply HK.
Qed.

Lemma gets_run {A B} (f : OnChainConfig W → A) (k : A → io W B) c : (gets f ≫= k) c = k (f c) c.
Proof. done. Qed.

(** ** Code and storage *)

Definition slot_params (a : EVMAddress) (slot : EVMU256) (block : str) : str := params_of [address_param a; slot_param slot; quoted block].
Definition code_params (a : EVMAddress) (block : str) : str := params_of [address_param a; quoted block].
Definition note_slot (a : EVMAddress) (slot v : EVMU256) c := set_slot_cache (<[(a, slot) := v]> (slot_cache c)) c.
Definition note_code (a : EVMAddress) (code : list byte) c := set_code_cache (<[a := code]> (code_cache c)) c.

Lemma slot_read a slot c : slot_cache c !! (a, slot) = None →
  ∃ r c1, node_answers c (lit "eth_getStorageAt") (slot_params a slot (block_number c)) r c1 ∧
    get_contract_slot a slot false c = (t ← result_text r; v ← slot_of_text t; Some (v, note_slot a slot v c1)).
Proof.
  intros E. unfold get_contract_slot. rewrite gets_run, E, gets_run. apply noted_read.
  intros t c1. unfold slot_of_text. destruct (length (trim_0x t) =? 0)%nat; [done|]. unfold must, mbind, io_bind.
  destruct (hex_decode (trim_0x t)) as [b|]; [|done]. cbn. by destruct (try_from_be_slice b).
Qed.

Lemma code_read a c : code_cache c !! a = None →
  ∃ r c1, node_answers c (lit "eth_getCode") (code_params a (block_number c)) r c1 ∧
    get_contract_code a false c = (t ← result_text r; code ← code_of_text t; Some (code, note_code a code c1)).
Proof.
  intros E. unfold get_contract_code. rewrite gets_run, E, gets_run. apply noted_read.
  intros t c1. unfold code_of_text. destruct (length (trim_0x t) =? 0)%nat; [done|]. unfold must, mbind, io_bind.
  by destruct (hex_decode (trim_0x t)).
Qed.

(** ** Runs *)

(** What a run of reads is made of: requests, draws of a key, and notes in the tables, which
    never lose a slot or a code. *)
Inductive io_step c c' : Prop :=
| io_get url r : get url c = Some (r, c') → io_step c c'
| io_post url data r : post url data c = Some (r, c') → io_step c c'
| io_random v w : random_usize (net c) = (v, w) → c' = set_net w c → io_step c c'
| io_note : endpoint_url c' = endpoint_url c → oc_chain_id c' = oc_chain_id c → block_number c' = block_number c →
    rpc_cache c' = rpc_cache c → net c' = net c → slot_cache c ⊆ slot_cache c' → code_cache c ⊆ code_cache c' → io_step c c'.

(** What no run loses *)
Record later c c' : Prop := mkLater {
  la_url : endpoint_url c' = endpoint_url c;
  la_id : oc_chain_id c' = oc_chain_id c;
  la_block : block_number c' = block_number c;
  la_rpc : rpc_cache c ⊆ rpc_cache c';
  la_slot : slot_cache c ⊆ slot_cache c';
  la_code : code_cache c ⊆ code_cache c'
}.
#[export] Instance later_preorder : PreOrder later.
Proof. split; [by split|]. intros x y z [] []. split; (congruence || by etransitivity). Qed.

(** A request moves the network and the file, and nothing else. *)
Record requests c c' : Prop := mkRequests {
  rq_later : later c c';
  rq_hash : block_hash c' = block_hash c;
  rq_slot : slot_cache c' = slot_cache c;
  rq_code : code_cache c' = code_cache c;
  rq_abi : abi_cache c' = abi_cache c;
  rq_all : storage_all_cache c' = storage_all_cache c;
  rq_dump : storage_dump_cache c' = storage_dump_cache c
}.

Lemma answered_requests key try c r c' : answered key try c r c' → requests c c'.
Proof.
  unfold answered. destruct (rpc_cache c !! hash_key key) as [t|] eqn:E; [intros [_ ->]; by split|]. intros (w & _ & ->).
  destruct r as [t|]; [|by split]. destruct (contains_str _ _); [by split|]. split; [|done..]. split; [done..|by apply insert_subseteq|done|done].
Qed.
Lemma node_answers_step c method params r c' : node_answers c method params r c' → io_step c c'.
Proof.
  intros Ha. destruct (cached_request_answered (post_key (endpoint_url c) (request_data c method params))
    (http_post (endpoint_url c) (request_data c method params)) c) as (r2 & c2 & E & Ha2).
  destruct (answered_functional _ _ _ _ _ _ _ Ha Ha2) as [-> ->]. by eapply io_post.
Qed.

Lemma io_step_later c c' : io_step c c' → later c c'.
Proof.
  intros [url r E|url data r E|v w _ ->|Hu Hi Hb Hr Hn Hs Hc].
  - destruct (cached_request_answered (lit "post_" ++ url) (http_get url) c) as (r2 & c2 & E2 & Ha%answered_requests).
    assert (c' = c2) as -> by (unfold get in E; congruence). apply Ha.
  - destruct (cached_request_answered (lit "post_" ++ url ++ lit "_" ++ data) (http_post url data) c) as (r2 & c2 & E2 & Ha%answered_requests).
    assert (c' = c2) as -> by (unfold post in E; congruence). apply Ha.
  - by split.
  - split; try done. by rewrite Hr.
Qed.
Lemma run_later c c' : rtc io_step c c' → later c c'.
Proof. induction 1 as [|x y z Hs _ IH]; [done|]. etransitivity; [by apply io_step_later|done]. Qed.

(** A note of a value that is new *)
Lemma note_slot_step a slot v c : slot_cache c !! (a, slot) = None → io_step c (note_slot a slot v c).
Proof. intros E. apply io_note; try done. by apply insert_subseteq. Qed.
Lemma note_code_step a code c : code_cache c !! a = None → io_step c (note_code a code c).
Proof. intros E. apply io_note; try done. by apply insert_subseteq. Qed.

(** ** C28: reads *)

(** What a table of answers promises of the reads of one value: [lookup] and [note] are the
    table, [none] the value where nothing may be asked, [params] the parameters of the
    request, and [decode] what is made of a text. *)
Record reads {A} (lookup : OnChainConfig W → option A) (note : A → OnChainConfig W → OnChainConfig W) (none : A)
    (method : str) (params : str → str) (decode : str → option A) (read : bool → io W A) c : Prop := mkReads {
  rd_cached b v : lookup c = Some v → read b c = Some (v, c);
  rd_forced : lookup c = None → read true c = Some (none, c);
  rd_asked : lookup c = None → ∃ r c1, node_answers c method (params (block_number c)) r c1 ∧
    read false c = (t ← result_text r; v ← decode t; Some (v, note v c1));
  rd_stays v c1 c2 b : read false c = Some (v, c1) → rtc io_step c1 c2 → read b c2 = Some (v, c2);
  rd_restart v c1 c2 :
    lookup c = None → read false c = Some (v, c1) →
    is_Some (rpc_cache c1 !! hash_key (post_key (endpoint_url c) (request_data c method (params (block_number c))))) →
    endpoint_url c2 = endpoint_url c → oc_chain_id c2 = oc_chain_id c → block_number c2 = block_number c →
    rpc_cache c1 ⊆ rpc_cache c2 → lookup c2 = None →
    read false c2 = Some (v, note v c2)
}.

Lemma reads_of_table {A} (lookup : OnChainConfig W → option A) note none method params decode (read : bool → io W A) c :
  (∀ c b v, lookup c = Some v → read b c = Some (v, c)) → (∀ c, lookup c = None → read true c = Some (none, c)) →
  (∀ c, lookup c = None → ∃ r c1, node_answers c method (params (block_number c)) r c1 ∧
     read false c = (t ← result_text r; v ← decode t; Some (v, note v c1))) →
  (∀ v c, lookup (note v c) = Some v) → (∀ c c' v, later c c' → lookup c = Some v → lookup c' = Some v) →
  (∀ v c, rpc_cache (note v c) = rpc_cache c) →
  reads lookup note none method params decode read c.
Proof.
  intros Hc Hf Ha Hn Hl Hr. split; [by apply Hc|by apply Hf|by apply Ha|..].
  - intros v c1 c2 b E Hrun%run_later. apply Hc, (Hl c1); [done|]. destruct (lookup c) as [v'|] eqn:El.
    + rewrite (Hc _ _ _ El) in E. by simplify_eq.
    + destruct (Ha _ El) as (r & c3 & _ & E2). rewrite E2 in E. apply bind_Some in E as (t & _ & E).
      apply bind_Some in E as (v2 & _ & [= <- <-]). apply Hn.
  - intros v c1 c2 El E [t Ht] Hu Hi Hb Hsub El2. destruct (Ha _ El) as (r & c3 & Hans & E3). rewrite E3 in E.
    apply bind_Some in E as (x & Ex & E). apply bind_Some in E as (v' & Ev & E). injection E as -> <-. rewrite Hr in Ht, Hsub.
    assert (r = Some t) as ->.
    { unfold node_answers, answered in Hans. destruct (rpc_cache c !! _) as [t0|] eqn:E0.
      - destruct Hans as [-> ->]. congruence.
      - destruct Hans as (w & _ & ->). destruct r as [t0|]; [|cbn in Ht; congruence].
        destruct (contains_str _ _); cbn in Ht; [congruence|]. rewrite lookup_insert_eq in Ht. congruence. }
    destruct (Ha _ El2) as (r2 & c4 & Hans2 & ->). unfold node_answers, answered, request_data in Hans2.
    rewrite Hu, Hi, Hb in Hans2. unfold request_data in Ht. rewrite (lookup_weaken _ _ _ _ Ht Hsub) in Hans2.
    destruct Hans2 as [-> ->]. rewrite Ex. cbn [mbind option_bind]. by rewrite Ev.
Qed.

Lemma slot_reads a slot c :
  reads (λ c, slot_cache c !! (a, slot)) (note_slot a slot) 0 (lit "eth_getStorageAt") (slot_params a slot) slot_of_text
    (get_contract_slot a slot) c.
Proof.
  apply reads_of_table; try done.
  - intros c1 b v E. unfold get_contract_slot. by rewrite gets_run, E.
  - intros c1 E. unfold get_contract_slot. by rewrite gets_run, E.
  - intros c1. apply slot_read.
  - intros v c1. apply lookup_insert_eq.
  - intros c1 c2 v Hl E. by eapply lookup_weaken, Hl.
Qed.

Lemma code_reads a c :
  reads (λ c, code_cache c !! a) (note_code a) [] (lit "eth_getCode") (code_params a) code_of_text (get_contract_code a) c.
Proof.
  apply reads_of_table; try done.
  - intros c1 b v E. unfold get_contract_code. by rewrite gets_run, E.
  - intros c1 E. unfold get_contract_code. by rewrite gets_run, E.
  - intros c1. apply code_read.
  - intros v c1. apply lookup_insert_eq.
  - intros c1 c2 v Hl E. by eapply lookup_weaken, Hl.
Qed.

(** C28. Reading a slot or the code of a contract.  A value in the table is returned as it
    is, without a request; without one, a forced read gives 0 and no code, and another
    one asks the node for exactly this slot or contract at the configured block: the
    answer is the text that the file has for the request, or else the first one of at
    most three tries, which the file gets unless it mentions an error.  The value is the
    big-endian word, or the bytes, of the text of the result; where the node does not
    answer, or answers without a result or with an empty one, it is 0 and no code; and
    where the text is not hexadecimal the read panics.  The value is noted for this slot
    or contract alone, also when the node did not answer.  From then on, whatever is read
    in between, every read of it gives the same value and asks nothing.  A later run on
    the same node and block that has the file reads the same value without the network,
    when the answer was kept. *)
Theorem chain_reads_exact a slot c :
  reads (λ c, slot_cache c !! (a, slot)) (note_slot a slot) 0 (lit "eth_getStorageAt") (slot_params a slot) slot_of_text
    (get_contract_slot a slot) c ∧
  reads (λ c, code_cache c !! a) (note_code a) [] (lit "eth_getCode") (code_params a) code_of_text (get_contract_code a) c.
Proof. split; [apply slot_reads|apply code_reads]. Qed.

(** ** What the node said *)

(** The run from [c0] to [c] asked the node for a method with these parameters, and the
    answer was [r]. *)
Definition said c0 c (method params : str) (r : option str) : Prop :=
  ∃ c1 c2, rtc io_step c0 c1 ∧ node_answers c1 method params r c2 ∧ rtc io_step c2 c.

Lemma said_later c0 c c' method params r : rtc io_step c c' → said c0 c method params r → said c0 c' method params r.
Proof. intros Hr (c1 & c2 & ? & ? & ?). exists c1, c2. split_and!; [done..|by etransitivity]. Qed.

(** The last value that a list of entries gives a key *)
Definition last_value {K V} `{EqDecision K} (dec : str * Value → option (K * V)) (kvs : list (str * Value)) (k : K) : option V :=
  last (omap (λ kv, '(k', v) ← dec kv; if decide (k' = k) then Some v else None) kvs).

(** The table of a list of entries: each can be read, and the last one of a key counts. *)
Definition table_of {K V} `{Countable K} (dec : str * Value → option (K * V)) (kvs : list (str * Value)) (m : gmap K V) : Prop :=
  Forall (λ kv, is_Some (dec kv)) kvs ∧ ∀ k, m !! k = last_value dec kvs k.

(** An entry of the answers: its key and its value, hexadecimal *)
Definition dump_kv (kv : str * Value) : option (Z * EVMU256) :=
  k ← (s ← as_str (value_index kv.2 (lit "key")); u256_from_hex (trim_0x s));
  v ← (s ← as_str (value_index kv.2 (lit "value")); u256_from_hex (trim_0x s));
  Some (k, v).
Definition all_kv (kv : str * Value) : option (str * EVMU256) :=
  v ← (s ← as_str kv.2; u256_from_hex (trim_0x s)); Some (trim_0x kv.1, v).

Lemma last_value_snoc {K V} `{EqDecision K} (dec : str * Value → option (K * V)) kvs kv k0 v0 k :
  dec kv = Some (k0, v0) → last_value dec (kvs ++ [kv]) k = if decide (k0 = k) then Some v0 else last_value dec kvs k.
Proof.
  intros E. unfold last_value. rewrite omap_app. cbn [omap list_omap]. rewrite E. cbn [mbind option_bind].
  case_decide; [by rewrite last_snoc|by rewrite app_nil_r].
Qed.

Lemma table_of_fold {K V} `{Countable K} (dec : str * Value → option (K * V)) (f : gmap K V → str * Value → option (gmap K V)) kvs m :
  (∀ m kv, f m kv = '(k, v) ← dec kv; Some (<[k := v]> m)) → foldM f ∅ kvs = Some m → table_of dec kvs m.
Proof.
  intros Hf. revert m. induction kvs as [|kv kvs IH] using rev_ind; intros m.
  { intros [= <-]. split; [constructor|]. intros k. by rewrite lookup_empty. }
  rewrite foldM_app. intros (m1 & [Hall Hm]%IH & E)%bind_Some. cbn [foldM] in E. rewrite Hf in E.
  apply bind_Some in E as (m2 & E & [= <-]). apply bind_Some in E as ([k0 v0] & E & [= <-]). split.
  - apply Forall_app. split; [done|]. by repeat constructor.
  - intros k. rewrite (last_value_snoc _ _ _ _ _ _ E), <- Hm. case_decide; [subst; apply lookup_insert_eq|by apply lookup_insert_ne].
Qed.

Lemma dump_entry_kv m kv : dump_entry m kv = '(k, v) ← dump_kv kv; Some (<[k := v]> m).
Proof.
  unfold dump_entry, dump_kv. destruct (as_str (value_index kv.2 (lit "key"))) as [ks|]; [|done].
  destruct (as_str (value_index kv.2 (lit "value"))) as [vs|]; cbn; [|by destruct (u256_from_hex _)].
  destruct (u256_from_hex (trim_0x ks)); cbn; [|done]. by destruct (u256_from_hex (trim_0x vs)).
Qed.
Lemma storage_entry_kv m kv : storage_entry m kv = '(k, v) ← all_kv kv; Some (<[k := v]> m).
Proof.
  unfold storage_entry, all_kv. destruct (as_str kv.2) as [vs|]; cbn; [|done]. by destruct (u256_from_hex (trim_0x vs)).
Qed.

(** What the answers to requests for whole contracts mean: a table, or that there is none *)
Definition dump_result (r : option str) (st : option (gmap Z EVMU256)) : Prop :=
  match json_result r with
  | Some resp => ∃ kvs, as_object (value_index resp (lit "storage")) = Some kvs ∧
      match st with Some m => kvs ≠ [] ∧ table_of dump_kv kvs m | None => kvs = [] end
  | None => st = None
  end.
Definition all_result (r : option str) (st : option (gmap str EVMU256)) : Prop :=
  match json_result r with
  | Some resp => ∃ kvs m, as_object resp = Some kvs ∧ st = Some m ∧ table_of all_kv kvs m
  | None => st = None
  end.

(** The parameters of the requests *)
Definition hash_params (block : str) : str := lit "[" ++ quoted block ++ lit ",false]".
Definition dump_params (blk_hash : str) (a : EVMAddress) : str :=
  lit "[" ++ quoted blk_hash ++ lit ",0," ++ address_param a ++ lit "," ++ quoted [] ++ lit ",1000000000000000]".

(** A value that the node gave: a slot, code, the hash of the block, and whole contracts *)
Definition slot_said c0 c a slot v : Prop :=
  ∃ r t, said c0 c (lit "eth_getStorageAt") (slot_params a slot (block_number c0)) r ∧ result_text r = Some t ∧ slot_of_text t = Some v.
Definition code_said c0 c a code : Prop :=
  ∃ r t, said c0 c (lit "eth_getCode") (code_params a (block_number c0)) r ∧ result_text r = Some t ∧ code_of_text t = Some code.
Definition hash_said c0 c h : Prop :=
  ∃ r res, said c0 c (lit "eth_getBlockByNumber") (hash_params (block_number c0)) r ∧ json_result r = Some res ∧
    as_str (value_index res (lit "hash")) = Some h.
Definition dump_said c0 c a st : Prop :=
  ∃ h r, hash_said c0 c h ∧ said c0 c (lit "debug_storageRangeAt") (dump_params h a) r ∧ dump_result r st.
Definition all_said c0 c a st : Prop :=
  block_number c0 = lit "latest" ∧
  ∃ r, said c0 c (lit "eth_getStorageAll") (code_params a (block_number c0)) r ∧ all_result r st.

(** Every value in the tables was said by the node, in the run from [c0]. *)
Record sourced c0 c : Prop := mkSourced {
  so_run : rtc io_step c0 c;
  so_slot a slot v : slot_cache c !! (a, slot) = Some v → slot_said c0 c a slot v;
  so_code a code : code_cache c !! a = Some code → code_said c0 c a code;
  so_hash h : block_hash c = Some h → hash_said c0 c h;
  so_dump a st : storage_dump_cache c !! a = Some st → dump_said c0 c a st;
  so_all a st : storage_all_cache c !! a = Some st → all_said c0 c a st
}.

(** A configuration as [OnChainConfig::new_raw] makes it: the tables are empty. *)
Record fresh_tables c : Prop := mkFreshTables {
  fr_slot : slot_cache c = ∅;
  fr_code : code_cache c = ∅;
  fr_hash : block_hash c = None;
  fr_dump : storage_dump_cache c = ∅;
  fr_all : storage_all_cache c = ∅
}.
Lemma fresh_sourced c : fresh_tables c → sourced c c.
Proof.
  intros [Es Ec Eh Ed Ea]. split; [done|..]; [intros ? ? ?|intros ? ?|intros ?|intros ? ?|intros ? ?]; rewrite ?Es, ?Ec, ?Eh, ?Ed, ?Ea, ?lookup_empty; done.
Qed.

Section later.
Context c0 c c' (Hrun : rtc io_step c c').
Lemma slot_said_later a slot v : slot_said c0 c a slot v → slot_said c0 c' a slot v.
Proof using Hrun. intros (r & t & Hs & ?). exists r, t. split; [by eapply said_later|done]. Qed.
Lemma code_said_later a code : code_said c0 c a code → code_said c0 c' a code.
Proof using Hrun. intros (r & t & Hs & ?). exists r, t. split; [by eapply said_later|done]. Qed.
Lemma hash_said_later h : hash_said c0 c h → hash_said c0 c' h.
Proof using Hrun. intros (r & res & Hs & ?). exists r, res. split; [by eapply said_later|done]. Qed.
Lemma dump_said_later a st : dump_said c0 c a st → dump_said c0 c' a st.
Proof using Hrun. intros (h & r & Hh & Hs & ?). exists h, r. split; [by apply hash_said_later|]. split; [by eapply said_later|done]. Qed.
Lemma all_said_later a st : all_said c0 c a st → all_said c0 c' a st.
Proof using Hrun. intros (? & r & Hs & ?). split; [done|]. exists r. split; [by eapply said_later|done]. Qed.
End later.
#[local] Hint Resolve slot_said_later code_said_later hash_said_later dump_said_later all_said_later said_later : said.

(** ** Every read keeps the tables sourced *)

Lemma sourced_requests c0 c c' : sourced c0 c → requests c c' → rtc io_step c c' → sourced c0 c'.
Proof.
  intros [Hr Hs Hc Hh Hd Ha] [_ Eh Es Ec _ Ea Ed] Hrun. split; rewrite ?Eh, ?Es, ?Ec, ?Ea, ?Ed; intros; eauto with said. by etransitivity.
Qed.
Lemma sourced_block c0 c : sourced c0 c → block_number c = block_number c0.
Proof. intros Hs. apply run_later, Hs. Qed.

Lemma answers_sourced c0 c method params r c' : sourced c0 c → node_answers c method params r c' →
  sourced c0 c' ∧ rtc io_step c c' ∧ requests c c' ∧ said c0 c' method params r.
Proof.
  intros Hs Ha. pose proof (answered_requests _ _ _ _ _ Ha). assert (rtc io_step c c') as Hrun by (by eapply rtc_once, node_answers_step).
  split; [by eapply sourced_requests|]. split; [done|]. split; [done|]. exists c, c'. split; [apply Hs|done].
Qed.

Lemma request_sourced c0 c method params v c' : sourced c0 c → _request method params c = Some (v, c') →
  sourced c0 c' ∧ rtc io_step c c' ∧ requests c c' ∧ ∃ r, v = json_result r ∧ said c0 c' method params r.
Proof.
  intros Hs E. destruct (request_answered method params c) as (r & c1 & E1 & Ha). rewrite E1 in E. injection E as <- <-.
  destruct (answers_sourced _ _ _ _ _ _ Hs Ha) as (? & ? & ? & ?). split_and!; try done. by exists r.
Qed.

Lemma slot_sourced c0 c a slot v c' : sourced c0 c → get_contract_slot a slot false c = Some (v, c') →
  sourced c0 c' ∧ rtc io_step c c' ∧ slot_said c0 c' a slot v.
Proof.
  intros Hs E. destruct (slot_cache c !! (a, slot)) as [v0|] eqn:El.
  { rewrite (rd_cached _ _ _ _ _ _ _ _ (slot_reads a slot c) false v0 El) in E. injection E as <- <-.
    split; [done|]. split; [done|]. by apply (so_slot _ _ Hs). }
  destruct (slot_read a slot c El) as (r & c1 & Ha & E1). rewrite E1 in E. apply bind_Some in E as (t & Et & E).
  apply bind_Some in E as (v1 & Ev & [= <- <-]). rewrite (sourced_block _ _ Hs) in Ha.
  destruct (answers_sourced _ _ _ _ _ _ Hs Ha) as (Hs1 & Hr1 & Hq & Hsaid).
  assert (io_step c1 (note_slot a slot v1 c1)) as Hstep by (apply note_slot_step; by rewrite (rq_slot _ _ Hq)).
  assert (rtc io_step c1 (note_slot a slot v1 c1)) as Hrun by by apply rtc_once.
  assert (slot_said c0 (note_slot a slot v1 c1) a slot v1) as Hv by (exists r, t; split; [by eapply said_later|done]).
  split; [|split; [by etransitivity|done]]. destruct Hs1 as [Hr Hsl Hc Hh Hd Hal].
  split; cbn [note_slot set_slot_cache slot_cache code_cache block_hash storage_dump_cache storage_all_cache]; intros; eauto with said; [by etransitivity|].
  match goal with E : <[_ := _]> _ !! _ = Some _ |- _ => apply lookup_insert_Some in E as [[[= <- <-] <-]|[_ E]] end; [done|].
  by apply (slot_said_later c0 c1), Hsl.
Qed.

Lemma code_sourced c0 c a code c' : sourced c0 c → get_contract_code a false c = Some (code, c') →
  sourced c0 c' ∧ rtc io_step c c' ∧ code_said c0 c' a code.
Proof.
  intros Hs E. destruct (code_cache c !! a) as [v0|] eqn:El.
  { rewrite (rd_cached _ _ _ _ _ _ _ _ (code_reads a c) false v0 El) in E. injection E as <- <-.
    split; [done|]. split; [done|]. by apply (so_code _ _ Hs). }
  destruct (code_read a c El) as (r & c1 & Ha & E1). rewrite E1 in E. apply bind_Some in E as (t & Et & E).
  apply bind_Some in E as (v1 & Ev & [= <- <-]). rewrite (sourced_block _ _ Hs) in Ha.
  destruct (answers_sourced _ _ _ _ _ _ Hs Ha) as (Hs1 & Hr1 & Hq & Hsaid).
  assert (io_step c1 (note_code a v1 c1)) as Hstep by (apply note_code_step; by rewrite (rq_code _ _ Hq)).
  assert (rtc io_step c1 (note_code a v1 c1)) as Hrun by by apply rtc_once.
  assert (code_said c0 (note_code a v1 c1) a v1) as Hv by (exists r, t; split; [by eapply said_later|done]).
  split; [|split; [by etransitivity|done]]. destruct Hs1 as [Hr Hsl Hc Hh Hd Hal].
  split; cbn [note_code set_code_cache slot_cache code_cache block_hash storage_dump_cache storage_all_cache]; intros; eauto with said; [by etransitivity|].
  match goal with E : <[_ := _]> _ !! _ = Some _ |- _ => apply lookup_insert_Some in E as [[<- <-]|[_ E]] end; [done|].
  by apply (code_said_later c0 c1), Hc.
Qed.

(** A note in another table *)
Lemma note_run (f : OnChainConfig W → OnChainConfig W) c :
  endpoint_url (f c) = endpoint_url c → oc_chain_id (f c) = oc_chain_id c → block_number (f c) = block_number c →
  rpc_cache (f c) = rpc_cache c → net (f c) = net c → slot_cache (f c) = slot_cache c → code_cache (f c) = code_cache c →
  rtc io_step c (f c).
Proof. intros ? ? ? ? ? Hs Hc. apply rtc_once, io_note; try done; [by rewrite Hs|by rewrite Hc]. Qed.

Lemma hash_sourced c0 c h c' : sourced c0 c → fetch_blk_hash c = Some (h, c') →
  sourced c0 c' ∧ rtc io_step c c' ∧ hash_said c0 c' h.
Proof.
  intros Hs. unfold fetch_blk_hash. rewrite gets_run. destruct (block_hash c) as [h0|] eqn:Eh.
  { intros [= <- <-]. split; [done|]. split; [done|]. by apply (so_hash _ _ Hs). }
  rewrite gets_run. unfold mbind, io_bind. intros ([v c1] & E1 & E)%bind_Some.
  rewrite (sourced_block _ _ Hs) in E1. destruct (request_sourced _ _ _ _ _ _ Hs E1) as (Hs1 & Hr1 & _ & r & -> & Hsaid).
  apply bind_Some in E as ([h2 c2] & E2 & [= <- <-]). unfold must in E2. apply bind_Some in E2 as (h3 & E2 & [= <- <-]).
  apply bind_Some in E2 as (res & Eres & Eh3).
  assert (rtc io_step c1 (set_block_hash (Some h3) c1)) as Hrun by by apply (note_run (set_block_hash (Some h3))).
  assert (hash_said c0 (set_block_hash (Some h3) c1) h3) as Hh by (exists r, res; split; [by eapply said_later|done]).
  split; [|split; [by etransitivity|done]]. destruct Hs1 as [Hr Hsl Hc _ Hd Hal].
  split; cbn; intros; eauto with said; [by etransitivity|]. by simplify_eq.
Qed.

Lemma dump_uncached_sourced c0 c a st c' : sourced c0 c → fetch_storage_dump_uncached a c = Some (st, c') →
  sourced c0 c' ∧ rtc io_step c c' ∧ dump_said c0 c' a st.
Proof.
  intros Hs. unfold fetch_storage_dump_uncached, mbind at 1, io_bind at 1. intros ([h c1] & E1 & E)%bind_Some.
  destruct (hash_sourced _ _ _ _ Hs E1) as (Hs1 & Hr1 & Hh). unfold mbind at 1, io_bind at 1 in E. apply bind_Some in E as ([v c2] & E2 & E).
  destruct (request_sourced _ _ _ _ _ _ Hs1 E2) as (Hs2 & Hr2 & _ & r & -> & Hsaid).
  assert (∀ st, dump_result r st → dump_said c0 c2 a st) as Hres.
  { intros st' Hst. exists h, r. split; [by eapply hash_said_later|]. done. }
  cut (c' = c2 ∧ dump_result r st); [intros [-> ?]; split; [done|split; [by etransitivity|by apply Hres]]|]. clear Hres. unfold dump_result.
  destruct (json_result r) as [resp|]; [|by injection E as <- <-]. unfold mbind, io_bind, must in E.
  apply bind_Some in E as ([kvs c3] & E3 & E). apply bind_Some in E3 as (kvs' & Ek & [= -> <-]).
  destruct kvs as [|kv kvs]; cbn [length Nat.eqb] in E.
  - injection E as <- <-. split; [done|]. by exists [].
  - apply bind_Some in E as ([m c4] & E4 & [= <- <-]). apply bind_Some in E4 as (m' & Em & [= -> <-]). split; [done|].
    exists (kv :: kvs). split; [done|]. split; [done|]. exact (table_of_fold _ _ _ _ dump_entry_kv Em).
Qed.

Lemma dump_sourced c0 c a st c' : sourced c0 c → fetch_storage_dump a c = Some (st, c') →
  sourced c0 c' ∧ rtc io_step c c' ∧ dump_said c0 c' a st.
Proof.
  intros Hs. unfold fetch_storage_dump. rewrite gets_run. destruct (storage_dump_cache c !! a) as [st0|] eqn:E0.
  { intros [= <- <-]. split; [done|]. split; [done|]. by apply (so_dump _ _ Hs). }
  unfold mbind, io_bind. intros ([st1 c1] & E1 & [= <- <-])%bind_Some.
  destruct (dump_uncached_sourced _ _ _ _ _ Hs E1) as (Hs1 & Hr1 & Hd1).
  set (f := λ c : OnChainConfig W, set_storage_dump_cache (<[a := st1]> (storage_dump_cache c)) c). change (set_storage_dump_cache _ c1) with (f c1).
  assert (rtc io_step c1 (f c1)) as Hrun by by apply note_run.
  split; [|split; [by etransitivity|by eapply dump_said_later]]. destruct Hs1 as [Hr Hsl Hc Hh Hd Hal].
  split; cbn; intros; eauto with said; [by etransitivity|].
  match goal with E : <[_ := _]> _ !! _ = Some _ |- _ => apply lookup_insert_Some in E as [[<- <-]|[_ E]] end;
    [by eapply dump_said_later|by apply (dump_said_later c0 c1), Hd].
Qed.

Lemma all_uncached_sourced c0 c a st c' : sourced c0 c → fetch_storage_all_uncached a c = Some (st, c') →
  sourced c0 c' ∧ rtc io_step c c' ∧ all_said c0 c' a st.
Proof.
  intros Hs. unfold fetch_storage_all_uncached. rewrite gets_run. rewrite (sourced_block _ _ Hs). case_bool_decide as Hb; cbn [negb]; [|done].
  unfold mbind at 1, io_bind at 1. intros ([v c2] & E2 & E)%bind_Some.
  destruct (request_sourced _ _ _ _ _ _ Hs E2) as (Hs2 & Hr2 & _ & r & -> & Hsaid).
  assert (∀ st, all_result r st → all_said c0 c2 a st) as Hres by (intros st' Hst; split; [done|by exists r]).
  cut (c' = c2 ∧ all_result r st); [intros [-> ?]; split; [done|split; [done|by apply Hres]]|]. clear Hres. unfold all_result.
  destruct (json_result r) as [resp|]; [|by injection E as <- <-]. unfold mbind, io_bind, must in E.
  apply bind_Some in E as ([m c3] & E3 & [= <- <-]). apply bind_Some in E3 as (m' & Em & [= -> <-]). apply bind_Some in Em as (kvs & Ek & Em).
  split; [done|]. exists kvs, m. split; [done|]. split; [done|]. exact (table_of_fold _ _ _ _ storage_entry_kv Em).
Qed.

Lemma all_sourced c0 c a st c' : sourced c0 c → fetch_storage_all a c = Some (st, c') →
  sourced c0 c' ∧ rtc io_step c c' ∧ all_said c0 c' a st.
Proof.
  intros Hs. unfold fetch_storage_all. rewrite gets_run. destruct (storage_all_cache c !! a) as [st0|] eqn:E0.
  { intros [= <- <-]. split; [done|]. split; [done|]. by apply (so_all _ _ Hs). }
  unfold mbind, io_bind. intros ([st1 c1] & E1 & [= <- <-])%bind_Some.
  destruct (all_uncached_sourced _ _ _ _ _ Hs E1) as (Hs1 & Hr1 & Hd1).
  set (f := λ c : OnChainConfig W, set_storage_all_cache (<[a := st1]> (storage_all_cache c)) c). change (set_storage_all_cache _ c1) with (f c1).
  assert (rtc io_step c1 (f c1)) as Hrun by by apply note_run.
  split; [|split; [by etransitivity|by eapply all_said_later]]. destruct Hs1 as [Hr Hsl Hc Hh Hd Hal].
  split; cbn; intros; eauto with said; [by etransitivity|].
  match goal with E : <[_ := _]> _ !! _ = Some _ |- _ => apply lookup_insert_Some in E as [[<- <-]|[_ E]] end;
    [by eapply all_said_later|by apply (all_said_later c0 c1), Hal].
Qed.

Lemma abi_sourced c0 c a abi c' : sourced c0 c → fetch_abi a c = Some (abi, c') → sourced c0 c' ∧ rtc io_step c c'.
Proof.
  intros Hs. unfold fetch_abi. rewrite gets_run. destruct (abi_cache c !! a) as [abi0|]; [by intros [= <- <-]|].
  unfold mbind at 1, io_bind at 1. intros ([abi1 c1] & E1 & [= <- <-])%bind_Some.
  assert (sourced c0 c1 ∧ rtc io_step c c1) as [Hs1 Hr1].
  { unfold fetch_abi_uncached in E1. rewrite gets_run in E1. unfold mbind at 1, io_bind at 1 in E1. apply bind_Some in E1 as ([key c2] & E2 & E1).
    assert (sourced c0 c2 ∧ rtc io_step c c2) as [Hs2 Hr2].
    { unfold pick_api_key in E2. destruct (etherscan_api_key c); [by injection E2 as <- <-|]. destruct (random_usize (net c)) as [v w] eqn:Ew.
      apply bind_Some in E2 as (k & _ & [= <- <-]). assert (rtc io_step c (set_net w c)) as Hrun by (by eapply rtc_once, io_random).
      split; [|done]. by eapply sourced_requests. }
    unfold mbind at 1, io_bind at 1 in E1. apply bind_Some in E1 as ([resp c3] & E3 & [= _ <-]).
    destruct (cached_request_answered (lit "post_" ++ (etherscan_base c ++ lit "?module=contract&action=getabi&address=" ++ addr_debug a ++ lit "&format=json&apikey=" ++ key))
      (http_get (etherscan_base c ++ lit "?module=contract&action=getabi&address=" ++ addr_debug a ++ lit "&format=json&apikey=" ++ key)) c2)
      as (r & c4 & E4 & Ha%answered_requests). unfold get in E3. rewrite E3 in E4. injection E4 as <- <-.
    assert (rtc io_step c2 c3) as Hr3 by (by eapply rtc_once, io_get).
    split; [by eapply sourced_requests|by etransitivity]. }
  set (f := λ c : OnChainConfig W, set_abi_cache (<[a := abi1]> (abi_cache c)) c). change (set_abi_cache _ c1) with (f c1).
  assert (rtc io_step c1 (f c1)) as Hrun by by apply note_run. split; [|by etransitivity].
  destruct Hs1 as [Hr Hsl Hc Hh Hd Hal]. split; cbn; intros; eauto with said. by etransitivity.
Qed.

(** ** Contracts by address *)

(** A contract loaded by its address gets the padding of its code as code: 33 bytes, or a STOP
    where there is no code. *)
Lemma from_address_pads display l acc c cs c' :
  from_address display acc l c = Some (cs, c') →
  ∃ new, cs = acc ++ new ∧ Forall (λ info, ∃ c1 c2 code, get_contract_code (ci_deployed_address info) false c1 = Some (code, c2) ∧
    ci_code info = code ++ replicate (if decide (code = []) then 1 else 33) x00) new.
Proof.
  revert acc c. induction l as [|a l IH]; intros acc c; cbn [from_address].
  { intros [= <- _]. exists []. by rewrite app_nil_r. }
  unfold mbind at 1, io_bind at 1. destruct (load_address _ _ _ c) as [[acc1 c1]|] eqn:E; [|done].
  intros (new & -> & Hnew)%IH. unfold load_address, mbind, io_bind, must in E. apply bind_Some in E as ([[abi|] c2] & _ & E).
  - apply bind_Some in E as ([abis c3] & _ & ([code c4] & Ec & [= <- <-])%bind_Some). eexists (_ :: new). rewrite <- app_assoc.
    split; [done|]. constructor; [|done]. exists c3, c4, code. split; [done|]. unfold bytecode_bytes. cbn [ci_code]. case_decide; by subst.
  - injection E as <- <-. by exists new.
Qed.

Lemma from_address_sourced c0 display acc l c cs c' : sourced c0 c → from_address display acc l c = Some (cs, c') → sourced c0 c'.
Proof.
  revert acc c. induction l as [|a l IH]; intros acc c Hs; cbn [from_address]; [by intros [= _ <-]|].
  unfold mbind at 1, io_bind at 1. destruct (load_address _ _ _ c) as [[acc1 c1]|] eqn:E; [|done]. apply IH.
  unfold load_address, mbind, io_bind, must in E. apply bind_Some in E as ([[abi|] c2] & E2 & E).
  - apply bind_Some in E as ([abis c3] & E3 & ([code c4] & Ec & [= <- <-])%bind_Some). apply bind_Some in E3 as (? & _ & [= _ <-]).
    apply (abi_sourced c0) in E2 as [Hs2 _]; [|done]. by apply (code_sourced c0) in Ec as [? _].
  - injection E as <- <-. by apply (abi_sourced c0) in E2 as [? _].
Qed.
End chain.

(** ** A small chain *)

(** Every contract has the code [6001], every slot holds 5, the explorer knows one ABI, and
    a dump of any contract has 9 in slot 3 and 10 in slot 4. *)
Definition toy_answer (url data : str) : option str :=
  Some (if contains_str (post_key url data) (lit "eth_getCode") then lit "code"
        else if contains_str (post_key url data) (lit "eth_getBlockByNumber") then lit "block"
        else if contains_str (post_key url data) (lit "debug_storageRangeAt") then lit "dump"
        else lit "slot").
#[export] Instance toy_net : Net unit := {|
  http_get _ w := (Some (lit "abi"), w);
  http_post url data w := (toy_answer url data, w);
  hash_key s := s;
  random_usize w := (0, w);
  addr_lower_hex a := hex_encode (z2be 20 a);
  u256_lower_hex v := hex_encode (to_be_bytes v);
  u256_from_hex s := be2z <$> hex_decode s
|}.
Definition toy_entry (key value : str) : Value := VObject [(lit "key", VString key); (lit "value", VString value)].
#[export] Instance toy_chain : Outside := {|
  json_from_str s :=
    if decide (s = lit "code") then Some (VObject [(lit "result", VString (lit "0x6001"))])
    else if decide (s = lit "slot") then Some (VObject [(lit "result", VString (lit "0x05"))])
    else if decide (s = lit "block") then Some (VObject [(lit "result", VObject [(lit "hash", VString (lit "0xbb"))])])
    else if decide (s = lit "dump") then Some (VObject [(lit "result", VObject [(lit "storage",
      VObject [(lit "h1", toy_entry (lit "0x03") (lit "0x09")); (lit "h2", toy_entry (lit "0x04") (lit "0x0a"))])])])
    else if decide (s = lit "abi") then Some (VObject [(lit "result", VString (lit "functions"))])
    else Some (VArray (example_json "tuple[]"));
  glob _ := None; read_file _ := None; random_using v := v; keccak256 l := Z.of_nat (length l)
|}.

Definition toy_endpoint : OnChainConfig unit :=
  mkOnChainConfig (lit "http://node") 1 (lit "latest") None [] (lit "http://explorer") (lit "eth") ∅ ∅ ∅ ∅ ∅ ∅ ∅ ().

Lemma toy_endpoint_fresh : fresh_tables toy_endpoint.
Proof. by split. Qed.

(** A slot, the code, and both again *)
Example toy_reads :
  ('(v, c) ← get_contract_slot 7 3 false toy_endpoint; '(cd, c) ← get_contract_code 7 false c;
   '(v2, c) ← get_contract_slot 7 3 true c; '(cd2, c) ← get_contract_code 7 true c; Some (v, cd, v2, cd2, size (rpc_cache c))) =
  Some (5, [x60; x01], 5, [x60; x01], 2%nat).
Proof. vm_compute. reflexivity. Qed.

(** A node that fails twice, answers a read of the slot with an error, then with its value:
    the third try counts, and the slot is 0 for good. *)
#[local] Instance failing_net : Net nat := {|
  http_get _ w := (None, w);
  http_post _ _ w := (match w with 0%nat | 1%nat => None | 2%nat => Some (lit "error") | _ => Some (lit "slot") end, S w);
  hash_key s := s; random_usize w := (0, w);
  addr_lower_hex a := hex_encode (z2be 20 a); u256_lower_hex v := hex_encode (to_be_bytes v); u256_from_hex s := be2z <$> hex_decode s
|}.
Example failed_read_stays :
  let c := mkOnChainConfig (lit "http://node") 1 (lit "latest") None [] (lit "http://explorer") (lit "eth") ∅ ∅ ∅ ∅ ∅ ∅ ∅ 0%nat in
  ('(v, c) ← get_contract_slot 7 3 false c; '(v2, c) ← get_contract_slot 7 3 false c;
   Some (v, v2, net c, size (rpc_cache c))) = Some (0, 0, 3%nat, 0%nat).
Proof. vm_compute. reflexivity. Qed.
