(* ===== verification/OnChain.v ===== *)
(** * The on-chain middleware ([src/src/evm/onchain/onchain.rs])

    Before a storage read the middleware fetches the slot from the chain, and before a call
    it fetches the code and the ABI of the callee: the code is handed to the host, and every
    new function becomes an input.  For delegate calls the functions belong to the caller,
    a proxy.  The feature [force_cache] is off. *)
From S2P Require Import Prelude Types Revm State SrcMap F64 Expr Abi AbiLayout AbiParse Corpus Scheduler I256 Tracer Evm Host HostCall Bytecode Vm InputMutate Replay FuzzerLoop Uniswap Loader CorpusInit Endpoints.
#[local] Open Scope Z_scope.

(** [enum StorageFetchingMode] and its [from_str] *)
Inductive StorageFetchingMode := Dump | All | OneByOne.
Definition fetching_mode_from_str (s : str) : option StorageFetchingMode :=
  if decide (s = lit "dump") then Some Dump
  else if decide (s = lit "all") then Some All
  else if decide (s = lit "onebyone") then Some OneByOne
  else None.

(** [struct OnChain] *)
Record OnChain (W : Type) := mkOnChain {
  loaded_code : gset Z;
  loaded_abi : gset Z;
  endpoint : OnChainConfig W;
  oc_blacklist : gset Z;
  storage_fetching : StorageFetchingMode;
  storage_all : gmap Z (gmap str EVMU256);
  storage_dump : gmap Z (gmap Z EVMU256)
}.
Arguments mkOnChain {W}.
Arguments loaded_code {W}.
Arguments loaded_abi {W}.
Arguments endpoint {W}.
Arguments oc_blacklist {W}.
Arguments storage_fetching {W}.
Arguments storage_all {W}.
Arguments storage_dump {W}.

Definition set_endpoint {W} e (o : OnChain W) : OnChain W :=
  mkOnChain (loaded_code o) (loaded_abi o) e (oc_blacklist o) (storage_fetching o) (storage_all o) (storage_dump o).
Definition set_loaded {W} code abi (o : OnChain W) : OnChain W :=
  mkOnChain code abi (endpoint o) (oc_blacklist o) (storage_fetching o) (storage_all o) (storage_dump o).
Definition set_storage_all {W} m (o : OnChain W) : OnChain W :=
  mkOnChain (loaded_code o) (loaded_abi o) (endpoint o) (oc_blacklist o) (storage_fetching o) m (storage_dump o).
Definition set_storage_dump {W} m (o : OnChain W) : OnChain W :=
  mkOnChain (loaded_code o) (loaded_abi o) (endpoint o) (oc_blacklist o) (storage_fetching o) (storage_all o) m.

(** [host.next_slot = v] *)
Definition set_next_slot (v : EVMU256) (h : FuzzHost) : FuzzHost :=
  mkFuzzHost (evmstate h) v (edge_hashmap h) (ins_hashmap h) (coverage_changed h) (host_pc h) (access_pattern h)
    (jmp_map h) (read_map h) (write_map h) (cmp_map h) (state_change h) (branch_distance h) (ret_offset h) (ret_size h)
    (explored_ins h) (explored_edge h).

(** A function that heimdall's decompiler found, with the names of its arguments' types *)
Record HeimdallFunction := mkHeimdallFunction { hf_name : str; hf_inputs : list str; hf_mutability : str }.

Section onchain.
Context {W R C : Type} `{Net W} `{Rand R} `{TxnCorpus C} `{Outside} `{Formats}.
Abbreviation S := (EVMFuzzState R C).
(** The scheduler of inputs, and [decompile_with_bytecode] of heimdall, on code with its padding,
    as [contract_code.bytes()] gives it; entries that are no functions are [None] *)
Context (scheduler_on_add : Z → S → option S) (decompile : list byte → list (option HeimdallFunction)).
Implicit Types (o : OnChain W) (h : VMHost Env) (s : S).

(** A read of the chain *)
Definition asking {A} (m : io W A) o : option (A * OnChain W) :=
  '(a, e) ← m (endpoint o); Some (a, set_endpoint e o).

(** [keccak_hex] *)
Definition keccak_hex (data : EVMU256) : str := hex_encode (to_be_bytes (keccak256 (to_be_bytes data))).

(** ** Storage *)

(** [slot_val!] with [load_data!] *)
Definition slot_val (address : EVMAddress) (slot_idx : EVMU256) o : option (EVMU256 * OnChain W) :=
  match storage_fetching o with
  | Dump =>
      o ← match storage_dump o !! address with
          | Some _ => Some o
          | None => '(storage, o) ← asking (fetch_storage_dump address) o;
                    Some (match storage with Some m => set_storage_dump (<[address := m]> (storage_dump o)) o | None => o end)
          end;
      match storage_dump o !! address with
      | Some v => Some (default 0 (v !! slot_idx), o)
      | None => asking (get_contract_slot address slot_idx false) o
      end
  | All =>
      let key := keccak_hex slot_idx in
      o ← match storage_all o !! address with
          | Some _ => Some o
          | None => '(storage, o) ← asking (fetch_storage_all address) o;
                    Some (match storage with Some m => set_storage_all (<[address := m]> (storage_all o)) o | None => o end)
          end;
      match storage_all o !! address with
      | Some v => Some (default 0 (v !! key), o)
      | None => asking (get_contract_slot address slot_idx false) o
      end
  | OneByOne => asking (get_contract_slot address slot_idx false) o
  end.

(** The arm of SLOAD *)
Definition on_sload (i : Interpreter) o h s : option (OnChain W * VMHost Env * S) :=
  slot_idx ← fast_peek (view i) 0;
  '(v, o) ← slot_val (cc_address (ct_context (contract i))) slot_idx o;
  Some (o, set_core (set_next_slot v (core h)) h, s).

(** ** Code and functions *)

(** [fetch_abi_heimdall] of [abi_decompiler.rs]: unresolved functions are named after their selector. *)
Definition heimdall_config (f : HeimdallFunction) : option ABIConfig :=
  let inputs := map (λ ty, if decide (ty = lit "bytes") then lit "unknown" else ty) (hf_inputs f) in
  let name := replace_all (hf_name f) (lit "Unresolved_") in
  b ← hex_decode name;
  function ← match b with [a; b; c; d] => Some (Sel a b c d) | _ => None end;
  Some (mkABIConfig (lit "(" ++ join inputs ++ lit ")") function name
    (bool_decide (hf_mutability f = lit "view")) (bool_decide (hf_mutability f = lit "payable")) false).
Definition fetch_abi_heimdall (bytecode : list byte) : option (list ABIConfig) :=
  mapM_opt heimdall_config (somes (decompile bytecode)).

(** The functions that are new: for a proxy, those its caller does not have yet *)
Definition new_hashes (is_proxy_call : bool) (caller : EVMAddress) (parsed_abi : list ABIConfig) h : gset (list byte) :=
  let all : gset (list byte) := list_to_set (map (λ abi, sel_bytes (ac_function abi)) parsed_abi) in
  if is_proxy_call then all ∖ list_to_set (default [] (address_to_hash h !! caller)) else all.

(** [add_one_hashes] for every missing one, or [add_hashes] *)
Definition note_hashes (is_proxy_call : bool) (caller address : EVMAddress) (parsed_abi : list ABIConfig) h : VMHost Env :=
  if is_proxy_call
  then fold_left (λ h hash, add_one_hashes caller hash h) (elements (new_hashes true caller parsed_abi h)) h
  else add_hashes address (map (λ abi, sel_bytes (ac_function abi)) parsed_abi) h.

(** The closure that adds the input of a function *)
Definition add_function (target : EVMAddress) (x : S * gmap (list byte) str) (abi : ABIConfig) : option (S * gmap (list byte) str) :=
  let '(s, sigs) := x in
  if ac_is_static abi then Some (s, sigs)
  else
    abi_instance ← get_abi_type_boxed (ac_abi abi);
    let '(abi_instance, sigs) := set_func_with_name abi_instance (ac_function abi) (ac_function_name abi) sigs in
    '(caller, s) ← rand_caller s;
    s ← add_input_to_corpus scheduler_on_add (initial_input caller target (Some abi_instance)
          (if ac_is_payable abi then Some 0 else None)) s;
    Some (s, sigs).

(** Setting up the functions of a contract *)
Definition setup_abi (is_proxy_call : bool) (caller address : EVMAddress) (parsed_abi : list ABIConfig) h (x : S * gmap (list byte) str)
  : option (VMHost Env * S * gmap (list byte) str) :=
  let hashes := new_hashes is_proxy_call caller parsed_abi h in
  let h := note_hashes is_proxy_call caller address parsed_abi h in
  let target := if is_proxy_call then caller else address in
  let '(s, sigs) := x in
  let s := on_fuzz (λ f, add_address f target) s in
  '(s, sigs) ← foldM (add_function target) (s, sigs)
    (filter (λ abi, ac_is_constructor abi = false ∧ sel_bytes (ac_function abi) ∈ hashes) parsed_abi);
  Some (h, s, sigs).

(** The arms of calls and of EXTCODESIZE and EXTCODECOPY *)
Definition on_call (op : Z) (i : Interpreter) o h s (sigs : gmap (list byte) str)
  : option (OnChain W * VMHost Env * S * gmap (list byte) str) :=
  let caller := cc_address (ct_context (contract i)) in
  address ← fast_peek (view i) (if (op =? 0x3b) || (op =? 0x3c) then 0 else 1);
  address ← convert_u256_to_h160 address;
  if bool_decide (address ∈ loaded_abi o) then Some (o, h, s, sigs)
  else
    '(contract_code, o) ← asking (get_contract_code address false) o;
    if bool_decide (contract_code = []) then
      Some (set_loaded ({[address]} ∪ loaded_code o) ({[address]} ∪ loaded_abi o) o, h, s, sigs)
    else
      let '(h, s) := if negb (bool_decide (address ∈ loaded_code o)) && negb (bool_decide (is_Some (code h !! address)))
                     then (set_codedata address contract_code h, analyse contract_code s) else (h, s) in
      if is_fast_call h || bool_decide (address ∈ oc_blacklist o) || (op =? 0x3b) || (op =? 0x3c) then Some (o, h, s, sigs)
      else
        let o := set_loaded (loaded_code o) ({[address]} ∪ loaded_abi o) o in
        let is_proxy_call := (op =? 0xf2) || (op =? 0xf4) in
        '(abi, o) ← asking (fetch_abi address) o;
        parsed_abi ← match abi with Some abi => parse_abi_str abi | None => fetch_abi_heimdall (padded contract_code) end;
        '(h, s, sigs) ← setup_abi is_proxy_call caller address parsed_abi h (s, sigs);
        Some (o, h, s, sigs).

(** [on_step] *)
Definition onchain_on_step (i : Interpreter) o h s (sigs : gmap (list byte) str)
  : option (OnChain W * VMHost Env * S * gmap (list byte) str) :=
  let op := opcode (view i) in
  if op =? 0x54 then '(o, h, s) ← on_sload i o h s; Some (o, h, s, sigs)
  else if bool_decide (op ∈ [0xf1; 0xf2; 0xf4; 0xfa; 0x3b; 0x3c]) then on_call op i o h s sigs
  else Some (o, h, s, sigs).

(** [add_blacklist]; the static [BLACKLIST_ADDR] is [global]. *)
Definition add_blacklist (address : EVMAddress) (global : gset Z) o : gset Z * OnChain W :=
  ({[address]} ∪ global,
   mkOnChain (loaded_code o) (loaded_abi o) (endpoint o) ({[address]} ∪ oc_blacklist o) (storage_fetching o)
     (storage_all o) (storage_dump o)).
End onchain.
