(* ===== verification/OnChainProps.v ===== *)
(** * What the on-chain middleware brings in

    A storage read sees the chain below the writes of the campaign, and a called contract
    is loaded once, with exactly the inputs of its new functions. *)
From S2P Require Import Prelude Types Revm State MutationUtils SrcMap F64 Expr Abi AbiLayout AbiParse Corpus Scheduler SchedulerInv I256 Tracer Evm Host HostProps HostCall HostCallProps Bytecode Vm InputMutate InputMutateProps Replay ReplayProps FuzzerLoop FuzzerProps Uniswap Loader LoaderProps CorpusInit CorpusInitProps Endpoints EndpointsProps OnChain.
#[local] Open Scope Z_scope.

Section onchain.
Context {W R C : Type} `{Net W} `{Libafl R} `{!RandLaws R} `{!LibaflLaws R} `{HashOrder} `{VecCorpus C} `{Outside} `{Formats}.
Abbreviation S := (EVMFuzzState R C).
Context (scheduler_on_add : Z → S → option S) (decompile : list byte → list (option HeimdallFunction)).
Context `{!SchedOk scheduler_on_add}.
Implicit Types (o : OnChain W) (h : VMHost Env) (s : S) (c : OnChainConfig W).
Abbreviation on_step := (onchain_on_step scheduler_on_add decompile).

(** ** Storage *)

(** The value of a slot that the node gave in the run from [c0] to [c]: to a request for the
    slot, or, when whole contracts are fetched and the node gave the contract, the entry of
    the slot in that, 0 when it has none *)
Definition node_value c0 c (mode : StorageFetchingMode) (a : EVMAddress) (slot v : EVMU256) : Prop :=
  match mode with
  | OneByOne => slot_said c0 c a slot v
  | Dump => ∃ st, dump_said c0 c a st ∧
      match st with Some m => v = default 0 (m !! slot) | None => slot_said c0 c a slot v end
  | All => ∃ st, all_said c0 c a st ∧
      match st with Some m => v = default 0 (m !! keccak_hex slot) | None => slot_said c0 c a slot v end
  end.

(** The tables of the middleware came from the node. *)
Record onchain_sourced c0 o : Prop := mkOnchainSourced {
  os_endpoint : sourced c0 (endpoint o);
  os_dump a m : storage_dump o !! a = Some m → dump_said c0 (endpoint o) a (Some m);
  os_all a m : storage_all o !! a = Some m → all_said c0 (endpoint o) a (Some m)
}.

(** A read that keeps the tables of the configuration *)
Lemma asking_sourced {A} (m : io W A) (Q : OnChainConfig W → A → Prop) c0 o a o' :
  (∀ c a c', sourced c0 c → m c = Some (a, c') → sourced c0 c' ∧ rtc io_step c c' ∧ Q c' a) →
  onchain_sourced c0 o → asking m o = Some (a, o') →
  onchain_sourced c0 o' ∧ rtc io_step (endpoint o) (endpoint o') ∧ Q (endpoint o') a ∧
  storage_fetching o' = storage_fetching o ∧ storage_dump o' = storage_dump o ∧ storage_all o' = storage_all o.
Proof.
  intros Hm [Hs Hd Ha]. unfold asking. intros ([a1 e] & E & [= <- <-])%bind_Some.
  destruct (Hm _ _ _ Hs E) as (Hs1 & Hr & HQ). split_and!; try done. split; [done|..]; intros ? ? Hl; cbn in *.
  - by eapply dump_said_later, Hd.
  - by eapply all_said_later, Ha.
Qed.

Lemma asking_slot c0 a slot o v o' : onchain_sourced c0 o → asking (get_contract_slot a slot false) o = Some (v, o') →
  onchain_sourced c0 o' ∧ rtc io_step (endpoint o) (endpoint o') ∧ slot_said c0 (endpoint o') a slot v ∧
  storage_fetching o' = storage_fetching o ∧ storage_dump o' = storage_dump o ∧ storage_all o' = storage_all o.
Proof.
  apply (asking_sourced _ (λ c v, slot_said c0 c a slot v)). intros c v1 c' Hs E. by apply slot_sourced.
Qed.

Lemma slot_val_sourced c0 a slot o v o' : onchain_sourced c0 o → slot_val a slot o = Some (v, o') →
  onchain_sourced c0 o' ∧ storage_fetching o' = storage_fetching o ∧ node_value c0 (endpoint o') (storage_fetching o) a slot v.
Proof.
  intros Hs. unfold slot_val, node_value. destruct (storage_fetching o) eqn:Em.
  - intros (o1 & E1 & E2)%bind_Some.
    assert (∃ st, onchain_sourced c0 o1 ∧ storage_fetching o1 = Dump ∧ dump_said c0 (endpoint o1) a st ∧ storage_dump o1 !! a = st)
      as (st & Hs1 & Em1 & Hd & Est).
    { destruct (storage_dump o !! a) as [m|] eqn:Ed; [injection E1 as <-; exists (Some m); split_and!; try done; by apply (os_dump _ _ Hs)|].
      apply bind_Some in E1 as ([st o2] & E & [= <-]).
      destruct (asking_sourced (fetch_storage_dump a) (λ c st, dump_said c0 c a st) c0 o st o2) as (Hs2 & Hr & Hd & Em2 & Ed2 & Ea2); [|done..|].
      { intros c st1 c' Hc Ef. by apply dump_sourced. }
      exists st. destruct st as [m|]; [|rewrite Ed2, Em2, Ed; done]. split_and!; [|by rewrite <- Em|done|apply lookup_insert_eq].
      destruct Hs2 as [He Hdump Hall]. split; [done| |done]. intros a' m'. cbn. intros [[<- <-]|[_ ?]]%lookup_insert_Some; [done|by apply Hdump]. }
    rewrite Est in E2. destruct st as [m|].
    + injection E2 as <- <-. split; [done|]. split; [done|]. by exists (Some m).
    + apply (asking_slot c0) in E2 as (Hs2 & Hr & Hv & Em2 & _); [|done]. split; [done|]. split; [congruence|].
      exists None. split; [by eapply dump_said_later|done].
  - intros (o1 & E1 & E2)%bind_Some.
    assert (∃ st, onchain_sourced c0 o1 ∧ storage_fetching o1 = All ∧ all_said c0 (endpoint o1) a st ∧ storage_all o1 !! a = st)
      as (st & Hs1 & Em1 & Hd & Est).
    { destruct (storage_all o !! a) as [m|] eqn:Ed; [injection E1 as <-; exists (Some m); split_and!; try done; by apply (os_all _ _ Hs)|].
      apply bind_Some in E1 as ([st o2] & E & [= <-]).
      destruct (asking_sourced (fetch_storage_all a) (λ c st, all_said c0 c a st) c0 o st o2) as (Hs2 & Hr & Hd & Em2 & Ed2 & Ea2); [|done..|].
      { intros c st1 c' Hc Ef. by apply all_sourced. }
      exists st. destruct st as [m|]; [|rewrite Ea2, Em2, Ed; done]. split_and!; [|by rewrite <- Em|done|apply lookup_insert_eq].
      destruct Hs2 as [He Hdump Hall]. split; [done|done|]. intros a' m'. cbn. intros [[<- <-]|[_ ?]]%lookup_insert_Some; [done|by apply Hall]. }
    rewrite Est in E2. destruct st as [m|].
    + injection E2 as <- <-. split; [done|]. split; [done|]. by exists (Some m).
    + apply (asking_slot c0) in E2 as (Hs2 & Hr & Hv & Em2 & _); [|done]. split; [done|]. split; [congruence|].
      exists None. split; [by eapply all_said_later|done].
  - intros (Hs2 & _ & Hv & Em2 & _)%(asking_slot c0); [|done]. split; [done|]. split; [congruence|done].
Qed.

(** A step of the middleware before any instruction *)
Inductive mw_step o o' : Prop :=
| mw_step_intro i h s sigs h' s' sigs' : on_step i o h s sigs = Some (o', h', s', sigs') → mw_step o o'.

Lemma mw_step_sourced c0 o o' : onchain_sourced c0 o → mw_step o o' → onchain_sourced c0 o' ∧ storage_fetching o' = storage_fetching o.
Proof.
  intros Hs [i h s sigs h' s' sigs' E]. unfold onchain_on_step in E. destruct (_ =? 0x54).
  { apply bind_Some in E as ([[o1 h1] s1] & E & [= <- _ _ _]). unfold on_sload in E. apply bind_Some in E as (slot & _ & E).
    apply bind_Some in E as ([v o2] & E & [= <- _ _]). by apply (slot_val_sourced c0) in E as (? & ? & _). }
  destruct (bool_decide _); [|by injection E as <- _ _ _]. unfold on_call in E.
  apply bind_Some in E as (w & _ & E). apply bind_Some in E as (a & _ & E). destruct (bool_decide _); [by injection E as <- _ _ _|].
  apply bind_Some in E as ([cd o1] & E1 & E).
  apply (asking_sourced _ (λ c cd, code_said c0 c a cd) c0) in E1 as (Hs1 & _ & _ & Em1 & _); [| |done].
  2: { intros c cd1 c' Hc Ec. by apply code_sourced. }
  assert (∀ lc la, onchain_sourced c0 (set_loaded lc la o1)) as Hl by (intros lc la; destruct Hs1; by split).
  destruct (bool_decide _); [by injection E as <- _ _ _|]. destruct (if _ && _ then _ else _) as [h1 s1].
  destruct (_ || _); [by injection E as <- _ _ _|].
  apply bind_Some in E as ([abi o2] & E2 & E).
  apply (asking_sourced _ (λ c abi, True) c0) in E2 as (Hs2 & _ & _ & Em2 & _); [| |done].
  2: { intros c abi1 c' Hc Ec. by destruct (abi_sourced _ _ _ _ _ Hc Ec). }
  apply bind_Some in E as (abis & _ & E). apply bind_Some in E as ([[h2 s2] sigs2] & _ & [= <- _ _ _]).
  split; [done|]. by rewrite Em2.
Qed.
Lemma mw_run_sourced c0 o o' : onchain_sourced c0 o → rtc mw_step o o' → onchain_sourced c0 o' ∧ storage_fetching o' = storage_fetching o.
Proof.
  intros Hs Hr. revert Hs. induction Hr as [|x y z Hstep _ IH]; intros Hs; [done|].
  destruct (mw_step_sourced _ _ _ Hs Hstep) as [Hy <-]. by apply IH.
Qed.

(** C26. A storage read sees the chain below the campaign's own writes.  Let the
    configuration of the chain start with empty tables, load the targets by their
    addresses, if there are such, and then be the middleware's, which runs before any
    instructions.  After it ran before an SLOAD,
    the host's [sload] of the slot gives the value that the VM state holds, if the slot was
    written, and otherwise what the node said: at some moment of this run it was asked for
    this contract's slot at the configured block, and the value is its answer, decoded; or,
    when whole contracts are fetched, it was asked for this contract (at the hash it gave
    for the block, or at the latest block), and the value is that of the last entry of the
    answer whose key is the slot (or the hash of the slot), 0 when there is none; only
    where it gave no such contract, the slot was asked for.  Nothing else of the host or of
    the fuzzer's state changes. *)
Theorem sload_sees_chain c0 display addresses contracts o0 i o h s sigs o' h' s' sigs' slot :
  fresh_tables c0 → from_address display [] addresses c0 = Some (contracts, endpoint o0) →
  storage_dump o0 = ∅ → storage_all o0 = ∅ → rtc mw_step o0 o →
  opcode (view i) = 0x54 → fast_peek (view i) 0 = Some slot → on_step i o h s sigs = Some (o', h', s', sigs') →
  let a := cc_address (ct_context (contract i)) in
  ∃ v, node_value c0 (endpoint o') (storage_fetching o0) a slot v ∧
    sload (core h') a slot = default v (account ← es_state (evmstate (core h)) !! a; account !! slot) ∧
    evmstate (core h') = evmstate (core h) ∧ code h' = code h ∧ s' = s ∧ sigs' = sigs.
Proof.
  intros Hf Hload Hd Ha Hrun Hop Hslot. assert (onchain_sourced c0 o0) as Hs0.
  { split; [by eapply from_address_sourced, Hload; apply fresh_sourced|..]; intros a m; rewrite ?Hd, ?Ha, lookup_empty; done. }
  destruct (mw_run_sourced _ _ _ Hs0 Hrun) as [Hs Em]. unfold onchain_on_step. rewrite Hop. cbv zeta. change (0x54 =? 0x54) with true. cbv iota.
  intros ([[o1 h1] s1] & E & [= <- <- <- <-])%bind_Some. unfold on_sload in E. rewrite Hslot, obind_Some in E.
  apply bind_Some in E as ([v o2] & E & [= <- <- <-]). apply (slot_val_sourced c0) in E as (_ & _ & Hv); [|done].
  rewrite Em in Hv. exists v. split; [exact Hv|]. done.
Qed.

(** ** Called contracts *)

Abbreviation targets_of target abis := (map (λ abi : ABIConfig, (target, Some abi)) (filter (λ abi, ac_is_static abi = false) abis)).

Lemma add_function_spec target s sigs abi s' sigs' : add_function scheduler_on_add target (s, sigs) abi = Some (s', sigs') →
  steady s s' ∧ ∃ new, stored s' = stored s ++ new ∧
    Forall2 (target_input (callers_pool (ef_fuzz s))) (if ac_is_static abi then [] else [(target, Some abi)]) new.
Proof.
  unfold add_function. intros E. destruct (ac_is_static abi).
  { injection E as <- _. split; [done|]. exists []. by rewrite app_nil_r. }
  apply bind_Some in E as (inst & Ei & E). cbv beta iota delta [set_func_with_name] in E.
  apply bind_Some in E as ([caller s1] & (Hin & Hst & Hc & _)%rand_caller_pool & E). apply bind_Some in E as (s2 & E2 & [= <- _]).
  apply add_input_stored in E2 as (Hl & Hst2 & _); [|done]. rewrite Hc in Hl.
  split; [by etransitivity|]. eexists. split; [exact Hl|]. constructor; [|constructor].
  exists caller. split; [exact Hin|]. unfold get_abi_type_boxed in Ei. apply bind_Some in Ei as (b & Hb & [= <-]). by exists b.
Qed.

Lemma add_functions_spec target abis s sigs s' sigs' : foldM (add_function scheduler_on_add target) (s, sigs) abis = Some (s', sigs') →
  steady s s' ∧ ∃ new, stored s' = stored s ++ new ∧ Forall2 (target_input (callers_pool (ef_fuzz s))) (targets_of target abis) new.
Proof.
  revert s sigs. induction abis as [|abi abis IH]; intros s sigs; cbn [foldM].
  { intros [= <- _]. split; [done|]. exists []. by rewrite app_nil_r. }
  intros ([s1 sigs1] & (Hst & new1 & Hl1 & Hn1)%add_function_spec & (Hst2 & new2 & Hl2 & Hn2)%IH)%bind_Some. split; [by etransitivity|].
  exists (new1 ++ new2). rewrite Hl2, Hl1, app_assoc. split; [done|]. rewrite (sd_callers _ _ Hst) in Hn2.
  assert (targets_of target (abi :: abis) = (if ac_is_static abi then [] else [(target, Some abi)]) ++ targets_of target abis) as ->.
  { rewrite filter_cons. destruct (ac_is_static abi); [by rewrite decide_False by done|by rewrite decide_True by done]. }
  by apply Forall2_app.
Qed.

(** The functions of a contract that get an input *)
Definition new_functions (is_proxy_call : bool) (caller : EVMAddress) (parsed_abi : list ABIConfig) h : list ABIConfig :=
  filter (λ abi, ac_is_constructor abi = false ∧ sel_bytes (ac_function abi) ∈ new_hashes is_proxy_call caller parsed_abi h) parsed_abi.

Lemma note_hashes_setcode b caller a abis h : setcode_data (note_hashes b caller a abis h) = setcode_data h.
Proof.
  unfold note_hashes. destruct b; [|done]. generalize (elements (new_hashes true caller abis h)). intros l. revert h.
  induction l as [|x l IH]; intros h; [done|]. cbn [fold_left]. by rewrite IH.
Qed.

Lemma setup_abi_spec b caller a abis h s sigs h' s' sigs' :
  setup_abi scheduler_on_add b caller a abis h (s, sigs) = Some (h', s', sigs') →
  setcode_data h' = setcode_data h ∧ ef_infant s' = ef_infant s ∧
  ∃ new, stored s' = stored s ++ new ∧
    Forall2 (target_input (callers_pool (ef_fuzz s))) (targets_of (if b then caller else a) (new_functions b caller abis h)) new.
Proof.
  unfold setup_abi. set (target := if b then caller else a) in *.
  intros ([s1 sigs1] & E & [= <- <- _])%bind_Some. split; [apply note_hashes_setcode|].
  assert (callers_pool (ef_fuzz (on_fuzz (λ f, add_address f target) s)) = callers_pool (ef_fuzz s)) as Hp.
  { cbn. unfold add_address. by case_decide. }
  apply add_functions_spec in E as (Hst & new & Hl' & Hn). split; [apply (sd_infant _ _ Hst)|].
  exists new. split; [exact Hl'|]. rewrite Hp in Hn. exact Hn.
Qed.

(** The opcodes of calls *)
Lemma call_cases (op : Z) : op ∈ [0xf1; 0xf2; 0xf4; 0xfa] → op = 0xf1 ∨ op = 0xf2 ∨ op = 0xf4 ∨ op = 0xfa.
Proof. rewrite !elem_of_cons, elem_of_nil. naive_solver. Qed.
Lemma call_arm op : op ∈ [0xf1; 0xf2; 0xf4; 0xfa] → ∀ {A} (x y z : A),
  (if op =? 0x54 then x else if bool_decide (op ∈ [0xf1; 0xf2; 0xf4; 0xfa; 0x3b; 0x3c]) then y else z) = y.
Proof. by intros [->|[->|[->| ->]]]%call_cases. Qed.
Lemma call_operand op : op ∈ [0xf1; 0xf2; 0xf4; 0xfa] → (if (op =? 0x3b) || (op =? 0x3c) then 0%nat else 1%nat) = 1%nat.
Proof. by intros [->|[->|[->| ->]]]%call_cases. Qed.
Lemma call_not_ext op : op ∈ [0xf1; 0xf2; 0xf4; 0xfa] → (op =? 0x3b) = false ∧ (op =? 0x3c) = false.
Proof. by intros [->|[->|[->| ->]]]%call_cases. Qed.

(** What the middleware does to the fuzzer's state: it may add inputs that wait. *)
Lemma onchain_grows i o h s sigs o' h' s' sigs' : on_step i o h s sigs = Some (o', h', s', sigs') → grows s s'.
Proof.
  unfold onchain_on_step. destruct (_ =? 0x54).
  { intros ([[o1 h1] s1] & E & [= _ _ <- _])%bind_Some. unfold on_sload in E. apply bind_Some in E as (slot & _ & E).
    by apply bind_Some in E as ([v o2] & _ & [= _ _ <-]). }
  destruct (bool_decide _); [|by intros [= _ _ <- _]]. unfold on_call.
  intros (w & _ & (a & _ & E)%bind_Some)%bind_Some. destruct (bool_decide _); [by injection E as _ _ <- _|].
  apply bind_Some in E as ([cd o1] & _ & E). destruct (bool_decide _); [by injection E as _ _ <- _|].
  destruct (if _ && _ then _ else _) as [h1 s1] eqn:E1. assert (grows s s1) as Hg.
  { destruct (_ && _); injection E1 as _ <-; [|done]. split; [by apply appended_eq|done]. }
  destruct (_ || _); [by injection E as _ _ <- _|].
  apply bind_Some in E as ([abi o2] & _ & E). apply bind_Some in E as (abis & _ & E).
  apply bind_Some in E as ([[h2 s2] sigs2] & (_ & Hi & new & Hl & Hn%target_inputs_waiting)%setup_abi_spec & [= _ _ <- _]).
  etransitivity; [exact Hg|]. split; [by exists new|exact Hi].
Qed.

(** C27. A contract that is called for the first time is loaded as the chain has it, and
    once.  When the middleware runs before a call to an address it has not loaded, for
    which the read of the chain gives code, outside static evaluations and the blacklist,
    the code is handed to the host unless the host has code there; and for the functions
    of the ABI that the explorer has, or else the decompiler found, the corpus gains, behind
    what it holds and in their order, exactly one input for each that is neither the
    constructor nor a view: to the callee, or, for a delegate call, to the caller and only
    for selectors the caller did not have.  Afterwards no call to the address changes
    anything. *)
Theorem called_contract_loaded i o h s sigs o' h' s' sigs' word a cd e1 :
  let op := opcode (view i) in
  let caller := cc_address (ct_context (contract i)) in
  let proxy := (op =? 0xf2) || (op =? 0xf4) in
  op ∈ [0xf1; 0xf2; 0xf4; 0xfa] → fast_peek (view i) 1 = Some word → convert_u256_to_h160 word = Some a →
  a ∉ loaded_abi o → get_contract_code a false (endpoint o) = Some (cd, e1) → cd ≠ [] → is_fast_call h = false → a ∉ oc_blacklist o →
  on_step i o h s sigs = Some (o', h', s', sigs') →
  ∃ e2 abi abis new,
    fetch_abi a e1 = Some (abi, e2) ∧
    match abi with Some text => parse_abi_str text | None => fetch_abi_heimdall decompile (padded cd) end = Some abis ∧
    (code h !! a = None → a ∉ loaded_code o → setcode_data h' !! a = Some cd) ∧
    stored s' = stored s ++ new ∧
    Forall2 (target_input (callers_pool (ef_fuzz s))) (targets_of (if proxy then caller else a) (new_functions proxy caller abis h)) new ∧
    ∀ i2 word2 h2 s2 sigs2, opcode (view i2) ∈ [0xf1; 0xf2; 0xf4; 0xfa] → fast_peek (view i2) 1 = Some word2 →
      convert_u256_to_h160 word2 = Some a → on_step i2 o' h2 s2 sigs2 = Some (o', h2, s2, sigs2).
Proof.
  intros op caller proxy Hop Hw Ha Hnew Hcd Hne Hfast Hbl E. unfold onchain_on_step in E. fold op in E.
  rewrite (call_arm op Hop) in E. unfold on_call in E. rewrite (call_operand op Hop), Hw, obind_Some, Ha, obind_Some in E.
  assert (asking (get_contract_code a false) o = Some (cd, set_endpoint e1 o)) as Hask by (unfold asking; by rewrite Hcd).
  rewrite bool_decide_eq_false_2 in E by done. rewrite Hask, obind_Some in E.
  rewrite bool_decide_eq_false_2 in E by done. cbn [set_endpoint loaded_code loaded_abi oc_blacklist endpoint] in E.
  match type of E with context [if ?b then (set_codedata a cd h, ?s1) else _] =>
    set (fresh := b) in E; set (h1 := if fresh then set_codedata a cd h else h); set (st1 := if fresh then s1 else s) end.
  replace (if fresh then _ else _) with (h1, st1) in E by (by destruct fresh). cbv beta iota in E.
  assert (is_fast_call h1 = false) as Hfast1 by (by destruct fresh).
  rewrite Hfast1, (bool_decide_eq_false_2 (a ∈ oc_blacklist o)) in E by done.
  destruct (call_not_ext op Hop) as [E3b E3c]. rewrite E3b, E3c in E. cbn [orb] in E.
  apply bind_Some in E as ([abi o2] & E2 & E). unfold asking in E2. apply bind_Some in E2 as ([abi2 e2] & E2 & [= -> <-]).
  cbn [set_loaded set_endpoint endpoint] in E2. apply bind_Some in E as (abis & Hp & E).
  apply bind_Some in E as ([[h2 s2] sigs2] & E3 & [= <- <- <- _]).
  assert (stored st1 = stored s ∧ callers_pool (ef_fuzz st1) = callers_pool (ef_fuzz s)) as [Hl1 Hp1] by (unfold st1; by destruct fresh).
  assert (new_hashes proxy caller abis h1 = new_hashes proxy caller abis h) as Hh by (by unfold h1; destruct fresh).
  apply setup_abi_spec in E3 as (Hsc & _ & new & Hl' & Hn). rewrite Hl1 in Hl'. rewrite Hp1 in Hn. unfold new_functions in *.
  fold proxy caller in Hn. rewrite Hh in Hn.
  exists e2, abi, abis, new. split; [done|]. split; [done|]. split_and!; [|done|done|].
  - intros Hc Hlc. assert (fresh = true) as Hfr.
    { unfold fresh. rewrite !bool_decide_eq_false_2; [done|rewrite Hc; by intros [? ?]|done]. }
    rewrite Hsc. unfold h1. rewrite Hfr. apply lookup_insert_eq.
  - intros i2 word2 h3 s3 sigs3 Hop2 Hw2 Ha2. unfold onchain_on_step. rewrite (call_arm _ Hop2). unfold on_call.
    rewrite (call_operand _ Hop2), Hw2, obind_Some, Ha2, obind_Some. rewrite bool_decide_eq_true_2; [done|]. cbn. set_solver.
Qed.
End onchain.

(** ** A call and a read on the small chain *)

Abbreviation toy_os := (EVMFuzzState Z (list EVMInput)).
#[local] Instance note_nothing_ok : SchedOk (λ _ (s : toy_os), Some s).
Proof. split. by intros idx s s' [= <-]. Qed.

Definition toy_onchain (mode : StorageFetchingMode) : OnChain unit := mkOnChain ∅ ∅ toy_endpoint ∅ mode ∅ ∅.
(** An instruction of contract 8, with operands *)
Definition toy_interp (op : byte) (stack : list Z) : Interpreter :=
  mkInterpreter 0 Continue [] (reverse stack) [] (0, 0) false (mkContract [] [op] (mkCallContext 8 9 8 0 SchemeCall)).
Definition toy_onchain_step (mode : StorageFetchingMode) (op : byte) (stack : list Z) :=
  onchain_on_step (λ _ s, Some s) (λ _, []) (toy_interp op stack) (toy_onchain mode) (i_host toy_init) (i_state toy_init) ∅.

(** Slot 3: its own answer, and the entry of the dump *)
Lemma toy_sload_observed :
  (λ '(o, h, s, sigs), sload (core h) 8 3) <$> toy_onchain_step OneByOne x54 [3] = Some 5 ∧
  (λ '(o, h, s, sigs), sload (core h) 8 3) <$> toy_onchain_step Dump x54 [3] = Some 9.
Proof. split; vm_compute; reflexivity. Qed.

Lemma sload_sees_chain_witness :
  (∃ o h s sigs v, toy_onchain_step OneByOne x54 [3] = Some (o, h, s, sigs) ∧
    slot_said toy_endpoint (endpoint o) 8 3 v ∧ sload (core h) 8 3 = v ∧ v = 5) ∧
  ∃ o h s sigs v st, toy_onchain_step Dump x54 [3] = Some (o, h, s, sigs) ∧
    dump_said toy_endpoint (endpoint o) 8 st ∧ sload (core h) 8 3 = v ∧ v = 9 ∧
    match st with Some m => v = default 0 (m !! 3) | None => slot_said toy_endpoint (endpoint o) 8 3 v end.
Proof.
  destruct toy_sload_observed as [Hv1 Hv2]. split.
  - destruct (toy_onchain_step OneByOne x54 [3]) as [[[[o h] s] sigs]|] eqn:E; [|discriminate Hv1]. apply Some_inj in Hv1.
    destruct (sload_sees_chain (λ _ s, Some s) (λ _, []) toy_endpoint addr_debug [] [] (toy_onchain OneByOne) (toy_interp x54 [3]) (toy_onchain OneByOne)
      (i_host toy_init) (i_state toy_init) ∅ o h s sigs 3 toy_endpoint_fresh eq_refl eq_refl eq_refl (rtc_refl _ _) eq_refl eq_refl E) as (v & Hcv & Hs & _).
    exists o, h, s, sigs, v. split; [done|]. split; [exact Hcv|]. split; [exact Hs|]. rewrite <- Hv1. symmetry. exact Hs.
  - destruct (toy_onchain_step Dump x54 [3]) as [[[[o h] s] sigs]|] eqn:E; [|discriminate Hv2]. apply Some_inj in Hv2.
    destruct (sload_sees_chain (λ _ s, Some s) (λ _, []) toy_endpoint addr_debug [] [] (toy_onchain Dump) (toy_interp x54 [3]) (toy_onchain Dump)
      (i_host toy_init) (i_state toy_init) ∅ o h s sigs 3 toy_endpoint_fresh eq_refl eq_refl eq_refl (rtc_refl _ _) eq_refl eq_refl E)
      as (v & (st & Hd & Hst) & Hs & _).
    exists o, h, s, sigs, v, st. split; [done|]. split; [exact Hd|]. split; [exact Hs|]. split; [rewrite <- Hv2; symmetry; exact Hs|exact Hst].
Defined.

Lemma toy_call_observed :
  (λ '(o, h, s, sigs), (bool_decide (7 ∈ loaded_abi o), length (ef_corpus s))) <$> toy_onchain_step OneByOne xf1 [0; 7] = Some (true, 1%nat).
Proof. vm_compute. reflexivity. Qed.

Lemma called_contract_loaded_witness :
  ∃ o h s sigs, toy_onchain_step OneByOne xf1 [0; 7] = Some (o, h, s, sigs) ∧ setcode_data h !! 7 = Some [x60; x01] ∧
    Forall2 (target_input [9]) [(7, Some (config_of example_function))] (ef_corpus s).
Proof.
  pose proof toy_call_observed as Hv. destruct (toy_onchain_step OneByOne xf1 [0; 7]) as [[[[o h] s] sigs]|] eqn:E; [|discriminate Hv].
  exists o, h, s, sigs. split; [done|].
  assert (fst <$> get_contract_code 7 false toy_endpoint = Some [x60; x01]) as Ecd by (vm_compute; reflexivity).
  destruct (get_contract_code 7 false toy_endpoint) as [[cd e1]|] eqn:E1; [|discriminate Ecd]. apply Some_inj in Ecd. cbn [fst] in Ecd. subst cd.
  destruct (called_contract_loaded (λ _ s, Some s) (λ _, []) (toy_interp xf1 [0; 7]) (toy_onchain OneByOne) (i_host toy_init) (i_state toy_init) ∅
    o h s sigs 7 7 [x60; x01] e1) as (e2 & abi & abis & new & E2 & Ep & Hcode & Hl & Hn & _).
  - by left.
  - reflexivity.
  - reflexivity.
  - set_solver.
  - exact E1.
  - done.
  - reflexivity.
  - set_solver.
  - exact E.
  - split; [by apply Hcode; [reflexivity|set_solver]|].
    assert (('(_, e1) ← get_contract_code 7 false toy_endpoint; '(abi, _) ← fetch_abi 7 e1;
      match abi with Some text => parse_abi_str text | None => None end) = Some [config_of example_function]) as Eabi by (vm_compute; reflexivity).
    rewrite E1, obind_Some, E2, obind_Some in Eabi.
    destruct abi as [text|]; [|discriminate Eabi]. rewrite Ep in Eabi. apply Some_inj in Eabi. subst abis.
    change (ef_corpus s) with (tc_list (ef_corpus s)). rewrite Hl. exact Hn.
Defined.
