(* ===== verification/Routes.v ===== *)
(** * Swap routes ([src/src/evm/onchain/endpoints.rs])

    To price a token, [find_path_subgraph] asks a subgraph for the pairs of the token, of the
    tokens it can be swapped for, and so on, and searches the pairs for routes that end in a
    token with a known price; [fetch_uniswap_path] turns the routes into the paths that the
    swap model uses. *)
From S2P Require Import Prelude Types State F64 SrcMap Expr Abi AbiLayout AbiParse I256 Tracer Uniswap Loader Endpoints.
From Stdlib Require Import Floats.SpecFloat.
#[local] Open Scope Z_scope.

Definition MAX_HOPS : nat := 5.

Record PairData := mkPairData {
  pd_src : str;
  pd_in : Z;
  pd_pair : str;
  pd_next : str;
  pd_decimals0 : Z;
  pd_decimals1 : Z;
  pd_src_exact : str;
  pd_rate : Z;
  pd_token : str;
  pd_initial_reserves_0 : str;
  pd_initial_reserves_1 : str
}.

Record BasicInfo := mkBasicInfo { bi_weth : str; bi_is_weth : bool }.
Record Info := mkInfo { routes : list (list PairData); basic_info : BasicInfo }.

(** [GetPairResponse], as serde reads it *)
Record GetPairResponseDataPairToken := mkToken { tk_decimals : str; tk_id : str }.
Record GetPairResponseDataPair := mkPair { pr_id : str; pr_token0 : GetPairResponseDataPairToken; pr_token1 : GetPairResponseDataPairToken }.
Definition read_token (v : Value) : option GetPairResponseDataPairToken :=
  d ← value_get v (lit "decimals"); d ← as_str d; i ← value_get v (lit "id"); i ← as_str i; Some (mkToken d i).
Definition read_pair (v : Value) : option GetPairResponseDataPair :=
  i ← value_get v (lit "id"); i ← as_str i;
  t0 ← value_get v (lit "token0"); t0 ← read_token t0;
  t1 ← value_get v (lit "token1"); t1 ← read_token t1;
  Some (mkPair i t0 t1).
Definition read_pairs (data : Value) (k : str) : option (list GetPairResponseDataPair) :=
  v ← value_get data k; l ← as_array v; mapM_opt read_pair l.
(** [res.data.p0.iter().chain(res.data.p1.iter())] *)
Definition read_pair_response (v : Value) : option (list GetPairResponseDataPair) :=
  data ← value_get v (lit "data"); p0 ← read_pairs data (lit "p0"); p1 ← read_pairs data (lit "p1"); Some (p0 ++ p1).

(** ** Numbers and strings *)

(** [str::parse::<i32>()] *)
Definition parse_i32 (s : str) : option Z :=
  let '(sign, digits) := match s with
                         | c :: s' => if decide (c = "-"%char) then (-1, s') else if decide (c = "+"%char) then (1, s') else (1, s)
                         | [] => (1, [])
                         end in
  if decide (digits = []) then None
  else v ← foldM (λ acc c, d ← digit_value c; Some (acc * 10 + sign * d)) 0 digits;
       if (- 2 ^ 31 <=? v) && (v <? 2 ^ 31) then Some v else None.

(** [from_str_radix(_, 16)] of a type with values below [bound] *)
Definition hex_digit_value (c : ascii) : option Z :=
  let n := Z.of_N (N_of_ascii c) in
  if (48 <=? n) && (n <=? 57) then Some (n - 48)
  else if (97 <=? n) && (n <=? 102) then Some (n - 87)
  else if (65 <=? n) && (n <=? 70) then Some (n - 55)
  else None.
Definition from_str_radix16 (bound : Z) (s : str) : option Z :=
  let digits := match s with c :: s' => if decide (c = "+"%char) then s' else s | [] => [] end in
  if decide (digits = []) then None
  else foldM (λ acc c, d ← hex_digit_value c; let v := acc * 16 + d in if v <? bound then Some v else None) 0 digits.

(** [to_lowercase] on ASCII *)
Definition to_lowercase (s : str) : str :=
  map (λ c, let n := Z.of_N (N_of_ascii c) in if (65 <=? n) && (n <=? 90) then ascii_of_N (Z.to_N (n + 32)) else c) s.

(** [round() as u32]: halves away from zero, then saturation *)
Definition f64_round_u32 (x : f64) : Z :=
  match x with
  | S754_finite false m e =>
      Z.min (2 ^ 32 - 1) (if 0 <=? e then Z.pos m * 2 ^ e else (2 * Z.pos m + 2 ^ (- e)) / (2 * 2 ^ (- e)))
  | S754_infinity false => 2 ^ 32 - 1
  | _ => 0
  end.
(** [(a as f64 / b as f64 * 1_000_000.0).round() as u32] *)
Definition peg_rate (a b : Z) : Z :=
  f64_round_u32 (f64_mul (f64_div (f64_of_u64 a) (f64_of_u64 b)) (f64_of_u64 1000000)).

(** ** Networks *)

(** [get_pegged_token] *)
Definition get_pegged_token (network : str) : option (list (str * str)) :=
  if decide (network = lit "eth") then Some
    [(lit "WETH", lit "0xc02aaa39b223fe8d0a0e5c4f27ead9083c756cc2"); (lit "USDC", lit "0xa0b86991c6218b36c1d19d4a2e9eb0ce3606eb48");
     (lit "USDT", lit "0xdac17f958d2ee523a2206206994597c13d831ec7"); (lit "DAI", lit "0x6b175474e89094c44da98b954eedeac495271d0f");
     (lit "WBTC", lit "0x2260fac5e5542a773aa44fbcfedf7c193bc2c599"); (lit "WMATIC", lit "0x7d1afa7b718fb893db30a3abc0cfc608aacfebb0")]
  else if decide (network = lit "bsc") then Some
    [(lit "WBNB", lit "0xbb4cdb9cbd36b01bd1cbaebf2de08d9173bc095c"); (lit "USDC", lit "0x8ac76a51cc950d9822d68b83fe1ad97b32cd580d");
     (lit "USDT", lit "0x55d398326f99059ff775485246999027b3197955"); (lit "DAI", lit "0x1af3f329e8be154074d8769d1ffa4ee058b1dbc3");
     (lit "WBTC", lit "0x7130d2a12b9bcbfae4f2634d864a1ee1ce3ead9c"); (lit "WETH", lit "0x2170ed0880ac9a755fd29b2688956bd959f933f8");
     (lit "BUSD", lit "0xe9e7cea3dedca5984780bafc599bd69add087d56"); (lit "CAKE", lit "0x0e09fabb73bd3ade0a17ecc321fd13a19e81ce82")]
  else if decide (network = lit "polygon") then Some
    [(lit "WMATIC", lit "0x0d500b1d8e8ef31e21c99d1db9a6444d3adf1270"); (lit "USDC", lit "0x2791bca1f2de4661ed88a30c99a7a9449aa84174");
     (lit "USDT", lit "0xc2132d05d31c914a87c6611c10748aeb04b58e8f"); (lit "DAI", lit "0x8f3cf7ad23cd3cadbd9735aff958023239c6a063");
     (lit "WBTC", lit "0x1bfd67037b42cf73acf2047067bd4f2c47d9bfd6"); (lit "WETH", lit "0x7ceb23fd6bc0add59e62ac25578270cff1b9f619")]
  else None.

Fixpoint token_named (l : list (str * str)) (k : str) : option str :=
  match l with [] => None | (k', v) :: l => if decide (k' = k) then Some v else token_named l k end.
(** [pegged_tokens.values().any(|v| v == token)] *)
Definition is_pegged (pegged_tokens : list (str * str)) (token : str) : bool := bool_decide (token ∈ map snd pegged_tokens).

(** [get_weth] *)
Definition get_weth (network : str) : option str :=
  pegged_token ← get_pegged_token network;
  if decide (network = lit "eth") then token_named pegged_token (lit "WETH")
  else if decide (network = lit "bsc") then token_named pegged_token (lit "WBNB")
  else if decide (network = lit "polygon") then token_named pegged_token (lit "WMATIC")
  else None.

(** The entries ["v2"] of [get_uniswap_api]; networks without any have none. *)
Definition get_uniswap_api_v2 (network : str) : option (list (str * str)) :=
  if decide (network = lit "eth") then Some [(lit "uniswapv2", lit "https://api.thegraph.com/subgraphs/name/uniswap/uniswap-v2")]
  else if decide (network = lit "bsc") then Some [(lit "pancakeswap", lit "https://api.thegraph.com/subgraphs/name/pancakeswap/pairs")]
  else if decide (network = lit "polygon") then Some []
  else if decide (network = lit "mumbai") then Some []
  else None.

(** [Chain::from_str] *)
Definition chain_from_str (s : str) : option Chain :=
  if decide (s = lit "ETH" ∨ s = lit "eth") then Some ETH
  else if decide (s = lit "BSC" ∨ s = lit "bsc") then Some BSC
  else if decide (s = lit "POLYGON" ∨ s = lit "polygon") then Some POLYGON
  else if decide (s = lit "MUMBAI" ∨ s = lit "mumbai") then Some MUMBAI
  else if decide (s = lit "LOCAL" ∨ s = lit "local") then Some LOCAL
  else None.

(** [json!({"query": q}).to_string()] *)
Definition json_escape (s : str) : str := concat (map (λ c, if decide (c = "034"%char) then ["092"%char; c] else [c]) s).
Definition query_body (q : str) : str := lit "{" ++ quoted (lit "query") ++ lit ":" ++ quoted (json_escape q) ++ lit "}".
(** A selection of pairs at a block *)
Definition pairs_query (name : str) (block : Z) (where_ : str) : str :=
  name ++ lit ": pairs(block:{number:" ++ decimal 20 block ++ lit "},first:10," ++ where_ ++
  lit ") { id token0 { decimals id } token1 { decimals id } }".

Section routes.
Context {W : Type} `{Net W} `{Outside} `{Formats}.
Abbreviation IO := (io W).

(** [for x in l { s = f(s, x) }] *)
Fixpoint each {A S} (f : S → A → IO S) (s : S) (l : list A) : IO S :=
  match l with
  | [] => mret s
  | x :: l => s ← f s x; each f s l
  end.

(** [get_latest_block] *)
Definition get_latest_block : IO Z :=
  resp ← _request (lit "eth_blockNumber") (lit "[]");
  match resp with
  | Some resp => must (r ← as_str resp; from_str_radix16 (2 ^ 64) (trim_0x r))
  | None => mret 0
  end.

(** A pair of the answer, seen from [token] *)
Definition pair_data (src name token : str) (pair : GetPairResponseDataPair) : option PairData :=
  d0 ← parse_i32 (tk_decimals (pr_token0 pair));
  d1 ← parse_i32 (tk_decimals (pr_token1 pair));
  Some (mkPairData src (if decide (tk_id (pr_token0 pair) = token) then 0 else 1) (pr_id pair)
    (if decide (tk_id (pr_token0 pair) = token) then tk_id (pr_token1 pair) else tk_id (pr_token0 pair))
    d0 d1 name 0 token [] []).

(** The pairs of one subgraph *)
Definition ask_pairs (src token query : str) (next_tokens : list PairData) (api : str * str) : IO (list PairData) :=
  let '(name, url) := api in
  r ← post url (query_body query);
  pairs ← must (r ← r; json ← json_from_str r; res ← read_pair_response json; mapM_opt (pair_data src name token) res);
  mret (next_tokens ++ pairs).

(** [get_pair] *)
Definition get_pair (token network block : str) : IO (list PairData) :=
  block_int ← if decide (block = lit "latest") then n ← get_latest_block; mret (u64 (n - 50))
              else must (from_str_radix16 (2 ^ 64) (trim_0x block));
  api ← must (get_uniswap_api_v2 network);
  let query := lit "{ " ++
    pairs_query (lit "p0") block_int (lit "where :{token0 : " ++ quoted (to_lowercase token) ++ lit "}") ++ lit " " ++
    pairs_query (lit "p1") block_int (lit " where :{token1 : " ++ quoted (to_lowercase token) ++ lit "}") ++ lit " }" in
  each (ask_pairs (lit "v2") token query) [] api.

(** [get_pair_pegged] *)
Definition get_pair_pegged (token network block : str) : IO (list PairData) :=
  block_int ← if decide (block = lit "latest") then n ← get_latest_block; mret (u64 (n - 50))
              else n ← must (from_str_radix16 (2 ^ 64) (trim_0x block)); mret (u64 (n - 50));
  api ← must (get_uniswap_api_v2 network);
  weth ← match api with [] => mret [] | _ => must (get_weth network) end;
  let query := lit "{ " ++
    pairs_query (lit "p0") block_int
      (lit "where :{token0 : " ++ quoted (to_lowercase token) ++ lit ", token1: " ++ quoted weth ++ lit "}") ++ lit " " ++
    pairs_query (lit "p1") block_int
      (lit " where :{token1 : " ++ quoted (to_lowercase token) ++ lit ", token0: " ++ quoted weth ++ lit "}") ++ lit " }" in
  each (ask_pairs (lit "pegged") token query) [] api.

(** [fetch_reserve]: the answer is printed as JSON, with its quotes; [json_text] is that printer. *)
Context (json_text : Value → str).
Definition fetch_reserve (pair block : str) : IO (str * str) :=
  let params := lit "[{" ++ quoted (lit "data") ++ lit ":" ++ quoted (lit "0x0902f1ac") ++ lit "," ++ quoted (lit "id") ++ lit ":1," ++
    quoted (lit "to") ++ lit ":" ++ quoted (json_escape pair) ++ lit "}," ++ quoted (json_escape block) ++ lit "]" in
  resp ← _request_with_id (lit "eth_call") params 1;
  let result := match resp with Some resp => json_text resp | None => [] end in
  reserve1 ← must (slice result 3 67);
  reserve2 ← must (slice result 67 131);
  mret (reserve1, reserve2).

(** [add_reserve_info] *)
Definition add_reserve_info (pair_data : PairData) (block : str) : IO PairData :=
  if decide (pd_src pair_data = lit "pegged_weth") then mret pair_data
  else
    '(r0, r1) ← fetch_reserve (pd_pair pair_data) block;
    mret (mkPairData (pd_src pair_data) (pd_in pair_data) (pd_pair pair_data) (pd_next pair_data) (pd_decimals0 pair_data)
      (pd_decimals1 pair_data) (pd_src_exact pair_data) (pd_rate pair_data) (pd_token pair_data) r0 r1).

(** [get_pegged_next_hop] *)
Definition get_pegged_next_hop (token network block : str) : IO PairData :=
  weth ← must (get_weth network);
  if decide (token = weth) then
    mret (mkPairData (lit "pegged_weth") 0 [] [] 0 0 [] 1000000 token [] [])
  else
    pairs ← get_pair_pegged token network block;
    peg_info ← must (head pairs);
    peg_info ← add_reserve_info peg_info block;
    p0 ← must (from_str_radix16 (2 ^ 127) (pd_initial_reserves_0 peg_info));
    p1 ← must (from_str_radix16 (2 ^ 127) (pd_initial_reserves_1 peg_info));
    let rate := if pd_in peg_info =? 0 then peg_rate p1 p0 else peg_rate p0 p1 in
    mret (mkPairData (lit "pegged") (pd_in peg_info) (pd_pair peg_info) (pd_next peg_info) (pd_decimals0 peg_info)
      (pd_decimals1 peg_info) (pd_src_exact peg_info) rate (pd_token peg_info) (pd_initial_reserves_0 peg_info)
      (pd_initial_reserves_1 peg_info)).

(** [get_all_hops]; [remaining] is [MAX_HOPS + 1 - hop]. *)
Fixpoint get_all_hops (remaining : nat) (token network block : str) (known : gset str) : IO (gmap str (list PairData) * gset str) :=
  let known := {[token]} ∪ known in
  match remaining with
  | O => mret (∅, known)
  | S remaining =>
      pairs ← get_pair token network block;
      pegged_tokens ← must (get_pegged_token network);
      each (λ '(hops, known) i,
        if is_pegged pegged_tokens (pd_next i) || bool_decide (pd_next i ∈ known) then mret (hops, known)
        else '(next_hops, known) ← get_all_hops remaining (pd_next i) network block known; mret (next_hops ∪ hops, known))
        ({[token := pairs]}, known) pairs
  end.

(** [dfs], with the hop of a pegged token given by [next_hop] *)
Definition search := (gset str * list (list PairData))%type.
Fixpoint dfs (fuel : nat) (next_hop : str → IO PairData) (pegged_tokens : list (str * str)) (hops : gmap str (list PairData))
    (token : str) (path : list PairData) (acc : search) : IO search :=
  match fuel with
  | O => must None
  | S fuel =>
      let '(visited, routes) := acc in
      if is_pegged pegged_tokens token then hop ← next_hop token; mret (visited, routes ++ [path ++ [hop]])
      else
        let visited := {[token]} ∪ visited in
        match hops !! token with
        | None => mret (visited, routes)
        | Some l =>
            each (λ acc hop,
              if bool_decide (pd_next hop ∈ fst acc) then mret acc
              else dfs fuel next_hop pegged_tokens hops (pd_next hop) (path ++ [hop]) acc)
              (visited, routes) l
        end
  end.

(** [with_info] *)
Definition with_info (routes : list (list PairData)) (network token : str) : IO Info :=
  weth ← must (get_weth network); mret (mkInfo routes (mkBasicInfo weth (bool_decide (token = weth)))).

(** The reserves of every hop of a route *)
Definition add_reserves (block : str) (done : list (list PairData)) (route : list PairData) : IO (list (list PairData)) :=
  route ← each (λ l hop, hop ← add_reserve_info hop block; mret (l ++ [hop])) [] route; mret (done ++ [route]).

(** [find_path_subgraph]; every non-pegged token is searched once, so the fuel is enough. *)
Definition find_path_subgraph (network token block : str) : IO Info :=
  pegged_tokens ← must (get_pegged_token network);
  if is_pegged pegged_tokens token then
    hop ← get_pegged_next_hop token network block; with_info [[hop]] network token
  else
    '(hops, _) ← get_all_hops (S MAX_HOPS) token network block ∅;
    '(_, routes) ← dfs (S (S (size hops))) (λ t, get_pegged_next_hop t network block) pegged_tokens hops token [] (∅, []);
    routes ← each (add_reserves block) [] routes;
    with_info routes network token.

(** ** The paths of the swap model *)

(** [EVMU256::try_from_be_slice(&hex::decode(s).unwrap()).unwrap()] *)
Definition reserve_word (s : str) : option EVMU256 := b ← hex_decode s; try_from_be_slice b.
Definition pair_context (chain_name : str) (pair : PairData) : option PairContext :=
  address ← addr_from_str (pd_pair pair);
  next ← addr_from_str (pd_next pair);
  provider ← provider_from_str (string_of_list_ascii (pd_src_exact pair));
  chain ← chain_from_str chain_name;
  info ← get_uniswap_info provider chain;
  r0 ← reserve_word (pd_initial_reserves_0 pair);
  r1 ← reserve_word (pd_initial_reserves_1 pair);
  Some (mkPairContext address next (u8z (pd_in pair)) info (r0, r1)).

(** A hop of a route *)
Definition add_hop (chain_name : str) (path_parsed : PathContext) (pair : PairData) : option PathContext :=
  if decide (pd_src pair = lit "v2") then
    p ← pair_context chain_name pair;
    Some (mkPathContext (route path_parsed ++ [p]) (final_pegged_ratio path_parsed) (final_pegged_pair path_parsed))
  else if decide (pd_src pair = lit "pegged") then
    p ← pair_context chain_name pair; Some (mkPathContext (route path_parsed) (pd_rate pair) (Some p))
  else if decide (pd_src pair = lit "pegged_weth") then Some (mkPathContext (route path_parsed) (pd_rate pair) None)
  else None.
Definition path_context (chain_name : str) (pairs : list PairData) : option PathContext :=
  foldM (add_hop chain_name) (mkPathContext [] 0 None) pairs.

(** [fetch_uniswap_path] and [fetch_uniswap_path_cached] *)
Definition fetch_uniswap_path (token_address : EVMAddress) : IO TokenContext :=
  network ← gets chain_name;
  block ← gets block_number;
  info ← find_path_subgraph network (addr_debug token_address) block;
  weth ← must (addr_from_str (bi_weth (basic_info info)));
  paths ← must (mapM_opt (path_context network) (routes info));
  mret (mkTokenContext paths (bi_is_weth (basic_info info)) weth token_address).
Definition fetch_uniswap_path_cached (token : EVMAddress) : IO TokenContext :=
  cache ← gets uniswap_path_cache;
  match cache !! token with
  | Some path => mret path
  | None =>
      path ← fetch_uniswap_path token;
      modifies (λ c, set_uniswap_path_cache (<[token := path]> (uniswap_path_cache c)) c) ;; mret path
  end.
End routes.
