(* ===== verification/RoutesProps.v ===== *)
(** * Swap routes: correctness

    The depth-first search over the pairs of a subgraph visits every token that can be
    reached from the token to price, ends, and returns exactly routes along pairs that end in
    tokens with a known price.  The paths made of them have a pair to buy tokens with. *)
From S2P Require Import Prelude Types State F64 SrcMap Expr Abi AbiLayout AbiParse I256 Tracer Uniswap UniswapProps Loader Endpoints EndpointsProps Routes.
#[local] Open Scope Z_scope.

(** ** Loops *)

Section loops.
Context {W : Type}.

(** A loop whose body, from an element on, takes what is known of the elements before to what
    is known with the element, or panics where [F] holds *)
Lemma each_run {A B} (f : B → A → io W B) (P : list A → B → OnChainConfig W → Prop) (F : Prop) l done s c :
  P done s c →
  (∀ done' x s c, x ∈ l → P done' s c →
    (∃ s' c', f s x c = Some (s', c') ∧ P (done' ++ [x]) s' c') ∨ f s x c = None ∧ F) →
  (∃ s' c', each f s l c = Some (s', c') ∧ P (done ++ l) s' c') ∨ each f s l c = None ∧ F.
Proof.
  revert done s c. induction l as [|x l IH]; intros done s c HP Hf; cbn [each].
  - left. exists s, c. rewrite app_nil_r. done.
  - unfold mbind, io_bind. destruct (Hf done x s c ltac:(set_solver) HP) as [(s1 & c1 & E1 & HP1)|[E1 HF]]; rewrite E1; [|by right].
    cbn. destruct (IH (done ++ [x]) s1 c1 HP1) as [(s2 & c2 & E2 & HP2)|HN]; [intros; apply Hf; set_solver| |by right].
    left. exists s2, c2. rewrite E2, cons_middle, app_assoc. done.
Qed.
End loops.

(** ** Walks over the pairs *)

Section search.
Context {W : Type}.
Context (next_hop : str → io W PairData) (pegged : list (str * str)) (hops : gmap str (list PairData)) (start : OnChainConfig W).

(** A token of known price is priced. *)
Definition pricing (c c' : OnChainConfig W) : Prop := ∃ t hop, is_pegged pegged t = true ∧ next_hop t c = Some (hop, c').

(** A walk along pairs through tokens without a known price *)
Inductive walk : str → list PairData → str → Prop :=
| walk_here t : walk t [] t
| walk_hop t l hop p u :
    is_pegged pegged t = false → hops !! t = Some l → hop ∈ l → walk (pd_next hop) p u → walk t (hop :: p) u.

(** The hop that prices a pegged token, in this search *)
Definition prices (u : str) (hop : PairData) : Prop := ∃ c c', rtc pricing start c ∧ next_hop u c = Some (hop, c').

(** A token of known price that a walk leads to cannot be priced, after those priced before. *)
Definition unpriced (token : str) : Prop :=
  ∃ p u c, walk token p u ∧ is_pegged pegged u = true ∧ rtc pricing start c ∧ next_hop u c = None.

(** The routes a search may add *)
Definition good_route (visited : gset str) (token : str) (u : str) (r : list PairData) : Prop :=
  ∃ p last, r = p ++ [last] ∧ walk token p u ∧ is_pegged pegged u = true ∧ prices u last ∧
    NoDup (map pd_next p) ∧ ∀ x, x ∈ map pd_next p → x ∉ {[token]} ∪ visited.

(** A token is done: its price is on a route along [path], or it was visited. *)
Definition reached (token : str) (path : list PairData) (acc : search) : Prop :=
  if is_pegged pegged token then ∃ last, prices token last ∧ path ++ [last] ∈ snd acc else token ∈ fst acc.

(** What a search that starts at [token], after [path], does to the tokens and routes found:
    every route it adds is a good one, and every pair of a token it visits, those of [V] aside,
    leads to a token that is done. *)
Record grown (V : gset str) (token : str) (path : list PairData) (acc acc' : search) : Prop := {
  gr_visited : fst acc ⊆ fst acc';
  gr_unpriced : ∀ x, x ∈ fst acc' → is_pegged pegged x = false;
  gr_routes : ∃ new, snd acc' = snd acc ++ new ∧ ∀ r, r ∈ new → ∃ u r', r = path ++ r' ∧ good_route (fst acc) token u r';
  gr_closed : ∀ y l hop, y ∈ fst acc' → y ∉ V → hops !! y = Some l → hop ∈ l → ∃ path', reached (pd_next hop) (path' ++ [hop]) acc'
}.

Lemma reached_mono token path acc acc' new :
  fst acc ⊆ fst acc' → snd acc' = snd acc ++ new → reached token path acc → reached token path acc'.
Proof. unfold reached. intros Hv ->. destruct (is_pegged _ _); [intros (last & Hl & Hr); exists last; set_solver|set_solver]. Qed.

Lemma good_route_cons visited visited' token u hop l r :
  is_pegged pegged token = false → hops !! token = Some l → hop ∈ l → {[token]} ∪ visited ⊆ visited' → pd_next hop ∉ visited' →
  good_route visited' (pd_next hop) u r → good_route visited token u (hop :: r).
Proof.
  intros Hp Hl Hhop Hsub Hnew (p & last & -> & Hw & Hu & Hpr & Hnd & Hfresh).
  exists (hop :: p), last. split_and!; try done; [by econstructor| |].
  - cbn. apply NoDup_cons. split; [|done]. intros Hin. specialize (Hfresh _ Hin). set_solver.
  - cbn. intros x [->|Hin]%elem_of_cons; [set_solver|]. specialize (Hfresh _ Hin). set_solver.
Qed.

(** The tokens with pairs that are still to be visited *)
Definition unvisited (visited : gset str) : nat := size (dom hops ∖ visited).

Lemma unvisited_le visited visited' : visited ⊆ visited' → (unvisited visited' <= unvisited visited)%nat.
Proof. intros Hs. unfold unvisited. apply subseteq_size. set_solver. Qed.
Lemma unvisited_lt token l visited visited' :
  hops !! token = Some l → token ∉ visited → {[token]} ∪ visited ⊆ visited' → (unvisited visited' < unvisited visited)%nat.
Proof. intros Hl Hn Hs. unfold unvisited. apply subset_size. apply elem_of_dom_2 in Hl. split; set_solver. Qed.

(** ** The search *)

(** The part of a search of [token] after the pairs [done] *)
Record searching (token : str) (path : list PairData) (acc : search) (done : list PairData) (acc' : search) : Prop := {
  si_grown : grown ({[token]} ∪ fst acc) token path acc acc';
  si_token : token ∈ fst acc';
  si_done : ∀ hop, hop ∈ done → reached (pd_next hop) (path ++ [hop]) acc'
}.

Lemma searching_start token path visited routes :
  is_pegged pegged token = false → (∀ x, x ∈ visited → is_pegged pegged x = false) →
  searching token path (visited, routes) [] ({[token]} ∪ visited, routes).
Proof.
  intros Hp Hv. split; [split|set_solver|set_solver]; cbn; [set_solver| |exists []; rewrite app_nil_r; set_solver|set_solver].
  intros x [Hx%elem_of_singleton|?]%elem_of_union; subst; auto.
Qed.

(** A pair whose token was visited before *)
Lemma searching_skip token path acc done acc' hop :
  searching token path acc done acc' → pd_next hop ∈ fst acc' → searching token path acc (done ++ [hop]) acc'.
Proof.
  intros [G Ht Hd] Hin. split; [done..|]. intros h [?|Hh%list_elem_of_singleton]%elem_of_app; [by apply Hd|subst].
  unfold reached. rewrite (gr_unpriced _ _ _ _ _ G) by done. done.
Qed.

(** A pair whose token is searched *)
Lemma searching_hop token path acc done acc1 hop l acc2 :
  is_pegged pegged token = false → hops !! token = Some l → hop ∈ l → searching token path acc done acc1 → pd_next hop ∉ fst acc1 →
  grown (fst acc1) (pd_next hop) (path ++ [hop]) acc1 acc2 → reached (pd_next hop) (path ++ [hop]) acc2 →
  searching token path acc (done ++ [hop]) acc2.
Proof.
  intros Hp Hl Hhop [[Hv1 Hu1 (n1 & Er1 & Hr1) Hc1] Ht Hd] Hnew [Hv2 Hu2 (n2 & Er2 & Hr2) Hc2] Hr.
  assert (∀ t p, reached t p acc1 → reached t p acc2) as Hmono by (intros t p; by eapply reached_mono).
  split; [split; [set_solver|done| |]|set_solver|].
  - exists (n1 ++ n2). split; [by rewrite Er2, Er1, app_assoc|]. intros r [Hin|Hin]%elem_of_app; [by apply Hr1|].
    destruct (Hr2 r Hin) as (u & r' & -> & Hg). exists u, (hop :: r'). split; [by rewrite <- app_assoc|].
    apply (good_route_cons _ (fst acc1) _ _ _ l); try done. set_solver.
  - intros y l' h Hy Hny Hl' Hh. destruct (decide (y ∈ fst acc1)) as [Hy1|Hy1]; [|by eapply Hc2].
    destruct (Hc1 y l' h Hy1 Hny Hl' Hh) as [p' ?]. eauto.
  - intros h [?|Hh%list_elem_of_singleton]%elem_of_app; subst; eauto.
Qed.

(** All pairs of the token are done. *)
Lemma searching_end token path acc l acc' :
  hops !! token = Some l → searching token path acc l acc' → grown (fst acc) token path acc acc'.
Proof.
  intros Hl [[Hv Hu Hr Hc] Ht Hd]. split; try done. intros y l' hop Hy Hny Hl' Hhop.
  destruct (decide (y = token)) as [->|Hne]; [|eapply Hc; eauto; set_solver].
  assert (l' = l) as -> by congruence. eauto.
Qed.

(** The search ends, with fuel for the tokens that are still to be visited; it panics only
    where pricing does. *)
Lemma dfs_grown fuel token path acc c :
  rtc pricing start c → token ∉ fst acc → (∀ x, x ∈ fst acc → is_pegged pegged x = false) → (unvisited (fst acc) < fuel)%nat →
  (∃ acc' c', dfs fuel next_hop pegged hops token path acc c = Some (acc', c') ∧
    (rtc pricing start c' ∧ grown (fst acc) token path acc acc' ∧ reached token path acc')) ∨
  dfs fuel next_hop pegged hops token path acc c = None ∧ unpriced token.
Proof.
  revert token path acc c. induction fuel as [|fuel IH]; intros token path [visited routes] c Hc Hnew Hvis Hfuel; [lia|].
  cbn [dfs fst snd] in *. destruct (is_pegged pegged token) eqn:Hp.
  - unfold mbind, io_bind. destruct (next_hop token c) as [[hop c']|] eqn:E.
    2: { right. split; [done|]. exists [], token, c. split_and!; try done. constructor. }
    left. eexists _, _. split; [reflexivity|]. assert (prices token hop) as Hpr by (by exists c, c').
    split; [eapply rtc_r; [exact Hc|]; by exists token, hop|]. split.
    + split; cbn; [set_solver|done| |set_solver]. exists [path ++ [hop]]. split; [done|].
      intros r Hin%list_elem_of_singleton. subst r. exists token, [hop]. split; [done|]. exists [], hop.
      split_and!; try done; [constructor|constructor|set_solver].
    + unfold reached. rewrite Hp. exists hop. set_solver.
  - assert (∀ acc', token ∈ fst acc' → reached token path acc') as Hreach by (intros acc' ?; unfold reached; by rewrite Hp).
    destruct (hops !! token) as [l|] eqn:Hl.
    + match goal with |- context [each ?f _ _ _] =>
        destruct (each_run f (λ done acc c, rtc pricing start c ∧ searching token path (visited, routes) done acc) (unpriced token) l []
          ({[token]} ∪ visited, routes) c) as [(acc' & c' & E & Hc' & HS)|[E HF]] end; [split; [done|by apply searching_start]|..].
      * intros done' hop acc1 c1 Hhop [Hc1 HS].
        case_bool_decide as Hin; [left; eexists _, _; split; [reflexivity|]; split; [done|by apply searching_skip]|].
        destruct (IH (pd_next hop) (path ++ [hop]) acc1 c1 Hc1 Hin) as [(acc2 & c2 & E & Hc2 & G & R)|[E (p & u & c2 & Hw & HF)]].
        -- apply HS.
        -- eapply Nat.lt_le_trans; [eapply (unvisited_lt token l visited)|]; try done; [|lia].
           pose proof (gr_visited _ _ _ _ _ (si_grown _ _ _ _ _ HS)). pose proof (si_token _ _ _ _ _ HS). cbn in *. set_solver.
        -- left. exists acc2, c2. split; [done|]. split; [done|]. by eapply searching_hop.
        -- right. split; [done|]. exists (hop :: p), u, c2. split; [by eapply walk_hop|done].
      * left. exists acc', c'. split; [exact E|]. split; [done|].
        split; [exact (searching_end token path (visited, routes) l acc' Hl HS)|]. apply Hreach; exact (si_token _ _ _ _ _ HS).
      * by right.
    + left. eexists _, _. split; [reflexivity|]. split; [done|]. split; [|apply Hreach; set_solver].
      destruct (searching_start token path visited routes Hp Hvis) as [[Hv Hu Hr Hcl] _ _]. split; try done.
      intros y l' hop Hy Hny Hl' Hhop. eapply Hcl; eauto. set_unfold. naive_solver.
Qed.

(** The token a path that starts at [token] ends at *)
Definition ends_at (token : str) (path : list PairData) : str := match last path with Some hop => pd_next hop | None => token end.
Lemma ends_at_snoc token path hop : ends_at token (path ++ [hop]) = pd_next hop.
Proof. unfold ends_at. by rewrite last_snoc. Qed.
Lemma ends_at_cons token hop path : ends_at token (hop :: path) = ends_at (pd_next hop) path.
Proof. destruct path as [|h path' _] using rev_ind; [done|]. by rewrite app_comm_cons, !ends_at_snoc. Qed.
Lemma walk_ends token p u : walk token p u → ends_at token p = u.
Proof. induction 1; [done|]. by rewrite ends_at_cons. Qed.

(** Every token at the end of a walk from a token that is done is done. *)
Lemma walk_reached from acc token p u path :
  (∀ y l hop, y ∈ fst acc → hops !! y = Some l → hop ∈ l → ∃ path', reached (pd_next hop) (path' ++ [hop]) acc) →
  walk token p u → reached token path acc → ends_at from path = token → ∃ path', reached u path' acc ∧ ends_at from path' = u.
Proof.
  intros Hclosed Hw. revert path. induction Hw as [t|t l hop p u Ht Hl Hhop Hw IH]; intros path Hr Hend; [by exists path|].
  unfold reached in Hr. rewrite Ht in Hr. destruct (Hclosed _ _ _ Hr Hl Hhop) as [path' Hr'].
  eapply IH; [done|apply ends_at_snoc].
Qed.

(** A route to a token with a known price: pairs that lead from token to token, none twice, and
    the hop that prices the last *)
Definition route_to (token u : str) (r : list PairData) : Prop :=
  ∃ p last, r = p ++ [last] ∧ walk token p u ∧ is_pegged pegged u = true ∧ prices u last ∧ NoDup (token :: map pd_next p).

(** What a search that returns has found *)
Lemma dfs_found token :
  (∃ visited found c', dfs (S (S (size hops))) next_hop pegged hops token [] (∅, []) start = Some ((visited, found), c') ∧
    rtc pricing start c' ∧
    (∀ r, r ∈ found → ∃ u, route_to token u r) ∧
    (∀ p u, walk token p u → is_pegged pegged u = true → ∃ r, r ∈ found ∧ route_to token u r)) ∨
  dfs (S (S (size hops))) next_hop pegged hops token [] (∅, []) start = None ∧ unpriced token.
Proof.
  destruct (dfs_grown (S (S (size hops))) token [] (∅, []) start) as [([visited found] & c' & E & Hp & [Hv Hu (new & Enew & Hr) Hc] & R)|HF];
    [done|set_solver..| | |by right].
  { unfold unvisited. cbn [fst]. rewrite difference_empty_L, size_dom. lia. }
  left. cbn in Enew. subst new. exists visited, found, c'. split; [done|]. split; [done|].
  assert (∀ r, r ∈ found → ∃ u, route_to token u r) as Hfound.
  { intros r Hin. destruct (Hr r Hin) as (u & r' & -> & p & last & -> & Hw & Hpeg & Hpr & Hnd & Hfresh).
    exists u, p, last. split_and!; try done. apply NoDup_cons. split; [|done]. intros Hin'. specialize (Hfresh _ Hin'). set_solver. }
  split; [done|]. intros p u Hw Hpeg.
  destruct (walk_reached token (visited, found) token p u []) as (path' & Hreach & Hend); try done.
  { intros y l hop Hy Hl Hhop. eapply Hc; eauto. set_solver. }
  unfold reached in Hreach. rewrite Hpeg in Hreach. destruct Hreach as (last & Hpr & Hin). exists (path' ++ [last]). split; [done|].
  destruct (Hfound _ Hin) as (u' & p' & last' & [-> ->]%app_inj_tail & Hw' & ? & ? & ?). apply walk_ends in Hw' as Hu'.
  assert (u' = u) as -> by congruence. exists p', last'. done.
Qed.
End search.

(** ** The search of the program *)

(** C30. The search for swap routes is complete and exact.  On a network with known prices,
    the search from a token over any table of pairs, however its pairs are cyclic, ends:
    the fuel is enough.  It panics only if a token of known price that pairs of the table
    lead to cannot be priced ([get_pegged_next_hop] panics, after it priced those before).
    Otherwise each route it returns leads along pairs of the table from the token to a
    token of known price without coming by a token twice, and closes with the hop that
    [get_pegged_next_hop] gave for it; and each token of known price that can be reached at
    all has a route. *)
Theorem routes_are_paths {W} `{Net W} `{Outside} json_text network block pegged hops token (c : OnChainConfig W) :
  get_pegged_token network = Some pegged →
  let price t := get_pegged_next_hop json_text t network block in
  match dfs (S (S (size hops))) price pegged hops token [] (∅, []) c with
  | Some ((visited, found), c') =>
      rtc (pricing price pegged) c c' ∧
      (∀ r, r ∈ found → ∃ u, route_to price pegged hops c token u r) ∧
      (∀ p u, walk pegged hops token p u → is_pegged pegged u = true → ∃ r, r ∈ found ∧ route_to price pegged hops c token u r)
  | None =>
      ∃ p u c1, walk pegged hops token p u ∧ is_pegged pegged u = true ∧ rtc (pricing price pegged) c c1 ∧ price u c1 = None
  end.
Proof. intros _ price. by destruct (dfs_found price pegged hops c token) as [(v & f & c' & -> & ?)|[-> ?]]. Qed.

(** ** Paths that tokens can be bought along *)

(** A run that leaves the cache of paths alone and returns something with [Q] *)
Definition yields {W A} (m : io W A) (Q : A → Prop) : Prop :=
  ∀ c a c', m c = Some (a, c') → uniswap_path_cache c' = uniswap_path_cache c ∧ Q a.

Section yields.
Context {W : Type} `{Net W} `{Outside} `{Formats}.

Lemma yields_ret {A} (a : A) (Q : A → Prop) : Q a → yields (W := W) (mret a) Q.
Proof. by intros HQ c b c' [= <- <-]. Qed.
Lemma yields_bind {A B} (m : io W A) (k : A → io W B) P Q : yields m P → (∀ a, P a → yields (k a) Q) → yields (m ≫= k) Q.
Proof. intros Hm Hk c b c' ([a c1] & [E1 HP]%Hm & [E2 HQ]%(Hk a HP))%bind_Some. split; [congruence|done]. Qed.
Lemma yields_weaken {A} (m : io W A) P Q : yields m P → (∀ a, P a → Q a) → yields m Q.
Proof. intros Hm HPQ c a c' [E HP]%Hm. auto. Qed.
Lemma yields_must {A} (x : option A) : yields (W := W) (must x) (λ a, x = Some a).
Proof. by intros c a c' (b & Hb & [= <- <-])%bind_Some. Qed.
Lemma yields_gets {A} (f : OnChainConfig W → A) : yields (gets f) (λ _, True).
Proof. by intros c a c' [= _ <-]. Qed.
Lemma yields_post url data : yields (post (W := W) url data) (λ _, True).
Proof.
  intros c a c'. unfold post, cached_request. destruct (cache_load _ _); [by intros [= _ <-]|].
  destruct (retry _ _ _) as [[t|] w]; intros [= _ <-]; [by destruct (negb _)|done].
Qed.
Lemma yields_each {A B} (f : B → A → io W B) P l s : (∀ x s, x ∈ l → P s → yields (f s x) P) → P s → yields (each f s l) P.
Proof.
  revert s. induction l as [|x l IH]; intros s Hf Hs; cbn [each]; [by apply yields_ret|].
  eapply yields_bind; [apply (Hf x s); [left|done]|]. intros a Ha. apply IH; [|done]. intros y b Hy. apply Hf. by right.
Qed.
Lemma yields_request method params id : yields (_request_with_id (W := W) method params id) (λ _, True).
Proof.
  eapply yields_bind; [apply yields_gets|intros url _]. eapply yields_bind; [apply yields_post|intros r _]. by apply yields_ret.
Qed.
End yields.

(** Peels a bind whose first part leaves the cache alone *)
Ltac yields_step a H :=
  eapply yields_bind; [first [apply yields_must|apply yields_gets|apply yields_request|apply yields_post|eassumption]|intros a H].

Section buyable.
Context {W : Type} `{Net W} `{Outside} `{Formats} (json_text : Value → str).
Abbreviation v2 := (lit "v2").

Definition from_v2 (pair : PairData) : Prop := pd_src pair = v2.
(** A route that starts with a pair, or ends in the pair of a token of known price with WETH *)
Definition buyable (r : list PairData) : Prop := head (map pd_src r) = Some v2 ∨ last (map pd_src r) = Some (lit "pegged").

Lemma latest_block_yields : yields (get_latest_block (W := W)) (λ _, True).
Proof.
  unfold get_latest_block, _request. eapply yields_bind; [eapply yields_bind; [apply yields_gets|intros id _; apply yields_request]|].
  intros [r|] _; [|by apply yields_ret]. by eapply yields_weaken; [apply yields_must|].
Qed.

Lemma ask_pairs_yields src token query l api : Forall (λ p, pd_src p = src) l →
  yields (ask_pairs (W := W) src token query l api) (Forall (λ p, pd_src p = src)).
Proof.
  intros Hl. destruct api as [name url]. cbn [ask_pairs]. yields_step r Hr. yields_step pairs Hp. apply yields_ret, Forall_app. split; [done|].
  apply bind_Some in Hp as (? & _ & (? & _ & (res & _ & Hp)%bind_Some)%bind_Some). destruct (mapM_opt_elem _ _ _ Hp) as [_ Hy].
  apply Forall_forall. intros y (p & _ & Ey)%Hy. apply bind_Some in Ey as (d0 & _ & (d1 & _ & [= <-])%bind_Some). done.
Qed.

Lemma get_pair_yields token network block : yields (get_pair (W := W) token network block) (Forall from_v2).
Proof.
  unfold get_pair. eapply (yields_bind _ _ (λ _, True)).
  { case_decide; [eapply yields_bind; [apply latest_block_yields|intros n _; by apply yields_ret]|by eapply yields_weaken; [apply yields_must|]]. }
  intros b _. yields_step api Ha. apply yields_each; [|constructor]. intros x l _. apply ask_pairs_yields.
Qed.

Lemma reserve_info_yields p block : yields (add_reserve_info (W := W) json_text p block) (λ q, pd_src q = pd_src p).
Proof.
  unfold add_reserve_info. case_decide; [by apply yields_ret|]. eapply (yields_bind _ _ (λ _, True)).
  - unfold fetch_reserve. yields_step r Hr. yields_step x Hx. yields_step y Hy. by apply yields_ret.
  - intros [r0 r1] _. by apply yields_ret.
Qed.

(** Only WETH itself is priced by a hop that is no pair. *)
Lemma pegged_hop_yields token network block :
  yields (get_pegged_next_hop (W := W) json_text token network block) (λ hop, pd_src hop = lit "pegged" ∨ get_weth network = Some token).
Proof.
  unfold get_pegged_next_hop. yields_step weth Hw. case_decide as Ht; [subst; apply yields_ret; by right|].
  eapply (yields_bind _ _ (λ _, True)).
  { unfold get_pair_pegged. eapply (yields_bind _ _ (λ _, True)).
    { case_decide; [eapply yields_bind; [apply latest_block_yields|intros n _; by apply yields_ret]|]. yields_step n Hn. by apply yields_ret. }
    intros b _. yields_step api Ha. eapply (yields_bind _ _ (λ _, True)).
    { destruct api; [by apply yields_ret|by eapply yields_weaken; [apply yields_must|]]. }
    intros w _. eapply yields_weaken; [apply (yields_each _ (Forall (λ p, pd_src p = lit "pegged"))); [|constructor]|done].
    intros x l _. apply ask_pairs_yields. }
  intros pairs _. yields_step p Hp. eapply yields_bind; [apply reserve_info_yields|intros q _]. yields_step p0 Hp0. yields_step p1 Hp1.
  apply yields_ret. by left.
Qed.

Definition table_v2 (hops : gmap str (list PairData)) : Prop := ∀ t l, hops !! t = Some l → Forall from_v2 l.

Lemma all_hops_yields network block remaining : ∀ token known,
  yields (get_all_hops (W := W) remaining token network block known) (λ r, table_v2 r.1).
Proof.
  induction remaining as [|n IH]; intros token known; cbn [get_all_hops]; [apply yields_ret; intros t l Hl; cbn in Hl; by rewrite lookup_empty in Hl|].
  eapply yields_bind; [apply get_pair_yields|intros pairs Hp]. yields_step pegged Hpeg. apply yields_each.
  - intros x [hops k] _ Hk. destruct (_ || _); [by apply yields_ret|]. eapply yields_bind; [apply IH|]. intros [next k'] Hn. apply yields_ret.
    intros t l. cbn [fst] in *. rewrite lookup_union_Some_raw. intros [Hl|[_ Hl]]; [by eapply Hn|by eapply Hk].
  - intros t l. cbn [fst]. rewrite lookup_singleton_Some. by intros [_ <-].
Qed.

Lemma pricing_keeps network block pegged (c c' : OnChainConfig W) :
  rtc (pricing (λ t, get_pegged_next_hop json_text t network block) pegged) c c' → uniswap_path_cache c' = uniswap_path_cache c.
Proof. induction 1 as [|c c1 c' (t & hop & _ & [E _]%pegged_hop_yields) _ IH]; [done|congruence]. Qed.

Lemma walk_v2 pegged hops t p u : table_v2 hops → walk pegged hops t p u → Forall from_v2 p.
Proof. intros Ht. induction 1 as [|t l hop p u _ Hl Hin _ IH]; [constructor|]. constructor; [|done]. specialize (Ht t l Hl). by rewrite Forall_forall in Ht; apply Ht. Qed.

(** The search from a token without a known price finds routes that start with a pair. *)
Lemma search_yields token network block pegged hops : table_v2 hops → is_pegged pegged token = false →
  yields (dfs (W := W) (S (S (size hops))) (λ t, get_pegged_next_hop json_text t network block) pegged hops token [] (∅, []))
    (λ r, Forall buyable r.2).
Proof.
  intros Ht Hp c [visited found] c' E.
  destruct (dfs_found (λ t, get_pegged_next_hop json_text t network block) pegged hops c token) as [(v & f & c1 & E1 & Hc & Hr & _)|[E1 _]];
    rewrite E1 in E; [|done]. injection E as <- <- <-. split; [by eapply pricing_keeps|]. apply Forall_forall. intros r Hin. cbn [snd] in Hin.
  destruct (Hr r Hin) as (u & p & hop & -> & Hw & Hu & _). left. pose proof (walk_v2 _ _ _ _ _ Ht Hw) as Hv2.
  destruct Hw as [t|]; [congruence|]. apply Forall_cons in Hv2 as [Hv2 _]. cbn. by rewrite Hv2.
Qed.

Lemma reserves_yields block done route : Forall buyable done → buyable route → yields (add_reserves (W := W) json_text block done route) (Forall buyable).
Proof.
  intros Hd Hr. unfold add_reserves. eapply (yields_bind _ _ (λ r, map pd_src r = map pd_src route)).
  - assert (∀ l acc, yields (each (λ l hop, hop ← add_reserve_info (W := W) json_text hop block; mret (l ++ [hop])) acc l)
      (λ r, map pd_src r = map pd_src acc ++ map pd_src l)) as Hl; [|apply (Hl route [])].
    induction l as [|x l IH]; intros acc; cbn [each]; [apply yields_ret; by rewrite app_nil_r|].
    eapply (yields_bind _ _ (λ r, map pd_src r = map pd_src acc ++ [pd_src x])).
    + eapply yields_bind; [apply reserve_info_yields|]. intros q Hq. apply yields_ret. rewrite map_app. cbn. by rewrite Hq.
    + intros a Ha. eapply yields_weaken; [apply IH|]. intros r ->. by rewrite Ha, <- app_assoc.
  - intros r Er. apply yields_ret, Forall_app. split; [done|]. constructor; [|constructor]. unfold buyable. by rewrite Er.
Qed.

(** What the subgraph search answers: routes that can be bought along, unless the token is WETH *)
Lemma find_path_yields network token block : yields (find_path_subgraph (W := W) json_text network token block)
  (λ info, bi_is_weth (basic_info info) = true ∨ Forall buyable (routes info)).
Proof.
  assert (∀ l, Forall buyable l ∨ get_weth network = Some token → yields (with_info (W := W) l network token)
    (λ info, bi_is_weth (basic_info info) = true ∨ Forall buyable (routes info))) as Hinfo.
  { intros l Hl. unfold with_info. yields_step weth Hw. apply yields_ret. cbn. destruct Hl as [?|Hl]; [by right|left].
    apply bool_decide_eq_true. congruence. }
  unfold find_path_subgraph. yields_step pegged Hp. destruct (is_pegged pegged token) eqn:Ht.
  - eapply yields_bind; [apply pegged_hop_yields|]. intros hop [Hh|Hh]; apply Hinfo; [left|by right].
    constructor; [|constructor]. right. cbn. by rewrite Hh.
  - eapply yields_bind; [apply all_hops_yields|]. intros [hops k] Hh. eapply yields_bind; [by apply search_yields|]. intros [v found] Hf.
    eapply yields_bind; [apply (yields_each _ (Forall buyable)); [|constructor]|].
    + intros r l Hr Hl. apply reserves_yields; [done|]. cbn in Hf. rewrite Forall_forall in Hf. by apply Hf.
    + intros l Hl. apply Hinfo. by left.
Qed.

(** A route that can be bought along gives a path that can. *)
Lemma path_context_ok network r p : path_context network r = Some p → buyable r → path_ok p.
Proof.
  assert (∀ q0 hop q1, add_hop network q0 hop = Some q1 → (route q0 ≠ [] → route q1 ≠ []) ∧ (pd_src hop = v2 → route q1 ≠ []) ∧
    (pd_src hop = lit "pegged" → is_Some (final_pegged_pair q1))) as Hhop.
  { intros q0 hop q1. unfold add_hop. case_decide as Hs; [|case_decide as Hs2; [|case_decide as Hs3; [|done]]].
    - intros (x & _ & [= <-])%bind_Some. cbn. split; [by destruct (route q0)|]. split; [by destruct (route q0)|]. by rewrite Hs.
    - intros (x & _ & [= <-])%bind_Some. by split_and!.
    - intros [= <-]. by split_and!. }
  unfold path_context. generalize (mkPathContext [] 0 None) as q0. intros q0 E [Hb|Hb].
  - left. destruct r as [|hop r]; [done|]. cbn in Hb. injection Hb as Hv. cbn [foldM] in E. apply bind_Some in E as (q1 & (_ & Hne & _)%Hhop & E).
    specialize (Hne Hv). clear -Hhop E Hne. revert q1 E Hne. induction r as [|x r IH]; intros q1; cbn [foldM]; [by intros [= <-]|].
    intros (q2 & (Hk & _)%Hhop & E)%bind_Some Hne. by eapply IH; [exact E|apply Hk].
  - right. clear -Hhop E Hb. revert q0 E. induction r as [|x r IH]; intros q0; [done|]. cbn [foldM]. intros (q1 & Hx%Hhop & E)%bind_Some.
    destruct r as [|y r]; [|by eapply IH]. injection E as <-. cbn in Hb. injection Hb as Hb. by apply Hx.
Qed.

(** A token that can be bought: WETH, or one whose paths can all be bought along *)
Definition token_ok (ctx : TokenContext) : Prop := is_weth ctx = true ∨ Forall path_ok (swaps ctx).
Definition paths_ok (c : OnChainConfig W) : Prop := map_Forall (λ _, token_ok) (uniswap_path_cache c).

Lemma fetch_path_yields token : yields (fetch_uniswap_path (W := W) json_text token) token_ok.
Proof.
  unfold fetch_uniswap_path. yields_step network Hn. yields_step blk Hb. eapply yields_bind; [apply find_path_yields|intros info Hi].
  yields_step weth Hw. yields_step paths Hp. apply yields_ret. destruct Hi as [Hi|Hi]; [by left|right]. cbn.
  destruct (mapM_opt_elem _ _ _ Hp) as [_ Hy]. apply Forall_forall. intros p (r & Hr & E)%Hy. rewrite Forall_forall in Hi.
  by eapply path_context_ok; [exact E|apply Hi].
Qed.

(** What the cache of paths gives can be bought, and the cache keeps only such tokens. *)
Lemma cached_path_ok token c ctx c' : fetch_uniswap_path_cached (W := W) json_text token c = Some (ctx, c') → paths_ok c →
  token_ok ctx ∧ paths_ok c'.
Proof.
  unfold fetch_uniswap_path_cached. rewrite gets_run. intros E Hc. destruct (uniswap_path_cache c !! token) as [p|] eqn:Ec.
  - injection E as <- <-. split; [exact (Hc token p Ec)|done].
  - apply bind_Some in E as ([p c1] & [E1 Hp]%fetch_path_yields & [= <- <-]). split; [done|]. unfold paths_ok.
    cbn [set_uniswap_path_cache uniswap_path_cache]. apply map_Forall_insert_2; [done|]. by rewrite E1.
Qed.
End buyable.

(** ** A table of pairs with a cycle *)

Definition weth : str := lit "0xc02aaa39b223fe8d0a0e5c4f27ead9083c756cc2".
Definition toy_pair (a b : str) : PairData := mkPairData (lit "v2") 0 (a ++ b) b 18 18 (lit "uniswapv2") 0 a [] [].
Definition toy_hops : gmap str (list PairData) :=
  {[ lit "a" := [toy_pair (lit "a") (lit "b"); toy_pair (lit "a") weth];
     lit "b" := [toy_pair (lit "b") (lit "a"); toy_pair (lit "b") weth] ]}.
Definition eth_pegged : list (str * str) := default [] (get_pegged_token (lit "eth")).
Abbreviation toy_search :=
  (dfs 4 (λ t, get_pegged_next_hop (λ _, []) t (lit "eth") (lit "latest")) eth_pegged toy_hops (lit "a") [] (∅, []) toy_endpoint).
Lemma toy_walk : walk eth_pegged toy_hops (lit "a") [toy_pair (lit "a") weth] weth.
Proof. econstructor; [vm_compute; reflexivity|vm_compute; reflexivity|right; left|constructor]. Qed.
Lemma toy_routes_found :
  (map (map pd_next) ∘ snd ∘ fst <$> toy_search) = Some [[lit "b"; weth; []]; [weth; []]].
Proof. vm_compute. reflexivity. Qed.
Lemma toy_search_returns : ∃ visited found c', toy_search = Some ((visited, found), c').
Proof.
  assert (is_Some (toy_search)) as [[[v f] c'] E] by (apply fmap_is_Some with (f := map (map pd_next) ∘ snd ∘ fst); rewrite toy_routes_found; by eexists).
  by exists v, f, c'.
Qed.

Lemma routes_are_paths_witness :
  ∃ visited found c', toy_search = Some ((visited, found), c') ∧
    ∃ r, r ∈ found ∧ route_to (λ t, get_pegged_next_hop (λ _, []) t (lit "eth") (lit "latest")) eth_pegged toy_hops toy_endpoint (lit "a") weth r.
Proof.
  pose proof (routes_are_paths (λ _, []) (lit "eth") (lit "latest") eth_pegged toy_hops (lit "a") toy_endpoint eq_refl) as Hr.
  destruct toy_search_returns as (v & f & c' & E). cbv zeta in Hr. change (S (S (size toy_hops))) with 4%nat in Hr. rewrite E in Hr.
  destruct Hr as (_ & _ & Hr). exists v, f, c'. split; [exact E|]. apply (Hr _ _ toy_walk). vm_compute. reflexivity.
Defined.
