(* ===== verification/Main.v ===== *)
(** * The command line ([src/cli/src/main.rs])

    [main] turns the options into the configuration of a fuzzer and runs it: the chain, the
    contracts, the oracles and their producers, and the statics.  The chains it knows are
    those of [Chain] in [src/src/evm/onchain/endpoints.rs]. *)
From S2P Require Import Prelude Types State MutationUtils SrcMap F64 Expr Abi AbiLayout AbiParse Uniswap Corpus Scheduler SchedulerInv I256 Tracer Evm Host HostCall HostCallProps Bytecode Revm RevmProps Vm VmState InputMutate InputMutateProps Replay ReplayProps Feedback FuzzerLoop FuzzerProps Oracles EvmCampaign Loader CorpusInit CorpusInitProps GpuStage GpuStageProps Driver Endpoints OnChain Routes.
#[local] Open Scope Z_scope.

(** ** Chains *)

(** The tables of [Chain] *)
Definition get_chain_id (c : Chain) : Z :=
  match c with ETH => 1 | BSC => 56 | POLYGON => 137 | MUMBAI => 80001 | LOCAL => 31337 end.
Definition chain_to_lowercase (c : Chain) : str :=
  lit (match c with ETH => "eth" | BSC => "bsc" | POLYGON => "polygon" | MUMBAI => "mumbai" | LOCAL => "local" end).
Definition get_chain_rpc (c : Chain) : str :=
  lit (match c with
       | ETH => "https://eth.llamarpc.com"
       | BSC => "https://bsc.llamarpc.com"
       | POLYGON => "https://polygon.llamarpc.com"
       | MUMBAI => "https://rpc-mumbai.maticvigil.com/"
       | LOCAL => "http://localhost:8545"
       end).
Definition chain_explorer (c : Chain) : str :=
  lit (match c with
       | ETH => "https://api.etherscan.io/api"
       | BSC => "https://api.bscscan.com/api"
       | POLYGON => "https://api.polygonscan.com/api"
       | MUMBAI => "https://mumbai.polygonscan.com/api"
       | LOCAL => "http://localhost:8080/abi/"
       end).

(** [{:x}] of a [u64] *)
Fixpoint lower_hex (fuel : nat) (z : Z) : str :=
  match fuel with
  | O => []
  | Datatypes.S fuel => if z <? 16 then [hex_digit z] else lower_hex fuel (z / 16) ++ [hex_digit (z mod 16)]
  end.
Definition block_text (n : Z) : str := if n =? 0 then lit "latest" else lit "0x" ++ lower_hex 16 n.

(** [OnChainConfig::new_raw] and [OnChainConfig::new], on the network and the file of the cache *)
Definition OnChainConfig_new_raw {W} (w : W) (cache : gmap str str) (endpoint_url : str) (chain_id block_number : Z)
  (etherscan_base chain_name : str) : OnChainConfig W :=
  mkOnChainConfig endpoint_url chain_id (block_text block_number) None [] etherscan_base chain_name ∅ ∅ ∅ ∅ ∅ ∅ cache w.
Definition OnChainConfig_new {W} (w : W) (cache : gmap str str) (chain : Chain) (block_number : Z) : OnChainConfig W :=
  OnChainConfig_new_raw w cache (get_chain_rpc chain) (get_chain_id chain) block_number (chain_explorer chain) (chain_to_lowercase chain).
Definition push_api_key {W} (k : str) (c : OnChainConfig W) : OnChainConfig W :=
  mkOnChainConfig (endpoint_url c) (oc_chain_id c) (block_number c) (block_hash c) (etherscan_api_key c ++ [k]) (etherscan_base c)
    (chain_name c) (slot_cache c) (code_cache c) (abi_cache c) (storage_all_cache c) (storage_dump_cache c)
    (uniswap_path_cache c) (rpc_cache c) (net c).

(** ** The options *)

(** [struct Args]; the paths that are only written to, the index of the device, and the options
    that nothing reads ([concolic] and the address of a proxy) are left out. *)
Record Args := mkArgs {
  a_target : str;
  a_ptx_path : str;
  a_target_type : option str;
  a_fuzzer_type : str;
  a_onchain : bool;
  a_chain_type : option str;
  a_onchain_block_number : option Z;
  a_onchain_url : option str;
  a_onchain_chain_id : option Z;
  a_onchain_explorer_url : option str;
  a_onchain_chain_name : option str;
  a_onchain_etherscan_api_key : option str;
  a_onchain_storage_fetching : str;
  a_flashloan : bool;
  a_flashloan_price_oracle : str;
  a_ierc20_oracle : bool;
  a_pair_oracle : bool;
  a_bug_oracle : bool;
  a_panic_on_bug : bool;
  a_run_forever : bool;
  a_replay_file : option str;
  a_seed : Z
}.

(** [enum TargetType], [enum FuzzerTypes] and its [from_str] *)
Inductive TargetType := Glob | Address.
Inductive FuzzerTypes := CMP | DATAFLOW | BASIC.
Definition fuzzer_type_from_str (s : str) : option FuzzerTypes :=
  if decide (s = lit "cmp") then Some CMP
  else if decide (s = lit "dataflow") then Some DATAFLOW
  else if decide (s = lit "basic") then Some BASIC
  else None.

Definition target_type (a : Args) : option TargetType :=
  match a_target_type a with
  | Some v => if decide (v = lit "glob") then Some Glob else if decide (v = lit "address") then Some Address else None
  | None => Some (if AbiParse.starts_with (a_target a) (lit "0x") then Address else Glob)
  end.

(** The oracles and producers in the order they are registered *)
Inductive OracleName := PairBalance | IERC20Flashloan | Bug.
Inductive ProducerName := Pair | ERC20.
Definition registered_oracles (a : Args) : list OracleName :=
  (if a_pair_oracle a then [PairBalance] else []) ++ (if a_ierc20_oracle a then [IERC20Flashloan] else []) ++
  (if a_bug_oracle a then [Bug] else []).
Definition registered_producers (a : Args) : list ProducerName :=
  (if a_ierc20_oracle a || a_pair_oracle a then [Pair] else []) ++ (if a_ierc20_oracle a then [ERC20] else []).

(** The statics that [main] writes *)
Definition main_globals (a : Args) : Globals :=
  mkGlobals false false false false (2 ^ 32 - 1) (a_bug_oracle a && a_panic_on_bug a).

Section options.
Context {W : Type} (w : W) (cache : gmap str str).

(** [onchain], with the API key *)
Definition chain_of (a : Args) : option (option (OnChainConfig W)) :=
  if a_onchain a then
    match a_chain_type a with
    | Some chain_str =>
        chain ← chain_from_str chain_str;
        block_number ← a_onchain_block_number a;
        Some (Some (OnChainConfig_new w cache chain block_number))
    | None =>
        url ← a_onchain_url a;
        chain_id ← a_onchain_chain_id a;
        explorer ← a_onchain_explorer_url a;
        name ← a_onchain_chain_name a;
        Some (Some (OnChainConfig_new_raw w cache url chain_id (default 0 (a_onchain_block_number a)) explorer name))
    end
  else Some None.
Definition setup_onchain (a : Args) : option (option (OnChainConfig W)) :=
  onchain ← chain_of a;
  Some (match a_onchain_etherscan_api_key a with Some k => option_map (push_api_key k) onchain | None => onchain end).

(** The addresses of [target], and a router when profits are looked for *)
Definition ETH_ADDRESS : str := lit "0x7a250d5630b4cf539739df2c5dacb4c659f2488d".
Definition BSC_ADDRESS : str := lit "0x10ed43c718714eb63d5aa57b78b54704e256024e".
Definition with_router (router target : str) : str :=
  if contains_str target router then target else target ++ lit "," ++ router.
Definition args_target (a : Args) (chain : str) : str :=
  if a_ierc20_oracle a || a_flashloan a then
    if decide (chain = lit "bsc") then with_router BSC_ADDRESS (a_target a)
    else if decide (chain = lit "eth") then with_router ETH_ADDRESS (a_target a)
    else a_target a
  else a_target a.
End options.

(** ** The configuration *)

Section main.
Context {R C D G W : Type} `{Libafl R} `{HashOrder} `{VecCorpus C} `{TxnCorpus D} `{Formats} `{Gpu G} `{Net W} `{Outside}.
Abbreviation fuzz := (EVMFuzzState R C).
Abbreviation hidden := (FuzzState R * G * (VMHost Env * gmap (list byte) (gset Z)))%type.
Abbreviation state := (@FzState R C D hidden).

(** The network, the file of the cache, the generators and the corpus of libafl *)
Context (w : W) (cache : gmap str str) (with_seed : Z → R) (default_rand : R) (current_nanos : Z) (txn_corpus_new : C)
  (addr_display : EVMAddress → str) (order : list (str * Z) → list (str * Z)) (set_order : list EVMAddress → list EVMAddress).

(** What [evm_fuzzer] is called with *)
Record Launch := mkLaunch {
  l_type : FuzzerTypes;
  l_config : DriverConfig;
  l_onchain : option (OnChainConfig W);
  l_fetching : option StorageFetchingMode;
  l_load : @Load R
}.

(** [FuzzState::new] *)
Definition fuzz_state_new (seed : Z) : FuzzState R := FuzzState_new (with_seed (if seed =? 0 then current_nanos else seed)).
Definition launch_state (l : Launch) : fuzz :=
  mkEVMFuzzState (ld_state (l_load l)) ∅ txn_corpus_new (mkInfant corpus_new None default_rand 0).

(** [contract_info], with the chain after the reads *)
Definition target_contracts (a : Args) (ty : TargetType) (onchain : option (OnChainConfig W)) (s : @Load R)
  : option (list ContractInfo * option (OnChainConfig W) * Load) :=
  match ty with
  | Glob => '(contracts, s) ← from_glob order (a_target a) s; Some (contracts, onchain, s)
  | Address =>
      c ← onchain;
      addresses ← mapM_opt addr_from_str (split_on ","%char (args_target a (chain_name c)));
      '(contracts, c) ← from_address addr_display [] (set_order (remove_dups addresses)) c;
      Some (contracts, Some c, s)
  end.

(** The texts of the files to replay *)
Definition replay_texts (a : Args) : option (option (list str)) :=
  match a_replay_file a with
  | None => Some None
  | Some files => paths ← glob files; texts ← mapM_opt (λ p, p ← p; read_file p) paths; Some (Some texts)
  end.

Definition prepare (a : Args) : option Launch :=
  ty ← target_type a;
  onchain ← setup_onchain w cache a;
  let is_onchain := bool_decide (is_Some onchain) in
  fuzzer_type ← fuzzer_type_from_str (a_fuzzer_type a);
  '(contracts, onchain, s) ← target_contracts a ty onchain (mkLoad (fuzz_state_new (a_seed a)) ∅);
  _ ← (if decide (a_flashloan_price_oracle a = lit "onchain") then (if is_onchain then Some tt else None) else Some tt);
  fetching ← (if is_onchain then m ← fetching_mode_from_str (a_onchain_storage_fetching a); Some (Some m) else Some None);
  replay ← replay_texts a;
  Some (mkLaunch fuzzer_type
    (mkDriverConfig is_onchain (a_flashloan a) contracts replay (a_ptx_path a) (a_run_forever a)) onchain fetching s).

(** ** [main] *)

(** The parameters of [evm_fuzzer], as in [Driver], and the oracle on pairs, which panics in
    this build *)
Context (cfg : Launch → Globals → Config Env fuzz) (fuel : nat).
Context (deployer : EVMAddress) (dummy : fuzz) (sched_on_add : Z → fuzz → option fuzz) (blacklist : option (gset Z))
  (mw_order : list MiddlewareType → list MiddlewareType).
Context (base : @Campaign R C D hidden) (lp : @Loop R C D G (VMHost Env * gmap (list byte) (gset Z))).
Context (InitCudaCtx : str → G → G) (cuMallocAll : G → G) (pair_oracle : @Oracle (@OracleCtx R C D hidden)).

Definition oracle_of (o : OracleName) : @Oracle (@OracleCtx R C D hidden) :=
  match o with PairBalance => pair_oracle | IERC20Flashloan => erc20_oracle | Bug => bug_oracle end.
Definition producer_of (p : ProducerName) : @Producer (@OracleCtx R C D hidden) :=
  match p with Pair => pair_producer | ERC20 => erc20_producer end.

(** The fuzzer that [main] builds: its oracles, and the campaign of a launch *)
Definition main_oracles (a : Args) := map oracle_of (registered_oracles a).
Definition main_producers (a : Args) := map producer_of (registered_producers a).

(** [main]: a type of fuzzer other than [cmp] is accepted, and nothing is run. *)
Definition main (a : Args) (n : nat) (solutions : D) (gpu : G) : fresult (option (Minimizer * state)) :=
  l ← or_panic (prepare a);
  match l_type l with
  | CMP =>
      r ← evm_fuzzer (cfg l) keccak256 fuel deployer dummy sched_on_add blacklist set_order mw_order base lp
            (main_producers a) (main_oracles a) InitCudaCtx cuMallocAll (main_globals a) (l_config l) n
            (launch_state l) (ld_sigs (l_load l)) solutions gpu;
      Done (Some r)
  | _ => Done None
  end.

(** ** What is registered *)

Lemma registered_ok a : a_pair_oracle a = false → oracles_of (a_bug_oracle a) (a_ierc20_oracle a) (main_oracles a).
Proof.
  intros Hp. unfold main_oracles, registered_oracles. rewrite Hp.
  split; [intros o; rewrite list_elem_of_fmap; intros (y & -> & Hy); revert Hy|split; intros ->];
    destruct (a_ierc20_oracle a), (a_bug_oracle a); cbn; set_solver.
Qed.

Lemma producers_ok a p : p ∈ main_producers a → p = erc20_producer ∨ p = pair_producer.
Proof. unfold main_producers. intros ([] & -> & _)%list_elem_of_fmap; auto. Qed.

Lemma prepare_replay a l : prepare a = Some l → a_replay_file a = None → dc_replay_file (l_config l) = None.
Proof.
  unfold prepare, replay_texts. intros E Hr. rewrite Hr in E.
  apply bind_Some in E as (ty & _ & E). apply bind_Some in E as (onchain & _ & E). apply bind_Some in E as (fty & _ & E).
  apply bind_Some in E as ([[contracts c] ld] & _ & E). apply bind_Some in E as (u & _ & E). apply bind_Some in E as (fetching & _ & E).
  rewrite obind_Some in E. by injection E as <-.
Qed.

(** ** What [main] promises *)

Context `{!CampaignOk base} `{!LoopOk lp} `{!∀ l g, StateLaws (cfg l g) grows} `{!∀ l g, InitOk (cfg l g)} `{!SchedOk sched_on_add}.
Context `{!RandLaws R} `{!LibaflLaws R}.

(** The campaign of a launch, and the start of its loop: the state that the deployments
    leave, and the chain state in it *)
Definition launched (a : Args) (l : Launch) : @Campaign R C D hidden :=
  campaign (cfg l) keccak256 fuel base (main_producers a) (main_oracles a) (set_dump true (setup_globals (l_config l) (main_globals a))).
Definition launch_start (a : Args) (l : Launch) (solutions : D) (gpu : G) : option ((Minimizer * state) * EVMState) :=
  (λ x, ((∅, start x solutions (setup_device InitCudaCtx cuMallocAll (l_config l) gpu)), evmstate (core (i_host x)))) <$>
    deployed (cfg l) keccak256 fuel deployer dummy sched_on_add blacklist set_order mw_order (l_config l)
      (setup_globals (l_config l) (main_globals a)) (launch_state l) (ld_sigs (l_load l)).

End main.

(** ** Single options *)

(** On a known chain the number of a block is needed, whatever else is given; an unknown
    node is read at its latest block without one. *)
Lemma block_number_needed {W} (w : W) cache a : a_onchain a = true → a_onchain_block_number a = None →
  setup_onchain w cache a = None ∨
  ∃ c, a_chain_type a = None ∧ setup_onchain w cache a = Some (Some c) ∧ block_number c = lit "latest".
Proof.
  intros Ho Hb. unfold setup_onchain, chain_of. rewrite Ho, Hb. destruct (a_chain_type a) as [s|]; [by left; destruct (chain_from_str s)|].
  destruct (a_onchain_url a), (a_onchain_chain_id a), (a_onchain_explorer_url a), (a_onchain_chain_name a); auto.
  right. destruct (a_onchain_etherscan_api_key a); by eexists.
Qed.

(** The names that a chain prints are read back as the chain. *)
Lemma chain_roundtrip c : chain_from_str (chain_to_lowercase c) = Some c.
Proof. by destruct c. Qed.

(** Hexadecimal block numbers denote the number. *)
Definition hex_value (s : str) : Z := fold_left (λ acc c, acc * 16 + default 0 (hex_digit_value c)) s 0.
Lemma lower_hex_value fuel z : 0 ≤ z < 16 ^ Z.of_nat fuel → hex_value (lower_hex fuel z) = z.
Proof.
  revert z. induction fuel as [|fuel IH]; intros z Hz; [cbn in *; lia|].
  assert (∀ d, 0 ≤ d < 16 → default 0 (hex_digit_value (hex_digit d)) = d) as Hd.
  { intros d Hd. assert (d ∈ seqZ 0 16) as Hin by (apply elem_of_seqZ; lia). revert Hin. clear. intros Hin.
    vm_compute seqZ in Hin. set_unfold in Hin. naive_solver. }
  cbn [lower_hex]. destruct (Z.ltb_spec z 16).
  - unfold hex_value. cbn [fold_left]. rewrite Hd by lia. lia.
  - unfold hex_value. rewrite fold_left_app. fold (hex_value (lower_hex fuel (z / 16))). rewrite IH.
    + cbn [fold_left]. rewrite Hd by (apply Z.mod_pos_bound; lia). pose proof (Z.div_mod z 16). lia.
    + rewrite Nat2Z.inj_succ, Z.pow_succ_r in Hz by lia. split; [apply Z.div_pos; lia|]. apply Z.div_lt_upper_bound; lia.
Qed.
Lemma block_text_value n : 0 < n < 2 ^ 64 → ∃ s, block_text n = lit "0x" ++ s ∧ hex_value s = n.
Proof.
  intros Hn. unfold block_text. rewrite (proj2 (Z.eqb_neq n 0)) by lia. eexists. split; [done|]. apply lower_hex_value.
  split; [lia|]. change (16 ^ Z.of_nat 16) with (2 ^ 64). lia.
Qed.

Lemma split_on_nonempty c s : split_on c s ≠ [].
Proof. induction s as [|x s IH]; cbn [split_on]; [done|]. case_decide; [done|]. by destruct (split_on c s). Qed.
Lemma split_on_concat c s t : split_on c (s ++ c :: t) = split_on c s ++ split_on c t.
Proof.
  induction s as [|x s IH]; cbn [app split_on]; [by rewrite decide_True|].
  case_decide; [by rewrite IH|]. rewrite IH. pose proof (split_on_nonempty c s). by destruct (split_on c s).
Qed.
(** When profits are looked for on a chain with a known router, it is one of the targets. *)
Lemma router_targeted a chain router : a_ierc20_oracle a || a_flashloan a = true →
  (chain = lit "bsc" ∧ router = BSC_ADDRESS) ∨ (chain = lit "eth" ∧ router = ETH_ADDRESS) →
  contains_str (a_target a) router = true ∨
  split_on ","%char (args_target a chain) = split_on ","%char (a_target a) ++ [router].
Proof.
  intros Hl Hc. unfold args_target. rewrite Hl.
  assert ((if decide (chain = lit "bsc") then with_router BSC_ADDRESS (a_target a)
           else if decide (chain = lit "eth") then with_router ETH_ADDRESS (a_target a) else a_target a) = with_router router (a_target a)) as ->
    by (destruct Hc as [[-> ->]|[-> ->]]; [rewrite decide_True by done|rewrite decide_False, decide_True by done]; reflexivity).
  unfold with_router. destruct (contains_str _ router); [by left|right].
  rewrite (split_on_concat "," (a_target a) router : split_on "," (a_target a ++ lit "," ++ router) = _). f_equal.
  by destruct Hc as [[_ ->]|[_ ->]].
Qed.

(** ** A run from the command line *)

(** A folder with one contract, whose constructor returns the code of [EvmCampaign.two_step] *)
Definition main_code : list byte := two_step ++ [x63; x12; x34; x56; x78; x00].
Definition main_constructor : list byte := [x60; x18; x60; x0a; x5f; x39; x60; x18; x5f; xf3] ++ main_code.
#[local] Instance no_net : Net unit := {|
  http_get _ w := (None, w); http_post _ _ w := (None, w); hash_key s := s; random_usize w := (0, w);
  addr_lower_hex a := hex_encode (z2be 20 a); u256_lower_hex v := hex_encode (to_be_bytes v); u256_from_hex s := be2z <$> hex_decode s
|}.
Definition main_abi : Value :=
  VArray [VObject [(lit "inputs", VArray [VObject [(lit "name", VString []); (lit "type", VString (lit "uint256"))]]); (lit "name", VString (lit "set"));
    (lit "stateMutability", VString (lit "payable")); (lit "type", VString (lit "function"))]].
#[local] Instance main_outside : Outside := {|
  json_from_str s := Some main_abi;
  glob _ := Some [Some (lit "d/c.abi"); Some (lit "d/c.bin")];
  read_file p := Some (if decide (p = lit "d/c.bin") then hex_encode main_constructor else lit "abi");
  random_using v := v mod 2 ^ 160; keccak256 l := Z.of_nat (length l)
|}.
Definition main_args : Args :=
  mkArgs (lit "d/*") [] None (lit "cmp") false None None None None None None None (lit "onebyone")
    true (lit "dummy") true false true false false None 13.
Abbreviation toy_main n := (main (R := Z) (C := toy_inputs) (D := toy_inputs) (G := list byte) () ∅ id 7 5 [] addr_debug id id
  (λ _, toy_config) 60 1 toy_start (λ _ s, Some s) None id idle_parts first_seed (λ _ g, g) id bug_oracle main_args n [] []).

