(* ===== verification/FlashloanV2.v ===== *)
(** * Flash loans with [flashloan_v2]

    The other build of [src/src/evm/onchain/flashloan.rs], [src/src/evm/oracles/erc20.rs],
    [src/src/evm/oracles/v2_pair.rs] and the two producers.  Nothing is lent here: tokens
    are bought at a router by inputs of a type of their own, and after every execution the
    balances of all callers in the tokens that were touched are compared with those before
    it; what was gained is sold on the pairs of the chain, and what was lost is bought back.

    [FlashloanData] is a part of the VM state.  The executor of [Vm] keeps the other parts
    in its host; the data of this build travel beside its state, and the field of the same
    name in [EVMState], which belongs to the other build, is not read. *)
From S2P Require Import Prelude Types State MutationUtils SrcMap F64 Expr Abi AbiLayout AbiParse AbiMutate Corpus Scheduler I256 Tracer Evm Host HostProps HostCall HostCallProps Vm FlashloanMw InputMutate Replay FuzzerLoop Uniswap Loader CorpusInit Endpoints Routes.
#[local] Open Scope Z_scope.

(** ** Data *)

(** [struct FlashloanData] and [FlashloanData::new]; [extra_info] is only printed. *)
Record FlashloanData_v2 := mkFlashloanData_v2 {
  oracle_recheck_reserve : gset Z;
  oracle_recheck_balance : gset Z;
  fd_owed : EVMU512;
  fd_earned : EVMU512;
  prev_reserves : gmap Z (Z * Z);
  unliquidated_tokens : gmap Z Z
}.
Definition FlashloanData_v2_new : FlashloanData_v2 := mkFlashloanData_v2 ∅ ∅ 0 0 ∅ ∅.

Definition recheck_reserve (a : EVMAddress) (d : FlashloanData_v2) : FlashloanData_v2 :=
  mkFlashloanData_v2 ({[a]} ∪ oracle_recheck_reserve d) (oracle_recheck_balance d) (fd_owed d) (fd_earned d) (prev_reserves d) (unliquidated_tokens d).
Definition recheck_balance (a : EVMAddress) (d : FlashloanData_v2) : FlashloanData_v2 :=
  mkFlashloanData_v2 (oracle_recheck_reserve d) ({[a]} ∪ oracle_recheck_balance d) (fd_owed d) (fd_earned d) (prev_reserves d) (unliquidated_tokens d).
Definition fd_add_owed (v : EVMU512) (d : FlashloanData_v2) : FlashloanData_v2 :=
  mkFlashloanData_v2 (oracle_recheck_reserve d) (oracle_recheck_balance d) (add512 (fd_owed d) v) (fd_earned d) (prev_reserves d) (unliquidated_tokens d).
Definition fd_add_earned (v : EVMU512) (d : FlashloanData_v2) : FlashloanData_v2 :=
  mkFlashloanData_v2 (oracle_recheck_reserve d) (oracle_recheck_balance d) (fd_owed d) (add512 (fd_earned d) v) (prev_reserves d) (unliquidated_tokens d).

(** [struct IERC20OracleFlashloan], without its links to the producers *)
Record IERC20Oracle := mkIERC20Oracle {
  known_tokens : gmap Z TokenContext;
  known_pair_reserve_slot : gmap Z EVMU256
}.
Definition register_token (token : EVMAddress) (ctx : TokenContext) (o : IERC20Oracle) : IERC20Oracle :=
  mkIERC20Oracle (<[token := ctx]> (known_tokens o)) (known_pair_reserve_slot o).
Definition register_pair_reserve_slot (pair : EVMAddress) (slot : EVMU256) (o : IERC20Oracle) : IERC20Oracle :=
  mkIERC20Oracle (known_tokens o) (<[pair := slot]> (known_pair_reserve_slot o)).

(** [struct Flashloan]; the oracle is shared with the objective of the fuzzer. *)
Record Flashloan_v2 := mkFlashloan_v2 {
  known_addresses : gset Z;
  erc20_addresses : gset Z;
  pair_addresses : gset Z;
  flashloan_oracle : IERC20Oracle
}.

(** [scale!] *)
Definition scale : EVMU512 := 1000000.

(** [enum EVMInputTy], and what an input has more in this build *)
Inductive EVMInputTy := ABI | Borrow | Liquidate.
#[export] Instance input_ty_eq_dec : EqDecision EVMInputTy.
Proof. solve_decision. Defined.
Record EVMInput_v2 := mkEVMInput_v2 {
  input_type : EVMInputTy;
  i2_input : EVMInput;
  liquidation_percent : Z;
  randomness : list byte
}.
Definition with_input (x : EVMInput_v2) (i : EVMInput) : EVMInput_v2 := mkEVMInput_v2 (input_type x) i (liquidation_percent x) (randomness x).
Definition set_randomness (x : EVMInput_v2) (v : list byte) : EVMInput_v2 := mkEVMInput_v2 (input_type x) (i2_input x) (liquidation_percent x) v.
Definition set_liquidation_percent (x : EVMInput_v2) (v : Z) : EVMInput_v2 := mkEVMInput_v2 (input_type x) (i2_input x) v (randomness x).

(** ** The middleware *)

Section middleware.
Context {E S : Type} (f : Flashloan_v2).

(** [analyze_call]: what an input sends is owed, and what it calls is looked at. *)
Definition analyze_call (x : EVMInput_v2) (d : FlashloanData_v2) : FlashloanData_v2 :=
  let d := match ei_txn_value (i2_input x) with Some v => fd_add_owed (mul512 v scale) d | None => d end in
  let addr := ei_contract (i2_input x) in
  let d := if bool_decide (addr ∈ erc20_addresses f) then recheck_balance addr d else d in
  if bool_decide (addr ∈ pair_addresses f) then recheck_reserve addr d else d.

(** The arguments of a transfer are read, and not used: [handle_transfer!] is empty. *)
Definition read_transfer (data : list byte) : option unit :=
  sel ← slice data 0 4;
  if decide (sel = sel_transfer) then _ ← address_at data 16 36; _ ← amount_at data 36 68; Some tt
  else if decide (sel = sel_transfer_from) then _ ← address_at data 48 68; _ ← amount_at data 68 100; Some tt
  else Some tt.

(** [on_step] *)
Definition on_call_v2 (offset_of_arg_offset : nat) (is_call : bool) (i : Interpreter) (d : FlashloanData_v2) : option FlashloanData_v2 :=
  let peek n := stack (view i) !! n in
  value_transfer ← (if is_call then peek 2%nat else Some 0);
  target ← peek 1%nat;
  call_target ← convert_u256_to_h160 target;
  offset ← peek offset_of_arg_offset;
  size ← peek (offset_of_arg_offset + 1)%nat;
  _ ← (if 4 <=? size then data ← slice (it_memory i) (as_u64 offset) (as_u64 offset + as_u64 size); read_transfer data else Some tt);
  let d := if (0 <? value_transfer) && (call_target =? cc_caller (ct_context (contract i)))
           then fd_add_earned (mul512 value_transfer scale) d else d in
  Some (if bool_decide (call_target ∈ erc20_addresses f) then recheck_balance call_target d else d).
Definition flashloan_step_v2 (i : Interpreter) (d : FlashloanData_v2) : option FlashloanData_v2 :=
  let op := opcode (view i) in
  let address := cc_address (ct_context (contract i)) in
  if op =? 0xf1 then on_call_v2 3 true i d
  else if op =? 0xfa then on_call_v2 2 false i d
  else if op =? 0x55 then
    key ← stack (view i) !! 0%nat;
    Some (if (key =? 8) && bool_decide (address ∈ pair_addresses f) then recheck_reserve address d else d)
  else Some d.

(** The middleware of the host, on the data beside its state; [on_insert] does nothing. *)
Definition flashloan_mw_v2 : Middleware E (FlashloanData_v2 * S) :=
  mkMiddleware _ _ (λ i h s, d ← flashloan_step_v2 i s.1; Some (i, h, (d, s.2))) (λ c a h s, Some (c, h, s)).
End middleware.

(** ** New contracts *)

(** [FuzzHost::find_static_call_read_slot]: the search is commented out. *)
Definition find_static_call_read_slot (address : EVMAddress) (data : list byte) : list EVMU256 := [].

(** [on_pair_insertion], with the selector of [getReserves] *)
Definition fetch_reserve : list byte := [x09; x02; xf1; xac].
Definition with_oracle (f : Flashloan_v2) (o : IERC20Oracle) : Flashloan_v2 :=
  mkFlashloan_v2 (known_addresses f) (erc20_addresses f) (pair_addresses f) o.
Definition on_pair_insertion (pair : EVMAddress) (f : Flashloan_v2) : Flashloan_v2 :=
  match find_static_call_read_slot pair fetch_reserve with
  | [slot; _; _] => with_oracle f (register_pair_reserve_slot pair slot (flashloan_oracle f))
  | _ => f
  end.

Section insertion.
Context {W R : Type} `{Net W} `{Rand R} `{Outside} `{Formats} (json_text : Value → str).

Definition abi_signatures_token : list str := map lit ["balanceOf"; "transfer"; "transferFrom"; "approve"]%string.
Definition abi_signatures_pair : list str := map lit ["skim"; "sync"; "swap"]%string.
Definition has_functions (abi : list ABIConfig) (names : list str) : bool :=
  forallb (λ n, bool_decide (n ∈ map ac_function_name abi)) names.

(** [on_contract_insertion]; [oracle_free] is false while the oracle runs, which then holds
    the cell that a token is registered in. *)
Definition on_contract_insertion (oracle_free : bool) (addr : EVMAddress) (abi : list ABIConfig) (f : Flashloan_v2)
  : io W (bool * bool * Flashloan_v2) :=
  if bool_decide (addr ∈ known_addresses f) then mret (false, false, f)
  else
    let f := mkFlashloan_v2 ({[addr]} ∪ known_addresses f) (erc20_addresses f) (pair_addresses f) (flashloan_oracle f) in
    '(is_erc20, f) ← (if oracle_free && has_functions abi abi_signatures_token then
                        ctx ← fetch_uniswap_path_cached json_text addr;
                        mret (true, mkFlashloan_v2 (known_addresses f) ({[addr]} ∪ erc20_addresses f) (pair_addresses f)
                                      (register_token addr ctx (flashloan_oracle f)))
                      else mret (false, f));
    if has_functions abi abi_signatures_pair
    then mret (is_erc20, true, mkFlashloan_v2 (known_addresses f) (erc20_addresses f) ({[addr]} ∪ pair_addresses f) (flashloan_oracle f))
    else mret (is_erc20, false, f).

(** The input of [register_borrow_txn] *)
Definition borrow_input (caller token : EVMAddress) : EVMInput_v2 :=
  mkEVMInput_v2 Borrow
    (mkEVMInput caller token None new_uninitialized 0 (Some (10 ^ 19)) false Env_default AccessPattern_new [] 1 false) 0 [x00].

(** [handle_contract_insertion!], with the inputs it adds to the corpus *)
Definition handle_contract_insertion (oracle_free : bool) (address : EVMAddress) (abi : list ABIConfig) (f : Flashloan_v2) (st : FuzzState R)
  : io W (Flashloan_v2 * FuzzState R * list EVMInput_v2) :=
  '(is_erc20, is_pair, f) ← on_contract_insertion oracle_free address abi f;
  '(st, new) ← (if (is_erc20 : bool) then
                  '(caller, st) ← must (get_rand_caller st); mret (st, [borrow_input caller address])
                else mret (st, []));
  mret (if (is_pair : bool) then on_pair_insertion address f else f, st, new).
End insertion.

(** ** Mutation ([mutator.rs]) *)

Section mutate.
Context {R : Type} `{Libafl R} `{HashOrder}.
Implicit Types (ms : @MutState R) (x : EVMInput_v2).
Definition mres_v2 : Type := option (MutationResult * @MutState R * EVMInput_v2).

(** A mutation of the part of an input that both builds have *)
Definition on_input (f : MutState → EVMInput → mres') ms x : mres_v2 :=
  '(r, ms, i) ← f ms (i2_input x); Some (r, ms, with_input x i).

(** Inputs that buy tokens: the path, the VM state, or the bytes *)
Definition mutate_borrow ms x : mres_v2 :=
  let '(rand_u8, st) := st_below (ms_fuzz ms) 255 in
  let '(v, st) := st_below st 3 in
  let ms := with_fuzz ms st in
  if v =? 0 then Some (Mutated, ms, set_randomness x [z2b rand_u8])
  else if v =? 1 then on_input cross_over ms x
  else on_input mutate_bytes ms x.

(** The default arms; the one of the liquidation percentage starts at 21, since the arm before
    it also has 20. *)
Definition mutate_default_v2 ms x : mres_v2 :=
  let '(v, st) := st_below (ms_fuzz ms) 100 in
  let ms := with_fuzz ms st in
  if v <=? 20 then on_input cross_over ms x
  else if v <=? 25 then
    let '(w, st) := st_below (ms_fuzz ms) 100 in
    let percent := if w <? 80 then 10 else 0 in
    Some (if decide (liquidation_percent x = percent) then Skipped else Mutated, with_fuzz ms st, set_liquidation_percent x percent)
  else on_input mutate_bytes ms x.

(** The closure [mutator] *)
Definition mutate_once_v2 (havoc_times : nat) ms x : mres_v2 :=
  let i := i2_input x in
  if ei_step i then on_input mutate_bytes ms x
  else if decide (input_type x = Borrow) then mutate_borrow ms x
  else if has_post_execution (ss_state (ei_sstate i)) then
    let '(v, st) := st_below (ms_fuzz ms) 100 in
    let ms := with_fuzz ms st in
    if v <? 60 then
      let i := set_step i true in
      len ← get_post_execution_needed_len (ss_state (ei_sstate i));
      '(ms, i) ← mutate_times (havoc_times - 1) ms (set_as_post_exec i len);
      Some (Mutated, ms, with_input x i)
    else mutate_default_v2 ms x
  else mutate_default_v2 ms x.

Fixpoint havoc_v2 (f : MutState → EVMInput_v2 → mres_v2) (n : nat) (res : MutationResult) ms x : mres_v2 :=
  match n with
  | O => Some (res, ms, x)
  | Datatypes.S n => '(r, ms, x) ← f ms x; havoc_v2 f n (if decide (r = Mutated) then Mutated else res) ms x
  end.
Fixpoint retry_v2 (round : MutState → EVMInput_v2 → mres_v2) (n : nat) ms x : mres_v2 :=
  match n with
  | O => Some (Skipped, ms, x)
  | Datatypes.S n =>
      '(r, ms, x) ← round ms x;
      if decide (r = Mutated) then Some (Mutated, ms, x) else retry_v2 round n ms x
  end.

(** [FuzzMutator::mutate] *)
Definition fuzz_mutate_v2 (stage_idx : Z) ms x : mres_v2 :=
  '(ms, x) ← (if ss_initialized (ei_sstate (i2_input x)) then Some (ms, x)
              else
                '(idx, s, infant) ← get_infant_state (ms_infant ms);
                Some (mkMutState (ms_fuzz ms) infant, with_input x (set_staged_state (i2_input x) s idx)));
  let '(v, st) := st_below (ms_fuzz ms) 100 in
  let '(havoc_times, st) := if v <? 60 then let '(n, st) := st_below st 10 in (Z.to_nat (n + 1), st)
                            else (1%nat, st) in
  let ms := with_fuzz ms st in
  if stage_idx =? -1 then retry_v2 (on_input mutate_bytes) 20 ms x
  else retry_v2 (havoc_v2 (mutate_once_v2 havoc_times) havoc_times Skipped) 20 ms x.
End mutate.

(** ** The executor *)

Section executor.
Context {E S : Type}.
Context (run : Interpreter → VMHost Env → FlashloanData_v2 * S → option (InstructionResult * Interpreter * VMHost Env * (FlashloanData_v2 * S))).
Implicit Types (h : VMHost Env) (s : S) (x : EVMInput_v2) (d : FlashloanData_v2).

(** [execute]: a transaction on the VM state of the input, of which [d] is the flash-loan part.
    Tokens are bought with the call [generate_uniswap_router_call] builds.  [execute_from_pc]
    ends with [analyze_call]; an input that resumes nothing does not get there. *)
Definition execute_borrow (f : Flashloan_v2) x d h s : option (ExecutionResult * FlashloanData_v2 * VMHost Env * S) :=
  let i := i2_input x in
  path_idx ← randomness x !! 0%nat;
  token ← known_tokens (flashloan_oracle f) !! ei_contract i;
  value ← ei_txn_value i;
  call_info ← generate_uniswap_router_call token (b2z path_idx) value (ei_caller i);
  match call_info with
  | Some (abi, value, target) =>
      bys ← boxed_get_bytes abi;
      '(res, h, ds) ← fast_call run target bys (ss_state (ei_sstate i)) value (ei_caller i) h (d, s);
      Some (mkExecutionResult (ir_output res) (is_reverted (ir_ret res)) (new_with_state (ir_new_state res)) (Some [b2z path_idx]) usize_max,
            analyze_call f x ds.1, h, ds.2)
  | None => Some (mkExecutionResult [] false (new_with_state (ss_state (ei_sstate i))) None usize_max, d, h, s)
  end.
Definition execute_v2 (f : Flashloan_v2) x d h s : option (ExecutionResult * FlashloanData_v2 * VMHost Env * S) :=
  let i := vm_input (i2_input x) in
  match input_type x with
  | Borrow => execute_borrow f x d h s
  | Liquidate => None
  | ABI =>
      '(r, h, ds) ← execute_abi run i h (d, s);
      let resumes_nothing := in_step i && bool_decide (post_execution (in_state i) = []) in
      Some (r, if resumes_nothing then FlashloanData_v2_new else analyze_call f x ds.1, h, ds.2)
  end.

(** ** The producers *)

(** [IERC20] and pair calls *)
Definition balance_of : list byte := [x70; xa0; x82; x31].
Definition balance_call (caller : EVMAddress) : list byte := balance_of ++ replicate 12 x00 ++ z2be 20 caller.

(** [call_pre_batch] and [call_post_batch]; what happens to the flash-loan data is forgotten. *)
Definition call_batch (vm_state : EVMState) (data : list (EVMAddress * list byte)) h s : option (list (list byte) * VMHost Env * S) :=
  '(outs, h, ds) ← fast_static_call run data vm_state h (FlashloanData_v2_new, s); Some (outs, h, ds.2).

(** [EVMU256::try_from_be_slice(..).unwrap_or(ZERO)] *)
Definition balance_of_output (out : list byte) : EVMU256 := default 0 (try_from_be_slice out).

(** [ERC20Producer::produce]; the loops over callers and tokens run over [keys]. *)
Abbreviation balances_map := (gmap (Z * Z) (EVMU256 * EVMU256)).
Definition balance_keys (callers tokens : list EVMAddress) : list (EVMAddress * EVMAddress) :=
  concat (map (λ caller, map (λ token, (caller, token)) tokens) callers).
Definition note_balance (pre_balance_res post_balance_res : list (list byte)) (acc : balances_map * nat) (key : EVMAddress * EVMAddress)
  : option (balances_map * nat) :=
  let '(balances, idx) := acc in
  pre_balance ← pre_balance_res !! idx;
  post_balance ← post_balance_res !! idx;
  Some (<[key := (balance_of_output pre_balance, balance_of_output post_balance)]> balances, Datatypes.S idx).
Definition erc20_produce (callers tokens : list EVMAddress) (pre_state post_state : EVMState) (balances : balances_map) h s
  : option (balances_map * VMHost Env * S) :=
  let keys := balance_keys callers tokens in
  let query_balance_batch := map (λ '(caller, token), (token, balance_call caller)) keys in
  '(post_balance_res, h, s) ← call_batch post_state query_balance_batch h s;
  '(pre_balance_res, h, s) ← call_batch pre_state query_balance_batch h s;
  '(balances, _) ← foldM (note_balance pre_balance_res post_balance_res) (balances, 0%nat) keys;
  Some (balances, h, s).

(** [PairProducer::produce] *)
Abbreviation reserves_of_pairs := (gmap Z (EVMU256 * EVMU256)).
Definition note_reserve (reserves : reserves_of_pairs) (x : list byte * EVMAddress) : option reserves_of_pairs :=
  let '(output, pair_address) := x in
  b0 ← slice output 0 32; reserve0 ← try_from_be_slice b0;
  b1 ← slice output 32 64; reserve1 ← try_from_be_slice b1;
  Some (<[pair_address := (reserve0, reserve1)]> reserves).
Definition pair_produce (pairs : list EVMAddress) (post_state : EVMState) (reserves : reserves_of_pairs) h s
  : option (reserves_of_pairs * VMHost Env * S) :=
  '(outputs, h, s) ← call_batch post_state (map (λ pair_address, (pair_address, fetch_reserve)) pairs) h s;
  reserves ← foldM note_reserve reserves (zip outputs pairs);
  Some (reserves, h, s).
End executor.

(** ** The oracles *)

(** The order in which the entries of a [HashMap] are visited *)
Class MapOrder := {
  map_iter {K} `{Countable K} {A} : gmap K A → list (K * A);
  map_iter_perm {K} `{Countable K} {A} (m : gmap K A) : map_iter m ≡ₚ map_to_list m
}.
#[export] Instance MapOrder_default : MapOrder :=
  {| map_iter _ _ _ _ := map_to_list; map_iter_perm _ _ _ _ m := Permutation_refl (map_to_list m) |}.

Section oracle.
Context `{MapOrder} `{Cartesian} (tokens : gmap Z TokenContext) (percent : Z).

(** What is bought back, what is sold, and what is kept, so far *)
Record weighed := mkWeighed {
  liquidations_owed : list (TokenContext * EVMU256);
  liquidations_earned : list (TokenContext * EVMU256);
  wd_unliquidated : gmap Z Z
}.

(** The share of an amount that is sold *)
Definition liquidated (amount : EVMU256) : EVMU256 := mul256 amount percent / 10.

(** The body of the loop over the balances *)
Definition weigh_balance (w : weighed) (x : (Z * Z) * (EVMU256 * EVMU256)) : option weighed :=
  let '((_, token), (prev_balance, new_balance)) := x in
  token_info ← tokens !! token;
  if new_balance <? prev_balance then
    Some (mkWeighed (liquidations_owed w ++ [(token_info, sub256 prev_balance new_balance)]) (liquidations_earned w) (wd_unliquidated w))
  else if prev_balance <? new_balance then
    let to_liquidate := liquidated (sub256 new_balance prev_balance) in
    let unliquidated := sub256 (sub256 new_balance prev_balance) to_liquidate in
    Some (mkWeighed (liquidations_owed w)
      (if 0 <? to_liquidate then liquidations_earned w ++ [(token_info, to_liquidate)] else liquidations_earned w)
      (if 0 <? unliquidated then <[token := add256 (default 0 (wd_unliquidated w !! token)) unliquidated]> (wd_unliquidated w) else wd_unliquidated w))
  else Some w.

(** The body of the loop over the tokens that were kept before *)
Definition weigh_kept (w : weighed) (x : Z * EVMU256) : option weighed :=
  let '(token, amount) := x in
  token_info ← tokens !! token;
  let liq := liquidated amount in
  if liq =? 0 then Some w
  else Some (mkWeighed (liquidations_owed w) (liquidations_earned w ++ [(token_info, liq)]) (<[token := sub256 amount liq]> (wd_unliquidated w))).

(** What [ORACLE_OUTPUT] says: earned, owed, the difference, and the difference in ether *)
Record profit := mkProfit { pf_earned : EVMU512; pf_owed : EVMU512; pf_net : EVMU512; pf_net_eth : EVMU512 }.
Definition sub512 (a b : EVMU512) : EVMU512 := (a - b) mod U512_MOD.

(** [IERC20OracleFlashloan::oracle] on the flash-loan data of the new state *)
Definition profit_oracle (pair_reserves : gmap Z (Z * Z)) (balances : gmap (Z * Z) (Z * Z)) (d : FlashloanData_v2)
  : option (option profit * FlashloanData_v2) :=
  let new_reserves := pair_reserves ∪ prev_reserves d in
  w ← foldM weigh_balance (mkWeighed [] [] (unliquidated_tokens d)) (map_iter balances);
  '(liquidation_owed, _) ← liquidate_all_token (liquidations_owed w) (prev_reserves d);
  w ← foldM weigh_kept w (map_iter (unliquidated_tokens d));
  '(liquidation_earned, adjusted_reserves) ← liquidate_all_token (liquidations_earned w) new_reserves;
  let earned := if liquidation_owed <? liquidation_earned then add512 (fd_earned d) (sub256 liquidation_earned liquidation_owed) else fd_earned d in
  let owed := if liquidation_owed <? liquidation_earned then fd_owed d else add512 (fd_owed d) (sub256 liquidation_owed liquidation_earned) in
  let d := mkFlashloanData_v2 ∅ ∅ owed earned adjusted_reserves (wd_unliquidated w) in
  Some (if owed <? earned then let net := sub512 earned owed in Some (mkProfit earned owed net (net / 10 ^ 24)) else None, d).

(** [PairBalanceOracle::oracle]: a pair that lost one token and kept the other *)
Definition imbalanced (prev : gmap Z (Z * Z)) (x : Z * (Z * Z)) : bool :=
  let '(addr, (r0, r1)) := x in
  match prev !! addr with
  | Some (pre_r0, pre_r1) => ((pre_r0 =? r0) && (r1 <? pre_r1)) || ((pre_r1 =? r1) && (r0 <? pre_r0))
  | None => false
  end.
Definition pair_balance_oracle (reserves : gmap Z (Z * Z)) (d : FlashloanData_v2) : bool :=
  existsb (imbalanced (prev_reserves d)) (map_iter reserves).
End oracle.
