(* ===== verification/FlashloanV2Props.v ===== *)
(** * Properties of the build with [flashloan_v2]

    What the oracle says about profit, what the producers measure, how inputs that buy
    tokens are mutated, and what running them does. *)
From S2P Require Import Prelude Types State MutationUtils SrcMap F64 Expr Abi AbiLayout AbiTypes AbiParse AbiMutate Corpus Scheduler SchedulerInv I256 Tracer Evm Host HostProps HostCall HostCallProps Vm FlashloanMw InputMutate InputMutateProps Replay ReplayProps FuzzerLoop Uniswap UniswapProps Loader CorpusInit Endpoints EndpointsProps Routes RoutesProps FlashloanV2.
#[local] Open Scope Z_scope.

(** The middleware observes: the host is left as it is. *)
Lemma flashloan_mw_v2_ok {E S} (f : Flashloan_v2) : middleware_ok (flashloan_mw_v2 (E := E) (S := S) f).
Proof.
  split.
  - intros i h s i' h' s'. cbn [flashloan_mw_v2 mw_on_step]. intros (d & _ & [= _ <- _])%bind_Some. reflexivity.
  - intros c a h s c' h' s' [= _ <- _]. reflexivity.
Qed.

(** ** Profit *)

Lemma sum_app {A} (f : A → Z) l k : foldr (λ x n, f x + n) 0 (l ++ k) = foldr (λ x n, f x + n) 0 l + foldr (λ x n, f x + n) 0 k.
Proof. induction l as [|x l IH]; cbn [foldr app]; lia. Qed.

Lemma sum_nonneg {A} (f : A → Z) l : (∀ x, x ∈ l → 0 ≤ f x) → 0 ≤ foldr (λ x n, f x + n) 0 l.
Proof.
  induction l as [|x l IH]; intros Hf; cbn [foldr]; [lia|]. pose proof (Hf x ltac:(left)).
  assert (0 ≤ foldr (λ x n, f x + n) 0 l) by (apply IH; intros y Hy; apply Hf; by right). lia.
Qed.

Section profit.
Context `{MapOrder} `{Cartesian} (tokens : gmap Z TokenContext) (percent : Z).
Context (Hpercent : 0 ≤ percent ≤ 10).
Abbreviation entry := ((Z * Z) * (Z * Z))%type.
Implicit Types (x : entry) (w : weighed).

(** The share of an amount that is sold, and the parts of an entry of the balances: the
    token and amount that are bought back, or gained, or gained and sold *)
Definition share (a : Z) : Z := a * percent / 10.
Definition loss x : Z := Z.max 0 (x.2.1 - x.2.2).
Definition gain x : Z := Z.max 0 (x.2.2 - x.2.1).
Definition on_token (t : Z) (f : entry → Z) x : Z := if x.1.2 =? t then f x else 0.
Definition total (f : entry → Z) (l : list entry) : Z := foldr (λ x n, f x + n) 0 l.

(** What is offered to the pairs: a token that is known, with a positive amount *)
Definition offer (t amount : Z) : option (TokenContext * Z) :=
  if 0 <? amount then c ← tokens !! t; Some (c, amount) else None.
Definition bought_back (l : list entry) : list (TokenContext * Z) := omap (λ x, offer x.1.2 (loss x)) l.
Definition sold_now (l : list entry) : list (TokenContext * Z) := omap (λ x, offer x.1.2 (share (gain x))) l.
Definition sold_kept (l : list (Z * Z)) : list (TokenContext * Z) := omap (λ y, offer y.1 (share y.2)) l.

(** Amounts in range *)
Record entry_ok x : Prop := mkEntryOk {
  en_known : is_Some (tokens !! x.1.2);
  en_prev : 0 ≤ x.2.1 < 2 ^ 256;
  en_new : 0 ≤ x.2.2 < 2 ^ 256;
  en_gain : gain x * percent < 2 ^ 256
}.

Lemma share_spec a : 0 ≤ a → 0 ≤ share a ≤ a.
Proof using Hpercent.
  intros Ha. unfold share. split; [apply Z.div_pos; nia|]. apply Z.div_le_upper_bound; [lia|]. nia.
Qed.

Lemma liquidated_share a : 0 ≤ a → a * percent < 2 ^ 256 → liquidated percent a = share a.
Proof using Hpercent. intros Ha Hr. unfold liquidated. rewrite mul256_small; [done|]. unfold U256_MOD. nia. Qed.

(** ** The loops of the oracle *)

Abbreviation stock w t := (default 0 (wd_unliquidated w !! t)).
Definition kept x : Z := gain x - share (gain x).

Lemma weigh_balance_spec w x :
  entry_ok x → (∀ t, 0 ≤ stock w t) → stock w x.1.2 + kept x < 2 ^ 256 →
  ∃ w', weigh_balance tokens percent w x = Some w' ∧
    liquidations_owed w' = liquidations_owed w ++ bought_back [x] ∧
    liquidations_earned w' = liquidations_earned w ++ sold_now [x] ∧
    ∀ t, stock w' t = stock w t + on_token t kept x.
Proof using Hpercent.
  destruct x as [[c tok] [p n]]. intros [[ctx Hk] Hp Hn Hg] Hst Hroom. unfold kept, gain in *. cbn [fst snd] in *.
  unfold weigh_balance, bought_back, sold_now, offer, loss, on_token, kept, gain. cbn [omap list_omap fst snd]. rewrite Hk, !obind_Some.
  destruct (Z.ltb_spec n p) as [Hlt|Hge].
  - eexists. split; [done|]. cbn [liquidations_owed liquidations_earned wd_unliquidated]. rewrite sub256_small by (unfold U256_MOD; lia).
    rewrite (Z.max_r 0 (p - n)), (Z.max_l 0 (n - p)) by lia. rewrite (proj2 (Z.ltb_lt 0 (p - n))) by lia.
    split; [done|]. pose proof (share_spec 0 ltac:(lia)) as Hs0. replace (share 0) with 0 by lia. cbn. rewrite app_nil_r.
    split; [done|]. intros t. destruct (tok =? t); lia.
  - rewrite (Z.max_l 0 (p - n)) by lia. cbn [Z.ltb]. destruct (Z.ltb_spec p n) as [Hlt|Hge'].
    + rewrite (Z.max_r 0 (n - p)) in * by lia. rewrite (sub256_small n p) by (unfold U256_MOD; lia).
      rewrite liquidated_share by lia. pose proof (share_spec (n - p) ltac:(lia)) as Hs.
      rewrite (sub256_small (n - p) (share (n - p))) by (unfold U256_MOD; lia).
      eexists. split; [done|]. cbn [liquidations_owed liquidations_earned wd_unliquidated]. split; [by rewrite app_nil_r|]. split.
      { destruct (0 <? share (n - p)); [done|by rewrite app_nil_r]. }
      intros t. destruct (Z.ltb_spec 0 (n - p - share (n - p))) as [Hu|Hu].
      * destruct (Z.eqb_spec tok t) as [->|Hne]; [|rewrite lookup_insert_ne by done; lia].
        rewrite lookup_insert_eq. change (add256 (stock w t) (n - p - share (n - p)) = stock w t + (n - p - share (n - p))). pose proof (Hst t). apply add256_small. unfold U256_MOD. lia.
      * destruct (tok =? t); lia.
    + assert (p = n) as -> by lia. eexists. split; [done|]. rewrite Z.sub_diag. replace (share (Z.max 0 0)) with 0 by done.
      cbn. rewrite !app_nil_r. split; [done|]. split; [done|]. intros t. destruct (tok =? t); lia.
Qed.

Lemma kept_nonneg x : 0 ≤ kept x.
Proof using Hpercent. unfold kept. pose proof (share_spec (gain x)) as Hs. unfold gain in *. lia. Qed.

Lemma on_token_nonneg t f l : (∀ x, 0 ≤ f x) → 0 ≤ total (on_token t f) l.
Proof. intros Hf. apply sum_nonneg. intros x _. unfold on_token. pose proof (Hf x). destruct (_ =? _); lia. Qed.

Lemma weigh_balances_spec l : ∀ w,
  Forall entry_ok l → (∀ t, 0 ≤ stock w t) → (∀ t, stock w t + total (on_token t kept) l < 2 ^ 256) →
  ∃ w', foldM (weigh_balance tokens percent) w l = Some w' ∧
    liquidations_owed w' = liquidations_owed w ++ bought_back l ∧
    liquidations_earned w' = liquidations_earned w ++ sold_now l ∧
    ∀ t, stock w' t = stock w t + total (on_token t kept) l.
Proof using Hpercent.
  induction l as [|x l IH]; intros w Hl Hst Hroom; cbn [foldM].
  { exists w. split; [done|]. unfold bought_back, sold_now, total. cbn. rewrite !app_nil_r. split_and!; try done. intros t. lia. }
  apply Forall_cons in Hl as [Hx Hl]. unfold total in *. cbn [foldr] in *.
  destruct (weigh_balance_spec w x Hx Hst) as (w1 & E1 & Ho1 & He1 & Hs1).
  { specialize (Hroom x.1.2). pose proof (on_token_nonneg x.1.2 kept l kept_nonneg) as Hn. unfold total in Hn.
    unfold on_token at 1 in Hroom. rewrite Z.eqb_refl in Hroom. lia. }
  rewrite E1, obind_Some. destruct (IH w1 Hl) as (w2 & E2 & Ho2 & He2 & Hs2).
  - intros t. rewrite Hs1. pose proof (Hst t). pose proof (kept_nonneg x). unfold on_token. destruct (_ =? _); lia.
  - intros t. rewrite Hs1. specialize (Hroom t). lia.
  - exists w2. split; [done|]. rewrite Ho2, Ho1, He2, He1, <- !app_assoc. unfold bought_back, sold_now.
    rewrite <- !omap_app. split; [done|]. split; [done|]. intros t. rewrite Hs2, Hs1. lia.
Qed.

(** The tokens that were kept before *)
Definition old_ok (y : Z * Z) : Prop := is_Some (tokens !! y.1) ∧ 0 ≤ y.2 ∧ y.2 * percent < 2 ^ 256 ∧ y.2 < 2 ^ 256.

Lemma weigh_kepts_spec l : ∀ w, NoDup l.*1 → Forall old_ok l →
  ∃ w', foldM (weigh_kept tokens percent) w l = Some w' ∧
    liquidations_owed w' = liquidations_owed w ∧
    liquidations_earned w' = liquidations_earned w ++ sold_kept l ∧
    (∀ t, t ∉ l.*1 → stock w' t = stock w t) ∧
    (∀ t a, (t, a) ∈ l → stock w' t = if share a =? 0 then stock w t else a - share a).
Proof using Hpercent.
  induction l as [|[t0 a0] l IH]; intros w Hnd Hl; cbn [foldM].
  { exists w. split; [done|]. unfold sold_kept. cbn. rewrite app_nil_r. split_and!; try done. by intros t a ?%elem_of_nil. }
  apply Forall_cons in Hl as [([ctx Hk] & Ha & Hr & Hm) Hl]. cbn [fst snd] in *. rewrite fmap_cons in *. cbn [fst] in *.
  apply NoDup_cons in Hnd as [Hnin Hnd]. unfold weigh_kept at 2. rewrite Hk, obind_Some. cbv zeta.
  rewrite liquidated_share by done. pose proof (share_spec a0 Ha) as Hs.
  assert (∃ w1, (if share a0 =? 0 then Some w else Some (mkWeighed (liquidations_owed w) (liquidations_earned w ++ [(ctx, share a0)])
      (<[t0 := sub256 a0 (share a0)]> (wd_unliquidated w)))) = Some w1 ∧ liquidations_owed w1 = liquidations_owed w ∧
      liquidations_earned w1 = liquidations_earned w ++ sold_kept [(t0, a0)] ∧ (∀ t, t ≠ t0 → stock w1 t = stock w t) ∧
      stock w1 t0 = if share a0 =? 0 then stock w t0 else a0 - share a0) as (w1 & -> & Ho1 & He1 & Hs1 & Ht1).
  { unfold sold_kept, offer. cbn [omap list_omap fst snd]. rewrite Hk, obind_Some. destruct (Z.eqb_spec (share a0) 0) as [E0|E0].
    - exists w. rewrite (proj2 (Z.ltb_ge 0 (share a0))) by lia. rewrite app_nil_r. by split_and!.
    - rewrite (proj2 (Z.ltb_lt 0 (share a0))) by lia. eexists. split; [done|]. split; [done|]. split; [done|].
      cbn [wd_unliquidated]. split; [intros t Hne; by rewrite lookup_insert_ne|]. rewrite lookup_insert_eq. apply sub256_small. unfold U256_MOD. lia. }
  rewrite obind_Some. destruct (IH w1 Hnd Hl) as (w2 & E2 & Ho2 & He2 & Hn2 & Hi2). exists w2. split; [done|]. split; [congruence|]. split.
  { rewrite He2, He1, <- app_assoc. unfold sold_kept. by rewrite <- omap_app. }
  split.
  - intros t [Hne Hnt]%not_elem_of_cons. rewrite Hn2, Hs1; done.
  - intros t a [[= -> ->]|Hin]%elem_of_cons; [by rewrite Hn2|].
    rewrite (Hi2 t a Hin), Hs1; [done|]. intros ->. apply Hnin. apply list_elem_of_fmap. by exists (t0, a).
Qed.

(** The value of a liquidation is a word. *)
Lemma liquidate_range l data q data' : liquidate_all_token l data = Some (q, data') → 0 ≤ q < 2 ^ 256.
Proof.
  unfold liquidate_all_token. case_decide; [intros [= <- _]; done|]. intros (quotes & Eq & [= <- _])%bind_Some.
  assert (∀ z : Z * gmap Z (Z * Z), z ∈ quotes → 0 ≤ z.1 < 2 ^ 256) as Hq.
  { intros z Hz. destruct (mapM_opt_elem _ _ _ Eq) as [_ Hy]. destruct (Hy z Hz) as (choice & _ & Ex). unfold quote_swaps in Ex.
    assert (∀ c (s : Z * gmap Z (Z * Z)), 0 ≤ s.1 < 2 ^ 256 → foldM quote_step s c = Some z → 0 ≤ z.1 < 2 ^ 256) as Hf; [|by eapply (Hf choice (0, data))].
    induction c as [|y c IH]; intros [tot m] Hs; cbn [foldM]; [by intros [= <-]|]. unfold quote_step at 1.
    intros (s1 & (r & _ & [= <-])%bind_Some & E2)%bind_Some. apply (IH _) in E2; [done|]. cbn [fst]. unfold add256. apply Z.mod_pos_bound. done. }
  destruct (best_step_fold quotes (0, None)) as (_ & _ & [->|(z & Hz & ->)]); [done|by apply Hq].
Qed.

(** ** The verdict *)

Section verdict.
Context (balances : gmap (Z * Z) (Z * Z)) (d : FlashloanData_v2).
Abbreviation measured := (map_iter balances).
Abbreviation old t := (default 0 (unliquidated_tokens d !! t)).

(** All tokens are known, and amounts and totals are in range. *)
Record in_range : Prop := mkInRange {
  ir_entries : Forall entry_ok measured;
  ir_old : Forall old_ok (map_iter (unliquidated_tokens d));
  ir_room t : old t + total (on_token t gain) measured < 2 ^ 256;
  ir_owed : 0 ≤ fd_owed d < 2 ^ 511;
  ir_earned : 0 ≤ fd_earned d < 2 ^ 511
}.

(** What the callers gained of a token, what of it and of the old stock is sold, and what
    the loop over the old stock overwrites *)
Definition gained (t : Z) : Z := total (on_token t gain) measured.
Definition sold (t : Z) : Z := total (on_token t (λ x, share (gain x))) measured + share (old t).
Definition forgotten (t : Z) : Z := if share (old t) =? 0 then 0 else total (on_token t kept) measured.

Lemma total_split t l : total (on_token t gain) l = total (on_token t (λ x, share (gain x))) l + total (on_token t kept) l.
Proof using Type.
  induction l as [|x l IH]; [done|]. unfold total in *. cbn [foldr]. rewrite IH. unfold on_token, kept. destruct (_ =? _); lia.
Qed.

Lemma old_iter t a : (t, a) ∈ map_iter (unliquidated_tokens d) ↔ unliquidated_tokens d !! t = Some a.
Proof using Type. by rewrite map_iter_perm, elem_of_map_to_list. Qed.

Lemma old_keys : NoDup (map_iter (unliquidated_tokens d)).*1.
Proof using Type. rewrite map_iter_perm. apply NoDup_fst_map_to_list. Qed.

Lemma old_nonneg : Forall old_ok (map_iter (unliquidated_tokens d)) → ∀ t, 0 ≤ old t.
Proof using Type.
  intros Ho t. destruct (unliquidated_tokens d !! t) as [a|] eqn:Ea; [|done]. apply old_iter in Ea.
  rewrite Forall_forall in Ho. by destruct (Ho _ Ea) as (_ & ? & _).
Qed.

(** Both loops together *)
Lemma weigh_spec : in_range →
  ∃ w1 w2, foldM (weigh_balance tokens percent) (mkWeighed [] [] (unliquidated_tokens d)) measured = Some w1 ∧
    foldM (weigh_kept tokens percent) w1 (map_iter (unliquidated_tokens d)) = Some w2 ∧
    liquidations_owed w1 = bought_back measured ∧
    liquidations_earned w2 = sold_now measured ++ sold_kept (map_iter (unliquidated_tokens d)) ∧
    ∀ t, stock w2 t + sold t + forgotten t = old t + gained t.
Proof using Hpercent.
  intros [He Ho Hroom _ _]. pose proof (old_nonneg Ho) as Hold.
  destruct (weigh_balances_spec measured (mkWeighed [] [] (unliquidated_tokens d)) He Hold) as (w1 & E1 & Ho1 & He1 & Hs1).
  { intros t. cbn [wd_unliquidated]. specialize (Hroom t). rewrite total_split in Hroom.
    pose proof (on_token_nonneg t (λ x, share (gain x)) measured) as Hn. cbn beta in Hn.
    assert (∀ x, 0 ≤ share (gain x)) as Hsh by (intros x; apply share_spec; unfold gain; lia). specialize (Hn Hsh). lia. }
  destruct (weigh_kepts_spec (map_iter (unliquidated_tokens d)) w1 old_keys Ho) as (w2 & E2 & _ & He2 & Hn2 & Hi2).
  exists w1, w2. split; [done|]. split; [done|]. split; [done|]. split; [by rewrite He2, He1|]. intros t.
  cbn [wd_unliquidated] in Hs1. unfold sold, gained, forgotten. rewrite total_split. fold (old t).
  destruct (unliquidated_tokens d !! t) as [a|] eqn:Ea.
  - rewrite (Hi2 t a), (Hs1 t), Ea by (by apply old_iter). change (default 0 (Some a)) with a.
    destruct (Z.eqb_spec (share a) 0); lia.
  - rewrite Hn2, Hs1, Ea; [|intros (y & Ey & Hy)%list_elem_of_fmap; destruct y as [t' a]; cbn in Ey; subst t'; apply old_iter in Hy; congruence].
    change (default 0 (@None Z)) with 0. replace (share 0) with 0 by done. rewrite Z.eqb_refl. lia.
Qed.

(** C23. The oracle's account is exact.  With known tokens and amounts in range, when the two
    liquidations give [lo] and [le], the oracle ends: what was earned beyond what is owed
    changes by exactly [le - lo], where exactly the losses of all callers are bought back
    on the reserves before the transaction, and exactly the sold shares of their gains and
    of the old stock are sold on the reserves after it; the reserves after the sale are
    kept, nothing is left to recheck, and it reports, with the net, exactly if more is
    earned than owed.  Per token, the new stock and what was sold are the old stock and
    what was gained, except that the kept part of a gain is forgotten when the old stock of
    the token was partly sold, which needs a percentage that is neither 0 nor 10. *)
Theorem profit_oracle_exact pair_reserves lo le after_buy after_sale :
  in_range →
  liquidate_all_token (bought_back measured) (prev_reserves d) = Some (lo, after_buy) →
  liquidate_all_token (sold_now measured ++ sold_kept (map_iter (unliquidated_tokens d))) (pair_reserves ∪ prev_reserves d) = Some (le, after_sale) →
  ∃ d', profit_oracle tokens percent pair_reserves balances d =
      Some (if fd_owed d' <? fd_earned d'
            then let net := fd_earned d' - fd_owed d' in Some (mkProfit (fd_earned d') (fd_owed d') net (net / 10 ^ 24)) else None, d') ∧
    fd_earned d' - fd_owed d' = fd_earned d - fd_owed d + (le - lo) ∧ fd_earned d ≤ fd_earned d' ∧ fd_owed d ≤ fd_owed d' ∧
    prev_reserves d' = after_sale ∧ oracle_recheck_balance d' = ∅ ∧ oracle_recheck_reserve d' = ∅ ∧
    ∀ t, default 0 (unliquidated_tokens d' !! t) + sold t + forgotten t = old t + gained t ∧
         (percent = 0 ∨ percent = 10 → forgotten t = 0).
Proof using Hpercent.
  intros Hir Hlo Hle. destruct (weigh_spec Hir) as (w1 & w2 & E1 & E2 & Ho & He & Hs). destruct Hir as [_ _ _ [Ho0 Ho1] [He0 He1]].
  pose proof (liquidate_range _ _ _ _ Hlo) as Rlo. pose proof (liquidate_range _ _ _ _ Hle) as Rle.
  unfold profit_oracle. rewrite E1, obind_Some, Ho, Hlo, obind_Some, E2, obind_Some, He, Hle, obind_Some. cbv zeta.
  assert (∀ t, percent = 0 ∨ percent = 10 → forgotten t = 0) as Hforgot.
  { intros t [E|E]; unfold forgotten; [unfold share; by rewrite E, Z.mul_0_r|]. destruct (_ =? 0); [done|].
    assert (∀ x, kept x = 0) as Hk by (intros x; unfold kept, share; rewrite E, Z.div_mul by lia; lia).
    unfold total. generalize measured. intros l. induction l as [|x l IH]; cbn [foldr]; [done|]. rewrite IH. unfold on_token. rewrite Hk. by destruct (_ =? _). }
  assert (2 ^ 511 + 2 ^ 256 < U512_MOD) as HM by done.
  destruct (Z.ltb_spec lo le) as [Hlt|Hge].
  - rewrite (sub256_small le lo) by (unfold U256_MOD; lia).
    assert (add512 (fd_earned d) (le - lo) = fd_earned d + (le - lo)) as -> by (unfold add512; apply Z.mod_small; lia).
    eexists. split; [f_equal; f_equal|].
    + cbn [fd_owed fd_earned]. destruct (Z.ltb_spec (fd_owed d) (fd_earned d + (le - lo))); [|done]. unfold sub512. rewrite Z.mod_small by lia. done.
    + cbn. split; [lia|]. split; [lia|]. split; [lia|]. split_and!; try done. intros t. split; [apply Hs|apply Hforgot].
  - rewrite (sub256_small lo le) by (unfold U256_MOD; lia).
    assert (add512 (fd_owed d) (lo - le) = fd_owed d + (lo - le)) as -> by (unfold add512; apply Z.mod_small; lia).
    eexists. split; [f_equal; f_equal|].
    + cbn [fd_owed fd_earned]. destruct (Z.ltb_spec (fd_owed d + (lo - le)) (fd_earned d)); [|done]. unfold sub512. rewrite Z.mod_small by lia. done.
    + cbn. split; [lia|]. split; [lia|]. split; [lia|]. split_and!; try done. intros t. split; [apply Hs|apply Hforgot].
Qed.
End verdict.
End profit.

(** Two callers and one token: one gained 1500, one lost 200, and 100 were kept before. *)
Definition toy_tokens : gmap Z TokenContext := {[4 := example_token]}.
Definition toy_balances : gmap (Z * Z) (Z * Z) := {[(1, 4) := (1000, 2500); (2, 4) := (900, 700)]}.
Definition toy_data : FlashloanData_v2 := mkFlashloanData_v2 ∅ {[4]} 5000 4000 ∅ {[4 := 100]}.

Lemma toy_entries : map_iter toy_balances = [((2, 4), (900, 700)); ((1, 4), (1000, 2500))] ∨
  map_iter toy_balances = [((1, 4), (1000, 2500)); ((2, 4), (900, 700))].
Proof. first [left; vm_compute; reflexivity|right; vm_compute; reflexivity]. Qed.

Lemma toy_in_range : in_range toy_tokens 10 toy_balances toy_data.
Proof.
  assert (is_Some (toy_tokens !! 4)) as Hk by (eexists; vm_compute; reflexivity).
  assert (∀ t, total (on_token t gain) (map_iter toy_balances) ≤ 1500) as Ht.
  { intros t. destruct toy_entries as [-> | ->]; unfold total; cbn [foldr]; unfold on_token; cbn [fst snd]; destruct (4 =? t); done. }
  split.
  - destruct toy_entries as [-> | ->]; repeat (constructor; [split; [exact Hk|done|done|done]|]); constructor.
  - assert (map_iter (unliquidated_tokens toy_data) = [(4, 100)]) as -> by (vm_compute; reflexivity).
    constructor; [|constructor]. split; [exact Hk|cbn; lia].
  - intros t. specialize (Ht t). cbn [unliquidated_tokens toy_data].
    destruct (decide (t = 4)) as [->|Hne]; [rewrite lookup_singleton_eq|rewrite lookup_singleton_ne by done]; cbn [from_option id]; lia.
  - cbn. lia.
  - cbn. lia.
Qed.

Lemma profit_oracle_exact_witness :
  ∃ d', profit_oracle toy_tokens 10 ∅ toy_balances toy_data =
      Some (if fd_owed d' <? fd_earned d'
            then let net := fd_earned d' - fd_owed d' in Some (mkProfit (fd_earned d') (fd_owed d') net (net / 10 ^ 24)) else None, d') ∧
    fd_earned d' - fd_owed d' = 886 ∧ default 0 (unliquidated_tokens d' !! 4) = 0.
Proof.
  assert (fst <$> liquidate_all_token (bought_back toy_tokens (map_iter toy_balances)) (prev_reserves toy_data) = Some 278) as Elo
    by (vm_compute; reflexivity).
  assert (fst <$> liquidate_all_token (sold_now toy_tokens 10 (map_iter toy_balances) ++
    sold_kept toy_tokens 10 (map_iter (unliquidated_tokens toy_data))) (∅ ∪ prev_reserves toy_data) = Some 2164) as Ele
    by (vm_compute; reflexivity).
  destruct (liquidate_all_token (bought_back _ _) _) as [[lo r0]|] eqn:Hlo; [|discriminate Elo].
  destruct (liquidate_all_token (sold_now _ _ _ ++ _) _) as [[le r1]|] eqn:Hle; [|discriminate Ele].
  assert (lo = 278) as -> by (by apply Some_inj in Elo). assert (le = 2164) as -> by (by apply Some_inj in Ele).
  destruct (profit_oracle_exact toy_tokens 10 ltac:(lia) toy_balances toy_data ∅ 278 2164 r0 r1 toy_in_range Hlo Hle)
    as (d' & E & Hnet & _ & _ & _ & _ & _ & Hs).
  exists d'. split; [exact E|]. split; [cbn in Hnet; lia|]. specialize (Hs 4) as [Hs Hf]. rewrite Hf in Hs by (by right).
  assert (sold 10 toy_balances toy_data 4 = 1600) as E1 by (vm_compute; reflexivity).
  assert (gained toy_balances 4 = 1500) as E2 by (vm_compute; reflexivity).
  rewrite E1, E2 in Hs. change (default 0 (unliquidated_tokens toy_data !! 4)) with 100 in Hs. lia.
Defined.

(** When half is sold, the half of a new gain that should be kept is forgotten: 100 were
    kept and 1500 gained, 750 and 50 are sold, and 50 are left instead of 800. *)
Lemma kept_gain_forgotten :
  (d ← snd <$> profit_oracle toy_tokens 5 ∅ toy_balances toy_data; unliquidated_tokens d !! 4) = Some 50.
Proof. vm_compute. reflexivity. Qed.

(** ** Mutation *)

(** An input that buys tokens has what the executor takes from it: a byte that names the
    path, and an amount to pay; and it resumes nothing. *)
Definition borrow_ok (x : EVMInput_v2) : Prop :=
  input_type x = Borrow → randomness x ≠ [] ∧ is_Some (ei_txn_value (i2_input x)) ∧ ei_step (i2_input x) = false.

Lemma borrow_input_ok caller token : borrow_ok (borrow_input caller token).
Proof. intros _. cbn. split_and!; [done|by eexists|done]. Qed.

Section mutation.
Context {R : Type} `{Libafl R} `{!RandLaws R} `{!LibaflLaws R} `{HashOrder}.
Implicit Types (ms : @MutState R) (x : EVMInput_v2).

(** Steps of the mutator of this build *)
Record mutates_v2 ms x ms' x' : Prop := mkMutates2 {
  m2_input : mutates ms (i2_input x) ms' (i2_input x');
  m2_type : input_type x' = input_type x;
  m2_percent : liquidation_percent x' = liquidation_percent x ∨ liquidation_percent x' = 0 ∨ liquidation_percent x' = 10;
  m2_borrow : borrow_ok x → borrow_ok x'
}.

Lemma mutates_v2_refl ms fuzz x : mutates_v2 ms x (with_fuzz ms fuzz) x.
Proof. split; [by apply mutates_quiet|done|by left|done]. Qed.

Lemma mutates_v2_trans ms1 x1 ms2 x2 ms3 x3 : mutates_v2 ms1 x1 ms2 x2 → mutates_v2 ms2 x2 ms3 x3 → mutates_v2 ms1 x1 ms3 x3.
Proof.
  intros [I1 T1 P1 B1] [I2 T2 P2 B2]. split; [by eapply mutates_trans|congruence| |auto]. destruct P2 as [->|?]; [done|by right].
Qed.

Definition sound_v2 (f : MutState → EVMInput_v2 → mres_v2) : Prop := ∀ ms x r ms' x',
  f ms x = Some (r, ms', x') → mutates_v2 ms x ms' x'.

(** A mutation of the common part keeps what a purchase needs, if it keeps the value and
    the step flag. *)
Lemma on_input_sound (f : MutState → EVMInput → mres') ms x r ms' x' :
  on_input f ms x = Some (r, ms', x') →
  (∀ i', f ms (i2_input x) = Some (r, ms', i') → mutates ms (i2_input x) ms' i' ∧
     (input_type x = Borrow → is_Some (ei_txn_value (i2_input x)) → ei_step (i2_input x) = false →
      is_Some (ei_txn_value i') ∧ ei_step i' = false)) →
  mutates_v2 ms x ms' x'.
Proof.
  unfold on_input. intros ([[r1 ms1] i1] & E & [= -> -> <-])%bind_Some Hf. destruct (Hf i1 E) as [Hm Hb].
  split; [done|done|by left|]. intros Hok Ht. destruct (Hok Ht) as (? & Hv & Hs). cbn. split; [done|]. by apply Hb.
Qed.

Lemma bytes_sound_v2 : sound_v2 (on_input mutate_bytes).
Proof.
  intros ms x r ms' x' E. eapply on_input_sound; [exact E|]. intros i' Ei. split; [by apply mutate_bytes_sound in Ei|].
  unfold mutate_bytes in Ei. apply bind_Some in Ei as ([[r1 st1] x1] & E1%input_mutate_same & [= _ _ <-]).
  intros _ Hv Hs. split; [by apply (same_paid _ _ E1)|]. by rewrite (same_step _ _ E1).
Qed.

Lemma cross_over_sound ms i r ms' i' : ei_step i = false → cross_over ms i = Some (r, ms', i') →
  mutates ms i ms' i' ∧ ei_txn_value i' = ei_txn_value i ∧ ei_step i' = ei_step i.
Proof.
  intros Hs. unfold cross_over. intros ([[idx s] infant] & E1 & E2)%bind_Some.
  destruct (idx =? _); injection E2 as _ <- <-; (split; [|done]); (eapply select_mutates; [exact E1|]); intros Hg;
    [reflexivity|by apply swap_evolves].
Qed.

Lemma cross_over_sound_v2 ms x r ms' x' : ei_step (i2_input x) = false → on_input cross_over ms x = Some (r, ms', x') →
  mutates_v2 ms x ms' x'.
Proof.
  intros Hs E. eapply on_input_sound; [exact E|]. intros i' (Hm & Hv & Hst)%cross_over_sound; [|done].
  split; [done|]. intros _ Hp _. by rewrite Hv, Hst.
Qed.

(** Drawing from the generator first *)
Lemma after_draw ms fuzz x ms' x' : mutates_v2 (with_fuzz ms fuzz) x ms' x' → mutates_v2 ms x ms' x'.
Proof. intros Hm. eapply mutates_v2_trans; [apply mutates_v2_refl|exact Hm]. Qed.

Lemma mutate_borrow_sound ms x r ms' x' : ei_step (i2_input x) = false → mutate_borrow ms x = Some (r, ms', x') → mutates_v2 ms x ms' x'.
Proof.
  intros Hs. unfold mutate_borrow. destruct (st_below (ms_fuzz ms) 255) as [u st1]. destruct (st_below st1 3) as [v st2]. cbv zeta.
  destruct (v =? 0).
  - intros [= _ <- <-]. split; [by apply mutates_quiet|done|by left|]. intros Hok Ht. destruct (Hok Ht) as (_ & ? & ?). by split_and!.
  - intros E. apply (after_draw ms st2). destruct (v =? 1); [by apply cross_over_sound_v2 in E|by apply bytes_sound_v2 in E].
Qed.

Lemma mutate_default_v2_sound ms x r ms' x' : ei_step (i2_input x) = false → mutate_default_v2 ms x = Some (r, ms', x') → mutates_v2 ms x ms' x'.
Proof.
  intros Hs. unfold mutate_default_v2. destruct (st_below (ms_fuzz ms) 100) as [v st1]. cbv zeta.
  intros E. apply (after_draw ms st1). destruct (v <=? 20); [by apply cross_over_sound_v2 in E|].
  destruct (v <=? 25); [|by apply bytes_sound_v2 in E]. destruct (st_below _ 100) as [w st2]. injection E as _ <- <-.
  split; [by apply mutates_quiet|done| |by intros Hok Ht; apply Hok].
  cbn. destruct (w <? 80); [by right; right|by right; left].
Qed.

Lemma mutate_once_v2_sound n : sound_v2 (mutate_once_v2 n).
Proof.
  intros ms x r ms' x'. unfold mutate_once_v2. cbv zeta. destruct (ei_step (i2_input x)) eqn:Hs; [apply bytes_sound_v2|].
  case_decide as Ht; [by apply mutate_borrow_sound|]. destruct (has_post_execution _) eqn:Hp; [|by apply mutate_default_v2_sound].
  destruct (st_below _ _) as [v st1]. intros E. apply (after_draw ms st1). destruct (v <? 60); [|by apply mutate_default_v2_sound in E].
  apply bind_Some in E as (len & _ & E). apply bind_Some in E as ([ms1 x1] & [C1 S1 E1]%mutate_times_sound & [= _ <- <-]).
  split; [|done|by left|by intros _ Ht'].
  split; [done|done|]. etransitivity; [|exact E1]. split; [done|by rewrite Hs|by left|by intros _ _|by intros _ w Hw].
Qed.

Lemma havoc_v2_sound f n : sound_v2 f → ∀ res, sound_v2 (havoc_v2 f n res).
Proof.
  intros Hf. induction n as [|n IH]; intros res ms x r ms' x'; cbn [havoc_v2].
  { intros [= _ <- <-]. split; [by apply mutates_quiet|done|by left|done]. }
  intros ([[r1 ms1] x1] & E1%Hf & E2%IH)%bind_Some. by eapply mutates_v2_trans.
Qed.

Lemma retry_v2_sound f n : sound_v2 f → sound_v2 (retry_v2 f n).
Proof.
  intros Hf. induction n as [|n IH]; intros ms x r ms' x'; cbn [retry_v2].
  { intros [= _ <- <-]. split; [by apply mutates_quiet|done|by left|done]. }
  intros ([[r1 ms1] x1] & E1%Hf & E2)%bind_Some. case_decide; [by injection E2 as _ <- <-|]. apply IH in E2. by eapply mutates_v2_trans.
Qed.

(** After the VM state is chosen, mutation keeps the type and all the rest. *)
Lemma fuzz_mutate_v2_phases stage ms x r ms' x' : fuzz_mutate_v2 stage ms x = Some (r, ms', x') →
  ∃ ms1 x1, mutates_v2 ms1 x1 ms' x' ∧ input_type x1 = input_type x ∧
    (ms1 = ms ∧ x1 = x ∧ ss_initialized (ei_sstate (i2_input x)) = true ∨
     ∃ idx s inf, ss_initialized (ei_sstate (i2_input x)) = false ∧ get_infant_state (ms_infant ms) = Some (idx, s, inf) ∧
       ms1 = mkMutState (ms_fuzz ms) inf ∧ x1 = with_input x (set_staged_state (i2_input x) s idx)).
Proof.
  unfold fuzz_mutate_v2. intros ([ms1 x1] & E1 & E2)%bind_Some. exists ms1, x1. split.
  - destruct (st_below (ms_fuzz ms1) 100) as [v st]. destruct (if v <? 60 then _ else _) as [n st2].
    apply (after_draw ms1 st2). cbv zeta in E2. destruct (stage =? -1); [by eapply (retry_v2_sound _ _ bytes_sound_v2)|].
    by eapply (retry_v2_sound _ _ (havoc_v2_sound _ _ (mutate_once_v2_sound n) Skipped)).
  - destruct (ss_initialized (ei_sstate (i2_input x))); [injection E1 as <- <-; split; [done|by left]|].
    apply bind_Some in E1 as ([[idx s] inf] & Eg & [= <- <-]). split; [done|]. right. by exists idx, s, inf.
Qed.

(** An input that is not a resumption, or has its VM state *)
Lemma fuzz_mutate_v2_mutates stage ms x r ms' x' : fuzz_mutate_v2 stage ms x = Some (r, ms', x') →
  (ss_initialized (ei_sstate (i2_input x)) = false → ei_step (i2_input x) = false) → mutates_v2 ms x ms' x'.
Proof.
  intros (ms1 & x1 & M & _ & [(-> & -> & _)|(idx & s & inf & Hi & Eg & -> & ->)])%fuzz_mutate_v2_phases Hun; [done|].
  eapply mutates_v2_trans; [|exact M]. destruct (get_infant_state_corpus _ _ _ _ Eg) as [_ Hg].
  pose proof (swap_evolves (infant_state (ms_infant ms)) (i2_input x) s idx (Hun Hi) Hg) as Hev.
  split; [by eapply select_mutates|done|by left|]. intros Hbx Ht. destruct (Hbx Ht) as (? & ? & ?). by split_and!.
Qed.

Lemma fuzz_mutate_v2_spec stage ms x r ms' x' :
  let c := infant_state (ms_infant ms) in
  fuzz_mutate_v2 stage ms x = Some (r, ms', x') → input_ok c (i2_input x) →
  mutates_v2 ms x ms' x' ∧ corpus_get c (ei_sstate_idx (i2_input x')) = Ok (ei_sstate (i2_input x')) ∧ step_ok (i2_input x').
Proof.
  intros c E [Hin Hun Hstep]. split; [by eapply fuzz_mutate_v2_mutates|].
  destruct (fuzz_mutate_v2_phases _ _ _ _ _ _ E) as (ms1 & x1 & M & _ & Hcase).
  assert (infant_state (ms_infant ms1) = c ∧ corpus_get c (ei_sstate_idx (i2_input x1)) = Ok (ei_sstate (i2_input x1)) ∧ step_ok (i2_input x1)) as (Hc & Hg1 & Hs1).
  { destruct Hcase as [(-> & -> & Hi)|(idx & s & inf & Hi & Eg & -> & ->)]; [by split_and!; [|apply Hin|]|].
    destruct (get_infant_state_corpus _ _ _ _ Eg) as [Hc Hg]. split; [done|]. split; [done|].
    by apply (ev_new_step _ _ _ (swap_evolves c (i2_input x) s idx (Hun Hi) Hg)), Hun. }
  pose proof (mu_evolves _ _ _ _ (m2_input _ _ _ _ M)) as Ev2. rewrite Hc in Ev2. split.
  - destruct (ev_state _ _ _ Ev2) as [[Es Ei]|?]; [by rewrite Es, Ei|done].
  - destruct (ei_step (i2_input x1)) eqn:Hst; [|by apply (ev_new_step _ _ _ Ev2)].
    destruct (ev_step _ _ _ Ev2 Hst) as (_ & Es & _). intros _. rewrite Es. by apply Hs1.
Qed.

(** C24. Mutation keeps purchases executable.  From an input whose VM state is stored under
    its index (or not yet chosen), the mutator of this build yields one of the same type,
    for the same contract, on a stored VM state, that resumes something only if there is
    something to resume; the percentage to sell stays, or becomes 0 or 10; and an input
    that buys tokens keeps a byte to choose the path by, an amount to pay, and never
    becomes a resumption, so that the [unwrap] and the index of the executor never fail. *)
Theorem fuzz_mutate_v2_keeps_executable stage ms x r ms' x' :
  let c := infant_state (ms_infant ms) in
  fuzz_mutate_v2 stage ms x = Some (r, ms', x') → input_ok c (i2_input x) → borrow_ok x →
  borrow_ok x' ∧ step_ok (i2_input x') ∧ corpus_get c (ei_sstate_idx (i2_input x')) = Ok (ei_sstate (i2_input x')) ∧
  ei_contract (i2_input x') = ei_contract (i2_input x) ∧ input_type x' = input_type x ∧
  (liquidation_percent x' = liquidation_percent x ∨ liquidation_percent x' = 0 ∨ liquidation_percent x' = 10) ∧
  infant_state (ms_infant ms') = c.
Proof.
  intros c E Hok Hb. destruct (fuzz_mutate_v2_spec stage ms x r ms' x' E Hok) as ([[Hc _ Hev] Ht Hp Hbb] & Hg & Hs).
  split_and!; [by apply Hbb|done..|apply Hev|done|done|done].
Qed.
End mutation.

(** ** Measuring *)

Section measure.
Context {E S : Type}.
Context (run : Interpreter → VMHost Env → FlashloanData_v2 * S → option (InstructionResult * Interpreter * VMHost Env * (FlashloanData_v2 * S))).
Implicit Types (h : VMHost Env) (s : S).

(** A batch gives one output per call. *)
Lemma call_batch_length vm data h s outs h' s' : call_batch run vm data h s = Some (outs, h', s') → length outs = length data.
Proof.
  unfold call_batch, fast_static_call. intros ([[o1 h1] ds] & E1 & [= <- _ _])%bind_Some.
  assert (∀ l (outs0 : list (list byte)) h0 ds0, foldM (static_call_step run) (outs0, h0, ds0) l = Some (o1, h1, ds) →
    length o1 = (length outs0 + length l)%nat) as Hf; [|by eapply Hf in E1].
  induction l as [|x l IH]; intros outs0 h0 ds0; cbn [foldM]; [intros [= <- _ _]; cbn; lia|].
  unfold static_call_step at 1. intros (st & (c & _ & Ex)%bind_Some & E2)%bind_Some. cbv zeta in Ex.
  apply bind_Some in Ex as ([[[r i] h2] s2] & _ & Ex). apply bind_Some in Ex as (out & _ & [= <-]).
  apply IH in E2. rewrite E2, length_app. cbn. lia.
Qed.

(** The pairs of a caller and a token, each once *)
Lemma balance_keys_spec callers tokens k : k ∈ balance_keys callers tokens ↔ k.1 ∈ callers ∧ k.2 ∈ tokens.
Proof.
  unfold balance_keys. rewrite list_elem_of_In, in_concat. split.
  - intros (l & Hl & Hk). apply in_map_iff in Hl as (c & <- & Hc). apply in_map_iff in Hk as (t & <- & Ht). by rewrite !list_elem_of_In.
  - destruct k as [c t]. cbn. rewrite !list_elem_of_In. intros [Hc Ht]. exists (map (λ t, (c, t)) tokens).
    split; apply in_map_iff; [by exists c|by exists t].
Qed.

Lemma balance_keys_NoDup callers tokens : NoDup callers → NoDup tokens → NoDup (balance_keys callers tokens).
Proof.
  intros Hc Ht. unfold balance_keys. induction Hc as [|c l Hn Hc IH]; cbn [map concat]; [constructor|].
  apply NoDup_app. split; [|split; [|exact IH]].
  - apply (NoDup_fmap_2 (λ t, (c, t)) tokens Ht).
  - intros [c' t] Hin Hk. apply list_elem_of_In, in_map_iff in Hin as (t' & [= <- <-] & _).
    apply (balance_keys_spec l tokens (c, t')) in Hk as [Hk _]. done.
Qed.

(** The loop over the keys, from the position it is at *)
Lemma note_balances_spec pres posts keys : ∀ balances n, (n + length keys ≤ length pres)%nat → (n + length keys ≤ length posts)%nat →
  NoDup keys → ∃ balances', foldM (note_balance pres posts) (balances, n) keys = Some (balances', (n + length keys)%nat) ∧
    (∀ k, k ∉ keys → balances' !! k = balances !! k) ∧
    ∀ i k, keys !! i = Some k → ∃ a b, pres !! (n + i)%nat = Some a ∧ posts !! (n + i)%nat = Some b ∧
      balances' !! k = Some (balance_of_output a, balance_of_output b).
Proof.
  induction keys as [|k keys IH]; intros balances n Hp Hq Hnd; cbn [foldM length] in *.
  { exists balances. rewrite Nat.add_0_r. split; [done|]. by split. }
  apply NoDup_cons in Hnd as [Hn Hnd]. destruct (lookup_lt_is_Some_2 pres n) as [a Ha]; [lia|]. destruct (lookup_lt_is_Some_2 posts n) as [b Hb]; [lia|].
  unfold note_balance at 2. rewrite Ha, Hb, !obind_Some.
  destruct (IH (<[k := (balance_of_output a, balance_of_output b)]> balances) (Datatypes.S n)) as (bal & E1 & Hk & Hi); [lia|lia|done|].
  exists bal. split; [rewrite E1; do 2 f_equal; lia|]. split.
  - intros k' [Hne Hk']%not_elem_of_cons. rewrite Hk by done. by apply lookup_insert_ne.
  - intros [|i] k'; cbn [lookup list_lookup].
    + intros [= ->]. exists a, b. rewrite Nat.add_0_r. split; [done|]. split; [done|]. rewrite Hk by done. apply lookup_insert_eq.
    + intros Hi'. destruct (Hi i k' Hi') as (a' & b' & ? & ? & ?). exists a', b'. by rewrite Nat.add_succ_r.
Qed.

(** The table of the producer: for every caller and token once what [balanceOf] gave on the
    VM state before the transaction and what it gave after, and nothing else. *)
Lemma erc20_produce_measures callers tokens pre post h s balances h' s' : NoDup callers → NoDup tokens →
  erc20_produce run callers tokens pre post ∅ h s = Some (balances, h', s') →
  let keys := balance_keys callers tokens in
  let batch := map (λ '(caller, token), (token, balance_call caller)) keys in
  ∃ pres posts h1 s1, call_batch run post batch h s = Some (posts, h1, s1) ∧ call_batch run pre batch h1 s1 = Some (pres, h', s') ∧
    (∀ k, is_Some (balances !! k) ↔ k.1 ∈ callers ∧ k.2 ∈ tokens) ∧
    ∀ i k, keys !! i = Some k → ∃ a b, pres !! i = Some a ∧ posts !! i = Some b ∧
      balances !! k = Some (balance_of_output a, balance_of_output b).
Proof.
  intros Hc Ht. unfold erc20_produce. cbv zeta. intros ([[posts h1] s1] & E1 & Er)%bind_Some. apply bind_Some in Er as ([[pres h2] s2] & E2 & Er).
  apply bind_Some in Er as ([bal n] & E3 & [= -> -> ->]). exists pres, posts, h1, s1. split; [done|]. split; [done|].
  pose proof (call_batch_length _ _ _ _ _ _ _ E1) as L1. pose proof (call_batch_length _ _ _ _ _ _ _ E2) as L2. rewrite length_map in L1, L2.
  destruct (note_balances_spec pres posts (balance_keys callers tokens) ∅ 0%nat) as (bal & E4 & Hk & Hi);
    [lia|lia|by apply balance_keys_NoDup|]. rewrite E4 in E3. injection E3 as -> _. split; [|exact Hi].
  intros k. rewrite <- balance_keys_spec. split.
  - intros Hs. destruct (decide (k ∈ balance_keys callers tokens)); [done|]. rewrite Hk, lookup_empty in Hs by done. by destruct Hs.
  - intros [i Hik]%list_elem_of_lookup. destruct (Hi i k Hik) as (a & b & _ & _ & ->). by eexists.
Qed.
End measure.

(** ** Known tokens *)

Section known.
Context `{MapOrder} `{Cartesian}.

(** A token that is watched, rechecked or kept has a context. *)
Definition is_known (f : Flashloan_v2) (t : Z) : Prop := is_Some (known_tokens (flashloan_oracle f) !! t).
Definition watched_ok (f : Flashloan_v2) : Prop := ∀ a, a ∈ erc20_addresses f → is_known f a.
Record data_ok (f : Flashloan_v2) (d : FlashloanData_v2) : Prop := mkDataOk {
  dk_recheck a : a ∈ oracle_recheck_balance d → is_known f a;
  dk_kept t : is_Some (unliquidated_tokens d !! t) → is_known f t
}.

Lemma data_ok_mono f f' d : (∀ t, is_known f t → is_known f' t) → data_ok f d → data_ok f' d.
Proof. intros Hm [Hr Hk]. split; auto. Qed.

(** Adding a token to recheck, if it is watched *)
Lemma data_ok_recheck f d a : watched_ok f → data_ok f d →
  data_ok f (if bool_decide (a ∈ erc20_addresses f) then recheck_balance a d else d).
Proof.
  intros Hw [Hr Hk]. case_bool_decide as Ha; [|done]. split; [|done].
  intros t. cbn [recheck_balance oracle_recheck_balance]. rewrite elem_of_union, elem_of_singleton. intros [->|Ht]; [by apply Hw|by apply Hr].
Qed.

Lemma analyze_call_known f x d : watched_ok f → data_ok f d → data_ok f (analyze_call f x d).
Proof.
  intros Hw Hd. unfold analyze_call. cbv zeta. set (addr := ei_contract _).
  assert (∀ d1, data_ok f d1 → data_ok f (if bool_decide (addr ∈ pair_addresses f)
    then recheck_reserve addr (if bool_decide (addr ∈ erc20_addresses f) then recheck_balance addr d1 else d1)
    else if bool_decide (addr ∈ erc20_addresses f) then recheck_balance addr d1 else d1)) as Hrest.
  { intros d1 Hd1. pose proof (data_ok_recheck f d1 addr Hw Hd1) as Hd2. destruct (bool_decide (addr ∈ pair_addresses f)); [by destruct Hd2|exact Hd2]. }
  destruct (ei_txn_value _); apply Hrest; [by destruct Hd|exact Hd].
Qed.

Lemma flashloan_step_known f i d d' : watched_ok f → data_ok f d → flashloan_step_v2 f i d = Some d' → data_ok f d'.
Proof.
  intros Hw Hd.
  assert (∀ off b, on_call_v2 f off b i d = Some d' → data_ok f d') as Hcall.
  { intros off b. unfold on_call_v2. cbv zeta. intros (v & _ & E)%bind_Some. apply bind_Some in E as (t & _ & E).
    apply bind_Some in E as (a & _ & E). apply bind_Some in E as (o & _ & E). apply bind_Some in E as (sz & _ & E). apply bind_Some in E as (u & _ & [= <-]).
    set (d1 := if (0 <? v) && _ then _ else _). assert (data_ok f d1) as Hd1 by (unfold d1; destruct (_ && _); [by destruct Hd|done]).
    by apply data_ok_recheck. }
  unfold flashloan_step_v2. cbv zeta. destruct (_ =? _); [by apply Hcall|]. destruct (_ =? _); [by apply Hcall|].
  destruct (_ =? _); [|by intros [= <-]]. intros (k & _ & [= <-])%bind_Some. destruct (_ && _); [by destruct Hd|done].
Qed.

Lemma weigh_balance_known f percent w x w' : weigh_balance (known_tokens (flashloan_oracle f)) percent w x = Some w' →
  (∀ t, is_Some (wd_unliquidated w !! t) → is_known f t) → ∀ t, is_Some (wd_unliquidated w' !! t) → is_known f t.
Proof.
  destruct x as [[c tok] [p n]]. unfold weigh_balance. intros (ctx & Hc & E)%bind_Some Hw t.
  destruct (n <? p); [by injection E as <-; apply Hw|]. destruct (p <? n); [|by injection E as <-; apply Hw].
  injection E as <-. cbn [wd_unliquidated]. destruct (0 <? _); [|apply Hw].
  destruct (decide (t = tok)) as [->|Hne]; [intros _; by exists ctx|]. rewrite lookup_insert_ne by done. apply Hw.
Qed.

Lemma weigh_kept_known f percent w x w' : weigh_kept (known_tokens (flashloan_oracle f)) percent w x = Some w' →
  (∀ t, is_Some (wd_unliquidated w !! t) → is_known f t) → ∀ t, is_Some (wd_unliquidated w' !! t) → is_known f t.
Proof.
  destruct x as [tok a]. unfold weigh_kept. intros (ctx & Hc & E)%bind_Some Hw t. cbv zeta in E.
  destruct (_ =? 0); [by injection E as <-; apply Hw|]. injection E as <-. cbn [wd_unliquidated].
  destruct (decide (t = tok)) as [->|Hne]; [intros _; by exists ctx|]. rewrite lookup_insert_ne by done. apply Hw.
Qed.

Lemma profit_oracle_known f percent reserves balances d r d' : data_ok f d →
  profit_oracle (known_tokens (flashloan_oracle f)) percent reserves balances d = Some (r, d') → data_ok f d'.
Proof.
  intros [Hr Hk]. unfold profit_oracle. cbv zeta. intros (w1 & E1 & E)%bind_Some. apply bind_Some in E as ([lo r0] & _ & E).
  apply bind_Some in E as (w2 & E2 & E). apply bind_Some in E as ([le r1] & _ & [= _ <-]).
  split; [by intros a ?%elem_of_empty|]. cbn [unliquidated_tokens].
  set (Q w := ∀ t, is_Some (wd_unliquidated w !! t) → is_known f t). change (Q w2).
  assert (∀ A (g : weighed → A → option weighed) l w w', (∀ w x w', g w x = Some w' → Q w → Q w') → foldM g w l = Some w' → Q w → Q w') as Hfold.
  { intros A g l. induction l as [|x l IH]; intros w w' Hg; cbn [foldM]; [by intros [= <-]|].
    intros (w3 & E3 & E4)%bind_Some Hw. apply (IH w3); [done|done|]. by eapply Hg. }
  eapply Hfold; [|exact E2|eapply Hfold; [|exact E1|exact Hk]]; intros w x w' Ew Hq;
    [exact (weigh_kept_known _ _ _ _ _ Ew Hq)|exact (weigh_balance_known _ _ _ _ _ Ew Hq)].
Qed.

(** The loops of the oracle find every token. *)
Lemma weigh_total f percent l w : (∀ x, x ∈ l → is_known f x.1.2) →
  ∃ w', foldM (weigh_balance (known_tokens (flashloan_oracle f)) percent) w l = Some w'.
Proof.
  revert w. induction l as [|[[c t] [p n]] l IH]; intros w Hl; cbn [foldM]; [by eexists|].
  destruct (Hl ((c, t), (p, n)) ltac:(left)) as [ctx Hc]. cbn in Hc. unfold weigh_balance at 2. rewrite Hc, obind_Some.
  assert (∀ x, x ∈ l → is_known f x.1.2) as Hl' by (intros x Hx; apply Hl; by right).
  destruct (n <? p); [by apply IH|]. destruct (p <? n); by apply IH.
Qed.

Lemma weigh_kept_total f percent l w : (∀ x, x ∈ l → is_known f x.1) →
  ∃ w', foldM (weigh_kept (known_tokens (flashloan_oracle f)) percent) w l = Some w'.
Proof.
  revert w. induction l as [|[t a] l IH]; intros w Hl; cbn [foldM]; [by eexists|].
  destruct (Hl (t, a) ltac:(left)) as [ctx Hc]. cbn in Hc. unfold weigh_kept at 2. rewrite Hc, obind_Some. cbv zeta.
  assert (∀ x, x ∈ l → is_known f x.1) as Hl' by (intros x Hx; apply Hl; by right).
  destruct (_ =? 0); by apply IH.
Qed.

(** *** What happens to tokens *)

Section world.
Context {W R : Type} `{Net W} `{Libafl R} `{!RandLaws R} `{!LibaflLaws R} `{HashOrder} `{Outside} `{Formats} (json_text : Value → str).

(** What is bought is known. *)
Definition buys_known (f : Flashloan_v2) (x : EVMInput_v2) : Prop :=
  borrow_ok x ∧ (input_type x = Borrow → is_known f (ei_contract (i2_input x))).

(** The tokens that are known, and those whose paths are cached, can all be bought. *)
Definition tokens_ok (f : Flashloan_v2) (c : OnChainConfig W) : Prop :=
  map_Forall (λ _, token_ok) (known_tokens (flashloan_oracle f)) ∧ paths_ok c.

(** A new contract: what was known stays known, a watched contract is known, and so is
    what is bought by the inputs that are added. *)
Lemma on_contract_insertion_known oracle_free addr abi f c is_erc20 is_pair f' c' :
  on_contract_insertion json_text oracle_free addr abi f c = Some ((is_erc20, is_pair, f'), c') → watched_ok f → tokens_ok f c →
  watched_ok f' ∧ tokens_ok f' c' ∧ (∀ t, is_known f t → is_known f' t) ∧ (is_erc20 = true → is_known f' addr).
Proof.
  unfold on_contract_insertion. intros E Hw Htok. case_bool_decide; [by injection E as <- _ <- <-|].
  cbv zeta in E. set (f1 := mkFlashloan_v2 _ _ _ _) in E. assert (watched_ok f1 ∧ ∀ t, is_known f t → is_known f1 t) as [Hw1 Hk1] by done.
  unfold mbind, io_bind in E. apply bind_Some in E as ([[e f2] c2] & E2 & E).
  assert (watched_ok f2 ∧ tokens_ok f2 c2 ∧ (∀ t, is_known f1 t → is_known f2 t) ∧ (e = true → is_known f2 addr)) as (Hw2 & Ht2 & Hk2 & He).
  { destruct (oracle_free && _); [|by injection E2 as <- <- <-]. apply bind_Some in E2 as ([ctx c3] & Ectx & [= <- <- <-]).
    destruct Htok as [Htok Hpaths]. destruct (cached_path_ok _ _ _ _ _ Ectx Hpaths) as [Hctx Hpaths'].
    assert (∀ t, t = addr ∨ is_known f1 t → is_known (mkFlashloan_v2 (known_addresses f1) ({[addr]} ∪ erc20_addresses f1) (pair_addresses f1)
      (register_token addr ctx (flashloan_oracle f1))) t) as Hn.
    { intros t Ht. unfold is_known. cbn [flashloan_oracle register_token known_tokens]. rewrite lookup_insert_is_Some.
      destruct (decide (addr = t)); [by left|right]. by destruct Ht as [->|Ht]. }
    split_and!.
    - intros t. cbn [erc20_addresses]. rewrite elem_of_union, elem_of_singleton. intros [->|Ht]; apply Hn; [by left|right; by apply Hw1].
    - split; [|exact Hpaths']. cbn [flashloan_oracle register_token known_tokens]. by apply map_Forall_insert_2.
    - intros t Ht. apply Hn. by right.
    - intros _. apply Hn. by left. }
  destruct (has_functions abi abi_signatures_pair); injection E as <- _ <- <-; (split; [exact Hw2|]); (split; [exact Ht2|]); (split; [by auto|exact He]).
Qed.

Lemma insertion_known oracle_free addr abi f (st st' : FuzzState R) new c f' c' :
  handle_contract_insertion json_text oracle_free addr abi f st c = Some ((f', st', new), c') → watched_ok f → tokens_ok f c →
  watched_ok f' ∧ tokens_ok f' c' ∧ (∀ t, is_known f t → is_known f' t) ∧ Forall (buys_known f') new.
Proof.
  unfold handle_contract_insertion, mbind, io_bind. intros ([[[e p] f1] c1] & E1 & E)%bind_Some Hw Htok.
  destruct (on_contract_insertion_known _ _ _ _ _ _ _ _ _ E1 Hw Htok) as (Hw1 & Ht1 & Hk1 & He).
  apply bind_Some in E as ([[st1 new1] c2] & E2 & [= <- _ -> ->]).
  assert ((if p then on_pair_insertion addr f1 else f1) = f1) as -> by (by destruct p).
  assert (c' = c1 ∧ Forall (buys_known f1) new) as [-> Hnew]; [|done].
  destruct e; [|injection E2 as _ <- <-; by split]. apply bind_Some in E2 as ([[caller st2] c3] & (y & _ & [= _ <-])%bind_Some & [= _ <- <-]).
  split; [done|]. constructor; [|constructor]. split; [apply borrow_input_ok|]. intros _. by apply He.
Qed.

(** Buying a known token panics only inside the call to the router. *)
Lemma purchase_panics_in_call {S} run f x d (h : VMHost Env) (s : S) ctx :
  borrow_ok x → input_type x = Borrow → known_tokens (flashloan_oracle f) !! ei_contract (i2_input x) = Some ctx →
  token_ok ctx → execute_v2 run f x d h s = None →
  ∃ b v abi bys dst, randomness x !! 0%nat = Some b ∧ ei_txn_value (i2_input x) = Some v ∧
    generate_uniswap_router_call ctx (b2z b) v (ei_caller (i2_input x)) = Some (Some (abi, v, dst)) ∧ boxed_get_bytes abi = Some bys ∧
    fast_call run dst bys (ss_state (ei_sstate (i2_input x))) v (ei_caller (i2_input x)) h (d, s) = None.
Proof.
  intros Hok Ht Hk Hr. destruct (Hok Ht) as (Hrand & [v Hv] & _). unfold execute_v2. rewrite Ht. unfold execute_borrow.
  destruct (randomness x) as [|b rest]; [done|]. cbn [lookup list_lookup]. rewrite Hk, Hv, !obind_Some.
  assert (∃ call, generate_uniswap_router_call ctx (b2z b) v (ei_caller (i2_input x)) = Some call ∧
    match call with Some (abi, v', _) => v' = v ∧ is_Some (boxed_get_bytes abi) | None => True end) as (call & Hgen & Hcall).
  { destruct (is_weth ctx) eqn:Hw.
    { unfold generate_uniswap_router_call. rewrite Hw. eexists. split; [done|]. split; [done|]. by eexists. }
    destruct (decide (swaps ctx = [])) as [Hs|Hs].
    { unfold generate_uniswap_router_call. rewrite Hw, Hs. by eexists. }
    destruct Hr as [Hr|Hr]; [congruence|].
    destruct (router_call_encodes ctx (b2z b) v (ei_caller (i2_input x)) Hw Hs) as (abi & dst & path & bs & E & _ & _ & _ & Hb & _);
      [by apply b2z_range|done|]. rewrite E. eexists. split; [done|]. split; [done|]. by eexists. }
  rewrite Hgen, obind_Some. destruct call as [[[abi v'] dst]|]; [|done]. destruct Hcall as [-> [bys Hb]]. rewrite Hb, obind_Some.
  destruct (fast_call _ _ _ _ _ _ _ _) as [[[res h1] ds]|] eqn:Ec; [intros [=]|]. intros _. by exists b, v, abi, bys, dst.
Qed.

(** The flash-loan data that a transaction, or the oracle after it, leaves *)
Inductive fl_data (f : Flashloan_v2) : FlashloanData_v2 → FlashloanData_v2 → Prop :=
| data_step i d d' : flashloan_step_v2 f i d = Some d' → fl_data f d d'
| data_call x d : fl_data f d (analyze_call f x d)
| data_judged percent reserves balances r d d' :
    profit_oracle (known_tokens (flashloan_oracle f)) percent reserves balances d = Some (r, d') → fl_data f d d'.

(** A campaign, as far as tokens are concerned: the middleware, the chain, the flash-loan
    data of the VM states there are, and the inputs.  Contracts appear, transactions run on
    stored data, are judged, and inputs are mutated; the rest of the code uses the chain
    too, but [fetch_uniswap_path_cached] alone writes the cache of paths. *)
Abbreviation fl_world := (Flashloan_v2 * OnChainConfig W * list FlashloanData_v2 * list EVMInput_v2)%type.
Inductive fl_step : fl_world → fl_world → Prop :=
| fl_insert oracle_free addr abi f (st st' : FuzzState R) new c f' c' D X :
    handle_contract_insertion json_text oracle_free addr abi f st c = Some ((f', st', new), c') → fl_step (f, c, D, X) (f', c', D, X ++ new)
| fl_run f c d d' D X : d ∈ D → fl_data f d d' → fl_step (f, c, D, X) (f, c, d' :: D, X)
| fl_fresh f c D X : fl_step (f, c, D, X) (f, c, FlashloanData_v2_new :: D, X)
| fl_mutate stage (ms ms' : @MutState R) x r x' f c D X : x ∈ X →
    fuzz_mutate_v2 stage ms x = Some (r, ms', x') → fl_step (f, c, D, X) (f, c, D, x' :: X)
| fl_chain f c c' D X : uniswap_path_cache c' = uniswap_path_cache c → fl_step (f, c, D, X) (f, c', D, X).

Definition fl_ok (w : fl_world) : Prop :=
  let '(f, c, D, X) := w in watched_ok f ∧ tokens_ok f c ∧ Forall (data_ok f) D ∧ Forall (buys_known f) X.

(** A mutation buys the same token, if any. *)
Lemma mutated_buys_known f stage (ms ms' : @MutState R) x r x' : fuzz_mutate_v2 stage ms x = Some (r, ms', x') → buys_known f x → buys_known f x'.
Proof.
  intros E [Hb Hk]. destruct (fuzz_mutate_v2_phases _ _ _ _ _ _ E) as (ms1 & x1 & M & Ht1 & _).
  assert (input_type x' = input_type x) as Ht by (rewrite <- Ht1; apply M). destruct (decide (input_type x = Borrow)) as [Hx|Hx].
  2: { split; [intros Hx'; congruence|congruence]. }
  destruct (fuzz_mutate_v2_mutates _ _ _ _ _ _ E) as [[_ _ Hev] _ _ Hbb]; [intros _; by apply Hb|].
  split; [by apply Hbb|]. rewrite Ht, (ev_contract _ _ _ Hev). exact Hk.
Qed.

Lemma data_new_ok f : data_ok f FlashloanData_v2_new.
Proof. split; [by intros a ?%elem_of_empty|]. intros t [a Ha]. cbn in Ha. by rewrite lookup_empty in Ha. Qed.

Lemma fl_step_ok w w' : fl_step w w' → fl_ok w → fl_ok w'.
Proof.
  intros [oracle_free addr abi f st st' new c f' c' D X E|f c d d' D X Hd Hf|f c D X|stage ms ms' x r x' f c D X Hx E|f c c' D X E] (Hw & Ht & Hds & Hxs).
  - destruct (insertion_known _ _ _ _ _ _ _ _ _ _ E Hw Ht) as (Hw' & Ht' & Hk & Hn). split; [done|]. split; [done|]. split.
    + eapply Forall_impl; [exact Hds|]. intros d. by apply data_ok_mono.
    + apply Forall_app. split; [|done]. eapply Forall_impl; [exact Hxs|]. intros x [Hb Hbk]. split; [done|auto].
  - do 2 (split; [done|]). split; [|done]. constructor; [|done]. rewrite Forall_forall in Hds. specialize (Hds d Hd).
    destruct Hf as [i d d' E|x d|percent reserves balances r d d' E]; [by eapply flashloan_step_known|by apply analyze_call_known|by eapply profit_oracle_known].
  - do 2 (split; [done|]). split; [|done]. constructor; [apply data_new_ok|done].
  - do 3 (split; [done|]). constructor; [|done]. rewrite Forall_forall in Hxs. by eapply mutated_buys_known; [exact E|apply Hxs].
  - split; [done|]. split; [|done]. destruct Ht as [? Hp]. split; [done|]. unfold paths_ok. by rewrite E.
Qed.

Lemma fl_reachable_ok w w' : rtc fl_step w w' → fl_ok w → fl_ok w'.
Proof. induction 1; eauto using fl_step_ok. Qed.

(** C25. Every token that is bought, measured or kept is known, and can be bought.  However
    contracts appear, transactions run, are judged and inputs are mutated, from a middleware
    that watches and knows nothing and a chain whose cache of paths is empty: on every
    flash-loan data there is, when the producer measured the tokens to recheck for the
    callers, both loops of the oracle find all tokens they look up; and every input that buys
    tokens names a known one, which is WETH or has only paths with a pair (one of a route, or
    the pair with WETH of a token of known price, whose route is empty), so that executing
    the input panics only inside the call to the router, and never while it builds the call. *)
Theorem tokens_stay_known f0 c0 f c D X :
  erc20_addresses f0 = ∅ → known_tokens (flashloan_oracle f0) = ∅ → uniswap_path_cache c0 = ∅ →
  rtc fl_step (f0, c0, [FlashloanData_v2_new], []) (f, c, D, X) →
  (∀ d, d ∈ D → ∀ S run callers tokens pre post (h : VMHost Env) (s : S) balances h' s' percent w,
     NoDup callers → tokens ≡ₚ elements (oracle_recheck_balance d) →
     erc20_produce run callers tokens pre post ∅ h s = Some (balances, h', s') →
     (∃ w', foldM (weigh_balance (known_tokens (flashloan_oracle f)) percent) w (map_iter balances) = Some w') ∧
     (∃ w', foldM (weigh_kept (known_tokens (flashloan_oracle f)) percent) w (map_iter (unliquidated_tokens d)) = Some w')) ∧
  (∀ x, x ∈ X → input_type x = Borrow → ∃ ctx, known_tokens (flashloan_oracle f) !! ei_contract (i2_input x) = Some ctx ∧
     (is_weth ctx = true ∨ ∀ p, p ∈ swaps ctx → route p ≠ [] ∨ is_Some (final_pegged_pair p)) ∧
     (∀ S run d (h : VMHost Env) (s : S), execute_v2 run f x d h s = None →
      ∃ b v abi bys dst, randomness x !! 0%nat = Some b ∧ ei_txn_value (i2_input x) = Some v ∧
        generate_uniswap_router_call ctx (b2z b) v (ei_caller (i2_input x)) = Some (Some (abi, v, dst)) ∧ boxed_get_bytes abi = Some bys ∧
        fast_call run dst bys (ss_state (ei_sstate (i2_input x))) v (ei_caller (i2_input x)) h (d, s) = None)).
Proof.
  intros Hwatch Hknown Hpaths Hrun. assert (fl_ok (f, c, D, X)) as (Hw & [Htok _] & Hds & Hxs).
  { apply (fl_reachable_ok _ _ Hrun). split; [intros a; by rewrite Hwatch|].
    split; [split; [rewrite Hknown|unfold paths_ok; rewrite Hpaths]; apply map_Forall_empty|]. split; [|constructor].
    constructor; [apply data_new_ok|constructor]. }
  rewrite Forall_forall in Hds. rewrite Forall_forall in Hxs. split.
  - intros d [Hr Hk]%Hds S run callers tokens pre post h s balances h' s' percent w Hc Ht E. split.
    + destruct (erc20_produce_measures run callers tokens pre post h s balances h' s' Hc) as (_ & _ & _ & _ & _ & _ & Hkeys & _); [|exact E|].
      { rewrite Ht. apply NoDup_elements. }
      apply weigh_total. intros [[k t] v]. rewrite map_iter_perm, elem_of_map_to_list. intros Hb.
      destruct (proj1 (Hkeys (k, t)) ltac:(by eexists)) as [_ Hin]. apply Hr. cbn in Hin. by rewrite Ht, elem_of_elements in Hin.
    + apply weigh_kept_total. intros [t a]. rewrite map_iter_perm, elem_of_map_to_list. intros Ha. apply Hk. by eexists.
  - intros x [Hb Hk]%Hxs Ht. destruct (Hk Ht) as [ctx Hctx]. exists ctx. split; [done|]. pose proof (Htok _ _ Hctx) as Hok.
    split; [destruct Hok as [?|Hok]; [by left|right; by rewrite Forall_forall in Hok]|]. intros S run d h s E.
    by apply (purchase_panics_in_call run f x d h s ctx).
Qed.
End world.
End known.

(** ** Examples *)

Lemma fuzz_mutate_v2_keeps_executable_witness :
  ∃ r ms' x', fuzz_mutate_v2 0 example_mut_state (borrow_input 9 4) = Some (r, ms', x') ∧
    borrow_ok x' ∧ input_type x' = Borrow ∧ ei_contract (i2_input x') = 4 ∧ step_ok (i2_input x').
Proof.
  assert (match fuzz_mutate_v2 0 example_mut_state (borrow_input 9 4) with Some _ => true | None => false end = true) as Es by (vm_compute; reflexivity).
  destruct (fuzz_mutate_v2 0 example_mut_state (borrow_input 9 4)) as [[[r ms'] x']|] eqn:E; [|discriminate Es].
  destruct (fuzz_mutate_v2_keeps_executable 0 example_mut_state (borrow_input 9 4) r ms' x' E) as (Hb & Hs & _ & Hc & Ht & _).
  - split; [intros Hf; discriminate Hf|done|]. intros Hf. discriminate Hf.
  - apply borrow_input_ok.
  - exists r, ms', x'. split; [done|]. split; [exact Hb|]. split; [exact Ht|]. split; [exact Hc|exact Hs].
Defined.

(** USDC appears on a forked chain: it has a known price, and the subgraph knows one pair of it
    with WETH, so its only path has an empty route. *)
Definition usdc : str := lit "0xa0b86991c6218b36c1d19d4a2e9eb0ce3606eb48".
Definition toy_side (decimals id : str) : Value := VObject [(lit "decimals", VString decimals); (lit "id", VString id)].
Definition toy_subgraph_pair : Value := VObject [(lit "id", VString (lit "0x11")); (lit "token0", toy_side (lit "6") usdc);
  (lit "token1", toy_side (lit "18") (lit "0xc02aaa39b223fe8d0a0e5c4f27ead9083c756cc2"))].
#[local] Instance toy_subgraph : Outside := {|
  json_from_str s := Some (VObject [(lit "result", VString (lit "0x1000"));
    (lit "data", VObject [(lit "p0", VArray [toy_subgraph_pair]); (lit "p1", VArray [])])]);
  glob _ := None; read_file _ := None; random_using v := v; keccak256 l := Z.of_nat (length l)
|}.
#[local] Instance usdc_formats : Formats := {|
  hex_encode := hex_encode; hex_decode := hex_decode; addr_debug a := usdc; addr_from_str s := Some 7;
  u256_display := u256_display; u256_from_dec := u256_from_dec; u256_from_str := u256_from_str;
  u256_debug := u256_debug; u512_debug := u512_debug; u512_display := u512_display
|}.
(** The reserves 50000 and 70000, as the node prints them *)
Definition toy_text (v : Value) : str :=
  lit "'0x" ++ replicate 60 "0"%char ++ lit "c350" ++ replicate 59 "0"%char ++ lit "11170'".
Definition toy_token_abi : list ABIConfig :=
  map (λ n, mkABIConfig (lit "()") (Sel x00 x00 x00 x00) n false false false) abi_signatures_token.
Definition watching_nothing : Flashloan_v2 := mkFlashloan_v2 ∅ ∅ ∅ (mkIERC20Oracle ∅ ∅).
Definition usdc_pair : PairContext := mkPairContext 7 7 0 (default example_info (get_uniswap_info UniswapV2 ETH)) (50000, 70000).
Definition usdc_token : TokenContext := mkTokenContext [mkPathContext [] 1400000 (Some usdc_pair)] false 7 4.
Definition watching_usdc : Flashloan_v2 := mkFlashloan_v2 {[4]} {[4]} ∅ (mkIERC20Oracle {[4 := usdc_token]} ∅).

Lemma toy_token_appears :
  match handle_contract_insertion toy_text true 4 toy_token_abi watching_nothing (add_caller (FuzzState_new 3) 9) toy_endpoint with
  | Some ((f', _, new), _) => f' = watching_usdc ∧ new = [borrow_input 9 4]
  | None => False
  end.
Proof. vm_compute. split; reflexivity. Qed.

Lemma tokens_stay_known_witness :
  execute_v2 (S := unit) (λ _ _ _, None) watching_usdc (borrow_input 9 4) FlashloanData_v2_new
    (mkVMHost FuzzHost_new (mkEnv 0 0 0 0 0 1) {[router (uniswap_info usdc_pair) := [x00]]} ∅ ∅ ∅ ∅ false [] [] 9 false 0 ∅ None (replicate map_size 0) false 0 false) tt = None ∧
  ∃ v abi bys dst, generate_uniswap_router_call usdc_token 0 v 9 = Some (Some (abi, v, dst)) ∧ boxed_get_bytes abi = Some bys.
Proof.
  pose proof toy_token_appears as Ha.
  destruct (handle_contract_insertion _ _ _ _ _ _ _) as [[[[f' st'] new] c']|] eqn:E; [|destruct Ha]. destruct Ha as [-> ->].
  assert (rtc (fl_step (R := Z) toy_text) (watching_nothing, toy_endpoint, [FlashloanData_v2_new], [])
    (watching_usdc, c', [FlashloanData_v2_new], [borrow_input 9 4])) as Hrun
    by (apply rtc_once; exact (fl_insert toy_text _ _ _ _ _ _ _ _ _ _ [FlashloanData_v2_new] [] E)).
  destruct (tokens_stay_known (R := Z) toy_text watching_nothing toy_endpoint watching_usdc c' [FlashloanData_v2_new]
    [borrow_input 9 4] eq_refl eq_refl eq_refl Hrun) as [_ Hx].
  assert (borrow_input 9 4 ∈ [borrow_input 9 4]) as Hin by left.
  destruct (Hx _ Hin eq_refl) as (ctx & Hctx & _ & Hp). clear Hx Hrun E.
  assert (ctx = usdc_token) as -> by (cbn [watching_usdc flashloan_oracle known_tokens borrow_input i2_input ei_contract] in Hctx;
    rewrite lookup_singleton_eq in Hctx; by injection Hctx).
  match goal with |- ?g = None ∧ _ => assert (g = None) as En by (vm_compute; reflexivity) end.
  split; [exact En|]. destruct (Hp unit _ _ _ _ En) as (b & v & abi & bys & dst & Hb & _ & Hg & Hbs & _).
  injection Hb as <-. exists v, abi, bys, dst. split; [exact Hg|exact Hbs].
Defined.
