(* ===== verification/MoveValues.v ===== *)
(** * Move values ([src/externals/move/language/move-vm/types/src/values/values_impl.rs])

    Structs, vectors and the locals of a frame are [Rc<RefCell<_>>]s that references share, and
    some operations look at the reference counts.  The store of these cells, with their counts,
    is explicit: an operation takes it and returns it, an [Err] of the code is a value, and a
    [Drop] gives counts back. *)
From S2P Require Import Prelude.
#[local] Open Scope Z_scope.

(** The status codes the operations return *)
Inductive StatusCode :=
  UNKNOWN_INVARIANT_VIOLATION_ERROR | VERIFIER_INVARIANT_VIOLATION | INTERNAL_TYPE_ERROR | MISSING_DATA | RESOURCE_ALREADY_EXISTS
| EXECUTION_STACK_OVERFLOW | EMPTY_VALUE_STACK | ARITHMETIC_ERROR | VECTOR_OPERATION_ERROR | ABORTED | PC_OVERFLOW.

(** ** Data *)

Definition rc := positive.

(** The primitive values of [ValueImpl], and the elements of specialized vectors *)
Inductive prim :=
  U8 (x : Z) | U16 (x : Z) | U32 (x : Z) | U64 (x : Z) | U128 (x : Z) | U256 (x : Z) | Bool (b : bool) | Address (a : Z).
Inductive prim_ty := TU8 | TU16 | TU32 | TU64 | TU128 | TU256 | TBool | TAddress.
#[export] Instance prim_eq_dec : EqDecision prim.
Proof. solve_decision. Defined.
#[export] Instance prim_ty_eq_dec : EqDecision prim_ty.
Proof. solve_decision. Defined.
Definition prim_tag (p : prim) : prim_ty :=
  match p with
  | U8 _ => TU8 | U16 _ => TU16 | U32 _ => TU32 | U64 _ => TU64 | U128 _ => TU128 | U256 _ => TU256 | Bool _ => TBool | Address _ => TAddress
  end.

(** [VecPrim TU8] is [VecU8], and so on *)
Inductive Container := Locals (r : rc) | Vec (r : rc) | Struct (r : rc) | VecPrim (k : prim_ty) (r : rc).
Inductive GlobalDataStatus := Clean | Dirty.
Inductive ContainerRef := Local (c : Container) | Global (status : rc) (c : Container).
Record IndexedRef := mkIndexedRef { ir_idx : nat; ir_ref : ContainerRef }.
Inductive ValueImpl := Invalid | Prim (p : prim) | VContainer (c : Container) | VContainerRef (r : ContainerRef) | VIndexedRef (r : IndexedRef).

(** The contents of a cell, and the store with the strong counts *)
Inductive cell := CVals (l : list ValueImpl) | CPrims (l : list prim) | CStatus (s : GlobalDataStatus).
Notation heap := (gmap rc (nat * cell)) (only parsing).

(** ** Computations on the store *)

Inductive result (A : Type) := Done (a : A) | Err (e : StatusCode) | Panics.
Arguments Done {A}.
Arguments Err {A}.
Arguments Panics {A}.
Definition vm (A : Type) : Type := heap → result A * heap.
#[export] Instance vm_ret : MRet vm := λ A a h, (Done a, h).
#[export] Instance vm_bind : MBind vm := λ A B f m h,
  match m h with (Done a, h) => f a h | (Err e, h) => (Err e, h) | (Panics, h) => (Panics, h) end.
Definition throw {A} (e : StatusCode) : vm A := λ h, (Err e, h).
Definition panic {A} : vm A := λ h, (Panics, h).
Definition try_get {A} (o : option A) : vm A := match o with Some a => mret a | None => panic end.

(** [Rc::new(RefCell::new(_))], [borrow], an assignment to [borrow_mut], [Rc::strong_count], [Rc::clone] *)
Definition rc_new (c : cell) : vm rc := λ h, let l := fresh (dom h) in (Done l, <[l := (1%nat, c)]> h).
Definition rc_get (l : rc) : vm cell := λ h, match h !! l with Some (_, c) => (Done c, h) | None => (Panics, h) end.
Definition rc_set (l : rc) (c : cell) : vm unit := λ h, match h !! l with Some (n, _) => (Done tt, <[l := (n, c)]> h) | None => (Panics, h) end.
Definition strong_count (l : rc) : vm nat := λ h, match h !! l with Some (n, _) => (Done n, h) | None => (Panics, h) end.
Definition rc_clone (l : rc) : vm unit := λ h, match h !! l with Some (n, c) => (Done tt, <[l := (S n, c)]> h) | None => (Panics, h) end.
Definition get_vals (l : rc) : vm (list ValueImpl) := c ← rc_get l; match c with CVals vs => mret vs | _ => panic end.
Definition get_prims (l : rc) : vm (list prim) := c ← rc_get l; match c with CPrims ps => mret ps | _ => panic end.

(** The counted pointers a value holds *)
Definition rc_of (c : Container) : rc := match c with Locals r | Vec r | Struct r | VecPrim _ r => r end.
Definition ref_handles (r : ContainerRef) : list rc := match r with Local c => [rc_of c] | Global s c => [s; rc_of c] end.
Definition handles (v : ValueImpl) : list rc :=
  match v with VContainer c => [rc_of c] | VContainerRef r => ref_handles r | VIndexedRef r => ref_handles (ir_ref r) | _ => [] end.
Definition cell_handles (c : cell) : list rc := match c with CVals vs => concat (map handles vs) | _ => [] end.

(** [Drop]: the last pointer to a cell drops the contents; every level removes a cell, which bounds [fuel]. *)
Fixpoint release (fuel : nat) (l : rc) (h : heap) : heap :=
  match fuel with
  | O => h
  | S fuel =>
      match h !! l with
      | None => h
      | Some (n, c) => if (n <=? 1)%nat then foldl (λ h l, release fuel l h) (delete l h) (cell_handles c) else <[l := (n - 1, c)%nat]> h
      end
  end.
Definition drop_handles (ls : list rc) (h : heap) : heap := foldl (λ h l, release (S (size h)) l h) h ls.
Definition drop_all (ls : list rc) : vm unit := λ h, (Done tt, drop_handles ls h).
(** A computation that owns pointers it drops at the end, whatever its result *)
Definition finally {A} (m : vm A) (ls : list rc) : vm A := λ h, let '(r, h) := m h in (r, drop_handles ls h).

(** A computation whose errors drop pointers it was to hand on *)
Definition owning {A} (m : vm A) (ls : list rc) : vm A := λ h, match m h with (Err e, h) => (Err e, drop_handles ls h) | r => r end.

(** [Rc::try_unwrap] of a unique pointer frees the cell. *)
Definition rc_free (l : rc) : vm unit := λ h, (Done tt, delete l h).
(** [take_unique_ownership] *)
Definition take_unique_ownership (l : rc) : vm cell :=
  n ← strong_count l;
  if (n =? 1)%nat then c ← rc_get l; rc_free l ;; mret c
  else drop_all [l] ;; throw UNKNOWN_INVARIANT_VIOLATION_ERROR.

(** ** Copy ([copy_value], [copy_by_ref]) *)

Definition copy_by_ref (c : Container) : vm Container := rc_clone (rc_of c) ;; mret c.
Definition ref_copy_value (r : ContainerRef) : vm ContainerRef :=
  match r with
  | Local c => c ← copy_by_ref c; mret (Local c)
  | Global s c => rc_clone s ;; c ← copy_by_ref c; mret (Global s c)
  end.
Definition indexed_copy_value (r : IndexedRef) : vm IndexedRef := c ← ref_copy_value (ir_ref r); mret (mkIndexedRef (ir_idx r) c).

(** [iter().map(f).collect::<Result<_>>()]; after an error, the values collected so far are dropped. *)
Fixpoint collect (f : ValueImpl → vm ValueImpl) (vs : list ValueImpl) : vm (list ValueImpl) :=
  match vs with
  | [] => mret []
  | v :: vs => v ← f v; vs ← owning (collect f vs) (handles v); mret (v :: vs)
  end.
Definition container_copy_with (copy : ValueImpl → vm ValueImpl) (c : Container) : vm Container :=
  match c with
  | Vec r => vs ← get_vals r; vs ← collect copy vs; l ← rc_new (CVals vs); mret (Vec l)
  | Struct r => vs ← get_vals r; vs ← collect copy vs; l ← rc_new (CVals vs); mret (Struct l)
  | VecPrim k r => ps ← get_prims r; l ← rc_new (CPrims ps); mret (VecPrim k l)
  | Locals _ => throw UNKNOWN_INVARIANT_VIOLATION_ERROR
  end.
(** The code recurses through the containers; [fuel] bounds their nesting. *)
Fixpoint copy_value (fuel : nat) (v : ValueImpl) : vm ValueImpl :=
  match fuel with
  | O => panic
  | S fuel =>
      match v with
      | Invalid => mret Invalid
      | Prim p => mret (Prim p)
      | VContainerRef r => r ← ref_copy_value r; mret (VContainerRef r)
      | VIndexedRef r => r ← indexed_copy_value r; mret (VIndexedRef r)
      | VContainer c => c ← container_copy_with (copy_value fuel) c; mret (VContainer c)
      end
  end.
Definition container_copy_value (fuel : nat) : Container → vm Container := container_copy_with (copy_value fuel).

(** ** Equality ([equals]) *)

Definition container (r : ContainerRef) : Container := match r with Local c | Global _ c => c end.

(** [for (v1, v2) in l.iter().zip(r.iter()) { if !v1.equals(v2)? { return Ok(false) } }] *)
Fixpoint all_equal (eq : ValueImpl → ValueImpl → vm bool) (l r : list ValueImpl) : vm bool :=
  match l, r with
  | v1 :: l, v2 :: r => b ← eq v1 v2; if (b : bool) then all_equal eq l r else mret false
  | _, _ => mret true
  end.
Definition vals_equal (eq : ValueImpl → ValueImpl → vm bool) (l r : rc) : vm bool :=
  l ← get_vals l; r ← get_vals r; if (length l =? length r)%nat then all_equal eq l r else mret false.
Definition container_equals (eq : ValueImpl → ValueImpl → vm bool) (l r : Container) : vm bool :=
  match l, r with
  | Vec l, Vec r | Struct l, Struct r => vals_equal eq l r
  | VecPrim k l, VecPrim k' r =>
      if decide (k = k') then l ← get_prims l; r ← get_prims r; mret (bool_decide (l = r)) else throw INTERNAL_TYPE_ERROR
  | _, _ => throw INTERNAL_TYPE_ERROR
  end.
Definition ref_equals (eq : ValueImpl → ValueImpl → vm bool) (l r : ContainerRef) : vm bool := container_equals eq (container l) (container r).

(** [as_value_ref] *)
Definition as_value_ref (k : prim_ty) (v : ValueImpl) : vm prim :=
  match v with Prim p => if decide (prim_tag p = k) then mret p else throw INTERNAL_TYPE_ERROR | _ => throw INTERNAL_TYPE_ERROR end.
Definition val_at (l : rc) (i : nat) : vm ValueImpl := vs ← get_vals l; try_get (vs !! i).
Definition prim_at (l : rc) (i : nat) : vm prim := ps ← get_prims l; try_get (ps !! i).
Definition indexed_equals (eq : ValueImpl → ValueImpl → vm bool) (l r : IndexedRef) : vm bool :=
  match container (ir_ref l), container (ir_ref r) with
  | (Vec r1 | Struct r1 | Locals r1), (Vec r2 | Struct r2 | Locals r2) => v1 ← val_at r1 (ir_idx l); v2 ← val_at r2 (ir_idx r); eq v1 v2
  | VecPrim k r1, VecPrim k' r2 =>
      if decide (k = k') then p1 ← prim_at r1 (ir_idx l); p2 ← prim_at r2 (ir_idx r); mret (bool_decide (p1 = p2))
      else throw INTERNAL_TYPE_ERROR
  | (Locals r1 | Struct r1), VecPrim k r2 =>
      v1 ← val_at r1 (ir_idx l); p1 ← as_value_ref k v1; p2 ← prim_at r2 (ir_idx r); mret (bool_decide (p1 = p2))
  | VecPrim k r1, (Locals r2 | Struct r2) =>
      p1 ← prim_at r1 (ir_idx l); v2 ← val_at r2 (ir_idx r); p2 ← as_value_ref k v2; mret (bool_decide (p1 = p2))
  | _, _ => throw INTERNAL_TYPE_ERROR
  end.
Fixpoint equals (fuel : nat) (l r : ValueImpl) : vm bool :=
  match fuel with
  | O => panic
  | S fuel =>
      match l, r with
      | Prim p, Prim q => if decide (prim_tag p = prim_tag q) then mret (bool_decide (p = q)) else throw INTERNAL_TYPE_ERROR
      | VContainer l, VContainer r => container_equals (equals fuel) l r
      | VContainerRef l, VContainerRef r => ref_equals (equals fuel) l r
      | VIndexedRef l, VIndexedRef r => indexed_equals (equals fuel) l r
      | _, _ => throw INTERNAL_TYPE_ERROR
      end
  end.

(** ** References ([read_ref], [write_ref], [borrow_elem]) *)

Inductive Reference := RContainer (r : ContainerRef) | RIndexed (r : IndexedRef).
(** [VMValueCast<Reference>] *)
Definition cast_reference (v : ValueImpl) : vm Reference :=
  match v with
  | VContainerRef r => mret (RContainer r)
  | VIndexedRef r => mret (RIndexed r)
  | v => finally (throw INTERNAL_TYPE_ERROR) (handles v)
  end.

Definition read_ref (fuel : nat) (r : Reference) : vm ValueImpl :=
  match r with
  | RContainer r => finally (c ← container_copy_value fuel (container r); mret (VContainer c)) (ref_handles r)
  | RIndexed r =>
      finally (match container (ir_ref r) with
               | Locals l | Vec l | Struct l => v ← val_at l (ir_idx r); copy_value fuel v
               | VecPrim _ l => p ← prim_at l (ir_idx r); mret (Prim p)
               end) (ref_handles (ir_ref r))
  end.

Definition mark_dirty (r : ContainerRef) : vm unit := match r with Global s _ => rc_set s (CStatus Dirty) | Local _ => mret tt end.

(** [*r1.borrow_mut() = take_unique_ownership(r)?] *)
Definition assign (l r : rc) : vm unit := c ← take_unique_ownership r; old ← rc_get l; rc_set l c ;; drop_all (cell_handles old).
Definition ref_write (r : ContainerRef) (v : ValueImpl) : vm unit :=
  match v with
  | VContainer c =>
      match container r, c with
      | Struct l, Struct c | Vec l, Vec c => assign l c ;; mark_dirty r
      | VecPrim k l, VecPrim k' c' =>
          if decide (k = k') then assign l c' ;; mark_dirty r else finally (throw UNKNOWN_INVARIANT_VIOLATION_ERROR) (handles v)
      | _, _ => finally (throw UNKNOWN_INVARIANT_VIOLATION_ERROR) (handles v)
      end
  | _ => finally (throw UNKNOWN_INVARIANT_VIOLATION_ERROR) (handles v)
  end.
Definition indexed_write (r : IndexedRef) (x : ValueImpl) : vm unit :=
  match x with
  | Prim p =>
      match container (ir_ref r) with
      | Locals l | Vec l | Struct l =>
          vs ← get_vals l; old ← try_get (vs !! ir_idx r);
          rc_set l (CVals (<[ir_idx r := Prim p]> vs)) ;; drop_all (handles old)
      | VecPrim k l =>
          if decide (prim_tag p = k) then ps ← get_prims l; try_get (ps !! ir_idx r) ;; rc_set l (CPrims (<[ir_idx r := p]> ps))
          else throw INTERNAL_TYPE_ERROR
      end ;;
      mark_dirty (ir_ref r)
  | _ => finally (throw UNKNOWN_INVARIANT_VIOLATION_ERROR) (handles x)
  end.
Definition write_ref (r : Reference) (x : ValueImpl) : vm unit :=
  match r with
  | RContainer r => finally (ref_write r x) (ref_handles r)
  | RIndexed r => finally (indexed_write r x) (ref_handles (ir_ref r))
  end.

Definition borrow_elem (r : ContainerRef) (idx : nat) : vm ValueImpl :=
  match container r with
  | Locals l | Vec l | Struct l =>
      vs ← get_vals l;
      match vs !! idx with
      | None => throw UNKNOWN_INVARIANT_VIOLATION_ERROR
      | Some (VContainer c) =>
          match r with
          | Local _ => c ← copy_by_ref c; mret (VContainerRef (Local c))
          | Global s _ => rc_clone s ;; c ← copy_by_ref c; mret (VContainerRef (Global s c))
          end
      | Some _ => r ← ref_copy_value r; mret (VIndexedRef (mkIndexedRef idx r))
      end
  | VecPrim _ l =>
      ps ← get_prims l;
      if (length ps <=? idx)%nat then throw UNKNOWN_INVARIANT_VIOLATION_ERROR
      else r ← ref_copy_value r; mret (VIndexedRef (mkIndexedRef idx r))
  end.
Definition borrow_field : ContainerRef → nat → vm ValueImpl := borrow_elem.

(** ** Locals *)

Definition locals_new (n : nat) : vm rc := rc_new (CVals (replicate n Invalid)).
Definition borrow_loc (self : rc) (idx : nat) : vm ValueImpl :=
  vs ← get_vals self;
  match vs !! idx with
  | None => throw UNKNOWN_INVARIANT_VIOLATION_ERROR
  | Some (VContainer c) => c ← copy_by_ref c; mret (VContainerRef (Local c))
  | Some (Prim _) => rc_clone self ;; mret (VIndexedRef (mkIndexedRef idx (Local (Locals self))))
  | Some _ => throw UNKNOWN_INVARIANT_VIOLATION_ERROR
  end.
Definition copy_loc (fuel : nat) (self : rc) (idx : nat) : vm ValueImpl :=
  vs ← get_vals self;
  match vs !! idx with
  | Some Invalid => throw UNKNOWN_INVARIANT_VIOLATION_ERROR
  | Some v => copy_value fuel v
  | None => throw VERIFIER_INVARIANT_VIOLATION
  end.
Definition swap_loc (self : rc) (idx : nat) (x : ValueImpl) : vm ValueImpl :=
  vs ← get_vals self;
  match vs !! idx with
  | None => finally (throw VERIFIER_INVARIANT_VIOLATION) (handles x)
  | Some v =>
      n ← match v with VContainer c => strong_count (rc_of c) | _ => mret 1%nat end;
      if (1 <? n)%nat then finally (throw UNKNOWN_INVARIANT_VIOLATION_ERROR) (handles x)
      else rc_set self (CVals (<[idx := x]> vs)) ;; mret v
  end.
Definition move_loc (self : rc) (idx : nat) : vm ValueImpl :=
  v ← swap_loc self idx Invalid; match v with Invalid => throw UNKNOWN_INVARIANT_VIOLATION_ERROR | v => mret v end.
Definition store_loc (self : rc) (idx : nat) (x : ValueImpl) : vm unit := v ← swap_loc self idx x; drop_all (handles v).
Definition is_invalid (self : rc) (idx : nat) : vm bool :=
  vs ← get_vals self;
  match vs !! idx with Some Invalid => mret true | Some _ => mret false | None => throw VERIFIER_INVARIANT_VIOLATION end.

(** ** Structs *)

Definition pack (fields : list ValueImpl) : vm ValueImpl := l ← rc_new (CVals fields); mret (VContainer (Struct l)).
Definition unpack (v : ValueImpl) : vm (list ValueImpl) :=
  match v with
  | VContainer (Struct r) => c ← take_unique_ownership r; match c with CVals vs => mret vs | _ => panic end
  | v => finally (throw INTERNAL_TYPE_ERROR) (handles v)
  end.

(** ** Global values *)

Inductive GlobalValue := GNone | GFresh (fields : rc) | GCached (fields status : rc) | GDeleted.
Inductive Op := OpNew (v : ValueImpl) | OpModify (v : ValueImpl) | OpDelete.
Definition gv_handles (g : GlobalValue) : list rc :=
  match g with GNone | GDeleted => [] | GFresh f => [f] | GCached f s => [f; s] end.

(** [cached] and [fresh]; the value that cannot be stored comes back with the error. *)
Definition cached (v : ValueImpl) (status : GlobalDataStatus) : vm (GlobalValue + StatusCode * ValueImpl) :=
  match v with
  | VContainer (Struct f) => s ← rc_new (CStatus status); mret (inl (GCached f s))
  | v => mret (inr (UNKNOWN_INVARIANT_VIOLATION_ERROR, v))
  end.
Definition fresh_value (v : ValueImpl) : GlobalValue + StatusCode * ValueImpl :=
  match v with VContainer (Struct f) => inl (GFresh f) | v => inr (UNKNOWN_INVARIANT_VIOLATION_ERROR, v) end.

(** Operations on [&mut self] return the slot they leave, with their result. *)
Definition move_from (g : GlobalValue) : vm (GlobalValue * (ValueImpl + StatusCode)) :=
  let unique fields g :=
    n ← strong_count fields;
    if (n =? 1)%nat then mret (g, inl (VContainer (Struct fields)))
    else drop_all [fields] ;; mret (g, inr UNKNOWN_INVARIANT_VIOLATION_ERROR) in
  match g with
  | GNone | GDeleted => mret (g, inr MISSING_DATA)
  | GFresh f => unique f GNone
  | GCached f s => drop_all [s] ;; unique f GDeleted
  end.
Definition move_to (g : GlobalValue) (v : ValueImpl) : vm (GlobalValue * option (StatusCode * ValueImpl)) :=
  match g with
  | GFresh _ | GCached _ _ => mret (g, Some (RESOURCE_ALREADY_EXISTS, v))
  | GNone => mret (match fresh_value v with inl g => (g, None) | inr e => (GNone, Some e) end)
  | GDeleted => r ← cached v Dirty; mret (match r with inl g => (g, None) | inr e => (GDeleted, Some e) end)
  end.
Definition gv_exists (g : GlobalValue) : bool := match g with GFresh _ | GCached _ _ => true | GNone | GDeleted => false end.
Definition borrow_global (g : GlobalValue) : vm ValueImpl :=
  match g with
  | GNone | GDeleted => throw MISSING_DATA
  | GFresh f => rc_clone f ;; mret (VContainerRef (Local (Struct f)))
  | GCached f s => rc_clone f ;; rc_clone s ;; mret (VContainerRef (Global s (Struct f)))
  end.
(** [gv.clone().into_effect()] *)
Definition into_effect (g : GlobalValue) : vm (option Op) :=
  match g with
  | GNone => mret None
  | GDeleted => mret (Some OpDelete)
  | GFresh f => mret (Some (OpNew (VContainer (Struct f))))
  | GCached f s =>
      c ← rc_get s;
      match c with
      | CStatus Dirty => drop_all [s] ;; mret (Some (OpModify (VContainer (Struct f))))
      | CStatus Clean => drop_all [f; s] ;; mret None
      | _ => panic
      end
  end.
Definition is_mutated (g : GlobalValue) : vm bool :=
  match g with
  | GNone => mret false
  | GDeleted | GFresh _ => mret true
  | GCached _ s => c ← rc_get s; match c with CStatus Dirty => mret true | CStatus Clean => mret false | _ => panic end
  end.
Fixpoint clone_handles (ls : list rc) : vm unit := match ls with [] => mret tt | l :: ls => rc_clone l ;; clone_handles ls end.
Definition gv_clone (g : GlobalValue) : vm GlobalValue := clone_handles (gv_handles g) ;; mret g.
(** The derived [Clone] of values copies the pointers. *)
Definition value_clone (v : ValueImpl) : vm ValueImpl := clone_handles (handles v) ;; mret v.
