(* ===== verification/MoveOps.v ===== *)
(** * Move integers and vectors ([values_impl.rs], [loaded_data/runtime_types.rs] of
    [src/externals/move/language/move-vm/types/src]) *)
From S2P Require Import Prelude MoveValues.
#[local] Open Scope Z_scope.

(** ** Types *)

Inductive Type_ :=
  TyPrim (k : prim_ty) | TySigner | TyVector (t : Type_) | TyStruct (idx : nat) | TyStructInstantiation (idx : nat) (ts : list Type_)
| TyReference (t : Type_) | TyMutableReference (t : Type_) | TyParam (i : nat).

(** Types are keys of the resources, so they are encoded as trees. *)
Definition prim_ty_code (k : prim_ty) : nat :=
  match k with TU8 => 0 | TU16 => 1 | TU32 => 2 | TU64 => 3 | TU128 => 4 | TU256 => 5 | TBool => 6 | TAddress => 7 end.
Definition prim_ty_decode (n : nat) : prim_ty :=
  match n with 0 => TU8 | 1 => TU16 | 2 => TU32 | 3 => TU64 | 4 => TU128 | 5 => TU256 | 6 => TBool | _ => TAddress end%nat.
Fixpoint type_encode (t : Type_) : gen_tree nat :=
  match t with
  | TyPrim k => GenNode 0 [GenLeaf (prim_ty_code k)]
  | TySigner => GenNode 1 []
  | TyVector t => GenNode 2 [type_encode t]
  | TyStruct i => GenNode 3 [GenLeaf i]
  | TyStructInstantiation i ts => GenNode 4 (GenLeaf i :: map type_encode ts)
  | TyReference t => GenNode 5 [type_encode t]
  | TyMutableReference t => GenNode 6 [type_encode t]
  | TyParam i => GenNode 7 [GenLeaf i]
  end.
Fixpoint type_decode (g : gen_tree nat) : Type_ :=
  match g with
  | GenNode 0 [GenLeaf k] => TyPrim (prim_ty_decode k)
  | GenNode 2 [t] => TyVector (type_decode t)
  | GenNode 3 [GenLeaf i] => TyStruct i
  | GenNode 4 (GenLeaf i :: ts) => TyStructInstantiation i (map type_decode ts)
  | GenNode 5 [t] => TyReference (type_decode t)
  | GenNode 6 [t] => TyMutableReference (type_decode t)
  | GenNode 7 [GenLeaf i] => TyParam i
  | _ => TySigner
  end.
Fixpoint type_decode_encode (t : Type_) : type_decode (type_encode t) = t.
Proof.
  destruct t as [[]| | | |i ts| | |]; cbn; try reflexivity; try (f_equal; apply type_decode_encode).
  f_equal. induction ts as [|t ts IH]; [reflexivity|]. cbn. f_equal; [apply type_decode_encode|apply IH].
Defined.
#[export] Instance type_encode_inj : Inj (=) (=) type_encode.
Proof. intros a b E. rewrite <- (type_decode_encode a), E. apply type_decode_encode. Qed.
#[export] Instance type_eq_dec : EqDecision Type_ := inj_eq_dec type_encode.
#[export] Instance type_countable : Countable Type_ := inj_countable' type_encode type_decode type_decode_encode.

(** ** Integers *)

Inductive IntegerValue := mkInt (k : prim_ty) (x : Z).
(** The width of an integer type *)
Definition bits (k : prim_ty) : option Z :=
  match k with TU8 => Some 8 | TU16 => Some 16 | TU32 => Some 32 | TU64 => Some 64 | TU128 => Some 128 | TU256 => Some 256 | _ => None end.
Definition prim_of_int (k : prim_ty) (x : Z) : prim :=
  match k with
  | TU8 => U8 x | TU16 => U16 x | TU32 => U32 x | TU64 => U64 x | TU128 => U128 x | TU256 => U256 x
  | TBool => Bool (negb (x =? 0)) | TAddress => Address x
  end.
Definition into_value (i : IntegerValue) : ValueImpl := let 'mkInt k x := i in Prim (prim_of_int k x).
(** [VMValueCast<IntegerValue>] *)
Definition int_of_prim (p : prim) : option IntegerValue :=
  match p with
  | U8 x => Some (mkInt TU8 x) | U16 x => Some (mkInt TU16 x) | U32 x => Some (mkInt TU32 x)
  | U64 x => Some (mkInt TU64 x) | U128 x => Some (mkInt TU128 x) | U256 x => Some (mkInt TU256 x)
  | _ => None
  end.

Definition fails (A : Type) : Type := A + StatusCode.
(** Operations on two integers of one type: [f] gets the width *)
Definition same_type {A} (f : prim_ty → Z → Z → Z → fails A) (l r : IntegerValue) : fails A :=
  let '(mkInt k x) := l in let '(mkInt k' y) := r in
  match bits k with
  | Some w => if decide (k = k') then f k w x y else inr INTERNAL_TYPE_ERROR
  | None => inr INTERNAL_TYPE_ERROR
  end.
(** [ok_or_else(ARITHMETIC_ERROR)] of a result that must fit the width *)
Definition checked (k : prim_ty) (w v : Z) : fails IntegerValue :=
  if (0 <=? v) && (v <? 2 ^ w) then inl (mkInt k v) else inr ARITHMETIC_ERROR.
Definition add_checked := same_type (λ k w x y, checked k w (x + y)).
Definition sub_checked := same_type (λ k w x y, checked k w (x - y)).
Definition mul_checked := same_type (λ k w x y, checked k w (x * y)).
Definition div_checked := same_type (λ k w x y, if y =? 0 then inr ARITHMETIC_ERROR else checked k w (x / y)).
Definition rem_checked := same_type (λ k w x y, if y =? 0 then inr ARITHMETIC_ERROR else checked k w (x mod y)).
Definition bit_or := same_type (λ k _ x y, inl (mkInt k (Z.lor x y))).
Definition bit_and := same_type (λ k _ x y, inl (mkInt k (Z.land x y))).
Definition bit_xor := same_type (λ k _ x y, inl (mkInt k (Z.lxor x y))).
Definition int_lt := same_type (λ _ _ x y, inl (x <? y)).
Definition int_le := same_type (λ _ _ x y, inl (x <=? y)).
Definition int_gt := same_type (λ _ _ x y, inl (y <? x)).
Definition int_ge := same_type (λ _ _ x y, inl (y <=? x)).
(** Shifts by a [u8]; a [U256] has room for every such shift. *)
Definition shl_checked (l : IntegerValue) (n_bits : Z) : fails IntegerValue :=
  let '(mkInt k x) := l in
  match bits k with
  | Some w => if w <=? n_bits then inr ARITHMETIC_ERROR else inl (mkInt k (Z.shiftl x n_bits mod 2 ^ w))
  | None => inr INTERNAL_TYPE_ERROR
  end.
Definition shr_checked (l : IntegerValue) (n_bits : Z) : fails IntegerValue :=
  let '(mkInt k x) := l in
  match bits k with
  | Some w => if w <=? n_bits then inr ARITHMETIC_ERROR else inl (mkInt k (Z.shiftr x n_bits))
  | None => inr INTERNAL_TYPE_ERROR
  end.
(** [cast_u8] to [cast_u256] *)
Definition cast_int (k : prim_ty) (i : IntegerValue) : fails Z :=
  let '(mkInt _ x) := i in
  match bits k with Some w => if 2 ^ w - 1 <? x then inr ARITHMETIC_ERROR else inl x | None => inr INTERNAL_TYPE_ERROR end.

Definition lift_fails {A} (r : fails A) : vm A := match r with inl a => mret a | inr e => throw e end.

(** ** Casts of values ([VMValueCast]); a value of another kind is dropped *)

Definition bad_cast {A} (v : ValueImpl) : vm A := finally (throw INTERNAL_TYPE_ERROR) (handles v).
Definition value_as_prim (k : prim_ty) (v : ValueImpl) : vm prim :=
  match v with Prim p => if decide (prim_tag p = k) then mret p else bad_cast v | _ => bad_cast v end.
Definition value_as_int (v : ValueImpl) : vm IntegerValue :=
  match v with Prim p => match int_of_prim p with Some i => mret i | None => bad_cast v end | _ => bad_cast v end.
Definition value_as_bool (v : ValueImpl) : vm bool := match v with Prim (Bool b) => mret b | _ => bad_cast v end.
Definition value_as_address (v : ValueImpl) : vm Z := match v with Prim (Address a) => mret a | _ => bad_cast v end.
Definition value_as_num (k : prim_ty) (v : ValueImpl) : vm Z :=
  match v with
  | Prim p => match int_of_prim p with Some (mkInt k' x) => if decide (k' = k) then mret x else bad_cast v | None => bad_cast v end
  | _ => bad_cast v
  end.
(** [StructRef] and [VectorRef] *)
Definition value_as_container_ref (v : ValueImpl) : vm ContainerRef := match v with VContainerRef r => mret r | _ => bad_cast v end.
Definition value_as_vector (v : ValueImpl) : vm Container := match v with VContainer c => mret c | _ => bad_cast v end.

(** ** Vectors *)

(** [check_elem_layout] *)
Definition check_elem_layout (ty : Type_) (c : Container) : bool :=
  match ty, c with
  | TyPrim k, VecPrim k' _ => bool_decide (k = k')
  | TySigner, (Struct _ | Vec _) => true
  | (TyVector _ | TyStruct _ | TyStructInstantiation _ _), Vec _ => true
  | _, _ => false
  end.
Definition checking {A} (ty : Type_) (c : Container) (m : vm A) : vm A :=
  if check_elem_layout ty c then m else throw UNKNOWN_INVARIANT_VIOLATION_ERROR.

(** The methods of [VectorRef]; a struct that passed the check is [unreachable!()]. *)
Definition vec_len (r : ContainerRef) (ty : Type_) : vm ValueImpl :=
  checking ty (container r) (
    match container r with
    | VecPrim _ l => ps ← get_prims l; mret (Prim (U64 (Z.of_nat (length ps))))
    | Vec l => vs ← get_vals l; mret (Prim (U64 (Z.of_nat (length vs))))
    | _ => panic
    end).
Definition vec_push_back (r : ContainerRef) (e : ValueImpl) (ty : Type_) : vm unit :=
  if check_elem_layout ty (container r) then
    match container r with
    | VecPrim k l => p ← value_as_prim k e; ps ← get_prims l; rc_set l (CPrims (ps ++ [p]))
    | Vec l => vs ← get_vals l; rc_set l (CVals (vs ++ [e]))
    | _ => panic
    end ;; mark_dirty r
  else finally (throw UNKNOWN_INVARIANT_VIOLATION_ERROR) (handles e).
Definition container_len (c : Container) : vm nat :=
  match c with
  | Locals l | Struct l | Vec l => vs ← get_vals l; mret (length vs)
  | VecPrim _ l => ps ← get_prims l; mret (length ps)
  end.
Definition vec_borrow_elem (r : ContainerRef) (idx : nat) (ty : Type_) : vm ValueImpl :=
  checking ty (container r) (
    n ← container_len (container r);
    if (n <=? idx)%nat then throw VECTOR_OPERATION_ERROR else borrow_elem r idx).
Definition vec_pop (r : ContainerRef) (ty : Type_) : vm ValueImpl :=
  checking ty (container r) (
    v ← match container r with
        | VecPrim _ l =>
            ps ← get_prims l;
            match last ps with
            | Some p => rc_set l (CPrims (take (length ps - 1) ps)) ;; mret (Prim p)
            | None => throw VECTOR_OPERATION_ERROR
            end
        | Vec l =>
            vs ← get_vals l;
            match last vs with
            | Some v => rc_set l (CVals (take (length vs - 1) vs)) ;; mret v
            | None => throw VECTOR_OPERATION_ERROR
            end
        | _ => panic
        end;
    mark_dirty r ;; mret v).
(** [Vec::swap] *)
Definition swap_at {A} (i j : nat) (l : list A) : option (list A) := x ← l !! i; y ← l !! j; Some (<[j := x]> (<[i := y]> l)).
Definition vec_swap (r : ContainerRef) (i j : nat) (ty : Type_) : vm unit :=
  checking ty (container r) (
    match container r with
    | VecPrim _ l =>
        ps ← get_prims l;
        match swap_at i j ps with Some ps => rc_set l (CPrims ps) | None => throw VECTOR_OPERATION_ERROR end
    | Vec l =>
        vs ← get_vals l;
        match swap_at i j vs with Some vs => rc_set l (CVals vs) | None => throw VECTOR_OPERATION_ERROR end
    | _ => panic
    end ;; mark_dirty r).

(** [into_iter().map(value_as).collect()]: the first value of another type drops it and the rest. *)
Fixpoint prims_of (k : prim_ty) (vs : list ValueImpl) : vm (list prim) :=
  match vs with
  | [] => mret []
  | v :: vs =>
      match v with
      | Prim p => if decide (prim_tag p = k) then ps ← prims_of k vs; mret (p :: ps) else finally (bad_cast v) (concat (map handles vs))
      | _ => finally (bad_cast v) (concat (map handles vs))
      end
  end.
Definition vec_pack (ty : Type_) (elements : list ValueImpl) : vm ValueImpl :=
  match ty with
  | TyPrim k => ps ← prims_of k elements; l ← rc_new (CPrims ps); mret (VContainer (VecPrim k l))
  | TySigner | TyVector _ | TyStruct _ | TyStructInstantiation _ _ => l ← rc_new (CVals elements); mret (VContainer (Vec l))
  | TyReference _ | TyMutableReference _ | TyParam _ =>
      finally (throw UNKNOWN_INVARIANT_VIOLATION_ERROR) (concat (map handles elements))
  end.
Definition vec_unpack (c : Container) (ty : Type_) (expected_num : nat) : vm (list ValueImpl) :=
  if check_elem_layout ty c then
    elements ← match c with
               | VecPrim _ l => c ← take_unique_ownership l; match c with CPrims ps => mret (map Prim ps) | _ => panic end
               | Vec l => c ← take_unique_ownership l; match c with CVals vs => mret vs | _ => panic end
               | _ => panic
               end;
    if decide (expected_num = length elements) then mret elements
    else finally (throw VECTOR_OPERATION_ERROR) (concat (map handles elements))
  else finally (throw UNKNOWN_INVARIANT_VIOLATION_ERROR) [rc_of c].
