(* ===== verification/MoveInterp.v ===== *)
(** * The Move back end ([src/src/move], [move-vm/runtime/src/interpreter.rs])

    [MoveVMState] keeps the resources of accounts and the slots of those a transaction has
    touched; [MoveVM::execute] runs one frame of the Move interpreter on a clone of the state
    of an input.  The interpreter is the one the back end uses: without metering and without
    the checks of the paranoid mode. *)
From S2P Require Import Prelude MoveValues MoveOps.
#[local] Open Scope Z_scope.

(** ** The state ([vm_state.rs]) *)

Record MoveVMState := mkMoveVMState {
  resources : gmap Z (gmap Type_ ValueImpl);
  _gv_slot : gmap (Z * Type_) GlobalValue
}.
Definition MoveVMState_new : MoveVMState := mkMoveVMState ∅ ∅.

Definition resource (s : MoveVMState) (addr : Z) (ty : Type_) : option ValueImpl := m ← resources s !! addr; m !! ty.
Definition all_resources (s : MoveVMState) : list ValueImpl :=
  concat (map (λ am, map snd (map_to_list (snd am))) (map_to_list (resources s))).

(** [MoveVMState::clone] *)
Definition state_clone (s : MoveVMState) : vm MoveVMState :=
  if decide (_gv_slot s = ∅) then clone_handles (concat (map handles (all_resources s))) ;; mret (mkMoveVMState (resources s) ∅) else panic.

(** [entry(addr).or_insert(HashMap::new())] *)
Definition at_account (s : MoveVMState) (addr : Z) : gmap Type_ ValueImpl := default ∅ (resources s !! addr).
Definition put_resource (s : MoveVMState) (addr : Z) (ty : Type_) (v : ValueImpl) : vm MoveVMState :=
  drop_all (from_option handles [] (at_account s addr !! ty)) ;;
  mret (mkMoveVMState (<[addr := <[ty := v]> (at_account s addr)]> (resources s)) (_gv_slot s)).
Definition remove_resource (s : MoveVMState) (addr : Z) (ty : Type_) : vm MoveVMState :=
  drop_all (from_option handles [] (at_account s addr !! ty)) ;;
  mret (mkMoveVMState (<[addr := delete ty (at_account s addr)]> (resources s)) (_gv_slot s)).
Definition commit_slot (s : MoveVMState) (slot : Z * Type_ * GlobalValue) : vm MoveVMState :=
  let '(addr, ty, gv) := slot in
  gv ← gv_clone gv;
  op ← into_effect gv;
  match op with
  | None => mret s
  | Some (OpNew v) | Some (OpModify v) => v' ← value_clone v; s ← put_resource s addr ty v'; drop_all (handles v) ;; mret s
  | Some OpDelete => remove_resource s addr ty
  end.
Fixpoint commit_slots (s : MoveVMState) (slots : list (Z * Type_ * GlobalValue)) : vm MoveVMState :=
  match slots with [] => mret s | slot :: slots => s ← commit_slot s slot; commit_slots s slots end.
(** [MoveVMState::commit] *)
Definition commit (s : MoveVMState) : vm MoveVMState :=
  s' ← commit_slots s (map_to_list (_gv_slot s));
  drop_all (concat (map (λ x, gv_handles (snd x)) (map_to_list (_gv_slot s)))) ;;
  mret (mkMoveVMState (resources s') ∅).

(** [MoveVMState::load_resource]: the slot that holds the resource *)
Definition load_resource (s : MoveVMState) (addr : Z) (ty : Type_) : vm (MoveVMState * GlobalValue) :=
  data ← try_get (resource s addr ty);
  v ← value_clone data;
  g ← cached v Clean;
  match g with
  | inl g =>
      drop_all (from_option gv_handles [] (_gv_slot s !! (addr, ty))) ;;
      mret (mkMoveVMState (resources s) (<[(addr, ty) := g]> (_gv_slot s)), g)
  | inr _ => panic
  end.

(** ** The interpreter *)

(** The store, the data store, the operand stack, and the program counter and locals of the frame *)
Record Machine := mkMachine { m_heap : heap; m_state : MoveVMState; operand_stack : list ValueImpl; m_pc : nat; m_locals : rc }.
Definition mach (A : Type) : Type := Machine → result A * Machine.
#[export] Instance mach_ret : MRet mach := λ A a m, (Done a, m).
#[export] Instance mach_bind : MBind mach := λ A B f x m,
  match x m with (Done a, m) => f a m | (Err e, m) => (Err e, m) | (Panics, m) => (Panics, m) end.
Definition on_heap {A} (x : vm A) : mach A := λ m,
  let '(r, h) := x (m_heap m) in (r, mkMachine h (m_state m) (operand_stack m) (m_pc m) (m_locals m)).
Definition set_state (s : MoveVMState) : mach unit := λ m, (Done tt, mkMachine (m_heap m) s (operand_stack m) (m_pc m) (m_locals m)).
Definition set_stack (l : list ValueImpl) : mach unit := λ m, (Done tt, mkMachine (m_heap m) (m_state m) l (m_pc m) (m_locals m)).
Definition set_pc (pc : nat) : mach unit := λ m, (Done tt, mkMachine (m_heap m) (m_state m) (operand_stack m) pc (m_locals m)).
Definition get_m {A} (f : Machine → A) : mach A := λ m, (Done (f m), m).
Definition owning_m {A} (x : mach A) (ls : list rc) : mach A := λ m, match x m with (Err e, m) => on_heap (owning (throw e) ls) m | r => r end.
Definition throw_m {A} (e : StatusCode) : mach A := on_heap (throw e).

Definition OPERAND_STACK_SIZE_LIMIT : nat := 1024.
(** [Stack::push], [pop], [popn]; the top of the stack is the head of the list. *)
Definition push (v : ValueImpl) : mach unit :=
  l ← get_m operand_stack;
  if (length l <? OPERAND_STACK_SIZE_LIMIT)%nat then set_stack (v :: l) else on_heap (finally (throw EXECUTION_STACK_OVERFLOW) (handles v)).
Definition pop : mach ValueImpl :=
  l ← get_m operand_stack; match l with v :: l => set_stack l ;; mret v | [] => throw_m EMPTY_VALUE_STACK end.
Definition popn (n : nat) : mach (list ValueImpl) :=
  l ← get_m operand_stack;
  if (length l <? n)%nat then throw_m EMPTY_VALUE_STACK else set_stack (drop n l) ;; mret (rev (take n l)).
Definition pop_as {A} (cast : ValueImpl → vm A) : mach A := v ← pop; on_heap (cast v).
(** Values pushed one by one; those that do not fit are dropped. *)
Fixpoint push_all (vs : list ValueImpl) : mach unit :=
  match vs with
  | [] => mret tt
  | v :: vs' =>
      l ← get_m operand_stack;
      if (length l <? OPERAND_STACK_SIZE_LIMIT)%nat then set_stack (v :: l) ;; push_all vs'
      else on_heap (finally (throw EXECUTION_STACK_OVERFLOW) (concat (map handles vs)))
  end.
Definition binop {A} (cast : ValueImpl → vm A) (f : A → A → fails ValueImpl) : mach unit :=
  rhs ← pop_as cast; lhs ← pop_as cast; v ← on_heap (lift_fails (f lhs rhs)); push v.
Definition into {A} (g : A → ValueImpl) (r : fails A) : fails ValueImpl := match r with inl a => inl (g a) | inr e => inr e end.
Definition of_bool (b : bool) : ValueImpl := Prim (Bool b).
Definition binop_int (f : IntegerValue → IntegerValue → fails IntegerValue) : mach unit := binop value_as_int (λ l r, into into_value (f l r)).
Definition binop_cmp (f : IntegerValue → IntegerValue → fails bool) : mach unit := binop value_as_int (λ l r, into of_bool (f l r)).
Definition binop_bool (f : bool → bool → bool) : mach unit := binop value_as_bool (λ l r, inl (of_bool (f l r))).

(** The four instructions on global storage *)
Definition loading (addr : Z) (ty : Type_) : mach GlobalValue :=
  s ← get_m m_state; '(s, g) ← on_heap (load_resource s addr ty); set_state s ;; mret g.
Definition set_slot (addr : Z) (ty : Type_) (g : GlobalValue) : mach unit :=
  s ← get_m m_state; set_state (mkMoveVMState (resources s) (<[(addr, ty) := g]> (_gv_slot s))).
Definition do_borrow_global (addr : Z) (ty : Type_) : mach unit := g ← loading addr ty; v ← on_heap (borrow_global g); push v.
Definition do_exists (addr : Z) (ty : Type_) : mach unit := g ← loading addr ty; push (of_bool (gv_exists g)).
Definition do_move_from (addr : Z) (ty : Type_) : mach unit :=
  g ← loading addr ty;
  '(g, r) ← on_heap (move_from g);
  set_slot addr ty g ;;
  match r with inl v => push v | inr e => throw_m e end.
Definition do_move_to (addr : Z) (ty : Type_) (resource : ValueImpl) : mach unit :=
  g ← loading addr ty;
  '(g, r) ← on_heap (move_to g resource);
  set_slot addr ty g ;;
  match r with None => mret tt | Some (e, v) => on_heap (finally (throw e) (handles v)) end.

(** ** Bytecode *)

Inductive Bytecode :=
  Pop | Ret | BrTrue (offset : nat) | BrFalse (offset : nat) | Branch (offset : nat)
| LdU8 (x : Z) | LdU16 (x : Z) | LdU32 (x : Z) | LdU64 (x : Z) | LdU128 (x : Z) | LdU256 (x : Z)
| LdConst (idx : nat) | LdTrue | LdFalse
| CopyLoc (idx : nat) | MoveLoc (idx : nat) | StLoc (idx : nat)
| Call (idx : nat) | CallGeneric (idx : nat)
| MutBorrowLoc (idx : nat) | ImmBorrowLoc (idx : nat)
| ImmBorrowField (idx : nat) | MutBorrowField (idx : nat) | ImmBorrowFieldGeneric (idx : nat) | MutBorrowFieldGeneric (idx : nat)
| Pack (idx : nat) | PackGeneric (idx : nat) | Unpack (idx : nat) | UnpackGeneric (idx : nat)
| ReadRef | WriteRef
| CastU8 | CastU16 | CastU32 | CastU64 | CastU128 | CastU256
| Add | Sub | Mul | Mod | Div | BitOr | BitAnd | Xor | Shl | Shr | Or | And | Not | Lt | Gt | Le | Ge | Eq | Neq
| Abort
| MutBorrowGlobal (idx : nat) | ImmBorrowGlobal (idx : nat) | MutBorrowGlobalGeneric (idx : nat) | ImmBorrowGlobalGeneric (idx : nat)
| Exists (idx : nat) | ExistsGeneric (idx : nat) | MoveFrom (idx : nat) | MoveFromGeneric (idx : nat)
| MoveTo (idx : nat) | MoveToGeneric (idx : nat)
| FreezeRef | Nop
| VecPack (si : nat) (num : Z) | VecLen (si : nat) | VecImmBorrow (si : nat) | VecMutBorrow (si : nat) | VecPushBack (si : nat)
| VecPopBack (si : nat) | VecUnpack (si : nat) (num : Z) | VecSwap (si : nat).

(** The tables of a module that the operands of instructions index, as the loader resolves them *)
Record Resolver := mkResolver {
  field_offset : nat → option nat;
  field_instantiation_offset : nat → option nat;
  field_count : nat → option nat;
  field_instantiation_count : nat → option nat;
  get_struct_type : nat → option Type_;
  instantiate_generic_type : nat → vm Type_;
  instantiate_single_type : nat → vm Type_;
  deserialize_constant : nat → vm (option ValueImpl)
}.

Inductive ExitCode := ExitReturn | ExitCall (idx : nat) | ExitCallGeneric (idx : nat).
(** What an instruction does to the control flow: on to the next, to an offset, or out of the frame *)
Inductive flow := Next | Jump (offset : nat) | Exit (c : ExitCode).

Section frame.
Context (fuel : nat) (resolver : Resolver).

Definition next (x : mach unit) : mach flow := x ;; mret Next.
Definition branch_if (b : bool) (offset : nat) : mach flow := c ← pop_as value_as_bool; mret (if bool_decide (c = b) then Jump offset else Next).
Definition cast_to (k : prim_ty) : mach unit := i ← pop_as value_as_int; x ← on_heap (lift_fails (cast_int k i)); push (Prim (prim_of_int k x)).
Definition shift (f : IntegerValue → Z → fails IntegerValue) : mach unit :=
  rhs ← pop_as (value_as_num TU8); lhs ← pop_as value_as_int; v ← on_heap (lift_fails (f lhs rhs)); push (into_value v).
Definition borrow_field_at (offset : option nat) : mach unit :=
  r ← pop_as value_as_container_ref;
  v ← on_heap (finally (offset ← try_get offset; borrow_field r offset) (ref_handles r));
  push v.
Definition do_pack (n : option nat) : mach unit := n ← on_heap (try_get n); args ← popn n; v ← on_heap (pack args); push v.
Definition do_unpack : mach unit := vs ← pop_as unpack; push_all vs.
Definition do_equals (f : bool → bool) : mach unit :=
  lhs ← pop; rhs ← pop; b ← on_heap (finally (equals fuel lhs rhs) (handles lhs ++ handles rhs)); push (of_bool (f b)).
Definition on_global (ty : vm Type_) (f : Z → Type_ → mach unit) : mach unit := addr ← pop_as value_as_address; ty ← on_heap ty; f addr ty.
(** The address of [&signer] *)
Definition signer_address (r : ContainerRef) : vm Z :=
  finally (v ← borrow_field r 0; r ← cast_reference v; v ← read_ref fuel r; value_as_address v) (ref_handles r).
Definition publish (ty : vm Type_) : mach unit :=
  resource ← pop;
  addr ← owning_m (r ← pop_as value_as_container_ref; on_heap (signer_address r)) (handles resource);
  ty ← on_heap (owning ty (handles resource));
  do_move_to addr ty resource.
(** An instruction on the vector a reference points to *)
Definition on_vector (si : nat) (f : ContainerRef → Type_ → vm ValueImpl) : mach unit :=
  r ← pop_as value_as_container_ref;
  v ← on_heap (finally (ty ← instantiate_single_type resolver si; f r ty) (ref_handles r));
  push v.
Definition usize_of (x : Z) : nat := Z.to_nat x.

(** The body of the loop of [execute_code_impl] *)
Definition execute_instruction (i : Bytecode) : mach flow :=
  match i with
  | Pop => next (v ← pop; on_heap (drop_all (handles v)))
  | Ret => mret (Exit ExitReturn)
  | BrTrue offset => branch_if true offset
  | BrFalse offset => branch_if false offset
  | Branch offset => mret (Jump offset)
  | LdU8 x => next (push (Prim (U8 x)))
  | LdU16 x => next (push (Prim (U16 x)))
  | LdU32 x => next (push (Prim (U32 x)))
  | LdU64 x => next (push (Prim (U64 x)))
  | LdU128 x => next (push (Prim (U128 x)))
  | LdU256 x => next (push (Prim (U256 x)))
  | LdConst idx =>
      next (v ← on_heap (deserialize_constant resolver idx); match v with Some v => push v | None => throw_m VERIFIER_INVARIANT_VIOLATION end)
  | LdTrue => next (push (of_bool true))
  | LdFalse => next (push (of_bool false))
  | CopyLoc idx => next (l ← get_m m_locals; v ← on_heap (copy_loc fuel l idx); push v)
  | MoveLoc idx => next (l ← get_m m_locals; v ← on_heap (move_loc l idx); push v)
  | StLoc idx => next (v ← pop; l ← get_m m_locals; on_heap (store_loc l idx v))
  | Call idx => mret (Exit (ExitCall idx))
  | CallGeneric idx => mret (Exit (ExitCallGeneric idx))
  | MutBorrowLoc idx | ImmBorrowLoc idx => next (l ← get_m m_locals; v ← on_heap (borrow_loc l idx); push v)
  | ImmBorrowField idx | MutBorrowField idx => next (borrow_field_at (field_offset resolver idx))
  | ImmBorrowFieldGeneric idx | MutBorrowFieldGeneric idx => next (borrow_field_at (field_instantiation_offset resolver idx))
  | Pack idx => next (do_pack (field_count resolver idx))
  | PackGeneric idx => next (do_pack (field_instantiation_count resolver idx))
  | Unpack _ | UnpackGeneric _ => next do_unpack
  | ReadRef => next (r ← pop_as cast_reference; v ← on_heap (read_ref fuel r); push v)
  | WriteRef =>
      next (r ← pop_as cast_reference;
            let dangling := match r with RContainer r => ref_handles r | RIndexed r => ref_handles (ir_ref r) end in
            v ← owning_m pop dangling;
            on_heap (write_ref r v))
  | CastU8 => next (cast_to TU8)
  | CastU16 => next (cast_to TU16)
  | CastU32 => next (cast_to TU32)
  | CastU64 => next (cast_to TU64)
  | CastU128 => next (cast_to TU128)
  | CastU256 => next (cast_to TU256)
  | Add => next (binop_int add_checked)
  | Sub => next (binop_int sub_checked)
  | Mul => next (binop_int mul_checked)
  | Mod => next (binop_int rem_checked)
  | Div => next (binop_int div_checked)
  | BitOr => next (binop_int bit_or)
  | BitAnd => next (binop_int bit_and)
  | Xor => next (binop_int bit_xor)
  | Shl => next (shift shl_checked)
  | Shr => next (shift shr_checked)
  | Or => next (binop_bool orb)
  | And => next (binop_bool andb)
  | Lt => next (binop_cmp int_lt)
  | Gt => next (binop_cmp int_gt)
  | Le => next (binop_cmp int_le)
  | Ge => next (binop_cmp int_ge)
  | Abort => pop_as (value_as_num TU64) ;; throw_m ABORTED
  | Eq => next (do_equals id)
  | Neq => next (do_equals negb)
  | MutBorrowGlobal idx | ImmBorrowGlobal idx => next (on_global (try_get (get_struct_type resolver idx)) do_borrow_global)
  | MutBorrowGlobalGeneric idx | ImmBorrowGlobalGeneric idx => next (on_global (instantiate_generic_type resolver idx) do_borrow_global)
  | Exists idx => next (on_global (try_get (get_struct_type resolver idx)) do_exists)
  | ExistsGeneric idx => next (on_global (instantiate_generic_type resolver idx) do_exists)
  | MoveFrom idx => next (on_global (try_get (get_struct_type resolver idx)) do_move_from)
  | MoveFromGeneric idx => next (on_global (instantiate_generic_type resolver idx) do_move_from)
  | MoveTo idx => next (publish (try_get (get_struct_type resolver idx)))
  | MoveToGeneric idx => next (publish (instantiate_generic_type resolver idx))
  | FreezeRef | Nop => mret Next
  | Not => next (b ← pop_as value_as_bool; push (of_bool (negb b)))
  | VecPack si num =>
      next (ty ← on_heap (instantiate_single_type resolver si);
            l ← get_m operand_stack;
            if (Z.of_nat (length l) <? num) then throw_m EMPTY_VALUE_STACK
            else args ← popn (Z.to_nat (num mod 2 ^ 16)); v ← on_heap (vec_pack ty args); push v)
  | VecLen si => next (on_vector si vec_len)
  | VecImmBorrow si | VecMutBorrow si =>
      next (idx ← pop_as (value_as_num TU64); on_vector si (λ r ty, vec_borrow_elem r (usize_of idx) ty))
  | VecPushBack si =>
      next (elem ← pop;
            r ← owning_m (pop_as value_as_container_ref) (handles elem);
            on_heap (finally (ty ← owning (instantiate_single_type resolver si) (handles elem); vec_push_back r elem ty) (ref_handles r)))
  | VecPopBack si => next (on_vector si vec_pop)
  | VecUnpack si num =>
      next (c ← pop_as value_as_vector;
            ty ← on_heap (owning (instantiate_single_type resolver si) [rc_of c]);
            vs ← on_heap (vec_unpack c ty (usize_of num));
            push_all vs)
  | VecSwap si =>
      next (idx2 ← pop_as (value_as_num TU64); idx1 ← pop_as (value_as_num TU64); r ← pop_as value_as_container_ref;
            on_heap (finally (ty ← instantiate_single_type resolver si; vec_swap r (usize_of idx1) (usize_of idx2) ty) (ref_handles r)))
  end.
End frame.

(** ** Frames *)

(** [execute_code]: the instructions from the program counter on.  Copies nest at most as deep as
    the store has cells; [None] is a frame that is still running after [steps] instructions. *)
Fixpoint execute_code (steps : nat) (resolver : Resolver) (code : list Bytecode) : mach (option ExitCode) :=
  match steps with
  | O => mret None
  | S steps =>
      pc ← get_m m_pc;
      match code !! pc with
      | None => throw_m PC_OVERFLOW
      | Some i =>
          fuel ← get_m (λ m, S (size (m_heap m)));
          f ← execute_instruction fuel resolver i;
          match f with
          | Next => set_pc (S pc) ;; execute_code steps resolver code
          | Jump offset => set_pc offset ;; execute_code steps resolver code
          | Exit c => mret (Some c)
          end
      end
  end.

(** ** Modules and inputs ([movevm.rs], [input.rs]) *)

Definition Identifier := list Ascii.ascii.
Definition ModuleId := (Z * Identifier)%type.
Record Function := mkFunction { f_name : Identifier; f_code : list Bytecode; f_local_count : nat }.
(** A definition names its handle; the handles of a module are those of its own functions and of
    the functions it calls.  [cm_tables] is what the loader makes of the other tables, if it can. *)
Record FunctionDefinition := mkFunctionDefinition { fd_function : nat; fd_code : list Bytecode; fd_local_count : nat }.
Record CompiledModule := mkCompiledModule {
  self_id : ModuleId;
  function_handles : list Identifier;
  function_defs : list FunctionDefinition;
  cm_tables : option Resolver
}.
Record ModuleCache := mkModuleCache { mc_modules : gmap ModuleId Resolver; mc_functions : list Function }.
Record MoveVM := mkMoveVM {
  modules : gmap ModuleId Resolver;
  _module_cache : ModuleCache;
  functions : gmap ModuleId (gmap Identifier Function)
}.
Definition MoveVM_new : MoveVM := mkMoveVM ∅ (mkModuleCache ∅ []) ∅.

(** [Function::new], [ModuleCache::insert] and [function_at] *)
Definition Function_new (module : CompiledModule) (def : FunctionDefinition) : option Function :=
  name ← function_handles module !! fd_function def; Some (mkFunction name (fd_code def) (fd_local_count def)).
Definition cache_insert (c : ModuleCache) (module : CompiledModule) : option ModuleCache :=
  match mc_modules c !! self_id module with
  | Some _ => Some c
  | None =>
      fs ← mapM (Function_new module) (function_defs module);
      t ← cm_tables module;
      Some (mkModuleCache (<[self_id module := t]> (mc_modules c)) (mc_functions c ++ fs))
  end.

(** The functions of a module by name: the definitions are zipped with the handles. *)
Definition add_function (cache : ModuleCache) (first : nat) (fs : gmap Identifier Function) (def : nat * (FunctionDefinition * Identifier)) : option (gmap Identifier Function) :=
  let '(idx, (_, name)) := def in f ← mc_functions cache !! (first + idx)%nat; Some (<[name := f]> fs).
(** [MoveVM::deploy] *)
Definition deploy (vm : MoveVM) (module : CompiledModule) : option (Z * MoveVM) :=
  let pre_mc_func_idx := length (mc_functions (_module_cache vm)) in
  cache ← cache_insert (_module_cache vm) module;
  t ← cm_tables module;
  let entries := imap pair (zip (function_defs module) (function_handles module)) in
  fs ← foldM (add_function cache pre_mc_func_idx) (default ∅ (functions vm !! self_id module)) entries;
  Some (fst (self_id module),
        mkMoveVM (<[self_id module := t]> (modules vm)) cache
          (match entries with [] => functions vm | _ => <[self_id module := fs]> (functions vm) end)).

Record MoveFunctionInput := mkMoveFunctionInput {
  module : ModuleId;
  function : Identifier;
  args : list ValueImpl;
  caller : Z;
  vm_state : MoveVMState;
  vm_state_idx : nat
}.
Definition set_staged_state (i : MoveFunctionInput) (s : MoveVMState) (idx : nat) : MoveFunctionInput :=
  mkMoveFunctionInput (module i) (function i) (args i) (caller i) s idx.
Definition set_caller (i : MoveFunctionInput) (c : Z) : MoveFunctionInput :=
  mkMoveFunctionInput (module i) (function i) (args i) c (vm_state i) (vm_state_idx i).
Definition get_contract (i : MoveFunctionInput) : Z := fst (module i).

(** [unwrap] of a result *)
Definition unwrap {A} (x : vm A) : vm A := λ h, match x h with (Err _, h) => (Panics, h) | r => r end.
(** The arguments are stored as clones. *)
Fixpoint store_args (locals : rc) (i : nat) (args : list ValueImpl) : vm unit :=
  match args with
  | [] => mret tt
  | v :: args => v ← value_clone v; unwrap (store_loc locals i v) ;; store_args locals (S i) args
  end.

(** What [MoveVM::execute] returns: the state, no output, never reverted *)
Record ExecutionResult := mkExecutionResult { new_state : MoveVMState; reverted : bool }.
Definition prepare (vm : MoveVM) (input : MoveFunctionInput) : MoveValues.vm (Resolver * Function * rc * MoveVMState) :=
  resolver ← try_get (modules vm !! module input);
  f ← try_get (fs ← functions vm !! module input; fs !! function input);
  locals ← locals_new (f_local_count f);
  store_args locals 0 (args input) ;;
  state ← state_clone (vm_state input);
  mret (resolver, f, locals, state).
(** [MoveVM::execute]; [None] is a frame that is still running. *)
Definition execute (steps : nat) (vm : MoveVM) (input : MoveFunctionInput) (h : heap) : option (result ExecutionResult * heap) :=
  match prepare vm input h with
  | (Done (resolver, f, locals, state), h) =>
      match execute_code steps resolver (f_code f) (mkMachine h state [] 0 locals) with
      | (Done None, _) => None
      | (Panics, m) => Some (Panics, m_heap m)
      | (_, m) =>
          Some (Done (mkExecutionResult (m_state m) false),
                drop_handles [locals] (drop_handles (concat (map handles (rev (operand_stack m)))) (m_heap m)))
      end
  | (Err _, h) | (Panics, h) => Some (Panics, h)
  end.
