(* ===== verification/MoveProps.v ===== *)
(** * The Move back end: correctness

    Copies of Move values are deep, integer operations are exact or fail, and what the state of
    the back end does to the resources of a campaign: a transaction on a clone of a state writes
    through to the state that was cloned, and no transaction publishes or removes a resource. *)
From S2P Require Import Prelude MoveValues MoveOps MoveInterp.
#[local] Open Scope Z_scope.

(** ** Running computations *)

Lemma vm_bind_done {A B} (x : vm A) (f : A → vm B) h a h' : x h = (Done a, h') → (x ≫= f) h = f a h'.
Proof. intros E. unfold mbind, vm_bind. by rewrite E. Qed.
Lemma get_vals_run l h n vs : h !! l = Some (n, CVals vs) → get_vals l h = (Done vs, h).
Proof. intros E. unfold get_vals, rc_get, mbind, vm_bind. by rewrite E. Qed.
Lemma get_prims_run l h n ps : h !! l = Some (n, CPrims ps) → get_prims l h = (Done ps, h).
Proof. intros E. unfold get_prims, rc_get, mbind, vm_bind. by rewrite E. Qed.
Lemma rc_set_run l c h n c0 : h !! l = Some (n, c0) → rc_set l c h = (Done tt, <[l := (n, c)]> h).
Proof. intros E. unfold rc_set. by rewrite E. Qed.
Lemma rc_clone_run l h n c : h !! l = Some (n, c) → rc_clone l h = (Done tt, <[l := (S n, c)]> h).
Proof. intros E. unfold rc_clone. by rewrite E. Qed.
(** [vm_run E] runs the first computation of a sequence, with [E] its result. *)
Ltac vm_run E := erewrite vm_bind_done by (apply E); cbv beta.

(** ** Values as trees *)

Inductive tree := TInvalid | TPrim (p : prim) | TVec (ts : list tree) | TStruct (ts : list tree) | TPrims (k : prim_ty) (ps : list prim).

(** A value that owns the cells [F] of the store, each once, and reads as a tree *)
Inductive reads (h : heap) : ValueImpl → tree → gset rc → Prop :=
| reads_invalid : reads h Invalid TInvalid ∅
| reads_prim p : reads h (Prim p) (TPrim p) ∅
| reads_vec l n vs ts F :
    h !! l = Some (n, CVals vs) → reads_all h vs ts F → l ∉ F → reads h (VContainer (Vec l)) (TVec ts) ({[l]} ∪ F)
| reads_struct l n vs ts F :
    h !! l = Some (n, CVals vs) → reads_all h vs ts F → l ∉ F → reads h (VContainer (Struct l)) (TStruct ts) ({[l]} ∪ F)
| reads_prims l n k ps : h !! l = Some (n, CPrims ps) → reads h (VContainer (VecPrim k l)) (TPrims k ps) {[l]}
with reads_all (h : heap) : list ValueImpl → list tree → gset rc → Prop :=
| reads_nil : reads_all h [] [] ∅
| reads_cons v vs t ts F1 F2 : reads h v t F1 → reads_all h vs ts F2 → F1 ## F2 → reads_all h (v :: vs) (t :: ts) (F1 ∪ F2).
Scheme reads_mut := Induction for reads Sort Prop
  with reads_all_mut := Induction for reads_all Sort Prop.
Combined Scheme reads_ind2 from reads_mut, reads_all_mut.
#[local] Hint Constructors reads reads_all : core.

(** Reading depends on the cells of the value only. *)
Lemma reads_local h :
  (∀ v t F, reads h v t F → ∀ h', (∀ l, l ∈ F → h' !! l = h !! l) → reads h' v t F) ∧
  (∀ vs ts F, reads_all h vs ts F → ∀ h', (∀ l, l ∈ F → h' !! l = h !! l) → reads_all h' vs ts F).
Proof.
  apply (reads_ind2 h (λ v t F _, ∀ h', (∀ l, l ∈ F → h' !! l = h !! l) → reads h' v t F)
    (λ vs ts F _, ∀ h', (∀ l, l ∈ F → h' !! l = h !! l) → reads_all h' vs ts F)); eauto.
  - intros l n vs ts F Hl _ IH Hn h' Hh. econstructor; [rewrite Hh; [done|set_solver]|apply IH; intros; apply Hh; set_solver|done].
  - intros l n vs ts F Hl _ IH Hn h' Hh. econstructor; [rewrite Hh; [done|set_solver]|apply IH; intros; apply Hh; set_solver|done].
  - intros l n k ps Hl h' Hh. econstructor. rewrite Hh; [done|set_solver].
  - intros v vs t ts F1 F2 _ IH1 _ IH2 Hd h' Hh. constructor; [apply IH1|apply IH2|done]; intros; apply Hh; set_solver.
Qed.
Lemma reads_dom h :
  (∀ v t F, reads h v t F → F ⊆ dom h) ∧ (∀ vs ts F, reads_all h vs ts F → F ⊆ dom h).
Proof.
  apply (reads_ind2 h (λ v t F _, F ⊆ dom h) (λ vs ts F _, F ⊆ dom h)); intros;
    repeat match goal with E : _ !! _ = Some _ |- _ => apply elem_of_dom_2 in E end; set_solver.
Qed.
Lemma reads_grow h h' v t F : h ⊆ h' → reads h v t F → reads h' v t F.
Proof.
  intros Hs Hr. pose proof (proj1 (reads_dom h) _ _ _ Hr) as Hd. eapply reads_local; [done|]. intros l Hl.
  destruct (h !! l) eqn:E; [by eapply lookup_weaken|].
  apply not_elem_of_dom in E. set_solver.
Qed.

(** ** Copies *)

(** A copy in a store that only grows, in cells of its own *)
Definition copied (h : heap) (F' : gset rc) (h' : heap) : Prop := h ⊆ h' ∧ F' ## dom h.

Lemma copied_refl h : copied h ∅ h.
Proof. split; [done|set_solver]. Qed.

Lemma rc_new_spec c h : ∃ l, l ∉ dom h ∧ rc_new c h = (Done l, <[l := (1%nat, c)]> h) ∧ h ⊆ <[l := (1%nat, c)]> h.
Proof.
  exists (fresh (dom h)). pose proof (is_fresh (dom h)) as Hf. split_and!; [done..|].
  apply insert_subseteq. by apply not_elem_of_dom.
Qed.

Lemma copy_vals (mk : rc → Container) (mkt : list tree → tree) h l n vs ts fuel :
  (∀ h l n vs ts F, h !! l = Some (n, CVals vs) → reads_all h vs ts F → l ∉ F → reads h (VContainer (mk l)) (mkt ts) ({[l]} ∪ F)) →
  h !! l = Some (n, CVals vs) →
  (∃ vs' h' F', collect (copy_value fuel) vs h = (Done vs', h') ∧ reads_all h' vs' ts F' ∧ copied h F' h') →
  ∃ c' h' F', (vs ← get_vals l; vs ← collect (copy_value fuel) vs; l ← rc_new (CVals vs); mret (mk l)) h = (Done c', h') ∧
    reads h' (VContainer c') (mkt ts) F' ∧ copied h F' h'.
Proof.
  intros Hmk Hl (vs' & h1 & F1 & E & Hr & Hs & Hd). destruct (rc_new_spec (CVals vs') h1) as (l' & Hl' & En & Hg).
  exists (mk l'), (<[l' := (1%nat, CVals vs')]> h1), ({[l']} ∪ F1).
  split; [vm_run (get_vals_run _ _ _ _ Hl); vm_run E; vm_run En; done|].
  pose proof (proj2 (reads_dom h1) _ _ _ Hr). split; [|split; [by etrans|apply subseteq_dom in Hs; set_solver]].
  eapply (Hmk _ l' 1%nat vs'); [apply lookup_insert_eq| |set_solver].
  eapply (proj2 (reads_local h1)); [exact Hr|]. intros k Hk. apply lookup_insert_ne. set_solver.
Qed.

Lemma copy_reads h :
  (∀ v t F, reads h v t F → ∀ h1 fuel, h ⊆ h1 → (size F < fuel)%nat →
    ∃ v' h' F', copy_value fuel v h1 = (Done v', h') ∧ reads h' v' t F' ∧ copied h1 F' h') ∧
  (∀ vs ts F, reads_all h vs ts F → ∀ h1 fuel, h ⊆ h1 → (size F < fuel)%nat →
    ∃ vs' h' F', collect (copy_value fuel) vs h1 = (Done vs', h') ∧ reads_all h' vs' ts F' ∧ copied h1 F' h').
Proof.
  apply (reads_ind2 h (λ v t F _, ∀ h1 fuel, h ⊆ h1 → (size F < fuel)%nat →
      ∃ v' h' F', copy_value fuel v h1 = (Done v', h') ∧ reads h' v' t F' ∧ copied h1 F' h')
    (λ vs ts F _, ∀ h1 fuel, h ⊆ h1 → (size F < fuel)%nat →
      ∃ vs' h' F', collect (copy_value fuel) vs h1 = (Done vs', h') ∧ reads_all h' vs' ts F' ∧ copied h1 F' h')).
  - intros h1 [|fuel] _ ?; [lia|]. exists Invalid, h1, ∅. split_and!; [done|constructor|apply copied_refl].
  - intros p h1 [|fuel] _ ?; [lia|]. exists (Prim p), h1, ∅. split_and!; [done|constructor|apply copied_refl].
  - intros l n vs ts F Hl _ IH Hn h1 [|fuel] Hs Hf; [lia|]. rewrite size_union, size_singleton in Hf by set_solver.
    destruct (copy_vals Vec TVec h1 l n vs ts fuel) as (c' & h' & F' & E & ?); [intros; by econstructor|by eapply lookup_weaken|apply IH; [done|lia]|].
    exists (VContainer c'), h', F'. split; [|done]. cbn [copy_value container_copy_with]. by vm_run E.
  - intros l n vs ts F Hl _ IH Hn h1 [|fuel] Hs Hf; [lia|]. rewrite size_union, size_singleton in Hf by set_solver.
    destruct (copy_vals Struct TStruct h1 l n vs ts fuel) as (c' & h' & F' & E & ?); [intros; by econstructor|by eapply lookup_weaken|apply IH; [done|lia]|].
    exists (VContainer c'), h', F'. split; [|done]. cbn [copy_value container_copy_with]. by vm_run E.
  - intros l n k ps Hl h1 [|fuel] Hs Hf; [lia|]. destruct (rc_new_spec (CPrims ps) h1) as (l' & Hl' & En & Hg).
    exists (VContainer (VecPrim k l')), (<[l' := (1%nat, CPrims ps)]> h1), {[l']}. split; [|split; [econstructor; apply lookup_insert_eq|split; [done|set_solver]]].
    cbn [copy_value container_copy_with]. erewrite vm_bind_done; [done|].
    vm_run (get_prims_run l h1 n ps (lookup_weaken _ _ _ _ Hl Hs)). vm_run En. done.
  - intros h1 fuel _ _. exists [], h1, ∅. split_and!; [done|constructor|apply copied_refl].
  - intros v vs t ts F1 F2 _ IH1 _ IH2 Hd h1 fuel Hs Hf. rewrite size_union in Hf by done.
    destruct (IH1 h1 fuel Hs) as (v' & h2 & F1' & E1 & Hr1 & Hs1 & Hd1); [lia|].
    destruct (IH2 h2 fuel) as (vs' & h3 & F2' & E2 & Hr2 & Hs2 & Hd2); [by etrans|lia|].
    pose proof (proj1 (reads_dom h2) _ _ _ Hr1). exists (v' :: vs'), h3, (F1' ∪ F2').
    split; [|split; [constructor; [by eapply reads_grow|done|set_solver]|split; [by etrans|apply subseteq_dom in Hs1; set_solver]]].
    cbn [collect]. vm_run E1. erewrite vm_bind_done; [done|]. unfold owning. by rewrite E2.
Qed.

(** ** Equality *)

Fixpoint valid (t : tree) : bool :=
  match t with TInvalid => false | TVec ts | TStruct ts => forallb valid ts | _ => true end.
(** An outcome that decides [P]: it fails only on values that [ok] excludes, or where [P] does not hold. *)
Definition decides (r : result bool) (P : Prop) (ok : bool) : Prop :=
  match r with Done b => b = true ↔ P | Err _ => ok = true → ¬ P | Panics => False end.
Lemma decides_mono (P Q : Prop) r ok : P ↔ Q → decides r P ok → decides r Q ok.
Proof. unfold decides. destruct r; tauto. Qed.
Lemma decides_ok (P : Prop) r ok ok' : (ok' = true → ok = true) → decides r P ok → decides r P ok'.
Proof. unfold decides. destruct r; tauto. Qed.

(** The comparison of two lists of cells *)
Lemma vals_equal_decides fuel h l1 l2 n1 n2 vs1 vs2 ts1 ts2 :
  h !! l1 = Some (n1, CVals vs1) → h !! l2 = Some (n2, CVals vs2) → length vs1 = length ts1 → length vs2 = length ts2 →
  (length vs1 = length vs2 → ∃ r, all_equal (equals fuel) vs1 vs2 h = (r, h) ∧ decides r (ts1 = ts2) (forallb valid ts1)) →
  ∃ r', vals_equal (equals fuel) l1 l2 h = (r', h) ∧ decides r' (ts1 = ts2) (forallb valid ts1).
Proof.
  intros H1 H2 L1 L2 Hall. unfold vals_equal. vm_run (get_vals_run _ _ _ _ H1). vm_run (get_vals_run _ _ _ _ H2).
  destruct (length vs1 =? length vs2)%nat eqn:El.
  - apply Nat.eqb_eq in El. by apply Hall.
  - apply Nat.eqb_neq in El. exists (Done false). split; [done|]. split; [done|]. intros ->. congruence.
Qed.

Lemma reads_all_length h vs ts F : reads_all h vs ts F → length vs = length ts.
Proof. induction 1; cbn; congruence. Qed.

Lemma equals_decides h :
  (∀ v t F, reads h v t F → ∀ fuel v' t' F', (size F < fuel)%nat → reads h v' t' F' →
    ∃ r, equals fuel v v' h = (r, h) ∧ decides r (t = t') (valid t)) ∧
  (∀ vs ts F, reads_all h vs ts F → ∀ fuel vs' ts' F', (size F < fuel)%nat → reads_all h vs' ts' F' → length vs = length vs' →
    ∃ r, all_equal (equals fuel) vs vs' h = (r, h) ∧ decides r (ts = ts') (forallb valid ts)).
Proof.
  apply (reads_ind2 h (λ v t F _, ∀ fuel v' t' F', (size F < fuel)%nat → reads h v' t' F' →
      ∃ r, equals fuel v v' h = (r, h) ∧ decides r (t = t') (valid t))
    (λ vs ts F _, ∀ fuel vs' ts' F', (size F < fuel)%nat → reads_all h vs' ts' F' → length vs = length vs' →
      ∃ r, all_equal (equals fuel) vs vs' h = (r, h) ∧ decides r (ts = ts') (forallb valid ts))).
  - intros [|fuel] v' t' F' Hf Hr; [lia|]. exists (Err INTERNAL_TYPE_ERROR). by inversion Hr.
  - intros p [|fuel] v' t' F' Hf Hr; [lia|]. destruct Hr as [|q| | |]; try (by exists (Err INTERNAL_TYPE_ERROR)).
    cbn [equals]. destruct (decide (prim_tag p = prim_tag q)) as [Ht|Ht].
    + exists (Done (bool_decide (p = q))). split; [done|]. unfold decides. rewrite bool_decide_eq_true. split; congruence.
    + exists (Err INTERNAL_TYPE_ERROR). split; [done|]. intros _ [= ->]. done.
  - intros l n vs ts F Hl Hvs IH Hn [|fuel] v' t' F' Hf Hr; [lia|]. rewrite size_union, size_singleton in Hf by set_solver.
    destruct Hr as [|q|l' n' vs' ts' F2 Hl' Hvs' Hn'| |]; try (by exists (Err INTERNAL_TYPE_ERROR)). cbn [equals container_equals].
    destruct (vals_equal_decides fuel h l l' n n' vs vs' ts ts') as (r & E & D); eauto using reads_all_length; [intros; eapply IH; eauto; lia|].
    exists r. split; [done|]. eapply decides_mono; [|exact D]. split; congruence.
  - intros l n vs ts F Hl Hvs IH Hn [|fuel] v' t' F' Hf Hr; [lia|]. rewrite size_union, size_singleton in Hf by set_solver.
    destruct Hr as [|q| |l' n' vs' ts' F2 Hl' Hvs' Hn'|]; try (by exists (Err INTERNAL_TYPE_ERROR)). cbn [equals container_equals].
    destruct (vals_equal_decides fuel h l l' n n' vs vs' ts ts') as (r & E & D); eauto using reads_all_length; [intros; eapply IH; eauto; lia|].
    exists r. split; [done|]. eapply decides_mono; [|exact D]. split; congruence.
  - intros l n k ps Hl [|fuel] v' t' F' Hf Hr; [lia|].
    destruct Hr as [|q| | |l' n' k' ps' Hl']; try (by exists (Err INTERNAL_TYPE_ERROR)). cbn [equals container_equals].
    destruct (decide (k = k')) as [->|Hk].
    + exists (Done (bool_decide (ps = ps'))). vm_run (get_prims_run _ _ _ _ Hl). vm_run (get_prims_run _ _ _ _ Hl'). split; [done|].
      unfold decides. rewrite bool_decide_eq_true. split; congruence.
    + exists (Err INTERNAL_TYPE_ERROR). split; [done|]. intros _ [= -> _]. done.
  - intros fuel vs' ts' F' _ Hr El. destruct Hr; [|done]. exists (Done true). done.
  - intros v vs t ts F1 F2 _ IH1 _ IH2 Hd fuel vs' ts' F' Hf Hr El. rewrite size_union in Hf by done.
    destruct Hr as [|v' vs' t' ts' F1' F2' Hr1 Hr2 Hd']; [done|].
    destruct (IH1 fuel v' t' F1') as ([[]|e|] & E & D); [lia|done|..]; [| | |done]; cbn [all_equal].
    + destruct (IH2 fuel vs' ts' F2') as (r & E2 & D2); [lia|done|by injection El|]. exists r. vm_run E. split; [done|].
      assert (t = t') as -> by (by apply D). eapply (decides_ok _ _ (forallb valid ts)); [cbn; by intros [_ ?]%andb_true_iff|].
      eapply decides_mono; [|exact D2]. split; congruence.
    + exists (Done false). vm_run E. split; [done|]. split; [done|]. intros [= -> _]. by apply D.
    + exists (Err e). unfold mbind, vm_bind. rewrite E. split; [done|]. cbn in *. intros [Hv _]%andb_true_iff [= -> _]. by apply D.
Qed.

(** C31. A copy of a Move value is deep, and equal to the value.  However vectors and structs
    are nested, the copy reads as the same tree from cells none of which the store had before;
    every cell the store had is as it was; the copy compares equal to the value; and from then
    on, a write to any cell of the one leaves what the other reads as it is. *)
Theorem copy_is_deep h v t F fuel :
  reads h v t F → (size F < fuel)%nat → valid t = true →
  ∃ v' h' F', copy_value fuel v h = (Done v', h') ∧ h ⊆ h' ∧ reads h' v' t F' ∧ F' ## dom h ∧
    equals fuel v v' h' = (Done true, h') ∧
    (∀ l c, l ∈ dom h → reads (<[l := c]> h') v' t F') ∧ (∀ l c, l ∈ F' → reads (<[l := c]> h') v t F).
Proof.
  intros Hr Hf Hv. destruct (proj1 (copy_reads h) _ _ _ Hr h fuel) as (v' & h' & F' & E & Hr' & Hs & Hd); [done..|].
  pose proof (proj1 (reads_dom h) _ _ _ Hr). pose proof (reads_grow _ _ _ _ _ Hs Hr) as Hr0.
  exists v', h', F'. split_and!; try done.
  - destruct (proj1 (equals_decides h') _ _ _ Hr0 fuel v' t F' Hf Hr') as ([b|e|] & Eq & D); [|exfalso; by apply D|done].
    rewrite Eq. unfold decides in D. destruct b; [done|]. exfalso. by destruct D as [_ D]; discriminate D.
  - intros l c Hl. eapply (proj1 (reads_local h')); [exact Hr'|]. intros k Hk. apply lookup_insert_ne. set_solver.
  - intros l c Hl. eapply (proj1 (reads_local h')); [exact Hr0|]. intros k Hk. apply lookup_insert_ne. set_solver.
Qed.

(** ** Integers *)

Definition in_range (i : IntegerValue) : Prop := let 'mkInt k x := i in ∃ w, bits k = Some w ∧ 0 <= x < 2 ^ w.
(** A result that is in range, if there is one *)
Definition ranged (r : fails IntegerValue) : Prop := match r with inl i => in_range i | inr _ => True end.

Lemma bits_pos k w : bits k = Some w → 0 < w.
Proof. destruct k; cbn; congruence || (intros [= <-]; lia). Qed.
Lemma checked_ranged k w v : bits k = Some w → ranged (checked k w v).
Proof. intros Hk. unfold checked. destruct (_ && _) eqn:E; cbn; [|done]. exists w. split; [done|]. lia. Qed.
Lemma bitwise_range w (f : Z → Z → Z) (g : bool → bool → bool) x y : 0 <= w → g false false = false →
  (∀ n, 0 <= n → Z.testbit (f x y) n = g (Z.testbit x n) (Z.testbit y n)) → 0 <= f x y → 0 <= x < 2 ^ w → 0 <= y < 2 ^ w → f x y < 2 ^ w.
Proof.
  intros Hw Hg Hbit Hpos Hx Hy. destruct (Z.eq_dec (f x y) 0) as [->|Hne]; [lia|]. apply Z.log2_lt_pow2; [lia|].
  destruct (Z.lt_ge_cases (Z.log2 (f x y)) w) as [?|Hge]; [done|]. exfalso.
  assert (∀ z, 0 <= z < 2 ^ w → Z.testbit z (Z.log2 (f x y)) = false) as Hhigh.
  { intros z Hz. destruct (Z.eq_dec z 0) as [->|]; [apply Z.bits_0|]. apply Z.bits_above_log2; [lia|].
    apply Z.lt_le_trans with w; [|done]. apply Z.log2_lt_pow2; lia. }
  pose proof (Z.bit_log2 (f x y) ltac:(lia)) as Hb. rewrite Hbit, !Hhigh, Hg in Hb by (done || lia). done.
Qed.

(** Integer instructions of Move stay within their types.  On operands in the range of their
    types, every arithmetic, bitwise and shift operation returns a value in the range of the type
    or an error; sums, differences and products are the exact ones where those fit the type, and
    an arithmetic error where they do not; a quotient or remainder by zero is an error; and a
    cast returns the same number, in the range of the new type, or fails. *)
Theorem move_integers_exact k x y w n :
  bits k = Some w → 0 <= x < 2 ^ w → 0 <= y < 2 ^ w → 0 <= n →
  let i := mkInt k x in let j := mkInt k y in
  (ranged (add_checked i j) ∧ ranged (sub_checked i j) ∧ ranged (mul_checked i j) ∧ ranged (div_checked i j) ∧ ranged (rem_checked i j) ∧
   ranged (bit_or i j) ∧ ranged (bit_and i j) ∧ ranged (bit_xor i j) ∧ ranged (shl_checked i n) ∧ ranged (shr_checked i n)) ∧
  add_checked i j = (if x + y <? 2 ^ w then inl (mkInt k (x + y)) else inr ARITHMETIC_ERROR) ∧
  sub_checked i j = (if y <=? x then inl (mkInt k (x - y)) else inr ARITHMETIC_ERROR) ∧
  mul_checked i j = (if x * y <? 2 ^ w then inl (mkInt k (x * y)) else inr ARITHMETIC_ERROR) ∧
  div_checked i j = (if y =? 0 then inr ARITHMETIC_ERROR else inl (mkInt k (x / y))) ∧
  rem_checked i j = (if y =? 0 then inr ARITHMETIC_ERROR else inl (mkInt k (x mod y))) ∧
  (∀ k' v, cast_int k' i = inl v → v = x ∧ in_range (mkInt k' v)).
Proof.
  intros Hk Hx Hy Hn i j. pose proof (bits_pos _ _ Hk) as Hw.
  assert (∀ v, (0 <=? v) = true → checked k w v = if v <? 2 ^ w then inl (mkInt k v) else inr ARITHMETIC_ERROR) as Hck.
  { intros v Hv. unfold checked. rewrite Hv. done. }
  assert (∀ v, 0 <= v <= x → checked k w v = inl (mkInt k v)) as Hsmall.
  { intros v Hv. unfold checked. replace (_ && _) with true by lia. done. }
  assert (∀ A (f : prim_ty → Z → Z → Z → fails A), same_type f i j = f k w x y) as Hst.
  { intros A f. unfold same_type, i, j. rewrite Hk. by rewrite decide_True. }
  unfold add_checked, sub_checked, mul_checked, div_checked, rem_checked, bit_or, bit_and, bit_xor. rewrite !Hst. split; [split_and!|split_and!].
  1-3: by apply checked_ranged.
  1-2: destruct (y =? 0); [done|by apply checked_ranged].
  - exists w. split; [done|]. split; [apply Z.lor_nonneg; lia|].
    apply (bitwise_range w Z.lor orb); [lia|done|intros; apply Z.lor_spec|apply Z.lor_nonneg; lia|done..].
  - exists w. split; [done|]. split; [apply Z.land_nonneg; lia|].
    apply (bitwise_range w Z.land andb); [lia|done|intros; apply Z.land_spec|apply Z.land_nonneg; lia|done..].
  - exists w. split; [done|]. split; [apply Z.lxor_nonneg; lia|].
    apply (bitwise_range w Z.lxor xorb); [lia|done|intros; apply Z.lxor_spec|apply Z.lxor_nonneg; lia|done..].
  - unfold shl_checked, i. rewrite Hk. destruct (w <=? n); [done|]. exists w. split; [done|]. apply Z.mod_pos_bound. lia.
  - unfold shr_checked, i. rewrite Hk. destruct (w <=? n); [done|]. exists w. split; [done|]. split; [apply Z.shiftr_nonneg; lia|].
    rewrite Z.shiftr_div_pow2 by lia. apply Z.le_lt_trans with x; [|lia]. apply Z.div_le_upper_bound; nia.
  - apply Hck. lia.
  - destruct (y <=? x) eqn:E; [apply Hsmall; lia|]. unfold checked. by replace (0 <=? x - y) with false by lia.
  - apply Hck. nia.
  - destruct (y =? 0) eqn:E; [done|]. apply Hsmall. split; [apply Z.div_pos; lia|]. apply Z.div_le_upper_bound; nia.
  - destruct (y =? 0) eqn:E; [done|]. apply Hsmall. split; [apply Z.mod_pos_bound; lia|apply Z.mod_le; lia].
  - intros k' v. unfold cast_int, i. destruct (bits k') as [w'|] eqn:E'; [|done]. destruct (_ <? _) eqn:E; [done|]. intros [= <-].
    split; [done|]. exists w'. split; [done|]. lia.
Qed.

(** ** The resources of a state never change *)

Definition fixes {A} (x : mach A) : Prop := ∀ m, resources (m_state (snd (x m))) = resources (m_state m).
Create HintDb fixes.
Lemma fixes_ret {A} (a : A) : fixes (mret a).
Proof. done. Qed.
Lemma fixes_bind {A B} (x : mach A) (f : A → mach B) : fixes x → (∀ a, fixes (f a)) → fixes (x ≫= f).
Proof.
  intros Hx Hf m. unfold mbind, mach_bind. specialize (Hx m). destruct (x m) as [[a|e|] m']; cbn in *; [|done..].
  etrans; [apply Hf|done].
Qed.
Lemma fixes_on_heap {A} (x : vm A) : fixes (on_heap x).
Proof. intros m. unfold on_heap. by destruct (x (m_heap m)). Qed.
Lemma fixes_owning {A} (x : mach A) ls : fixes x → fixes (owning_m x ls).
Proof.
  intros Hx m. unfold owning_m. specialize (Hx m). destruct (x m) as [[a|e|] m'] eqn:E; done.
Qed.
Lemma fixes_get {A} (f : Machine → A) : fixes (get_m f).
Proof. done. Qed.
Lemma fixes_stack l : fixes (set_stack l).
Proof. done. Qed.
Lemma fixes_pc pc : fixes (set_pc pc).
Proof. done. Qed.
Lemma fixes_slot addr ty g : fixes (set_slot addr ty g).
Proof. done. Qed.
Lemma load_fixes s addr ty h s' g h' : load_resource s addr ty h = (Done (s', g), h') → resources s' = resources s.
Proof.
  unfold load_resource, mbind, vm_bind. destruct (try_get _ h) as [[d|e|] h1]; try done.
  destruct (value_clone d h1) as [[v|e|] h2]; try done. destruct (cached v Clean h2) as [[[g'|e']|e|] h3]; try done. cbn. by intros [= <- _ _].
Qed.
Lemma fixes_loading addr ty : fixes (loading addr ty).
Proof.
  intros m. unfold loading, mbind, mach_bind, get_m, on_heap. cbn.
  destruct (load_resource (m_state m) addr ty (m_heap m)) as [[[s g]|e|] h] eqn:E; cbn; [|done..]. by eapply load_fixes.
Qed.
Lemma fixes_throw {A} e : fixes (A := A) (throw_m e).
Proof. apply fixes_on_heap. Qed.
#[local] Hint Resolve fixes_ret fixes_on_heap fixes_throw fixes_get fixes_stack fixes_pc fixes_slot fixes_loading : fixes.
(** [fixes] follows the structure of a computation. *)
Ltac fixes := repeat first
  [ assumption | progress (intros) | solve [auto 2 with fixes nocore] | match goal with |- fixes (_ ≫= _) => apply fixes_bind end | apply fixes_owning
  | match goal with |- fixes (match ?x with _ => _ end) => destruct x end | progress cbv beta ].
Lemma fixes_push v : fixes (push v).
Proof. unfold push. fixes. Qed.
Lemma fixes_pop : fixes pop.
Proof. unfold pop, throw_m. fixes. Qed.
Lemma fixes_popn n : fixes (popn n).
Proof. unfold popn, throw_m. fixes. Qed.
#[local] Hint Resolve fixes_push fixes_pop fixes_popn : fixes.
Lemma fixes_pop_as {A} (cast : ValueImpl → vm A) : fixes (pop_as cast).
Proof. unfold pop_as. fixes. Qed.
Lemma fixes_push_all vs : fixes (push_all vs).
Proof. induction vs as [|v vs IH]; cbn [push_all]; fixes. Qed.
#[local] Hint Resolve @fixes_pop_as fixes_push_all : fixes.
Lemma fixes_binop {A} (cast : ValueImpl → vm A) f : fixes (binop cast f).
Proof. unfold binop. fixes. Qed.
Lemma fixes_borrow_global addr ty : fixes (do_borrow_global addr ty).
Proof. unfold do_borrow_global. fixes. Qed.
Lemma fixes_exists addr ty : fixes (do_exists addr ty).
Proof. unfold do_exists. fixes. Qed.
Lemma fixes_move_from addr ty : fixes (do_move_from addr ty).
Proof. unfold do_move_from, throw_m. fixes. Qed.
Lemma fixes_move_to addr ty v : fixes (do_move_to addr ty v).
Proof. unfold do_move_to. fixes. Qed.
#[local] Hint Resolve @fixes_binop fixes_borrow_global fixes_exists fixes_move_from fixes_move_to : fixes.

Lemma fixes_instruction fuel resolver i : fixes (execute_instruction fuel resolver i).
Proof.
  destruct i; cbn [execute_instruction];
    unfold next, branch_if, cast_to, shift, borrow_field_at, do_pack, do_unpack, do_equals, on_global, publish, on_vector,
      binop_int, binop_cmp, binop_bool, throw_m; fixes.
Qed.
Lemma fixes_code steps resolver code : fixes (execute_code steps resolver code).
Proof. induction steps as [|steps IH]; cbn [execute_code]; unfold throw_m; fixes; auto using fixes_instruction. Qed.

(** ** Global storage *)

Lemma mach_bind_done {A B} (x : mach A) (f : A → mach B) m a m' : x m = (Done a, m') → (x ≫= f) m = f a m'.
Proof. intros E. unfold mbind, mach_bind. by rewrite E. Qed.
Lemma mach_bind_fst {A B} (x : mach A) (f : A → mach B) m : fst (x m) = Panics → fst ((x ≫= f) m) = Panics.
Proof. intros E. unfold mbind, mach_bind. by destruct (x m) as [[]]; cbn in E. Qed.
Ltac mach_run E := erewrite mach_bind_done by (apply E); cbv beta.

(** A pointer that is not the last *)
Lemma drop_shared l n c h : h !! l = Some (S (S n), c) → drop_handles [l] h = <[l := (S n, c)]> h.
Proof. intros E. cbn. rewrite E. done. Qed.
(** The last pointer to a cell without pointers *)
Lemma drop_last l c h : h !! l = Some (1%nat, c) → cell_handles c = [] → drop_handles [l] h = delete l h.
Proof. intros E Hc. cbn. rewrite E. cbn. by rewrite Hc. Qed.
Lemma drop_handles_app ls ls' h : drop_handles (ls ++ ls') h = drop_handles ls' (drop_handles ls h).
Proof. apply foldl_app. Qed.

(** Loading a resource for the first time in a transaction *)
Lemma loading_run m a ty f n c :
  resource (m_state m) a ty = Some (VContainer (Struct f)) → m_heap m !! f = Some (n, c) → _gv_slot (m_state m) !! (a, ty) = None →
  ∃ st, st ∉ dom (m_heap m) ∧ f ≠ st ∧
    loading a ty m = (Done (GCached f st), mkMachine (<[st := (1%nat, CStatus Clean)]> (<[f := (S n, c)]> (m_heap m)))
      (mkMoveVMState (resources (m_state m)) (<[(a, ty) := GCached f st]> (_gv_slot (m_state m)))) (operand_stack m) (m_pc m) (m_locals m)).
Proof.
  intros Hr Hf Hs. destruct (rc_new_spec (CStatus Clean) (<[f := (S n, c)]> (m_heap m))) as (st & Hst & En & _).
  apply elem_of_dom_2 in Hf as Hd. exists st. split; [set_solver|]. split; [set_solver|].
  assert (load_resource (m_state m) a ty (m_heap m) = (Done (mkMoveVMState (resources (m_state m)) (<[(a, ty) := GCached f st]> (_gv_slot (m_state m))), GCached f st),
    <[st := (1%nat, CStatus Clean)]> (<[f := (S n, c)]> (m_heap m)))) as E.
  { unfold load_resource. rewrite Hr, Hs. cbn [try_get from_option]. erewrite vm_bind_done by reflexivity. cbv beta.
    erewrite (vm_bind_done (value_clone _)) by (unfold value_clone; cbn [handles rc_of clone_handles]; erewrite vm_bind_done; [reflexivity|];
      erewrite vm_bind_done by (by apply rc_clone_run); reflexivity). cbv beta.
    unfold cached. erewrite vm_bind_done by (erewrite vm_bind_done by (apply En); reflexivity). cbv beta. reflexivity. }
  unfold loading. erewrite mach_bind_done by reflexivity. cbv beta. erewrite mach_bind_done by (unfold on_heap; rewrite E; reflexivity). reflexivity.
Qed.

Lemma loading_absent m a ty : resource (m_state m) a ty = None → fst (loading a ty m) = Panics.
Proof. intros E. unfold loading, mbind, mach_bind, get_m, on_heap, load_resource. rewrite E. done. Qed.
Lemma loading_cached m a ty g m' : loading a ty m = (Done g, m') → ∃ f st, g = GCached f st.
Proof.
  unfold loading, mbind, mach_bind, get_m, on_heap, load_resource, mbind, vm_bind. cbn.
  destruct (try_get _ _) as [[d|e|] h1]; try done. destruct (value_clone d h1) as [[v|e|] h2]; try done.
  destruct v as [| |[| |f|]| |]; try done. unfold cached, mbind, vm_bind. destruct (rc_new_spec (CStatus Clean) h2) as (st & _ & En & _). rewrite En.
  cbn. intros [= <- _]. eauto.
Qed.

(** A resource the state has, with the pointers that the state and the slot hold to its fields:
    the slot is empty, it was loaded, or it is what a refused [MoveFrom] left. *)
Definition held (m : Machine) (a : Z) (ty : Type_) (f : rc) : Prop :=
  resource (m_state m) a ty = Some (VContainer (Struct f)) ∧
  ∃ n vs, m_heap m !! f = Some (S n, CVals vs) ∧
    match _gv_slot (m_state m) !! (a, ty) with
    | None | Some GDeleted => True
    | Some (GCached f' st) => f' = f ∧ n ≠ 0%nat ∧ ∃ k b, m_heap m !! st = Some (S k, CStatus b)
    | _ => False
    end.

(** Loading it, for the first time or again: there are two pointers to its fields, at least. *)
Lemma loading_held m a ty f : held m a ty f →
  ∃ st h n vs, f ≠ st ∧ h !! f = Some (S (S n), CVals vs) ∧ h !! st = Some (1%nat, CStatus Clean) ∧
    loading a ty m = (Done (GCached f st), mkMachine h
      (mkMoveVMState (resources (m_state m)) (<[(a, ty) := GCached f st]> (_gv_slot (m_state m)))) (operand_stack m) (m_pc m) (m_locals m)).
Proof.
  intros (Hr & n & vs & Hf & Hs). destruct (rc_new_spec (CStatus Clean) (<[f := (S (S n), CVals vs)]> (m_heap m))) as (st & Hst & En & _).
  apply elem_of_dom_2 in Hf as Hd. assert (f ≠ st) as Hne by set_solver. exists st.
  set (h1 := <[st := (1%nat, CStatus Clean)]> (<[f := (S (S n), CVals vs)]> (m_heap m))) in *.
  set (h := drop_handles (from_option gv_handles [] (_gv_slot (m_state m) !! (a, ty))) h1).
  assert (h1 !! f = Some (S (S n), CVals vs)) as Hf1 by (unfold h1; rewrite lookup_insert_ne by done; apply lookup_insert_eq).
  assert (h1 !! st = Some (1%nat, CStatus Clean)) as Hst1 by apply lookup_insert_eq.
  assert (∃ k, h !! f = Some (S (S k), CVals vs) ∧ h !! st = Some (1%nat, CStatus Clean)) as (k & Hf2 & Hst2).
  { unfold h. destruct (_gv_slot (m_state m) !! (a, ty)) as [[| |f' st0|]|]; try done; [|by exists n|by exists n].
    destruct Hs as (-> & Hn & k & b & Hst0). destruct n as [|n]; [done|]. exists n. apply elem_of_dom_2 in Hst0 as Hd0.
    assert (st0 ≠ f) as Hn0 by (intros ->; congruence). assert (st0 ≠ st) as Hn1 by set_solver.
    cbn [from_option gv_handles]. rewrite (drop_handles_app [f] [st0]), (drop_shared _ _ _ _ Hf1).
    assert (<[f := (S (S n), CVals vs)]> h1 !! st0 = Some (S k, CStatus b)) as Hst0'.
    { rewrite lookup_insert_ne by done. unfold h1. by rewrite !lookup_insert_ne by done. }
    destruct k as [|k].
    - rewrite (drop_last _ _ _ Hst0') by done. rewrite !lookup_delete_ne, lookup_insert_eq, lookup_insert_ne by done. done.
    - rewrite (drop_shared _ _ _ _ Hst0'). rewrite !(lookup_insert_ne _ st0) by done. rewrite lookup_insert_eq, lookup_insert_ne by done. done. }
  exists h, k, vs. split; [done|]. split; [done|]. split; [done|].
  assert (load_resource (m_state m) a ty (m_heap m) =
    (Done (mkMoveVMState (resources (m_state m)) (<[(a, ty) := GCached f st]> (_gv_slot (m_state m))), GCached f st), h)) as E.
  { unfold load_resource. rewrite Hr. cbn [try_get from_option]. erewrite vm_bind_done by reflexivity. cbv beta.
    erewrite (vm_bind_done (value_clone _)) by (unfold value_clone; cbn [handles rc_of clone_handles]; erewrite vm_bind_done; [reflexivity|];
      erewrite vm_bind_done by (by apply rc_clone_run); reflexivity). cbv beta.
    unfold cached. erewrite vm_bind_done by (erewrite vm_bind_done by (apply En); reflexivity). cbv beta. reflexivity. }
  unfold loading. erewrite mach_bind_done by reflexivity. cbv beta. erewrite mach_bind_done by (unfold on_heap; rewrite E; reflexivity). reflexivity.
Qed.

(** C33. No transaction of the Move back end publishes or removes a resource.  Whatever code runs,
    the resources of the state, a map of pointers, are those it started with.  Each of the
    four instructions on global storage panics on a resource the state does not have.  On one
    it has, loaded before or not: a borrow succeeds if the stack has room, and hands out the
    very fields of the state (whose contents a transaction may change: C32); an existence test
    answers yes; publishing never succeeds; and taking the resource out is always refused as a
    violation of an invariant, since the state still holds a pointer to it. *)
Theorem storage_is_frozen m a ty :
  (∀ steps resolver code, resources (m_state (snd (execute_code steps resolver code m))) = resources (m_state m)) ∧
  (resource (m_state m) a ty = None → ∀ v,
    fst (do_borrow_global a ty m) = Panics ∧ fst (do_exists a ty m) = Panics ∧ fst (do_move_from a ty m) = Panics ∧ fst (do_move_to a ty v m) = Panics) ∧
  (∀ v, fst (do_move_to a ty v m) ≠ Done tt) ∧
  (∀ f, held m a ty f →
    fst (do_move_from a ty m) = Err UNKNOWN_INVARIANT_VIOLATION_ERROR ∧
    ((length (operand_stack m) < OPERAND_STACK_SIZE_LIMIT)%nat →
      (∃ st m', do_borrow_global a ty m = (Done tt, m') ∧ operand_stack m' = VContainerRef (Global st (Struct f)) :: operand_stack m) ∧
      (∃ m', do_exists a ty m = (Done tt, m') ∧ operand_stack m' = of_bool true :: operand_stack m))).
Proof.
  split_and!.
  - intros. apply fixes_code.
  - intros E%loading_absent v. by split_and!; apply mach_bind_fst.
  - intros v. unfold do_move_to, mbind, mach_bind. destruct (loading a ty m) as [[g|e|] m1] eqn:E; try done.
    apply loading_cached in E as (f & st & ->). done.
  - intros f Hh. destruct (loading_held m a ty f Hh) as (st & h & n & vs & Hne & Hf & Hst & E). split; [|intros Hlen; split].
    + unfold do_move_from. mach_run E. unfold move_from, on_heap, mbind, mach_bind, vm_bind, drop_all, strong_count. cbn -[drop_handles].
      rewrite (drop_last _ _ _ Hst), lookup_delete_ne, Hf by done. done.
    + exists st. eexists. unfold do_borrow_global. mach_run E. cbn [borrow_global].
      erewrite mach_bind_done by (unfold on_heap; cbn [m_heap m_state operand_stack m_pc m_locals];
        erewrite vm_bind_done by (by apply rc_clone_run); cbv beta;
        erewrite vm_bind_done by (apply rc_clone_run; by rewrite lookup_insert_ne); reflexivity).
      unfold push. erewrite mach_bind_done by reflexivity. cbn [operand_stack]. rewrite (proj2 (Nat.ltb_lt _ _) Hlen). by split.
    + eexists. unfold do_exists. mach_run E. unfold push. erewrite mach_bind_done by reflexivity. cbn [operand_stack].
      rewrite (proj2 (Nat.ltb_lt _ _) Hlen). by split.
Qed.

(** ** States that share their resources *)

Lemma clone_handles_run ls h :
  (∀ l, l ∈ ls → is_Some (h !! l)) →
  ∃ h', clone_handles ls h = (Done tt, h') ∧ ∀ l n c, h !! l = Some (n, c) → ∃ n', h' !! l = Some (n', c) ∧ (n <= n')%nat.
Proof.
  revert h. induction ls as [|l ls IH]; intros h Hls; [exists h; split; [done|eauto]|].
  destruct (Hls l) as [[n c] El]; [set_solver|]. destruct (IH (<[l := (S n, c)]> h)) as (h' & E & Hh).
  { intros k Hk. rewrite lookup_insert_is_Some. destruct (decide (l = k)); [by left|right; split; [done|apply Hls; set_solver]]. }
  exists h'. split; [cbn [clone_handles]; by vm_run (rc_clone_run _ _ _ _ El)|]. intros k m d Hk.
  destruct (decide (l = k)) as [->|Hne].
  - assert (m = n ∧ d = c) as [-> ->] by (by rewrite Hk in El; injection El). destruct (Hh k (S n) c) as (n' & ? & ?); [apply lookup_insert_eq|].
    exists n'. split; [done|lia].
  - apply Hh. by rewrite lookup_insert_ne.
Qed.
Lemma state_clone_run s h :
  _gv_slot s = ∅ → (∀ l, l ∈ concat (map handles (all_resources s)) → is_Some (h !! l)) →
  ∃ h', state_clone s h = (Done s, h') ∧ ∀ l n c, h !! l = Some (n, c) → ∃ n', h' !! l = Some (n', c) ∧ (n <= n')%nat.
Proof.
  intros Hs Hl. destruct (clone_handles_run _ h Hl) as (h' & E & Hh). exists h'. split; [|done].
  unfold state_clone. rewrite decide_True by done. vm_run E. destruct s; cbn in *. by subst.
Qed.

(** A mutable borrow of a resource, as [MutBorrowGlobal] leaves it on the stack *)
Lemma borrow_global_run m a ty f n c :
  resource (m_state m) a ty = Some (VContainer (Struct f)) → m_heap m !! f = Some (n, c) → _gv_slot (m_state m) !! (a, ty) = None →
  (length (operand_stack m) < OPERAND_STACK_SIZE_LIMIT)%nat →
  ∃ st h', f ≠ st ∧ h' !! f = Some (S (S n), c) ∧ h' !! st = Some (2%nat, CStatus Clean) ∧
    do_borrow_global a ty m = (Done tt, mkMachine h' (mkMoveVMState (resources (m_state m)) (<[(a, ty) := GCached f st]> (_gv_slot (m_state m))))
      (VContainerRef (Global st (Struct f)) :: operand_stack m) (m_pc m) (m_locals m)).
Proof.
  intros Hr Hf Hs Hlen. destruct (loading_run m a ty f n c Hr Hf Hs) as (st & _ & Hne & E).
  exists st. eexists. split; [done|]. split; [|split; [apply lookup_insert_eq|]]; cycle 1.
  - unfold do_borrow_global. mach_run E. cbn [borrow_global].
    erewrite mach_bind_done by (unfold on_heap; cbn [m_heap m_state operand_stack m_pc m_locals];
      erewrite vm_bind_done by (apply rc_clone_run; rewrite lookup_insert_ne by done; apply lookup_insert_eq); cbv beta;
      erewrite vm_bind_done by (apply rc_clone_run; rewrite lookup_insert_ne by done; apply lookup_insert_eq); reflexivity).
    unfold push. erewrite mach_bind_done by reflexivity. cbn [operand_stack]. rewrite (proj2 (Nat.ltb_lt _ _) Hlen). reflexivity.
  - rewrite lookup_insert_ne by done. apply lookup_insert_eq.
Qed.

(** A field of it that holds a primitive value, as [MutBorrowField] leaves it *)
Lemma borrow_field_run st f i p n vs k h :
  f ≠ st → h !! f = Some (S n, CVals vs) → h !! st = Some (S k, CStatus Clean) → vs !! i = Some (Prim p) →
  ∃ h', h' !! f = Some (S n, CVals vs) ∧ h' !! st = Some (S k, CStatus Clean) ∧
    finally (borrow_field (Global st (Struct f)) i) [st; f] h = (Done (VIndexedRef (mkIndexedRef i (Global st (Struct f)))), h').
Proof.
  intros Hne Hf Hst Hi. eexists. split; [|split]; cycle 2.
  - unfold finally, borrow_field, borrow_elem. cbn [container].
    vm_run (get_vals_run _ _ _ _ Hf). rewrite Hi. unfold ref_copy_value, copy_by_ref. cbn [rc_of].
    erewrite vm_bind_done by (erewrite vm_bind_done by (by apply rc_clone_run); cbv beta;
      erewrite vm_bind_done by (erewrite vm_bind_done by (apply rc_clone_run; by rewrite lookup_insert_ne); reflexivity); reflexivity).
    cbv beta. cbn [mret vm_ret]. unfold mret, vm_ret. rewrite (drop_handles_app [st] [f]).
    erewrite (drop_shared st) by (rewrite lookup_insert_ne by done; apply lookup_insert_eq).
    erewrite (drop_shared f) by (rewrite lookup_insert_ne by done; apply lookup_insert_eq). reflexivity.
  - apply lookup_insert_eq.
  - rewrite lookup_insert_ne by done. apply lookup_insert_eq.
Qed.

(** A write through it *)
Lemma write_field_run st f i p q n vs k h :
  f ≠ st → h !! f = Some (S (S n), CVals vs) → h !! st = Some (S (S k), CStatus Clean) → vs !! i = Some (Prim p) →
  ∃ h', h' !! f = Some (S n, CVals (<[i := Prim q]> vs)) ∧ h' !! st = Some (S k, CStatus Dirty) ∧
    write_ref (RIndexed (mkIndexedRef i (Global st (Struct f)))) (Prim q) h = (Done tt, h').
Proof.
  intros Hne Hf Hst Hi. eexists. split; [|split]; cycle 2.
  - unfold write_ref, finally, indexed_write. cbn [container ir_ref ir_idx ref_handles rc_of mark_dirty].
    erewrite vm_bind_done by (vm_run (get_vals_run _ _ _ _ Hf); rewrite Hi; erewrite vm_bind_done by reflexivity; cbv beta;
      erewrite vm_bind_done by (apply (rc_set_run _ _ _ _ _ Hf)); reflexivity). cbv beta.
    match goal with |- context [drop_handles (handles (Prim p)) ?x] => change (drop_handles (handles (Prim p)) x) with x end.
    erewrite (rc_set_run st _ _ _ (CStatus Clean)) by (rewrite lookup_insert_ne by done; apply Hst). rewrite (drop_handles_app [st] [f]).
    erewrite (drop_shared st) by (apply lookup_insert_eq).
    erewrite (drop_shared f) by (rewrite !lookup_insert_ne by done; apply lookup_insert_eq). reflexivity.
  - apply lookup_insert_eq.
  - rewrite lookup_insert_ne by done. apply lookup_insert_eq.
Qed.

(** One instruction of a frame *)
Lemma execute_code_next steps resolver code m i m' :
  code !! m_pc m = Some i → execute_instruction (S (size (m_heap m))) resolver i m = (Done Next, m') →
  execute_code (S steps) resolver code m =
  execute_code steps resolver code (mkMachine (m_heap m') (m_state m') (operand_stack m') (S (m_pc m)) (m_locals m')).
Proof.
  intros Hi E. cbn [execute_code]. erewrite mach_bind_done by reflexivity. cbv beta. rewrite Hi.
  erewrite mach_bind_done by reflexivity. cbv beta. mach_run E. reflexivity.
Qed.

(** A state with slots cannot be cloned, so nothing runs on it. *)
Lemma dirty_state_panics s steps vm input h : _gv_slot s ≠ ∅ →
  fst (state_clone s h) = Panics ∧ fst <$> execute steps vm (set_staged_state input s 0) h = Some Panics.
Proof.
  intros Hs. assert (∀ h, state_clone s h = (Panics, h)) as Hc by (intros h'; unfold state_clone; by rewrite decide_False).
  split; [by rewrite Hc|]. unfold execute, prepare. cbn [vm_state set_staged_state module function args]. unfold mbind, vm_bind.
  destruct (try_get _ h) as [[r|e|] h1]; [|done..]. destruct (try_get _ h1) as [[fn|e|] h2]; [|done..].
  destruct (locals_new _ h2) as [[l|e|] h3]; [|done..]. destruct (store_args _ _ _ h3) as [[u|e|] h4]; [|done..]. by rewrite Hc.
Qed.

(** C32. The Move back end does not isolate the states of a campaign.  Let a stored state hold a
    struct with a primitive field.  A transaction that runs on a clone of the state, takes a
    mutable reference to the struct, and writes another value to the field returns normally,
    and the struct of the stored state then has the new value, since a clone of the state
    shares the cells of its resources; and the state the transaction leaves can never be cloned
    again, so that every later transaction on it panics. *)
Theorem snapshot_is_overwritten s h a ty f n vs i p q resolver g k locals :
  _gv_slot s = ∅ → (∀ l, l ∈ concat (map handles (all_resources s)) → is_Some (h !! l)) →
  resource s a ty = Some (VContainer (Struct f)) → h !! f = Some (S n, CVals vs) → vs !! i = Some (Prim p) →
  get_struct_type resolver g = Some ty → field_offset resolver k = Some i →
  ∃ h1 m', state_clone s h = (Done s, h1) ∧
    execute_code 4 resolver [MutBorrowGlobal g; MutBorrowField k; WriteRef; Ret] (mkMachine h1 s [Prim (Address a); Prim q] 0 locals) =
      (Done (Some ExitReturn), m') ∧
    get_vals f (m_heap m') = (Done (<[i := Prim q]> vs), m_heap m') ∧
    ∀ steps vm input h2, fst (state_clone (m_state m') h2) = Panics ∧ fst <$> execute steps vm (set_staged_state input (m_state m') 0) h2 = Some Panics.
Proof.
  intros Hslot Hlive Hr Hf Hi Hg Hk. destruct (state_clone_run s h Hslot Hlive) as (h1 & Ec & Hh1).
  destruct (Hh1 f (S n) _ Hf) as (n1 & Hf1 & Hn1). destruct n1 as [|n1]; [lia|].
  destruct (borrow_global_run (mkMachine h1 s [Prim q] 0 locals) a ty f (S n1) (CVals vs)) as (st & h2 & Hne & Hf2 & Hst2 & Eb);
    [done|done|by cbn; rewrite Hslot|cbn; unfold OPERAND_STACK_SIZE_LIMIT; lia|].
  destruct (borrow_field_run st f i p _ vs _ h2 Hne Hf2 Hst2 Hi) as (h3 & Hf3 & Hst3 & Ef).
  assert (finally (offset ← try_get (Some i); borrow_field (Global st (Struct f)) offset) [st; f] h2 =
    (Done (VIndexedRef (mkIndexedRef i (Global st (Struct f)))), h3)) as Ef' by exact Ef.
  destruct (write_field_run st f i p q _ vs _ h3 Hne Hf3 Hst3 Hi) as (h4 & Hf4 & Hst4 & Ew).
  exists h1, (mkMachine h4 (mkMoveVMState (resources s) (<[(a, ty) := GCached f st]> (_gv_slot s))) [] 3 locals). split; [done|].
  split; [|split; [|intros; apply dirty_state_panics, insert_non_empty]].
  - erewrite execute_code_next; [|reflexivity|]; cycle 1.
    { cbn [execute_instruction]. unfold next, on_global. rewrite Hg.
      erewrite mach_bind_done by (erewrite mach_bind_done by reflexivity; cbv beta; erewrite mach_bind_done by reflexivity; exact Eb). reflexivity. }
    cbn [m_heap m_state operand_stack m_locals m_pc]. erewrite execute_code_next; [|reflexivity|]; cycle 1.
    { cbn [execute_instruction]. unfold next, borrow_field_at. rewrite Hk.
      erewrite mach_bind_done by (erewrite mach_bind_done by reflexivity; cbv beta; cbn [ref_handles rc_of];
        erewrite mach_bind_done by (unfold on_heap; cbn [m_heap]; rewrite Ef'; reflexivity); reflexivity).
      reflexivity. }
    cbn [m_heap m_state operand_stack m_locals m_pc]. erewrite execute_code_next; [|reflexivity|]; cycle 1.
    { cbn [execute_instruction]. unfold next.
      erewrite mach_bind_done by (erewrite mach_bind_done by reflexivity; cbv beta; erewrite mach_bind_done by reflexivity; cbv beta;
        unfold on_heap; cbn [m_heap]; rewrite Ew; reflexivity). reflexivity. }
    reflexivity.
  - cbn [m_heap]. by eapply get_vals_run.
Qed.

(** ** Concrete states *)

(** A struct with a vector of structs *)
Definition toy_heap : heap :=
  {[ 1%positive := (1%nat, CVals [Prim (U64 7); VContainer (Vec 2%positive)]); 2%positive := (1%nat, CVals [VContainer (Struct 3%positive)]);
     3%positive := (1%nat, CVals [Prim (Bool true)]) ]}.
Definition toy_tree : tree := TStruct [TPrim (U64 7); TVec [TStruct [TPrim (Bool true)]]].
Definition toy_cells : gset rc := {[1%positive]} ∪ (∅ ∪ (({[2%positive]} ∪ (({[3%positive]} ∪ (∅ ∪ ∅)) ∪ ∅)) ∪ ∅)).
Lemma toy_tree_reads : reads toy_heap (VContainer (Struct 1%positive)) toy_tree toy_cells.
Proof. repeat (econstructor; try (vm_compute; reflexivity); try set_solver). Qed.

Lemma copy_is_deep_witness :
  ∃ v' h' F', copy_value 4 (VContainer (Struct 1%positive)) toy_heap = (Done v', h') ∧ reads h' v' toy_tree F' ∧ F' ## dom toy_heap.
Proof.
  destruct (copy_is_deep toy_heap (VContainer (Struct 1%positive)) toy_tree toy_cells 4 toy_tree_reads) as (v' & h' & F' & E & _ & Hr & Hd & _).
  - vm_compute. repeat constructor.
  - reflexivity.
  - exists v', h', F'. split_and!; [exact E|exact Hr|exact Hd].
Defined.

Lemma move_integers_exact_witness :
  add_checked (mkInt TU8 200) (mkInt TU8 100) = inr ARITHMETIC_ERROR ∧ ranged (mul_checked (mkInt TU8 200) (mkInt TU8 100)).
Proof.
  destruct (move_integers_exact TU8 200 100 8 3) as [(Ha & Hs & Hm & _) (Eadd & _)]; [reflexivity|lia|lia|lia|].
  split; [rewrite Eadd; reflexivity|exact Hm].
Defined.

Definition toy_resolver : Resolver :=
  mkResolver (λ _, Some 0%nat) (λ _, None) (λ _, Some 1%nat) (λ _, None) (λ _, Some (TyStruct 0)) (λ _, panic) (λ _, panic) (λ _, panic).
Definition toy_move_state : MoveVMState := mkMoveVMState {[ 9 := {[ TyStruct 0 := VContainer (Struct 1%positive) ]} ]} ∅.
Definition toy_move_heap : heap := {[ 1%positive := (1%nat, CVals [Prim (U64 7)]) ]}.
Lemma toy_live l : l ∈ concat (map handles (all_resources toy_move_state)) → is_Some (toy_move_heap !! l).
Proof. intros Hl. vm_compute in Hl. assert (l = 1%positive) as -> by set_solver. eexists. reflexivity. Qed.

Lemma snapshot_is_overwritten_witness :
  ∃ h1 m', state_clone toy_move_state toy_move_heap = (Done toy_move_state, h1) ∧
    execute_code 4 toy_resolver [MutBorrowGlobal 0; MutBorrowField 0; WriteRef; Ret]
      (mkMachine h1 toy_move_state [Prim (Address 9); Prim (U64 8)] 0 5%positive) = (Done (Some ExitReturn), m') ∧
    get_vals 1%positive (m_heap m') = (Done [Prim (U64 8)], m_heap m').
Proof.
  destruct (snapshot_is_overwritten toy_move_state toy_move_heap 9 (TyStruct 0) 1%positive 0 [Prim (U64 7)] 0 (U64 7) (U64 8) toy_resolver 0 0 5%positive)
    as (h1 & m' & Ec & Ex & Ev & _); [reflexivity|exact toy_live|reflexivity|reflexivity|reflexivity|reflexivity|reflexivity|].
  exists h1, m'. split_and!; [exact Ec|exact Ex|exact Ev].
Defined.

(** ** Deployed modules *)

(** A module whose first handle is a function it calls, and whose second is its own *)
Definition toy_module : CompiledModule :=
  mkCompiledModule (3, []) [["a"%char]; ["b"%char]] [mkFunctionDefinition 1 [Ret] 0] (Some toy_resolver).
(** Deployed functions are found by the wrong name: the definition of [b] is stored as [a]. *)
Lemma deploy_misnames_functions :
  (λ d, map (λ x, (fst x, f_name (snd x))) (map_to_list (default ∅ (functions (snd d) !! (3, []))))) <$> deploy MoveVM_new toy_module =
  Some [(["a"%char], ["b"%char])].
Proof. vm_compute. reflexivity. Qed.
(** Deploying a module a second time panics. *)
Lemma deploy_twice_panics : (d ← deploy MoveVM_new toy_module; deploy (snd d) toy_module) = None.
Proof. vm_compute. reflexivity. Qed.

(** The function [data * 2] of the tests runs on an argument. *)
Definition toy_double : MoveVM :=
  mkMoveVM {[ (3, []) := toy_resolver ]} (mkModuleCache ∅ [])
    {[ (3, []) := {[ [] := mkFunction [] [MoveLoc 0; LdU64 2; Mul; Ret] 1 ]} ]}.
Lemma double_runs :
  (λ r, match fst r with Done x => Some (reverted x) | _ => None end) <$>
    execute 10 toy_double (mkMoveFunctionInput (3, []) [] [Prim (U64 20)] 1 MoveVMState_new 0) ∅ = Some (Some false) ∧
  (λ r, operand_stack (snd r)) (execute_code 4 toy_resolver [MoveLoc 0; LdU64 2; Mul; Ret]
    (mkMachine {[ 1%positive := (1%nat, CVals [Prim (U64 20)]) ]} MoveVMState_new [] 0 1%positive)) = [Prim (U64 40)].
Proof. split; vm_compute; reflexivity. Qed.
